(* ===== verification/_CoqProject ===== *)
-Q . S2P
Prelude.v
Bits.v
Lists.v
Heap.v
Dhcpopts.v
Strings.v
Vsprintf.v
Uri.v
Tcpip.v
Retry.v
Tcp.v
TcpStream.v
TcpRecv.v
Bigint.v
Aes.v
AesTables.v
AesCorrect.v
Cbc.v
Digest.v
DigestCorrect.v
DigestStandard.v
Hmac.v
Sha1extra.v
HashDf.v
Entropy.v
Drbg.v
Calendar.v
Asn1.v
Copies.v
Asn1Correct.v
Asn1Values.v
Rsa.v
RsaCorrect.v
RsaKeys.v
