(* ===== verification/Prelude.v ===== *)
(** * Verification of the iPXE core

    A shallow embedding, in Rocq, of parts of the iPXE network boot firmware
    that NSBoot bundles under [src/ipxe/src] (paths below are relative to that
    directory), with the theorems that make these parts correct.

    ** The program and its parts

    iPXE is a C program that loads an operating system over the network.  The
    parts modelled here, from the bottom up:

    - the foundations: linked lists, the heap, C strings, formatted output;
    - the data the program exchanges: DHCP option blocks and packets, URIs and
      form parameters, TCP/IP checksums and TCP segments;
    - the transport: retry timers and one TCP connection;
    - cryptography: big integers, AES and its modes, nine message digests, HMAC,
      key derivation, entropy gathering and the random bit generator;
    - public keys: dates, the ASN.1 encodings of keys and certificates, and RSA.

    They meet in the model where they meet in the code: DHCP option blocks grow
    through an allocator interface, URIs are formatted through the model of
    [ssnprintf], TCP uses the retry timers and the checksum, CBC runs
    over a block cipher interface that AES implements, HMAC over a digest
    interface that the nine digests implement, Hash_df, PBKDF2 and HMAC_DRBG over
    HMAC or the digests, and the random bit generator over all of these and the
    entropy source.  ASN.1 times go through [mktime]; RSA parses its keys with the
    ASN.1 readers, computes with the big integers and takes the padding of a
    ciphertext from the random bit generator.

    ** Conventions

    This file holds what the others share.  A [w]-bit unsigned integer is a [Z] in
    [[0, 2^w)], with the wrap-around written out by [wrap]; bytes are [Z] below
    256 and memory objects are lists of bytes.  A function that can fail returns a
    [res]: [Ok], [Err] with an error number, or [Trap] for a step that C leaves
    undefined (an access outside an object, a shift beyond the width, a failed
    assertion, a loop out of fuel).  Only the handlers of TCP go on after a failed
    assertion, as the code does, and count it.  Theorems say [Ok] or [Err], so each also says that the code stays
    inside its objects.  [size_t] and [long] have 32 or 64 bits, a parameter where
    it matters; byte order is that of the little-endian builds.  The contents
    of uninitialised memory are arbitrary parameters.  Code outside the tree, or
    chosen at link time, is a parameter with its documented behaviour as a class
    or as hypotheses: [Platform], [CacheOwner], [Reallocator], [TcpEnv],
    [BlockCipher], [IsDigest], [EntropySource], [Allocator].

    ** Files

    - [Prelude], [Bits]: integers, results, byte ranges, rotations
      ([include/ipxe/rotate.h]), the hint database [ipxe] and the tactics.
    - [Lists] ([include/ipxe/list.h], [core/list.c]): circular doubly-linked
      lists over a finite map of heads, with every check of [list_check].
      Each operation and iteration macro is related to plain lists; the safe
      iterator also with bodies that unlink and free the entry they visit.
    - [Heap] ([core/malloc.c]): free list, first-fit search with alignment,
      coalescing, cache discard, [realloc].  Allocation is safe (a block inside
      one free block, disjoint from the rest, the invariant kept), complete (it
      fails only when no block fits and there is nothing left to discard), freeing
      restores the invariant, and reallocation moves contents; the bytes of every
      other block are kept.
    - [Dhcpopts] ([net/dhcpopts.c], [net/dhcppkt.c]): search, creation,
      resizing and deletion of options in raw blocks, plain and encapsulated;
      related to lists of options, with the exact conditions under which a search
      stays inside the block, and what is left when the reallocator refuses to
      shrink a block.
    - [Strings], [Vsprintf] ([core/string.c], [core/ctype.c],
      [core/basename.c], [core/vsprintf.c], [core/asprintf.c]): the string
      functions the others use, the interpreter of format strings, and bounded
      buffers that never overflow and are always terminated; the length returned is
      an [int].
    - [Uri] ([core/uri.c], [core/params.c]): parsing in place refines a
      specification on string values, formatting and parsing round trip,
      formatting is bounded, paths are resolved as RFC 3986 removes dots.
    - [Tcpip] ([net/tcpip.c], [arch/x86/core/x86_tcpip.c]): the checksum, its
      x86 assembly equal to it, and the choice of ephemeral ports.
    - [Retry] ([net/retry.c]): timers, their estimates and back-off; polling
      keeps the list of running timers consistent, and an unanswered timer gives
      up after a bounded time.
    - [Tcp], [TcpStream], [TcpRecv] ([net/tcp.c], [include/ipxe/tcp.h],
      [core/pending.c]): one connection as a state and a handler per event, with
      packets as bytes.  Parsing is safe and inverts building; over every
      sequence of events and every environment the state machine keeps its
      invariants (and its assertions hold, but for one in a state that [tcp.h] does
      not name), what is sent is the stream the application supplied, what is
      delivered is a prefix of the peer's stream, and in-order data makes progress.
    - [Bigint] ([crypto/bigint.c], [arch/x86/include/bits/bigint.h],
      [arch/x86/core/x86_bigint.c]): the primitive loops instruction by
      instruction; modular multiplication and exponentiation are correct.
    - [Aes], [AesTables], [AesCorrect] ([crypto/aes.c]): the generated tables,
      key expansion and rounds compute FIPS 197, and decryption inverts
      encryption.
    - [Cbc] ([crypto/cbc.c], [crypto/ecb.c]): the modes over any block cipher, in
      place or not.
    - [Digest], [DigestCorrect], [DigestStandard] ([crypto/md4.c], [md5.c],
      [sha1.c], [sha224.c], [sha256.c], [sha384.c], [sha512.c],
      [sha512_224.c], [sha512_256.c]): MD4, MD5, SHA-1 and SHA-2 for messages in
      any pieces against RFC 1320, RFC 1321 and FIPS 180-4, with the SHA-2
      constants computed from roots of primes and those of MD5 from sines; contexts keep their type from
      any history.
    - [Hmac], [Sha1extra] ([crypto/hmac.c], [crypto/sha1extra.c]): RFC 2104 with
      overlapping buffers, the 802.11 function and RFC 2898.
    - [HashDf], [Entropy] ([crypto/hash_df.c], [crypto/entropy.c],
      [include/ipxe/entropy.h]): the health tests accept exactly the sequences
      their cutoffs allow; entropy input is computed from the samples as
      documented, except that the number of samples is rounded down.
    - [Drbg] ([crypto/hmac_drbg.c], [crypto/drbg.c], [crypto/rbg.c]): the random
      bits are those of HMAC_DRBG (NIST SP 800-90A) seeded with that input.
    - [Copies] ([core/string.c], [arch/x86/core/x86_string.c],
      [arch/x86/include/bits/string.h]): copies and fills as generic loops and as
      x86 string instructions, equal for every overlap the interface allows; the
      string functions that write.
    - [Calendar] ([core/time.c]): [mktime] agrees with counting days in the
      Gregorian calendar from 1900 on.
    - [Asn1], [Asn1Correct], [Asn1Values] ([crypto/asn1.c],
      [include/ipxe/asn1.h]): cursors over an object and the builder.  Readers stay
      inside the object whatever its bytes, except a bit string with more than eight
      unused bits and a time with a month that does not exist; what the builder makes is read back;
      integers and times have the values of their encodings, and the theorems show
      where the checks of the code let other values through.
    - [Rsa], [RsaCorrect], [RsaKeys] ([crypto/rsa.c], [crypto/random_nz.c],
      [crypto/mishmash/rsa_*.c]): the exponents of a key pair are inverse (by
      Fermat's little theorem, for two or more prime factors); with contexts made
      from encoded keys, signatures verify, verification is exact, and decryption
      inverts encryption; moduli of less than eleven bytes overrun the buffers.

    ** Fuel

    Recursion that is not structural carries fuel.  In most loops running out of
    it is a [Trap] (or [Stuck]), so that a theorem with an [Ok] shows the fuel
    given by the definitions to be enough.  It is the length of the buffer that
    the loop consumes or fills (option blocks, packets, URIs, cipher modes,
    derivation), the number of list heads (lists), of exponent bits ([Bigint]),
    a block of padding (digests), or two for the jump back of [drbg_generate].
    The allocator takes its fuel as an argument, [None] meaning that it ran out;
    its theorems ask for more than the number of cached items and conclude that
    it returns.  So does the loop for non-zero random bytes, whose theorem asks for
    as much as the requests after which the generator has given enough of them.
    The receive queue of TCP ([rx_loop]) and the digits of a number
    ([hex_digits], [dec_digits]) have as much as the queue and the widest type
    need, and stop where the code stops.

    ** Not modelled

    Debug output, profiling and Valgrind annotations have no counterpart.
    Reference counting and the object interfaces ([core/interface.c],
    [core/xfer.c]) dispatch through function tables chosen at link time; their
    users take the operations as parameters.  The network layers below TCP, the
    application protocols, TLS and certificates, compression,
    settings, images, consoles and the user interface are not modelled; nor are
    device drivers, firmware interfaces and start-up code, whose behaviour is that
    of hardware or of programs outside the tree.  Of the parts above, the
    dispatch of [net/tcpip.c], the shut-down hook and URI opener of [net/tcp.c],
    the clock behind [time], [image_asn1], which calls through the type of an
    image, and the versions of primitives for processors other than x86 are left
    out. *)

From Stdlib Require Import ZArith Lia Bool ZifyBool.
From stdpp Require Import base numbers list strings.

Global Set Default Proof Using "Type".
Declare Scope ipxe_scope.
Delimit Scope ipxe_scope with ipxe.
Local Open Scope Z_scope.

(** ** Machine integers

    A [w]-bit unsigned C integer is a [Z] in [[0, 2^w)].  Arithmetic is done
    in [Z] and brought back by [wrap]; conversion to the signed type of the
    same width is [to_signed]. *)

Definition wrap (w z : Z) : Z := z mod 2 ^ w.

Definition to_signed (w z : Z) : Z :=
  if wrap w z <? 2 ^ (w - 1) then wrap w z else wrap w z - 2 ^ w.

Definition in_range (w z : Z) : Prop := 0 <= z < 2 ^ w.

Abbreviation u8 := (wrap 8).
Abbreviation u16 := (wrap 16).
Abbreviation u32 := (wrap 32).
Abbreviation is_byte := (in_range 8).
Abbreviation bytes := (list Z).

#[global] Instance in_range_dec w z : Decision (in_range w z).
Proof. unfold in_range; solve_decision. Defined.

Create HintDb ipxe discriminated.

Lemma pow2_pos w : 0 <= w -> 0 < 2 ^ w.
Proof. intros; apply Z.pow_pos_nonneg; lia. Qed.

Lemma wrap_range w z : 0 <= w -> in_range w (wrap w z).
Proof. intros; apply Z.mod_pos_bound, pow2_pos; lia. Qed.

Lemma wrap_small w z : in_range w z -> wrap w z = z.
Proof. intros; apply Z.mod_small; assumption. Qed.

Lemma wrap_idemp w z : wrap w (wrap w z) = wrap w z.
Proof. unfold wrap; apply Zmod_mod. Qed.

Lemma wrap_add_idemp_l w a b : wrap w (wrap w a + b) = wrap w (a + b).
Proof. unfold wrap; apply Zplus_mod_idemp_l. Qed.

Lemma wrap_add_idemp_r w a b : wrap w (a + wrap w b) = wrap w (a + b).
Proof. unfold wrap; apply Zplus_mod_idemp_r. Qed.

Lemma wrap_sub_idemp_l w a b : wrap w (wrap w a - b) = wrap w (a - b).
Proof. unfold wrap; apply Zminus_mod_idemp_l. Qed.

Lemma wrap_sub_idemp_r w a b : wrap w (a - wrap w b) = wrap w (a - b).
Proof. unfold wrap; apply Zminus_mod_idemp_r. Qed.

#[export] Hint Resolve wrap_range : ipxe.
Create Rewrite HintDb wrap.
#[export] Hint Rewrite wrap_idemp wrap_add_idemp_l wrap_add_idemp_r
  wrap_sub_idemp_l wrap_sub_idemp_r : wrap.

(** [wrap_simpl] removes nested reductions; [wrap_lia] unfolds machine
    arithmetic of a constant width into facts [lia] can use. *)
Ltac wrap_simpl := autorewrite with wrap in *.

Ltac pow2_consts :=
  repeat match goal with
  | |- context [2 ^ ?k] =>
      let r := eval vm_compute in (2 ^ k) in
      lazymatch r with Z.pos _ => change (2 ^ k) with r end
  | H : context [2 ^ ?k] |- _ =>
      let r := eval vm_compute in (2 ^ k) in
      lazymatch r with Z.pos _ => change (2 ^ k) with r in H end
  end.

Ltac wrap_lia :=
  unfold to_signed, wrap, in_range in *; pow2_consts;
  repeat match goal with
  | |- context [if ?b then _ else _] => destruct b eqn:?
  | H : context [if ?b then _ else _] |- _ => destruct b eqn:?
  end;
  Z.div_mod_to_equations; lia.

(** Case analysis on the innermost conditionals and matches of the goal. *)
Ltac case_if :=
  match goal with
  | |- context [if ?b then _ else _] => destruct b eqn:?
  | H : context [if ?b then _ else _] |- _ => destruct b eqn:?
  end.

(** ** Bit masks *)

Lemma land_mask x k : 0 <= k -> Z.land x (2 ^ k - 1) = x mod 2 ^ k.
Proof.
  intros. rewrite <- Z.land_ones by lia. f_equal. rewrite Z.ones_equiv. lia.
Qed.

Lemma land_not_mask x k :
  0 <= k -> Z.land x (Z.lnot (2 ^ k - 1)) = x - x mod 2 ^ k.
Proof.
  intros. replace (2 ^ k - 1) with (Z.ones k) by (rewrite Z.ones_equiv; lia).
  rewrite <- Z.ldiff_land, Z.ldiff_ones_r, Z.shiftl_mul_pow2, Z.shiftr_div_pow2 by lia.
  pose proof (Z.div_mod x (2 ^ k)). pose proof (pow2_pos k). lia.
Qed.

Lemma lor_masks j k :
  0 <= j -> 0 <= k -> Z.lor (2 ^ j - 1) (2 ^ k - 1) = 2 ^ (Z.max j k) - 1.
Proof.
  intros. replace (2 ^ j - 1) with (Z.ones j) by (rewrite Z.ones_equiv; lia).
  replace (2 ^ k - 1) with (Z.ones k) by (rewrite Z.ones_equiv; lia).
  replace (2 ^ Z.max j k - 1) with (Z.ones (Z.max j k)) by (rewrite Z.ones_equiv; lia).
  apply Z.bits_inj'; intros n Hn.
  rewrite Z.lor_spec, !Z.testbit_ones_nonneg by lia. lia.
Qed.

Lemma mod_pow2_le x j k :
  0 <= j <= k -> (x mod 2 ^ k) mod 2 ^ j = x mod 2 ^ j.
Proof.
  intros. apply Z.mod_mod_divide.
  exists (2 ^ (k - j)). rewrite <- Z.pow_add_r by lia. f_equal; lia.
Qed.

(** ** Results of fallible code

    iPXE functions return a non-negative value or a negated [errno]; an access
    outside an object is undefined behaviour, which the model makes visible as
    [Trap]. *)

Inductive errno :=
| EACCES_VERIFY | EADDRINUSE | ECANCELED | ECONNRESET | EINVAL | ENETUNREACH | ENOBUFS
| ENOENT | ENOMEM | ENOSPC | ENOTCONN | ENOTSUP | ENOTTY | ENXIO | ERANGE | ESTALE | ETIMEDOUT
| EINVAL_ASN1_EMPTY | EINVAL_ASN1_LEN_LEN | EINVAL_ASN1_LEN | EINVAL_ASN1_BOOLEAN | EINVAL_ASN1_INTEGER
| EINVAL_ASN1_TIME | EINVAL_ASN1_ALGORITHM | EINVAL_BIT_STRING | ENOTSUP_ALGORITHM | ENOTTY_ALGORITHM
| EPIPE_REPETITION_COUNT_TEST | EPIPE_ADAPTIVE_PROPORTION_TEST.

#[global] Instance errno_eq_dec : EqDecision errno.
Proof. solve_decision. Defined.

Inductive res (A : Type) :=
| Ok (a : A)
| Err (e : errno)
| Trap.
Arguments Ok {A} a.
Arguments Err {A} e.
Arguments Trap {A}.

#[global] Instance res_ret : MRet res := fun A a => Ok a.
#[global] Instance res_bind : MBind res := fun A B f m =>
  match m with Ok a => f a | Err e => Err e | Trap => Trap end.
#[global] Instance res_fmap : FMap res := fun A B f m =>
  match m with Ok a => Ok (f a) | Err e => Err e | Trap => Trap end.
#[global] Instance res_eq_dec {A} `{EqDecision A} : EqDecision (res A).
Proof. solve_decision. Defined.

Lemma bind_ok {A B} (a : A) (f : A -> res B) : (Ok a ≫= f) = f a.
Proof. done. Qed.

(** Run a bind whose first computation is known; by rewriting, which stays cheap
    for long chains of binds. *)
Tactic Notation "step" uconstr(E) := rewrite E, bind_ok; cbn beta iota.

Definition of_option {A} (o : option A) : res A :=
  match o with Some a => Ok a | None => Trap end.

(** ** Byte strings *)

Definition bytes_of_string (s : string) : bytes :=
  (fun c => Z.of_N (Ascii.N_of_ascii c)) <$> String.list_ascii_of_string s.

(** A character literal is written [ch "x"]. *)
Definition ch (s : string) : Z := default 0 (head (bytes_of_string s)).

(** Read of the byte at offset [i] of an object; [Trap] outside it. *)
Definition rd (l : bytes) (i : Z) : res Z :=
  if i <? 0 then Trap else of_option (l !! Z.to_nat i).

(** Write of the byte at offset [i] of an object. *)
Definition wr (l : bytes) (i v : Z) : res bytes :=
  if (0 <=? i) && (i <? Z.of_nat (length l))
  then Ok (<[Z.to_nat i := v]> l) else Trap.

(** Sub-range [[off, off + len)] of an object. *)
Definition slice {A} (l : list A) (off len : Z) : list A :=
  take (Z.to_nat len) (drop (Z.to_nat off) l).

(** Overwrite the range starting at [off] with [d] (as [memcpy] does). *)
Definition splice {A} (l : list A) (off : Z) (d : list A) : list A :=
  take (Z.to_nat off) l ++ d ++ drop (Z.to_nat off + length d) l.

Abbreviation zlen l := (Z.of_nat (length l)).

(** Reading and overwriting a range of an object; [Trap] outside it. *)
Definition rd_range (l : bytes) (off len : Z) : res bytes :=
  if (0 <=? off) && (0 <=? len) && (off + len <=? zlen l)
  then Ok (slice l off len) else Trap.

Definition wr_range (l : bytes) (off : Z) (d : bytes) : res bytes :=
  if (0 <=? off) && (off + zlen d <=? zlen l)
  then Ok (splice l off d) else Trap.

Lemma length_splice {A} (l : list A) off d :
  0 <= off -> off + zlen d <= zlen l -> length (splice l off d) = length l.
Proof.
  intros. unfold splice. rewrite !length_app, length_take, length_drop. lia.
Qed.

Lemma length_slice {A} (l : list A) off len :
  0 <= off -> 0 <= len -> off + len <= zlen l -> zlen (slice l off len) = len.
Proof. intros. unfold slice. rewrite length_take, length_drop. lia. Qed.

Lemma slice_splice_eq {A} (l : list A) off d :
  0 <= off -> off + zlen d <= zlen l -> slice (splice l off d) off (zlen d) = d.
Proof.
  intros. unfold slice, splice.
  rewrite drop_app_length' by (rewrite length_take; lia).
  rewrite take_app_length' by lia. done.
Qed.

(** Right-nested normal form of concatenations. *)
Ltac app_norm := repeat (progress (rewrite <- ?app_assoc, <- ?app_comm_cons, ?app_nil_l)).

(** Side conditions of the range lemmas: lengths and non-emptiness. *)
Ltac app_side := rewrite ?length_app; cbn [length]; solve [lia | cbn; lia | cbn; congruence].

Lemma rd_app_r l1 l2 i :
  i = zlen l1 -> l2 <> [] -> rd (l1 ++ l2) i = Ok (hd 0 l2).
Proof.
  intros -> ?. unfold rd. rewrite (proj2 (Z.ltb_ge _ _)) by lia.
  rewrite Nat2Z.id, lookup_app_r, Nat.sub_diag by lia. by destruct l2.
Qed.

Lemma wr_app_r l1 x l2 i v :
  i = zlen l1 -> wr (l1 ++ x :: l2) i v = Ok (l1 ++ v :: l2).
Proof.
  intros ->. unfold wr. rewrite length_app; cbn [length].
  rewrite (proj2 (Z.leb_le _ _)), (proj2 (Z.ltb_lt _ _)) by lia; cbn [andb].
  by rewrite Nat2Z.id, insert_app_r_alt, Nat.sub_diag by lia.
Qed.

Lemma rd_range_app l1 l2 l3 off len :
  off = zlen l1 -> len = zlen l2 -> rd_range (l1 ++ l2 ++ l3) off len = Ok l2.
Proof.
  intros -> ->. unfold rd_range. rewrite !length_app.
  rewrite !(proj2 (Z.leb_le _ _)) by lia; cbn [andb].
  unfold slice. rewrite !Nat2Z.id, drop_app_length, take_app_length. done.
Qed.

Lemma wr_range_app l1 l2 l3 off d :
  off = zlen l1 -> length d = length l2 ->
  wr_range (l1 ++ l2 ++ l3) off d = Ok (l1 ++ d ++ l3).
Proof.
  intros -> Hd. unfold wr_range. rewrite !length_app.
  rewrite !(proj2 (Z.leb_le _ _)) by lia; cbn [andb].
  unfold splice. rewrite Nat2Z.id, take_app_length, <- drop_drop, drop_app_length, Hd,
    drop_app_length. done.
Qed.

Lemma wr_mid l1 l2 l3 off k v :
  off = zlen l1 + Z.of_nat k -> (k < length l2)%nat ->
  wr (l1 ++ l2 ++ l3) off v = Ok (l1 ++ (take k l2 ++ v :: drop (k + 1) l2) ++ l3).
Proof.
  intros -> Hk. destruct (drop k l2) as [|x l2'] eqn:E.
  { apply (f_equal length) in E. rewrite length_drop in E. cbn in E. lia. }
  rewrite <- drop_drop, E. rewrite <- (take_drop k l2) at 1. rewrite E. app_norm.
  rewrite app_assoc, wr_app_r by (rewrite length_app, length_take; lia).
  by rewrite <- app_assoc.
Qed.

(** ** Big-endian fields *)

Definition be16 (v : Z) : bytes := [v / 2 ^ 8 mod 2 ^ 8; v mod 2 ^ 8].
Definition be32 (v : Z) : bytes :=
  [v / 2 ^ 24 mod 2 ^ 8; v / 2 ^ 16 mod 2 ^ 8; v / 2 ^ 8 mod 2 ^ 8; v mod 2 ^ 8].

Definition rd_be16 (l : bytes) (off : Z) : res Z :=
  a ← rd l off; b ← rd l (off + 1); Ok (a * 2 ^ 8 + b).
Definition rd_be32 (l : bytes) (off : Z) : res Z :=
  a ← rd_be16 l off; b ← rd_be16 l (off + 2); Ok (a * 2 ^ 16 + b).

Lemma rd_app_l l1 l2 i : i < zlen l1 -> rd (l1 ++ l2) i = rd l1 i.
Proof.
  intros Hi. unfold rd. destruct (Z.ltb_spec i 0); [done |].
  by rewrite lookup_app_l by lia.
Qed.

Lemma rd_app_shift l1 l2 i :
  zlen l1 <= i -> rd (l1 ++ l2) i = rd l2 (i - zlen l1).
Proof.
  intros Hi. unfold rd. rewrite !(proj2 (Z.ltb_ge _ 0)) by lia.
  rewrite lookup_app_r by lia. do 2 f_equal. lia.
Qed.

Lemma rd_ok l i : 0 <= i < zlen l -> exists v, rd l i = Ok v.
Proof.
  intros Hi. unfold rd. rewrite (proj2 (Z.ltb_ge _ 0)) by lia.
  destruct (lookup_lt_is_Some_2 l (Z.to_nat i)) as [v ->]; [lia | by exists v].
Qed.

Lemma rd_be16_ok l i : 0 <= i -> i + 2 <= zlen l -> exists v, rd_be16 l i = Ok v.
Proof.
  intros. unfold rd_be16. destruct (rd_ok l i) as [a ->]; [lia |].
  destruct (rd_ok l (i + 1)) as [b ->]; [lia |]. by eexists.
Qed.

Lemma rd_be32_ok l i : 0 <= i -> i + 4 <= zlen l -> exists v, rd_be32 l i = Ok v.
Proof.
  intros. unfold rd_be32. destruct (rd_be16_ok l i) as [a ->]; [lia.. |].
  destruct (rd_be16_ok l (i + 2)) as [b ->]; [lia.. |]. by eexists.
Qed.

Lemma be16_bytes v : Forall is_byte (be16 v).
Proof. repeat constructor; unfold in_range; apply Z.mod_pos_bound; lia. Qed.
Lemma be32_bytes v : Forall is_byte (be32 v).
Proof. repeat constructor; unfold in_range; apply Z.mod_pos_bound; lia. Qed.
#[export] Hint Resolve be16_bytes be32_bytes : ipxe.

Lemma rd_be16_app l1 l2 v off :
  off = zlen l1 -> rd_be16 (l1 ++ be16 v ++ l2) off = Ok (wrap 16 v).
Proof.
  intros ->. unfold rd_be16. rewrite !(rd_app_shift l1) by lia. rewrite Z.sub_diag.
  replace (zlen l1 + 1 - zlen l1) with 1 by lia.
  transitivity (@Ok Z (v / 2 ^ 8 mod 2 ^ 8 * 2 ^ 8 + v mod 2 ^ 8)); [reflexivity |].
  f_equal. wrap_lia.
Qed.

Lemma rd_be32_app l1 l2 v off :
  off = zlen l1 -> rd_be32 (l1 ++ be32 v ++ l2) off = Ok (wrap 32 v).
Proof.
  intros ->. unfold rd_be32, rd_be16. rewrite !(rd_app_shift l1) by lia.
  replace (zlen l1 + 2 + 1 - zlen l1) with 3 by lia.
  replace (zlen l1 + 2 - zlen l1) with 2 by lia.
  replace (zlen l1 + 1 - zlen l1) with 1 by lia. rewrite Z.sub_diag.
  transitivity (@Ok Z ((v / 2 ^ 24 mod 2 ^ 8 * 2 ^ 8 + v / 2 ^ 16 mod 2 ^ 8) * 2 ^ 16 +
    (v / 2 ^ 8 mod 2 ^ 8 * 2 ^ 8 + v mod 2 ^ 8))); [reflexivity |].
  f_equal. wrap_lia.
Qed.

Lemma rd_byte l i v : Forall is_byte l -> rd l i = Ok v -> is_byte v.
Proof.
  intros Hl. unfold rd. case_if; [done |]. destruct (l !! _) as [x |] eqn:Ex; [| done].
  intros [= <-]. by eapply Forall_lookup_1.
Qed.

Lemma rd_be16_range l i v : Forall is_byte l -> rd_be16 l i = Ok v -> in_range 16 v.
Proof.
  intros Hl. unfold rd_be16. destruct (rd l i) as [a | |] eqn:Ea; [| done | done].
  destruct (rd l (i + 1)) as [b | |] eqn:Eb; [| done | done]. intros [= <-].
  apply rd_byte in Ea, Eb; [| done..]. unfold in_range in *. lia.
Qed.

Lemma rd_be32_range l i v : Forall is_byte l -> rd_be32 l i = Ok v -> in_range 32 v.
Proof.
  intros Hl. unfold rd_be32. destruct (rd_be16 l i) as [a | |] eqn:Ea; [| done | done].
  destruct (rd_be16 l (i + 2)) as [b | |] eqn:Eb; [| done | done]. intros [= <-].
  apply rd_be16_range in Ea, Eb; [| done..]. unfold in_range in *. lia.
Qed.

(** Inversion of a chain of binds that ends in [Ok]. *)
Ltac ok_inv H :=
  repeat match type of H with
  | (if ?b then _ else _) = Ok _ => destruct b eqn:?; try discriminate H
  | (?m ≫= _) = Ok _ =>
      let E := fresh "E" in destruct m eqn:E; cbn [mbind res_bind] in H; try discriminate H
  end.
