(* ===== verification/Bits.v ===== *)
(** * Rotations and little-endian words ([include/ipxe/rotate.h])

    The rotation helpers of the ciphers and digests, and the 32-bit words of a
    byte array as a little-endian machine sees them. *)

From Stdlib Require Import ZArith Lia Bool ZifyBool.
From stdpp Require Import base numbers list.
From S2P Require Import Prelude.

Local Open Scope Z_scope.

(** ** Rotations *)

Definition ROLx (w data rotation : Z) : Z :=
  wrap w (Z.lor (Z.shiftl data rotation) (Z.shiftr data (w - rotation))).

Definition RORx (w data rotation : Z) : Z :=
  wrap w (Z.lor (Z.shiftr data rotation) (Z.shiftl data (w - rotation))).

Definition rol8 := ROLx 8.
Abbreviation ror8 := (RORx 8).
Definition rol32 := ROLx 32.
Definition ror32 := RORx 32.
Definition rol64 := ROLx 64.
Abbreviation ror64 := (RORx 64).

(** ** Little-endian words *)

Definition le32 (v : Z) : bytes := [v mod 2 ^ 8; v / 2 ^ 8 mod 2 ^ 8; v / 2 ^ 16 mod 2 ^ 8; v / 2 ^ 24 mod 2 ^ 8].

Definition le_value (b : bytes) : Z := foldr (fun x acc => x + 2 ^ 8 * acc) 0 b.

Definition rd_le32 (l : bytes) (off : Z) : res Z := b ← rd_range l off 4; Ok (le_value b).

Definition wr_le32 (l : bytes) (off v : Z) : res bytes := wr_range l off (le32 v).

(** ** Bitwise operations and widths *)

Lemma lxor_mod a b w : 0 <= w -> Z.lxor a b mod 2 ^ w = Z.lxor (a mod 2 ^ w) (b mod 2 ^ w).
Proof.
  intros Hw. apply Z.bits_inj'. intros n Hn. rewrite Z.lxor_spec.
  destruct (Z.lt_ge_cases n w).
  - by rewrite !Z.mod_pow2_bits_low, Z.lxor_spec by lia.
  - by rewrite !Z.mod_pow2_bits_high by lia.
Qed.

Lemma lxor_range w a b : 0 <= w -> in_range w a -> in_range w b -> in_range w (Z.lxor a b).
Proof.
  intros Hw Ha Hb. rewrite <- (wrap_small w a Ha), <- (wrap_small w b Hb). unfold wrap.
  rewrite <- lxor_mod by done. by apply wrap_range.
Qed.

Lemma lxor_byte a b : is_byte a -> is_byte b -> is_byte (Z.lxor a b).
Proof. by apply lxor_range. Qed.
#[export] Hint Resolve lxor_byte : ipxe.

Lemma lxor_div a b w : 0 <= w -> Z.lxor a b / 2 ^ w = Z.lxor (a / 2 ^ w) (b / 2 ^ w).
Proof. intros. rewrite <- !Z.shiftr_div_pow2 by lia. apply Z.shiftr_lxor. Qed.

Lemma lor_disjoint k a b : 0 <= k -> 0 <= b < 2 ^ k -> Z.lor (a * 2 ^ k) b = a * 2 ^ k + b.
Proof.
  intros Hk Hb. rewrite <- Z.shiftl_mul_pow2 by done.
  assert (E : Z.land (Z.shiftl a k) b = 0).
  { apply Z.bits_inj'. intros n Hn. rewrite Z.land_spec, Z.bits_0.
    destruct (Z.lt_ge_cases n k); [by rewrite Z.shiftl_spec_low |].
    rewrite <- (Z.mod_small b (2 ^ k) Hb), Z.mod_pow2_bits_high by lia. apply andb_false_r. }
  rewrite <- Z.lxor_lor by done. symmetry. by apply Z.add_nocarry_lxor.
Qed.

(** ** Words and bytes *)

(** Explicit byte strings: split the hypotheses, solve the goals. *)
Ltac split_bytes :=
  repeat match goal with H : Forall is_byte (_ :: _) |- _ => apply Forall_cons_1 in H as [? H] end.

Ltac solve_bytes := repeat first [apply Forall_cons_2 | apply Forall_nil_2]; auto 10 with ipxe.

Lemma length_le32 v : length (le32 v) = 4%nat.
Proof. done. Qed.

Lemma le32_bytes v : Forall is_byte (le32 v).
Proof. repeat constructor; unfold in_range; apply Z.mod_pos_bound; lia. Qed.
#[export] Hint Resolve le32_bytes : ipxe.

Lemma le_value_4 a b c d : le_value [a; b; c; d] = a + 2 ^ 8 * b + 2 ^ 16 * c + 2 ^ 24 * d.
Proof. unfold le_value. cbn [foldr]. lia. Qed.

Lemma le32_value a b c d :
  is_byte a -> is_byte b -> is_byte c -> is_byte d -> le32 (le_value [a; b; c; d]) = [a; b; c; d].
Proof.
  intros. rewrite le_value_4. unfold le32, in_range in *. pow2_consts.
  repeat f_equal; Z.div_mod_to_equations; lia.
Qed.

Lemma value_le32 v : in_range 32 v -> le_value (le32 v) = v.
Proof. intros Hv. unfold le32. rewrite le_value_4. unfold in_range in *. pow2_consts. Z.div_mod_to_equations; lia. Qed.

Lemma le_word_range a b c d :
  is_byte a -> is_byte b -> is_byte c -> is_byte d -> in_range 32 (le_value [a; b; c; d]).
Proof. rewrite le_value_4. unfold in_range. pow2_consts. lia. Qed.

Lemma le32_lxor a b : le32 (Z.lxor a b) = zip_with Z.lxor (le32 a) (le32 b).
Proof. unfold le32. cbn [zip_with]. by rewrite !lxor_div, !lxor_mod by lia. Qed.

(** Bytewise exclusive or of byte strings, the operation word-wise code
    performs. *)
Definition xor (a b : bytes) : bytes := zip_with Z.lxor a b.

Lemma le_value_lxor a b c d a' b' c' d' :
  Forall is_byte [a; b; c; d] -> Forall is_byte [a'; b'; c'; d'] ->
  Z.lxor (le_value [a; b; c; d]) (le_value [a'; b'; c'; d']) =
    le_value [Z.lxor a a'; Z.lxor b b'; Z.lxor c c'; Z.lxor d d'].
Proof.
  rewrite !Forall_cons. intros (? & ? & ? & ? & _) (? & ? & ? & ? & _).
  rewrite <- (value_le32 (Z.lxor _ _)) by (apply lxor_range; [done | by apply le_word_range..]).
  rewrite le32_lxor, !le32_value by done. done.
Qed.

Lemma xor_comm a b : xor a b = xor b a.
Proof.
  unfold xor. revert b. induction a as [| x a IH]; intros [| y b]; try done. cbn [zip_with].
  by rewrite IH, Z.lxor_comm.
Qed.

(** ** Ranges of a memory *)

Lemma slice_add {A} (m : list A) off a b :
  0 <= off -> 0 <= a -> 0 <= b -> slice m off (a + b) = slice m off a ++ slice m (off + a) b.
Proof.
  intros. unfold slice. rewrite !Z2Nat.inj_add by lia. rewrite <- drop_drop.
  rewrite <- (take_drop (Z.to_nat a) (drop (Z.to_nat off) m)) at 1.
  destruct (Nat.le_gt_cases (Z.to_nat a) (length (drop (Z.to_nat off) m))).
  - rewrite take_app_add' by (rewrite length_take; lia). done.
  - rewrite (take_ge (drop _ m) (Z.to_nat a)) by lia.
    rewrite (drop_ge (drop _ m)) by lia. rewrite !take_nil, !app_nil_r. apply take_ge. lia.
Qed.

Lemma slice_whole {A} (m : list A) n : n = zlen m -> slice m 0 n = m.
Proof. intros ->. unfold slice. rewrite Nat2Z.id. apply take_ge. done. Qed.

(** A range not touched by a write. *)
Lemma slice_splice_ne {A} (m : list A) off d o n :
  0 <= off -> off + zlen d <= zlen m -> 0 <= o -> 0 <= n -> o + n <= off \/ off + zlen d <= o ->
  slice (splice m off d) o n = slice m o n.
Proof.
  intros Hoff Hd Ho Hn Hdisj. unfold slice, splice. apply list_eq. intros i.
  destruct (Nat.lt_ge_cases i (Z.to_nat n)) as [Hi | Hi]; [| by rewrite !lookup_take_ge by lia].
  rewrite !lookup_take_lt, !lookup_drop by lia. destruct Hdisj.
  - rewrite lookup_app_l by (rewrite length_take; lia). by rewrite lookup_take_lt by lia.
  - rewrite lookup_app_r by (rewrite length_take; lia). rewrite length_take.
    rewrite lookup_app_r by lia. rewrite lookup_drop. f_equal. lia.
Qed.

(** Consecutive writes. *)
Lemma splice_splice {A} (m : list A) off d e :
  0 <= off -> off + zlen d + zlen e <= zlen m ->
  splice (splice m off d) (off + zlen d) e = splice m off (d ++ e).
Proof.
  intros Hoff Hb. unfold splice. rewrite Z2Nat.inj_add, Nat2Z.id by lia.
  assert (Hl : length (take (Z.to_nat off) m) = Z.to_nat off) by (rewrite length_take; lia).
  rewrite <- Hl at 1. rewrite take_app_add, take_app_length, <- app_assoc. f_equal. rewrite <- app_assoc. do 2 f_equal.
  rewrite length_app, <- drop_drop, <- Hl at 1. rewrite <- drop_drop, drop_app_length, drop_app_length, drop_drop.
  f_equal. lia.
Qed.

Lemma rd_range_slice m off n : 0 <= off -> 0 <= n -> off + n <= zlen m -> rd_range m off n = Ok (slice m off n).
Proof. intros. unfold rd_range. by rewrite !(proj2 (Z.leb_le _ _)) by lia. Qed.

Lemma wr_range_splice m off d : 0 <= off -> off + zlen d <= zlen m -> wr_range m off d = Ok (splice m off d).
Proof. intros. unfold wr_range. by rewrite !(proj2 (Z.leb_le _ _)) by lia. Qed.

Lemma splice_whole {A} (m d : list A) : length d = length m -> splice m 0 d = d.
Proof.
  intros Hl. unfold splice. change (Z.to_nat 0) with 0%nat. cbn [take app Nat.add].
  rewrite drop_ge by lia. apply app_nil_r.
Qed.

Lemma slice_split {A} (m : list A) off n :
  0 <= off -> 0 <= n -> m = take (Z.to_nat off) m ++ slice m off n ++ drop (Z.to_nat off + Z.to_nat n) m.
Proof. intros. unfold slice. by rewrite <- drop_drop, take_drop, take_drop. Qed.

Lemma splice_overwrite {A} (m : list A) off d e :
  0 <= off -> off + zlen d <= zlen m -> length e = length d -> splice (splice m off d) off e = splice m off e.
Proof.
  intros Hoff Hb Hl. unfold splice.
  assert (Ht : length (take (Z.to_nat off) m) = Z.to_nat off) by (rewrite length_take; lia).
  rewrite take_app_length' by lia. do 2 f_equal.
  rewrite <- drop_drop, drop_app_length', Hl, drop_app_length by lia. done.
Qed.

Lemma slice_bytes mem off len : Forall is_byte mem -> Forall is_byte (slice mem off len).
Proof. intros Hm. by apply Forall_take, Forall_drop. Qed.

Lemma splice_bytes mem off d : Forall is_byte mem -> Forall is_byte d -> Forall is_byte (splice mem off d).
Proof. intros Hm Hd. unfold splice. rewrite !Forall_app. split_and!; [by apply Forall_take | done | by apply Forall_drop]. Qed.

Lemma slice_splice_same {A} (mem : list A) off (d : list A) n :
  0 <= off -> off + zlen d <= zlen mem -> n = zlen d -> slice (splice mem off d) off n = d.
Proof.
  intros Ho Hl ->. unfold slice, splice. rewrite Nat2Z.id, drop_app_length' by (rewrite length_take; lia).
  by apply take_app_length.
Qed.

Lemma splice_nil {A} (mem : list A) off : splice mem off [] = mem.
Proof. unfold splice. cbn [app length]. rewrite Nat.add_0_r. apply take_drop. Qed.

Lemma xor_bytes a b : Forall is_byte a -> Forall is_byte b -> Forall is_byte (xor a b).
Proof.
  intros Ha. unfold xor. revert b. induction Ha as [| x a Hx Ha IH]; intros b Hb; [constructor |].
  destruct Hb; cbn [zip_with]; [constructor |]. apply Forall_cons_2; [by apply lxor_byte | by apply IH].
Qed.

(** ** Big-endian byte strings *)

(** The value of a byte array, most significant byte first. *)
Definition be_value (b : bytes) : Z := foldl (fun acc x => 2 ^ 8 * acc + x) 0 b.

Lemma le_value_reverse b : le_value (reverse b) = be_value b.
Proof.
  induction b as [| x b IH] using rev_ind; [done |]. rewrite reverse_snoc. unfold be_value.
  rewrite foldl_app. cbn [foldl]. fold (be_value b). rewrite <- IH. unfold le_value. cbn [foldr]. lia.
Qed.

Lemma be_value_snoc b x : be_value (b ++ [x]) = 2 ^ 8 * be_value b + x.
Proof. unfold be_value. by rewrite foldl_app. Qed.

Lemma be_value_app a b : be_value (a ++ b) = be_value a * 2 ^ (8 * zlen b) + be_value b.
Proof.
  induction b as [| x b IH] using rev_ind.
  - rewrite app_nil_r. change (2 ^ (8 * zlen [])) with 1. unfold be_value at 3. cbn [foldl]. lia.
  - rewrite app_assoc, !be_value_snoc, IH, length_app. cbn [length].
    replace (8 * Z.of_nat (length b + 1)) with (8 + 8 * zlen b) by lia. rewrite Z.pow_add_r by lia. lia.
Qed.

Lemma be_value_cons x b : be_value (x :: b) = x * 2 ^ (8 * zlen b) + be_value b.
Proof. change (x :: b) with ([x] ++ b). rewrite be_value_app. unfold be_value at 1. cbn [foldl]. lia. Qed.

Lemma be_value_range b : Forall is_byte b -> 0 <= be_value b < 2 ^ (8 * zlen b).
Proof.
  induction b as [| x b IH] using rev_ind; [intros; cbn; lia |].
  intros [Hb [Hx _]%Forall_cons]%Forall_app. specialize (IH Hb). unfold in_range in Hx.
  rewrite be_value_snoc, length_app. cbn [length].
  replace (8 * Z.of_nat (length b + 1)) with (8 + 8 * zlen b) by lia. rewrite Z.pow_add_r by lia. lia.
Qed.

(** The [k] low bytes of a number, most significant byte first. *)
Fixpoint be_repr (k : nat) (n : Z) : bytes :=
  match k with O => [] | S k => be_repr k (n / 2 ^ 8) ++ [n mod 2 ^ 8] end.

Lemma length_be_repr k n : length (be_repr k n) = k.
Proof. revert n. induction k as [| k IH]; intros; cbn [be_repr]; rewrite ?length_app, ?IH; cbn; lia. Qed.

Lemma be_repr_bytes k n : Forall is_byte (be_repr k n).
Proof.
  revert n. induction k as [| k IH]; intros; cbn [be_repr]; [constructor |].
  apply Forall_app. split; [apply IH |]. constructor; [apply (wrap_range 8); lia | constructor].
Qed.

Lemma be_value_be_repr k n : 0 <= n < 2 ^ (8 * Z.of_nat k) -> be_value (be_repr k n) = n.
Proof.
  revert n. induction k as [| k IH]; intros n Hn; cbn [be_repr].
  - change (2 ^ (8 * Z.of_nat 0)) with 1 in Hn. change (be_value []) with 0. lia.
  - replace (8 * Z.of_nat (S k)) with (8 + 8 * Z.of_nat k) in Hn by lia. rewrite Z.pow_add_r in Hn by lia.
    rewrite be_value_snoc, IH; [pose proof (Z.div_mod n (2 ^ 8)); lia |].
    split; [apply Z.div_pos; lia | apply Z.div_lt_upper_bound; lia].
Qed.

Lemma be_repr_be_value b : Forall is_byte b -> be_repr (length b) (be_value b) = b.
Proof.
  induction b as [| x b IH] using rev_ind; [done |]. intros [Hb [Hx _]%Forall_cons]%Forall_app. unfold in_range in Hx.
  rewrite length_app, Nat.add_comm, be_value_snoc. cbn [length Nat.add be_repr].
  rewrite Z.mul_comm, Z.div_add_l, (Z.div_small x), Z.add_0_r, IH by (done || lia). f_equal.
  rewrite Z.add_comm, Z_mod_plus_full, Z.mod_small by done. done.
Qed.
