(* ===== verification/Lists.v ===== *)
(** * Linked lists ([include/ipxe/list.h], [core/list.c])

    The circular doubly-linked lists on which the rest of iPXE is built.  Memory
    is a finite map from the addresses of [struct list_head] objects to their
    two pointers; reading or writing through any other pointer, and a failed
    assertion of [list_check], is a [Trap].  The operations are translated with
    every assertion, read and write, in order.  The theorems relate them to
    operations on plain lists of entries. *)

From Stdlib Require Import ZArith Lia Bool ZifyBool.
From stdpp Require Import base numbers list gmap.
From S2P Require Import Prelude.

Local Open Scope Z_scope.

Definition NULL : Z := 0.

Record list_head := ListHead { next : Z; prev : Z }.

#[global] Instance list_head_eq_dec : EqDecision list_head.
Proof. solve_decision. Defined.

Abbreviation store := (gmap Z list_head).

Definition load (p : Z) (m : store) : res list_head :=
  if p =? NULL then Trap else of_option (m !! p).

Definition set_next (p v : Z) (m : store) : res store :=
  h ← load p m; Ok (<[p := ListHead v (prev h)]> m).

Definition set_prev (p v : Z) (m : store) : res store :=
  h ← load p m; Ok (<[p := ListHead (next h) v]> m).

Definition assert (b : bool) : res unit := if b then Ok tt else Trap.

(** ** Operations *)

Definition INIT_LIST_HEAD (list : Z) (m : store) : res store :=
  m ← set_next list list m; set_prev list list m.

Definition list_check (list : Z) (m : store) : res unit :=
  _ ← assert (negb (list =? NULL));
  h ← load list m;
  _ ← assert (negb (prev h =? NULL));
  _ ← assert (negb (next h =? NULL));
  n ← load (next h) m;
  _ ← assert (prev n =? list);
  p ← load (prev h) m;
  assert (next p =? list).

Definition inline_list_add (new head : Z) (m : store) : res store :=
  h ← load head m;
  let prev := head in
  let next := next h in
  m ← set_prev next new m;
  m ← set_next new next m;
  m ← set_prev new prev m;
  set_next prev new m.

Definition list_add (new head : Z) (m : store) : res store :=
  _ ← list_check head m;
  m ← inline_list_add new head m;
  _ ← list_check head m;
  _ ← list_check new m;
  Ok m.

Definition inline_list_add_tail (new head : Z) (m : store) : res store :=
  h ← load head m;
  let prev := prev h in
  let next := head in
  m ← set_prev next new m;
  m ← set_next new next m;
  m ← set_prev new prev m;
  set_next prev new m.

Definition list_add_tail (new head : Z) (m : store) : res store :=
  _ ← list_check head m;
  m ← inline_list_add_tail new head m;
  _ ← list_check head m;
  _ ← list_check new m;
  Ok m.

Definition inline_list_del (list : Z) (m : store) : res store :=
  h ← load list m;
  let next := next h in
  let prev := prev h in
  m ← set_prev next prev m;
  set_next prev next m.

Definition list_del (list : Z) (m : store) : res store :=
  _ ← list_check list m;
  inline_list_del list m.

Definition list_empty (list : Z) (m : store) : res bool :=
  _ ← list_check list m;
  h ← load list m;
  Ok (next h =? list).

Definition list_is_singular (list : Z) (m : store) : res bool :=
  _ ← list_check list m;
  empty ← list_empty list m;
  if (empty : bool) then Ok false
  else h ← load list m; Ok (next h =? prev h).

Definition list_is_last (list head : Z) (m : store) : res bool :=
  _ ← list_check list m;
  _ ← list_check head m;
  h ← load list m;
  Ok (next h =? head).

Definition inline_list_cut_position (new list entry : Z) (m : store) : res store :=
  e ← load entry m;
  let first := next e in
  if list =? entry then Ok m
  else
    l ← load list m;
    m ← set_next new (next l) m;
    n ← load new m;
    m ← set_prev (next n) new m;
    m ← set_prev new entry m;
    n ← load new m;
    m ← set_next (prev n) new m;
    m ← set_next list first m;
    l ← load list m;
    set_prev (next l) list m.

Definition list_cut_position (new list entry : Z) (m : store) : res store :=
  _ ← list_check new m;
  empty ← list_empty new m;
  _ ← assert empty;
  _ ← list_check list m;
  _ ← list_check entry m;
  inline_list_cut_position new list entry m.

Definition inline_list_splice (list entry : Z) (m : store) : res store :=
  l ← load list m;
  let first := next l in
  let last := prev l in
  empty ← list_empty list m;
  if (empty : bool) then Ok m
  else
    e ← load entry m;
    m ← set_next last (next e) m;
    x ← load last m;
    m ← set_prev (next x) last m;
    m ← set_prev first entry m;
    x ← load first m;
    set_next (prev x) first m.

Definition list_splice (list entry : Z) (m : store) : res store :=
  _ ← list_check list m;
  _ ← list_check entry m;
  inline_list_splice list entry m.

Definition inline_list_splice_tail (list entry : Z) (m : store) : res store :=
  l ← load list m;
  let first := next l in
  let last := prev l in
  empty ← list_empty list m;
  if (empty : bool) then Ok m
  else
    e ← load entry m;
    m ← set_prev first (prev e) m;
    x ← load first m;
    m ← set_next (prev x) first m;
    m ← set_next last entry m;
    x ← load last m;
    set_prev (next x) last m.

Definition list_splice_tail (list entry : Z) (m : store) : res store :=
  _ ← list_check list m;
  _ ← list_check entry m;
  inline_list_splice_tail list entry m.

Definition inline_list_splice_init (list entry : Z) (m : store) : res store :=
  m ← list_splice list entry m; INIT_LIST_HEAD list m.

Definition list_splice_init (list entry : Z) (m : store) : res store :=
  _ ← list_check list m;
  _ ← list_check entry m;
  inline_list_splice_init list entry m.

Definition inline_list_splice_tail_init (list entry : Z) (m : store) : res store :=
  m ← list_splice_tail list entry m; INIT_LIST_HEAD list m.

Definition list_splice_tail_init (list entry : Z) (m : store) : res store :=
  _ ← list_check list m;
  _ ← list_check entry m;
  inline_list_splice_tail_init list entry m.

(** ** Entries and iteration

    An entry is the address of the [list_head] member of its container; the
    container is found by subtracting the member's offset [off]. *)

Definition list_entry (list off : Z) (m : store) : res Z :=
  _ ← list_check list m; Ok (list - off).

Definition list_first_entry (list off : Z) (m : store) : res (option Z) :=
  empty ← list_empty list m;
  if (empty : bool) then Ok None
  else h ← load list m; c ← list_entry (next h) off m; Ok (Some c).

Definition list_last_entry (list off : Z) (m : store) : res (option Z) :=
  empty ← list_empty list m;
  if (empty : bool) then Ok None
  else h ← load list m; c ← list_entry (prev h) off m; Ok (Some c).

(** [pos] is a container. *)
Definition list_next_entry (pos head off : Z) (m : store) : res (option Z) :=
  h ← load (pos + off) m;
  next ← list_entry (next h) off m;
  Ok (if next + off =? head then None else Some next).

Definition list_prev_entry (pos head off : Z) (m : store) : res (option Z) :=
  h ← load (pos + off) m;
  prev ← list_entry (prev h) off m;
  Ok (if prev + off =? head then None else Some prev).

(** The loops; [fuel] bounds the number of iterations, and running out of it is
    a [Trap] like any other failure.  Every entry is an object of the store, so
    its size is enough. *)
Definition list_fuel (m : store) : nat := S (size m).

Section loops.
Context {S : Type} (body : Z -> store * S -> res (store * S)).

Fixpoint list_loop (fuel : nat) (pos head : Z) (st : store * S) : res (store * S) :=
  match fuel with
  | O => Trap
  | Datatypes.S fuel =>
      if pos =? head then Ok st
      else
        st ← body pos st;
        h ← load pos st.1;
        list_loop fuel (next h) head st
  end.

Definition list_for_each (head : Z) (st : store * S) : res (store * S) :=
  _ ← list_check head st.1;
  h ← load head st.1;
  list_loop (list_fuel st.1) (next h) head st.

(** [dir] is the pointer that is followed: [next], or [prev] in the reverse
    iterators.  [pos] is a container. *)
Fixpoint entry_loop (dir : list_head -> Z) (off : Z) (fuel : nat) (pos head : Z) (st : store * S)
    : res (store * S) :=
  match fuel with
  | O => Trap
  | Datatypes.S fuel =>
      if pos + off =? head then Ok st
      else
        st ← body pos st;
        h ← load (pos + off) st.1;
        pos ← list_entry (dir h) off st.1;
        entry_loop dir off fuel pos head st
  end.

Definition list_for_each_entry_dir (dir : list_head -> Z) (head off : Z) (st : store * S)
    : res (store * S) :=
  _ ← list_check head st.1;
  h ← load head st.1;
  pos ← list_entry (dir h) off st.1;
  entry_loop dir off (list_fuel st.1) pos head st.

Definition list_for_each_entry := list_for_each_entry_dir next.
Definition list_for_each_entry_reverse := list_for_each_entry_dir prev.

Definition list_for_each_entry_continue_dir (dir : list_head -> Z) (pos head off : Z) (st : store * S)
    : res (store * S) :=
  _ ← list_check head st.1;
  h ← load (pos + off) st.1;
  pos ← list_entry (dir h) off st.1;
  entry_loop dir off (list_fuel st.1) pos head st.

Definition list_for_each_entry_continue := list_for_each_entry_continue_dir next.
Definition list_for_each_entry_continue_reverse := list_for_each_entry_continue_dir prev.

Fixpoint safe_loop (off : Z) (fuel : nat) (pos tmp head : Z) (st : store * S) : res (store * S) :=
  match fuel with
  | O => Trap
  | Datatypes.S fuel =>
      if pos + off =? head then Ok st
      else
        st ← body pos st;
        let pos := tmp in
        h ← load (tmp + off) st.1;
        tmp ← list_entry (next h) off st.1;
        safe_loop off fuel pos tmp head st
  end.

Definition list_for_each_entry_safe (head off : Z) (st : store * S) : res (store * S) :=
  _ ← list_check head st.1;
  h ← load head st.1;
  pos ← list_entry (next h) off st.1;
  h ← load (pos + off) st.1;
  tmp ← list_entry (next h) off st.1;
  safe_loop off (list_fuel st.1) pos tmp head st.

End loops.

(** [inline_list_contains] returns from inside its loop. *)
Fixpoint contains_loop (fuel : nat) (entry tmp head : Z) (m : store) : res bool :=
  match fuel with
  | O => Trap
  | S fuel =>
      if tmp =? head then Ok false
      else if tmp =? entry then Ok true
      else h ← load tmp m; contains_loop fuel entry (next h) head m
  end.

Definition inline_list_contains (entry head : Z) (m : store) : res bool :=
  _ ← list_check head m;
  h ← load head m;
  contains_loop (list_fuel m) entry (next h) head m.

Definition list_contains (entry head : Z) (m : store) : res bool :=
  _ ← list_check head m;
  _ ← list_check entry m;
  inline_list_contains entry head m.

(** ** Pointers as functions

    The two fields of the store as partial functions.  An operation only
    matters through them, and each write changes one of them at one address, so
    that no case analysis on which nodes coincide is needed. *)

Definition nxt (m : store) (p : Z) : option Z := next <$> m !! p.
Definition prv (m : store) (p : Z) : option Z := prev <$> m !! p.

Lemma lookup_fields m m' p : nxt m p = nxt m' p -> prv m p = prv m' p -> m !! p = m' !! p.
Proof.
  unfold nxt, prv. destruct (m !! p) as [[n q] |], (m' !! p) as [[n' q'] |]; cbn; congruence.
Qed.

Lemma load_fields m p n q : p <> NULL -> nxt m p = Some n -> prv m p = Some q -> load p m = Ok (ListHead n q).
Proof.
  intros Hp. unfold nxt, prv, load. rewrite (proj2 (Z.eqb_neq _ _) Hp).
  destruct (m !! p) as [[n' q'] |]; cbn; congruence.
Qed.

(** An object that may be written. *)
Definition obj (m : store) (p : Z) : Prop := p <> NULL /\ is_Some (m !! p).

Lemma obj_fields m p n : p <> NULL -> nxt m p = Some n -> obj m p.
Proof. unfold nxt. intros Hp H. split; [done |]. by destruct (m !! p). Qed.

Lemma load_obj m p : obj m p -> exists n q, load p m = Ok (ListHead n q) /\ nxt m p = Some n /\ prv m p = Some q.
Proof.
  intros [Hp [[n q] H]]. exists n, q. unfold load, nxt, prv.
  by rewrite (proj2 (Z.eqb_neq _ _) Hp), H.
Qed.

(** What a write does to the two functions. *)
Lemma set_next_spec p v m :
  obj m p -> exists m', set_next p v m = Ok m' /\
    (forall x, nxt m' x = if decide (x = p) then Some v else nxt m x) /\
    (forall x, prv m' x = prv m x) /\ (forall x, obj m' x <-> obj m x).
Proof.
  intros [Hp [h Hh]]. exists (<[p := ListHead v (prev h)]> m). unfold set_next, load, nxt, prv, obj.
  rewrite (proj2 (Z.eqb_neq _ _) Hp), Hh. split; [done |].
  split_and!; intros x; destruct (decide (x = p)) as [-> | Hx];
    rewrite ?lookup_insert_eq, ?lookup_insert_ne, ?Hh by congruence; try done; naive_solver.
Qed.

Lemma set_prev_spec p v m :
  obj m p -> exists m', set_prev p v m = Ok m' /\
    (forall x, prv m' x = if decide (x = p) then Some v else prv m x) /\
    (forall x, nxt m' x = nxt m x) /\ (forall x, obj m' x <-> obj m x).
Proof.
  intros [Hp [h Hh]]. exists (<[p := ListHead (next h) v]> m). unfold set_prev, load, nxt, prv, obj.
  rewrite (proj2 (Z.eqb_neq _ _) Hp), Hh. split; [done |].
  split_and!; intros x; destruct (decide (x = p)) as [-> | Hx];
    rewrite ?lookup_insert_eq, ?lookup_insert_ne, ?Hh by congruence; try done; naive_solver.
Qed.

(** Run the first write of the goal. *)
Ltac obj_solve :=
  first
  [ eassumption
  | match goal with
    | H : forall x, obj ?m' x <-> obj _ x |- obj ?m' _ => apply (proj2 (H _)); obj_solve
    end ].
Ltac write :=
  match goal with
  | |- context [set_next ?p ?v ?m] =>
      let m' := fresh "m" in let E := fresh "E" in
      destruct (set_next_spec p v m) as (m' & E & ? & ? & ?); [obj_solve |]; rewrite E; clear E;
      cbn [mbind res_bind]
  | |- context [set_prev ?p ?v ?m] =>
      let m' := fresh "m" in let E := fresh "E" in
      destruct (set_prev_spec p v m) as (m' & E & ? & ? & ?); [obj_solve |]; rewrite E; clear E;
      cbn [mbind res_bind]
  end.

(** Fields after a series of writes. *)
Ltac fields :=
  repeat match goal with
  | H : forall x, nxt ?m x = _ |- context [nxt ?m _] => rewrite H
  | H : forall x, prv ?m x = _ |- context [prv ?m _] => rewrite H
  end.

(** ** Paths and rings *)

(** Following [f] from [x] leads through [l] to [z], and [g] leads back. *)
Fixpoint path (f g : Z -> option Z) (x : Z) (l : list Z) (z : Z) : Prop :=
  match l with
  | [] => f x = Some z /\ g z = Some x
  | y :: l' => f x = Some y /\ g y = Some x /\ path f g y l' z
  end.

Lemma path_app f g x l1 y l2 z :
  path f g x (l1 ++ y :: l2) z <-> path f g x l1 y /\ path f g y l2 z.
Proof.
  revert x. induction l1 as [| w l1 IH]; intros x; cbn [app path]; [tauto |].
  rewrite IH. tauto.
Qed.

Lemma path_ext f g f' g' x l z :
  (forall u, u ∈ x :: l -> f' u = f u) -> (forall u, u ∈ l ++ [z] -> g' u = g u) ->
  path f g x l z -> path f' g' x l z.
Proof.
  revert x. induction l as [| y l IH]; intros x Hf Hg; cbn [path].
  - rewrite Hf, Hg by set_solver. done.
  - rewrite Hf, Hg by set_solver. intros (? & ? & ?). split_and!; [done.. |].
    apply IH; [set_solver | set_solver | done].
Qed.

Lemma path_hd f g x l z : path f g x l z -> f x = Some (hd z l) /\ g (hd z l) = Some x.
Proof. destruct l; cbn; tauto. Qed.

(** The node before the end. *)
Lemma path_last f g x l z : path f g x l z ->
  exists s p, x :: l = s ++ [p] /\ f p = Some z /\ g z = Some p.
Proof.
  destruct l as [| y l _] using rev_ind; intros H.
  - exists [], x. by destruct H.
  - exists (x :: l), y. apply path_app in H as [_ [? ?]]. done.
Qed.

(** The same nodes entered from another one. *)
Lemma path_restart f g f' g' x x' l z :
  path f g x l z -> f' x' = Some (hd z l) -> g' (hd z l) = Some x' ->
  (forall u, u ∈ l -> f' u = f u) -> (forall u, u ∈ tail (l ++ [z]) -> g' u = g u) ->
  path f' g' x' l z.
Proof.
  destruct l as [| y l]; cbn [path hd tail app]; [done |].
  intros (_ & _ & H) ? ? Hf Hg. split_and!; [done.. |]. by apply (path_ext f g).
Qed.

(** A circular list of the nodes [l], which are distinct objects. *)
Definition ring (m : store) (l : list Z) : Prop :=
  match l with
  | [] => False
  | x :: l' => NoDup l /\ (NULL ∉ l) /\ path (nxt m) (prv m) x l' x
  end.

Lemma ring_rotate m l1 l2 : ring m (l1 ++ l2) -> ring m (l2 ++ l1).
Proof.
  destruct l1 as [| x l1], l2 as [| y l2]; rewrite ?app_nil_r; try done.
  cbn [app ring]. intros (Hd & Hn & Hp). apply path_app in Hp as [? ?]. split_and!.
  - change (NoDup ((y :: l2) ++ x :: l1)). by rewrite Permutation_app_comm.
  - set_solver.
  - by apply path_app.
Qed.

Lemma ring_at m l x : ring m l -> x ∈ l -> exists r, ring m (x :: r) /\ x :: r ≡ₚ l.
Proof.
  intros H Hx. apply list_elem_of_split in Hx as (l1 & l2 & ->). exists (l2 ++ l1).
  split; [by apply ring_rotate in H |]. change (x :: l2 ++ l1) with ((x :: l2) ++ l1). apply Permutation_app_comm.
Qed.

Lemma ring_neighbours m x r :
  ring m (x :: r) -> x <> NULL /\ nxt m x = Some (hd x r) /\ prv m (hd x r) = Some x /\
    exists p, p ∈ x :: r /\ prv m x = Some p /\ nxt m p = Some x.
Proof.
  intros (_ & Hn & Hp). destruct (path_hd _ _ _ _ _ Hp) as [? ?].
  destruct (path_last _ _ _ _ _ Hp) as (s & p & E & ? & ?).
  split_and!; [set_solver | done | done |]. exists p. rewrite E. set_solver.
Qed.

Lemma ring_obj m l x : ring m l -> x ∈ l -> obj m x.
Proof.
  intros H Hx. destruct (ring_at _ _ _ H Hx) as (r & Hr & _).
  destruct (ring_neighbours _ _ _ Hr) as (? & ? & _). by eapply obj_fields.
Qed.

(** The assertions hold of every node. *)
Lemma ring_check m l x : ring m l -> x ∈ l -> list_check x m = Ok tt.
Proof.
  intros H Hx. destruct (ring_at _ _ _ H Hx) as (r & Hr & _).
  destruct (ring_neighbours _ _ _ Hr) as (Hx0 & Hn & Hnp & p & Hp & Hpx & Hpn).
  assert (Hin : hd x r ∈ x :: r) by (destruct r; set_solver).
  destruct (load_obj m (hd x r)) as (n1 & q1 & El1 & _ & Eq1); [by eapply ring_obj |].
  destruct (load_obj m p) as (n2 & q2 & El2 & En2 & _); [by eapply ring_obj |].
  assert (hd x r <> NULL /\ p <> NULL) as [Hn0 Hp0].
  { destruct Hr as (_ & Hnull & _). split; intros E0; rewrite E0 in *; done. }
  unfold list_check. rewrite (load_fields m x (hd x r) p) by done.
  cbn [mbind res_bind next prev]. rewrite El1, El2. simplify_eq. cbn [mbind res_bind next prev].
  rewrite (proj2 (Z.eqb_neq x NULL)), (proj2 (Z.eqb_neq p NULL)), (proj2 (Z.eqb_neq (hd x r) NULL)) by done.
  by rewrite !Z.eqb_refl.
Qed.

(** Only the nodes [l] have been written. *)
Definition touches (l : list Z) (m m' : store) : Prop :=
  (forall x, x ∉ l -> m' !! x = m !! x) /\ (forall x, obj m' x <-> obj m x).

Lemma touches_trans l m1 m2 m3 : touches l m1 m2 -> touches l m2 m3 -> touches l m1 m3.
Proof.
  intros [H1 H1'] [H2 H2']. split; intros x.
  - intros Hx. by rewrite H2, H1.
  - by rewrite H2', H1'.
Qed.

Lemma touches_weaken l l' m m' : (forall x, x ∈ l -> x ∈ l') -> touches l m m' -> touches l' m m'.
Proof. intros Hl [H H']. split; [| done]. intros x Hx. apply H. auto. Qed.

(** A list none of whose nodes has been written is still the same list. *)
Lemma ring_frame l m m' r : touches l m m' -> (forall x, x ∈ r -> x ∉ l) -> ring m r -> ring m' r.
Proof.
  intros [H _] Hd. destruct r as [| x r]; [done |]. intros (? & ? & Hp). split_and!; [done.. |].
  assert (Hsame : forall u, u ∈ x :: r -> m' !! u = m !! u) by (intros u Hu; apply H, Hd, Hu).
  eapply path_ext; [| | exact Hp]; intros u Hu; unfold nxt, prv; rewrite Hsame; set_solver.
Qed.

(** ** Insertion and removal *)

(** Membership goals; the facts about fields only slow the solver down. *)
Ltac mem :=
  repeat match goal with
  | H : forall _, _ |- _ => clear H
  | H : nxt _ _ = _ |- _ => clear H
  | H : prv _ _ = _ |- _ => clear H
  | H : path _ _ _ _ _ |- _ => clear H
  | H : ring _ _ |- _ => clear H
  | H : obj _ _ |- _ => clear H
  | H : NoDup _ |- _ => clear H
  end;
  repeat (rewrite ?elem_of_cons, ?elem_of_app, ?elem_of_nil in *);
  first [tauto | naive_solver | intuition congruence].

Ltac touches_tac :=
  split; [intros u Hu; apply lookup_fields; fields; rewrite ?decide_False by (intros ->; mem); done
         | intros u; repeat match goal with H : forall x, obj _ x <-> obj _ x |- _ => rewrite H end; done].

(** The value of a field after some writes. *)
Ltac field_at :=
  fields; repeat first [rewrite decide_True by done | rewrite decide_False by (intros ->; mem)]; done.

Lemma tail_hd (a : Z) l u : NoDup (a :: l) -> u ∈ tail (l ++ [a]) -> u <> hd a l /\ u ∈ a :: l.
Proof.
  intros Hd. destruct l as [| y l]; cbn [app tail hd]; [set_solver |].
  rewrite !NoDup_cons in Hd. intros Hu. set_solver.
Qed.

Lemma ring_add m a l new :
  ring m (a :: l) -> obj m new -> new ∉ a :: l ->
  exists m', inline_list_add new a m = Ok m' /\ ring m' (a :: new :: l) /\ touches (a :: new :: l) m m'.
Proof.
  intros Hr Hnew Hnot. destruct (ring_neighbours _ _ _ Hr) as (Ha0 & Hn & Hnp & p & Hp & Hpx & Hpn).
  assert (Hy : hd a l ∈ a :: l) by (destruct l; set_solver).
  remember (hd a l) as y eqn:Ey.
  assert (Hoy : obj m y) by (by eapply ring_obj). assert (Hoa : obj m a) by (eapply ring_obj; [done | set_solver]).
  unfold inline_list_add. rewrite (load_fields m a y p) by done. cbn [mbind res_bind next prev].
  do 4 write. eexists. split; [reflexivity |]. split; [| touches_tac].
  destruct Hr as (Hd & Hnull & Hpath). destruct Hnew as [Hnew0 _]. split_and!; [| mem |].
  - pose proof (proj1 (NoDup_cons _ _) Hd) as [? ?]. rewrite !NoDup_cons. split_and!; [mem | mem | done].
  - cbn [path]. split_and!; [field_at | field_at |].
    apply (path_restart (nxt m) (prv m) _ _ a); rewrite <- ?Ey; [done | field_at | field_at | |].
    + intros u Hu. pose proof (proj1 (NoDup_cons _ _) Hd) as [? ?]. field_at.
    + intros u Hu. destruct (tail_hd a l u Hd Hu) as [? ?]. field_at.
Qed.

Lemma ring_del m p x r :
  ring m (p :: x :: r) ->
  exists m', inline_list_del x m = Ok m' /\ ring m' (p :: r) /\ touches (p :: r) m m'.
Proof.
  intros (Hd & Hnull & Hpath). cbn [path] in Hpath. destruct Hpath as (Hpx & Hxp & Hpath).
  destruct (path_hd _ _ _ _ _ Hpath) as [Hxn Hnx].
  assert (Hr : ring m (p :: x :: r)) by (split_and!; done).
  assert (Hy : hd p r ∈ p :: r) by (destruct r; set_solver). remember (hd p r) as y eqn:Ey.
  assert (Hop : obj m p) by (eapply ring_obj; [done | mem]).
  assert (Hoy : obj m y) by (eapply ring_obj; [done | mem]).
  unfold inline_list_del. rewrite (load_fields m x y p) by (done || mem). cbn [mbind res_bind next prev].
  do 2 write. eexists. split; [reflexivity |]. split; [| touches_tac].
  rewrite !NoDup_cons in Hd. destruct Hd as (Hd1 & Hd2 & Hd3).
  assert (Hd : NoDup (p :: r)) by (rewrite NoDup_cons; split; [mem | done]).
  split_and!; [done | mem |].
  apply (path_restart (nxt m) (prv m) _ _ x); rewrite <- ?Ey; [done | field_at | field_at | |].
  - intros u Hu. field_at.
  - intros u Hu. destruct (tail_hd p r u Hd Hu) as [? ?]. field_at.
Qed.

(** ** Lists with a head *)

(** [head] is the head of a list with the entries [es]. *)
Definition is_list (m : store) (head : Z) (es : list Z) : Prop := ring m (head :: es).

(** The node before a position. *)
Definition before (head : Z) (es : list Z) : Z := default head (last es).

Lemma before_split head es : exists s, head :: es = s ++ [before head es].
Proof.
  unfold before. destruct es as [| e es _] using rev_ind; [by exists [] |].
  exists (head :: es). by rewrite last_snoc.
Qed.

Lemma before_in head es : before head es ∈ head :: es.
Proof. destruct (before_split head es) as [s ->]. set_solver. Qed.

Lemma hd_in (head : Z) es : hd head es ∈ head :: es.
Proof. destruct es; set_solver. Qed.

(** A position in a list, seen from the node before it. *)
Lemma is_list_at m head es1 es2 :
  is_list m head (es1 ++ es2) -> exists s, head :: es1 = s ++ [before head es1] /\
    ring m (before head es1 :: es2 ++ s).
Proof.
  intros H. destruct (before_split head es1) as [s Es]. exists s. split; [done |].
  unfold is_list in H. change (head :: es1 ++ es2) with ((head :: es1) ++ es2) in H.
  rewrite Es, <- app_assoc in H. by apply ring_rotate in H.
Qed.

Lemma is_list_back m head es1 es2 s :
  head :: es1 = s ++ [before head es1] -> ring m (before head es1 :: es2 ++ s) -> is_list m head (es1 ++ es2).
Proof.
  intros Es H. change (before head es1 :: es2 ++ s) with ((before head es1 :: es2) ++ s) in H.
  apply ring_rotate in H. rewrite cons_middle, app_assoc, <- Es in H. done.
Qed.

Lemma is_list_links m head es1 es2 :
  is_list m head (es1 ++ es2) ->
  nxt m (before head es1) = Some (hd head es2) /\ prv m (hd head es2) = Some (before head es1).
Proof.
  intros H. destruct (is_list_at _ _ _ _ H) as (s & Es & Hr).
  destruct (ring_neighbours _ _ _ Hr) as (_ & Hn & Hp & _).
  assert (E : hd (before head es1) (es2 ++ s) = hd head es2).
  { destruct es2; [| done]. destruct s as [| a s]; cbn in *; congruence. }
  by rewrite E in *.
Qed.

Lemma add_tail_is_add m head es1 es2 new :
  is_list m head (es1 ++ es2) ->
  inline_list_add_tail new (hd head es2) m = inline_list_add new (before head es1) m.
Proof.
  intros H. destruct (is_list_links _ _ _ _ H) as [Hn Hp].
  destruct (load_obj m (hd head es2)) as (n1 & q1 & El1 & _ & Eq1).
  { eapply ring_obj; [exact H |]. pose proof (hd_in head es2). set_solver. }
  destruct (load_obj m (before head es1)) as (n2 & q2 & El2 & En2 & _).
  { eapply ring_obj; [exact H |]. pose proof (before_in head es1). set_solver. }
  simplify_eq. unfold inline_list_add_tail, inline_list_add. by rewrite El1, El2.
Qed.

(** Insertion.  On a list with the entries [es1 ++ es2] and a new object
    that is not part of it, adding the object after the last node of [es1] and
    adding it before the first of [es2] pass every assertion, write the same
    memory, and give the list [es1 ++ new :: es2]; no other object changes, so
    every other list is unaffected. *)
Theorem list_add_correct m head es1 es2 new :
  is_list m head (es1 ++ es2) -> obj m new -> new ∉ head :: es1 ++ es2 ->
  exists m', list_add new (before head es1) m = Ok m' /\ list_add_tail new (hd head es2) m = Ok m' /\
    is_list m' head (es1 ++ new :: es2) /\ touches (head :: es1 ++ new :: es2) m m'.
Proof.
  intros H Hnew Hnot. destruct (is_list_at _ _ _ _ H) as (s & Es & Hr).
  assert (Hperm : forall x, x ∈ before head es1 :: es2 ++ s <-> x ∈ head :: es1 ++ es2).
  { intros x. change (head :: es1 ++ es2) with ((head :: es1) ++ es2). rewrite Es. set_solver. }
  destruct (ring_add m (before head es1) (es2 ++ s) new Hr Hnew) as (m' & E & Hr' & Ht).
  { by rewrite Hperm. }
  assert (Hl : is_list m' head (es1 ++ new :: es2)) by (by apply (is_list_back _ _ _ (new :: es2) s)).
  assert (Hb : before head es1 ∈ head :: es1 ++ es2) by (pose proof (before_in head es1); set_solver).
  assert (Hh : hd head es2 ∈ head :: es1 ++ es2) by (pose proof (hd_in head es2); set_solver).
  assert (Hin : forall x, x ∈ head :: es1 ++ es2 -> x ∈ head :: es1 ++ new :: es2) by set_solver.
  assert (Hin' : new ∈ head :: es1 ++ new :: es2) by set_solver.
  exists m'. unfold list_add, list_add_tail. rewrite (add_tail_is_add m head es1 es2) by done. rewrite E.
  rewrite !(ring_check m _ _ H) by done. cbn [mbind res_bind].
  rewrite !(ring_check m' _ _ Hl) by auto. cbn [mbind res_bind]. split_and!; [done.. |].
  eapply touches_weaken; [| exact Ht]. intros x Hx. specialize (Hperm x). set_solver.
Qed.

Lemma del_spec m head es1 x es2 :
  is_list m head (es1 ++ x :: es2) ->
  exists m', list_del x m = Ok m' /\ is_list m' head (es1 ++ es2) /\ touches (head :: es1 ++ es2) m m' /\
    m' !! x = m !! x.
Proof.
  intros H. destruct (is_list_at _ _ _ _ H) as (s & Es & Hr). cbn [app] in Hr.
  destruct (ring_del _ _ _ _ Hr) as (m' & E & Hr' & Ht).
  assert (Ht' : touches (head :: es1 ++ es2) m m').
  { eapply touches_weaken; [| exact Ht]. intros u.
    change (head :: es1 ++ es2) with ((head :: es1) ++ es2). rewrite Es. set_solver. }
  exists m'. unfold list_del. rewrite (ring_check m _ _ H) by set_solver. cbn [mbind res_bind].
  split_and!; [done | by apply (is_list_back _ _ _ _ s) | done |].
  apply Ht'. destruct H as (Hd & _). change (head :: es1 ++ x :: es2) with ((head :: es1) ++ x :: es2) in Hd.
  rewrite <- Permutation_middle, NoDup_cons in Hd. set_solver.
Qed.

(** Removal.  Deleting an entry of a list passes its assertion and gives
    the list without the entry; only nodes that remain in the list are written,
    and the entry is left as it was. *)
Theorem list_del_correct m head es1 x es2 :
  is_list m head (es1 ++ x :: es2) ->
  exists m', list_del x m = Ok m' /\ is_list m' head (es1 ++ es2) /\ touches (head :: es1 ++ es2) m m' /\
    m' !! x = m !! x.
Proof. apply del_spec. Qed.

(** ** Emptiness and position tests *)

Lemma load_ring m l x : ring m l -> x ∈ l -> exists n q, load x m = Ok (ListHead n q) /\ nxt m x = Some n /\ prv m x = Some q.
Proof. intros H Hx. apply load_obj. by eapply ring_obj. Qed.

Lemma list_empty_spec m head es :
  is_list m head es -> list_empty head m = Ok (bool_decide (es = [])).
Proof.
  intros H. unfold list_empty. rewrite (ring_check m _ _ H) by set_solver.
  destruct (load_ring _ _ head H) as (n & q & -> & Hn & _); [set_solver |]. cbn [mbind res_bind next].
  destruct (is_list_links m head [] es H) as [Hn' _]. change (before head []) with head in Hn'.
  simplify_eq. f_equal. destruct es as [| e es]; cbn [hd]; [apply Z.eqb_refl |].
  destruct H as (Hd & _). rewrite NoDup_cons in Hd. apply Z.eqb_neq. set_solver.
Qed.

Lemma list_is_singular_spec m head es :
  is_list m head es -> list_is_singular head m = Ok (bool_decide (length es = 1%nat)).
Proof.
  intros H. unfold list_is_singular. rewrite (ring_check m _ _ H), (list_empty_spec _ _ _ H) by set_solver.
  cbn [mbind res_bind]. destruct (load_ring _ _ head H) as (n & q & -> & Hn & Hq); [set_solver |].
  destruct (is_list_links m head [] es H) as [Hn' _]. change (before head []) with head in Hn'.
  pose proof H as H0. rewrite <- (app_nil_r es) in H0. destruct (is_list_links m head es [] H0) as [_ Hq'].
  cbn [hd] in Hq'. simplify_eq. destruct es as [| e es]; [done |]. cbn [mbind res_bind next prev bool_decide hd].
  rewrite bool_decide_false by done. f_equal. destruct es as [| e' es _] using rev_ind; [by rewrite Z.eqb_refl |].
  unfold before. rewrite app_comm_cons, last_snoc. cbn [default].
  rewrite (bool_decide_false (length _ = _)) by (cbn [length]; rewrite length_app; cbn; lia).
  destruct H as (Hd & _). rewrite !NoDup_cons in Hd. apply Z.eqb_neq. set_solver.
Qed.

(** ** Cutting and splicing *)

(** Read a node, one of whose fields is known. *)
Ltac read_next v :=
  match goal with
  | |- context [load ?p ?m] =>
      let n := fresh "n" in let q := fresh "q" in let El := fresh "El" in
      let En := fresh "En" in
      destruct (load_obj m p) as (n & q & El & En & _); [obj_solve |]; rewrite El; clear El;
      cbn [mbind res_bind next prev];
      replace n with v in * by (enough (Some v = Some n) by congruence; rewrite <- En; field_at); clear En
  end.
Ltac read_prev v :=
  match goal with
  | |- context [load ?p ?m] =>
      let n := fresh "n" in let q := fresh "q" in let El := fresh "El" in
      let Eq := fresh "Eq" in
      destruct (load_obj m p) as (n & q & El & _ & Eq); [obj_solve |]; rewrite El; clear El;
      cbn [mbind res_bind next prev];
      replace q with v in * by (enough (Some v = Some q) by congruence; rewrite <- Eq; field_at); clear Eq
  end.

Lemma ring_cut m new list s entry es2 :
  ring m [new] -> ring m (list :: s ++ entry :: es2) -> new ∉ list :: s ++ entry :: es2 ->
  exists m', inline_list_cut_position new list entry m = Ok m' /\
    ring m' (new :: s ++ [entry]) /\ ring m' (list :: es2) /\
    touches (new :: list :: s ++ entry :: es2) m m'.
Proof.
  intros Hnew Hr Hnot. pose proof Hr as (Hd & Hnull & Hpath). apply path_app in Hpath as [Hp1 Hp2].
  destruct (path_hd _ _ _ _ _ Hp1) as [Hlh Hhl]. destruct (path_hd _ _ _ _ _ Hp2) as [Hef Hfe].
  assert (Hh : hd entry s ∈ s ++ [entry]) by (destruct s; set_solver).
  assert (Hf : hd list es2 ∈ es2 ++ [list]) by (destruct es2; set_solver).
  assert (Hds : NoDup (list :: es2) /\ NoDup (entry :: s) /\
    forall u, u ∈ s ++ [entry] -> u ∉ list :: es2).
  { rewrite NoDup_cons, NoDup_app, NoDup_cons in Hd. rewrite !NoDup_cons. set_solver. }
  destruct Hds as (Hd1 & Hd2 & Hdis).
  assert (Hon : obj m new) by (eapply ring_obj; [exact Hnew | mem]).
  assert (Hol : obj m list) by (eapply ring_obj; [exact Hr | mem]).
  assert (Hoe : obj m entry) by (eapply ring_obj; [exact Hr | mem]).
  remember (hd entry s) as h eqn:Eh. remember (hd list es2) as first eqn:Efirst.
  assert (Hoh : obj m h) by (eapply ring_obj; [exact Hr | mem]).
  assert (Hof : obj m first) by (eapply ring_obj; [exact Hr | mem]).
  assert (Hle : list <> entry /\ h <> first /\ new <> h /\ new <> first /\ new <> entry /\ new <> list).
  { specialize (Hdis h Hh) as Hdh. specialize (Hdis entry ltac:(mem)) as Hde. clear - Hnot Hh Hf Hdh Hde.
    split_and!; intros ->; set_solver. }
  destruct Hle as (Hle & Hhf & Hnh & Hnf & Hne & Hnl).
  unfold inline_list_cut_position. read_next first. rewrite (proj2 (Z.eqb_neq _ _) Hle).
  read_next h. write. read_next h. write. write. read_prev entry. write. write. read_next first. write.
  eexists. split; [reflexivity |]. split_and!; [| | touches_tac].
  - split_and!.
    + rewrite NoDup_cons, NoDup_app. rewrite NoDup_cons in Hd2. destruct Hd2 as [? ?].
      split_and!; [mem | done | intros u Hu; mem | apply NoDup_singleton].
    + destruct Hon as [? _]. mem.
    + apply path_app. split; [| cbn [path]; split; field_at].
      apply (path_restart (nxt m) (prv m) _ _ list); rewrite <- ?Eh; [done | field_at | field_at | |].
      * intros u Hu. specialize (Hdis u ltac:(mem)). rewrite NoDup_cons in Hd2. destruct Hd2. field_at.
      * intros u Hu. destruct (tail_hd entry s u Hd2 Hu) as [? Hu']. specialize (Hdis u ltac:(mem)). field_at.
  - split_and!; [done | mem |].
    apply (path_restart (nxt m) (prv m) _ _ entry); rewrite <- ?Efirst; [done | field_at | field_at | |].
    + intros u Hu. rewrite NoDup_cons in Hd1. destruct Hd1. specialize (Hdis entry ltac:(mem)). field_at.
    + intros u Hu. destruct (tail_hd list es2 u Hd1 Hu) as [? Hu']. specialize (Hdis h Hh). field_at.
Qed.

Lemma ring_splice m list s last e l :
  ring m (list :: s ++ [last]) -> ring m (e :: l) -> (forall u, u ∈ list :: s ++ [last] -> u ∉ e :: l) ->
  exists m', inline_list_splice list e m = Ok m' /\ ring m' (e :: s ++ last :: l) /\
    touches (e :: s ++ last :: l) m m' /\
    (forall u, nxt m' u = if decide (u = e) then Some (hd last s)
                          else if decide (u = last) then Some (hd e l) else nxt m u) /\
    (forall u, prv m' u = if decide (u = hd last s) then Some e
                          else if decide (u = hd e l) then Some last else prv m u).
Proof.
  intros Hr1 Hr2 Hdis. pose proof Hr1 as (Hd1 & Hnull1 & Hpath1). pose proof Hr2 as (Hd2 & Hnull2 & Hpath2).
  apply path_app in Hpath1 as [Hp1 [Hll Hll']].
  destruct (path_hd _ _ _ _ _ Hp1) as [Hlf Hfl]. destruct (path_hd _ _ _ _ _ Hpath2) as [Hen Hne].
  assert (Hf : hd last s ∈ s ++ [last]) by (destruct s; set_solver).
  assert (Hy : hd e l ∈ e :: l) by apply hd_in.
  assert (Hd3 : (list ∉ s ++ [last]) /\ NoDup s /\ (last ∉ s) /\ NoDup (last :: s)).
  { rewrite NoDup_cons, NoDup_app in Hd1. rewrite NoDup_cons. clear Hdis. set_solver. }
  destruct Hd3 as (Hlist & Hds & Hlast & Hds').
  remember (hd last s) as first eqn:Ef. remember (hd e l) as y eqn:Ey.
  assert (Hol : obj m last) by (eapply ring_obj; [exact Hr1 | mem]).
  assert (Hof : obj m first) by (eapply ring_obj; [exact Hr1 | mem]).
  assert (Hoe : obj m e) by (eapply ring_obj; [exact Hr2 | mem]).
  assert (Hoy : obj m y) by (eapply ring_obj; [exact Hr2 | mem]).
  assert (Hne' : (last ∉ e :: l) /\ (first ∉ e :: l)) by (split; apply Hdis; mem).
  destruct Hne' as [Hlast' Hfirst'].
  unfold inline_list_splice. rewrite (list_empty_spec m list (s ++ [last]) Hr1).
  rewrite (load_fields m list first last) by (done || mem). cbn [mbind res_bind next prev].
  rewrite bool_decide_false by (by destruct s).
  read_next y. write. read_next y. write. write. read_prev e. write.
  eexists. split; [reflexivity |]. split_and!; [| touches_tac | intros u; fields; done | intros u; fields; done].
  split_and!.
  - rewrite NoDup_cons in Hd2 |- *. destruct Hd2 as [Hel Hdl]. rewrite NoDup_app, NoDup_cons.
    assert (He : e ∉ s) by (intros Hs; apply (Hdis e); mem).
    split_and!; [mem | done | | mem | done]. intros u Hu. specialize (Hdis u ltac:(mem)). intros Hu'.
    assert (u <> last) by (intros ->; done). mem.
  - mem.
  - apply path_app. split.
    + apply (path_restart (nxt m) (prv m) _ _ list); rewrite <- ?Ef; [done | field_at | field_at | |].
      * intros u Hu. specialize (Hdis u ltac:(mem)). field_at.
      * intros u Hu. destruct (tail_hd last s u Hds' Hu) as [? Hu']. specialize (Hdis u ltac:(mem)). field_at.
    + apply (path_restart (nxt m) (prv m) _ _ e); rewrite <- ?Ey; [done | field_at | field_at | |].
      * intros u Hu. rewrite NoDup_cons in Hd2. destruct Hd2. field_at.
      * intros u Hu. destruct (tail_hd e l u Hd2 Hu) as [? Hu']. field_at.
Qed.

(** Inserting before the following node writes the same memory. *)
Lemma ring_splice_tail m list s last e l m' :
  ring m (list :: s ++ [last]) -> ring m (e :: l) -> (forall u, u ∈ list :: s ++ [last] -> u ∉ e :: l) ->
  inline_list_splice list e m = Ok m' -> inline_list_splice_tail list (hd e l) m = Ok m'.
Proof.
  intros Hr1 Hr2 Hdis E. destruct (ring_splice m list s last e l Hr1 Hr2 Hdis) as (m0 & E' & _ & _ & Hn0 & Hp0).
  rewrite E in E'. injection E' as <-. pose proof Hr1 as (Hd1 & Hnull1 & Hpath1). pose proof Hr2 as (Hd2 & Hnull2 & Hpath2).
  apply path_app in Hpath1 as [Hp1 [Hll Hll']].
  destruct (path_hd _ _ _ _ _ Hp1) as [Hlf Hfl]. destruct (path_hd _ _ _ _ _ Hpath2) as [Hen Hne].
  assert (Hf : hd last s ∈ s ++ [last]) by (destruct s; set_solver).
  assert (Hy : hd e l ∈ e :: l) by apply hd_in.
  remember (hd last s) as first eqn:Ef. remember (hd e l) as y eqn:Ey.
  assert (Hol : obj m last) by (eapply ring_obj; [exact Hr1 | mem]).
  assert (Hof : obj m first) by (eapply ring_obj; [exact Hr1 | mem]).
  assert (Hoe : obj m e) by (eapply ring_obj; [exact Hr2 | mem]).
  assert (Hoy : obj m y) by (eapply ring_obj; [exact Hr2 | mem]).
  assert (Hne' : (last ∉ e :: l) /\ (first ∉ e :: l)) by (split; apply Hdis; mem).
  destruct Hne' as [Hlast' Hfirst'].
  unfold inline_list_splice_tail. rewrite (list_empty_spec m list (s ++ [last]) Hr1).
  rewrite (load_fields m list first last) by (done || mem). cbn [mbind res_bind next prev].
  rewrite bool_decide_false by (by destruct s).
  read_prev e. write. read_prev e. write. write. read_next y. write.
  f_equal. apply map_eq. intros u. apply lookup_fields; rewrite ?Hn0, ?Hp0; fields.
  - destruct (decide (u = last)) as [-> | ?]; [by rewrite decide_False by (intros ->; mem) |]. done.
  - destruct (decide (u = y)) as [-> | ?]; [by rewrite decide_False by (intros ->; mem) |]. done.
Qed.

Lemma init_list_spec m p :
  obj m p -> exists m', INIT_LIST_HEAD p m = Ok m' /\ is_list m' p [] /\ touches [p] m m'.
Proof.
  intros Hp. unfold INIT_LIST_HEAD. do 2 write. eexists. split; [reflexivity |]. split; [| touches_tac].
  destruct Hp as [Hp _]. split_and!; [apply NoDup_singleton | mem | cbn [path]; split; field_at].
Qed.

(** Cutting.  Cutting a list after the entries [es1] moves them to the
    other, empty, list and leaves the rest; cutting at the head moves nothing. *)
Theorem list_cut_position_correct m new list es1 es2 :
  is_list m new [] -> is_list m list (es1 ++ es2) -> new ∉ list :: es1 ++ es2 ->
  exists m', list_cut_position new list (before list es1) m = Ok m' /\
    is_list m' new es1 /\ is_list m' list es2 /\ touches (new :: list :: es1 ++ es2) m m'.
Proof.
  intros Hn Hl Hnot. unfold list_cut_position.
  assert (Hb : before list es1 ∈ list :: es1 ++ es2) by (pose proof (before_in list es1); mem).
  rewrite (ring_check m [new] new Hn) by set_solver. rewrite (list_empty_spec _ _ _ Hn). cbn [mbind res_bind].
  rewrite (ring_check m _ list Hl), (ring_check m _ _ Hl) by (done || mem). cbn [mbind res_bind].
  rewrite bool_decide_true by done. cbn [assert mbind res_bind].
  destruct es1 as [| entry s _] using rev_ind.
  - exists m. split_and!; [| done | done | split; done].
    unfold inline_list_cut_position. change (before list []) with list.
    destruct (load_ring _ _ list Hl) as (? & ? & -> & _); [mem |]. by rewrite Z.eqb_refl.
  - unfold before. rewrite last_snoc. cbn [default]. rewrite <- app_assoc in *. cbn [app] in *. by apply ring_cut.
Qed.

(** The part of splicing that the four operations share. *)
Lemma splice_spec m list es head es1 es2 :
  is_list m list es -> is_list m head (es1 ++ es2) ->
  (forall u, u ∈ list :: es -> u ∉ head :: es1 ++ es2) ->
  exists m', list_splice list (before head es1) m = Ok m' /\ list_splice_tail list (hd head es2) m = Ok m' /\
    is_list m' head (es1 ++ es ++ es2) /\ touches (head :: es1 ++ es ++ es2) m m'.
Proof.
  intros Hl Hh Hdis. unfold list_splice, list_splice_tail.
  rewrite !(ring_check m _ list Hl) by mem.
  rewrite (ring_check m _ (before head es1) Hh) by (pose proof (before_in head es1); mem).
  rewrite (ring_check m _ (hd head es2) Hh) by (pose proof (hd_in head es2); mem). cbn [mbind res_bind].
  destruct (is_list_links _ _ _ _ Hh) as [Hn Hp].
  destruct es as [| last s _] using rev_ind.
  { exists m. unfold inline_list_splice, inline_list_splice_tail. rewrite (list_empty_spec _ _ _ Hl).
    destruct (load_ring _ _ list Hl) as (? & ? & -> & _); [mem |]. by split_and!. }
  destruct (is_list_at _ _ _ _ Hh) as (s2 & Es & Hr).
  assert (Hperm : forall x, x ∈ before head es1 :: es2 ++ s2 <-> x ∈ head :: es1 ++ es2).
  { intros x. change (head :: es1 ++ es2) with ((head :: es1) ++ es2). rewrite Es. clear. set_solver. }
  assert (Hdis' : forall u, u ∈ list :: s ++ [last] -> u ∉ before head es1 :: es2 ++ s2).
  { intros u Hu. rewrite Hperm. by apply Hdis. }
  destruct (ring_splice m list s last _ _ Hl Hr Hdis') as (m' & E & Hr' & Ht & _).
  exists m'. split_and!; [done | | |].
  - replace (hd head es2) with (hd (before head es1) (es2 ++ s2)); [by eapply ring_splice_tail |].
    destruct es2; [| done]. destruct s2 as [| a s2]; cbn in *; congruence.
  - apply (is_list_back _ _ _ _ s2 Es). by rewrite <- !app_assoc.
  - eapply touches_weaken; [| exact Ht]. intros u Hu. specialize (Hperm u). clear -Hperm Hu. set_solver.
Qed.

(** Splicing.  Moving the entries of one list into another, at any
    position and named by the node before it or the node after it, gives the
    second list with the entries in order at that position; the variants that
    reinitialise leave the first list empty. *)
Theorem list_splice_correct m list es head es1 es2 :
  is_list m list es -> is_list m head (es1 ++ es2) ->
  (forall u, u ∈ list :: es -> u ∉ head :: es1 ++ es2) ->
  (exists m', list_splice list (before head es1) m = Ok m' /\ list_splice_tail list (hd head es2) m = Ok m' /\
    is_list m' head (es1 ++ es ++ es2) /\ touches (head :: es1 ++ es ++ es2) m m') /\
  (exists m', list_splice_init list (before head es1) m = Ok m' /\
    list_splice_tail_init list (hd head es2) m = Ok m' /\
    is_list m' head (es1 ++ es ++ es2) /\ is_list m' list [] /\
    touches (list :: head :: es1 ++ es ++ es2) m m').
Proof.
  intros Hl Hh Hdis. destruct (splice_spec m list es head es1 es2 Hl Hh Hdis) as (m1 & E1 & E2 & H1 & T1).
  split; [by exists m1 |]. destruct (init_list_spec m1 list) as (m2 & Ei & H2 & T2).
  { apply T1. eapply ring_obj; [exact Hl | mem]. }
  assert (Hlist : list ∉ head :: es1 ++ es ++ es2).
  { pose proof (Hdis list ltac:(mem)). destruct Hl as (Hd & _). rewrite NoDup_cons in Hd. destruct Hd. mem. }
  exists m2. unfold list_splice_init, list_splice_tail_init, inline_list_splice_init, inline_list_splice_tail_init.
  rewrite !(ring_check m _ list Hl) by mem.
  rewrite (ring_check m _ (before head es1) Hh) by (pose proof (before_in head es1); mem).
  rewrite (ring_check m _ (hd head es2) Hh) by (pose proof (hd_in head es2); mem). cbn [mbind res_bind].
  rewrite E1, E2. cbn [mbind res_bind]. rewrite Ei. split_and!; [done | done | | done |].
  - eapply ring_frame; [exact T2 | | exact H1]. intros x Hx. intros Hx'. apply Hlist. apply list_elem_of_singleton in Hx' as ->. done.
  - apply (touches_trans _ _ m1); (eapply touches_weaken; [| done]); intros x Hx; mem.
Qed.

(** ** Iteration *)

Lemma list_fuel_enough m head es : is_list m head es -> (length es < list_fuel m)%nat.
Proof.
  intros H. unfold list_fuel. apply Nat.lt_succ_r.
  assert (Hd : NoDup es) by (destruct H as (Hd & _); apply NoDup_cons in Hd; tauto).
  rewrite <- (size_list_to_set (C := gset Z) es Hd), <- (size_dom (D := gset Z) m). apply subseteq_size.
  intros x Hx. rewrite elem_of_list_to_set in Hx. apply elem_of_dom.
  apply (ring_obj m (head :: es) x H). by right.
Qed.

Lemma is_list_head_notin m head es x : is_list m head es -> x ∈ es -> x <> head.
Proof. intros (Hd & _) Hx. apply NoDup_cons in Hd as [? _]. set_solver. Qed.

Lemma before_snoc head es x : before head (es ++ [x]) = x.
Proof. unfold before. by rewrite last_snoc. Qed.

(** What is read at an entry of a list. *)
Lemma load_entry m head es1 x es2 :
  is_list m head (es1 ++ x :: es2) ->
  load x m = Ok (ListHead (hd head es2) (before head es1)).
Proof.
  intros H. assert (Hx : x <> NULL) by (destruct H as (_ & Hn & _); set_solver).
  destruct (is_list_links m head es1 (x :: es2) H) as [_ Hp]. cbn [hd] in Hp.
  pose proof H as H2. change (es1 ++ x :: es2) with (es1 ++ [x] ++ es2) in H2. rewrite app_assoc in H2.
  destruct (is_list_links m head (es1 ++ [x]) es2 H2) as [Hn _]. rewrite before_snoc in Hn.
  by apply load_fields.
Qed.

Lemma load_head m head es : is_list m head es -> load head m = Ok (ListHead (hd head es) (before head es)).
Proof.
  intros H. assert (Hx : head <> NULL) by (destruct H as (_ & Hn & _); set_solver).
  destruct (is_list_links m head [] es H) as [Hn _].
  pose proof H as H2. rewrite <- (app_nil_r es) in H2.
  destruct (is_list_links m head es [] H2) as [_ Hp]. by apply load_fields.
Qed.

Lemma contains_loop_spec m head es1 es2 fuel entry :
  is_list m head (es1 ++ es2) -> (length es2 < fuel)%nat ->
  contains_loop fuel entry (hd head es2) head m = Ok (bool_decide (entry ∈ es2)).
Proof.
  revert es1 fuel. induction es2 as [| x es2 IH]; intros es1 fuel H Hf;
    (destruct fuel as [| fuel]; [cbn in Hf; lia |]); cbn [contains_loop hd].
  - by rewrite Z.eqb_refl.
  - assert (Hx : x <> head) by (eapply is_list_head_notin; [exact H | set_solver]).
    rewrite (proj2 (Z.eqb_neq _ _) Hx). destruct (Z.eqb_spec x entry) as [-> | Hne].
    { rewrite bool_decide_true; [done | set_solver]. }
    rewrite (load_entry _ _ _ _ _ H). cbn [mbind res_bind next].
    change (x :: es2) with ([x] ++ es2) in H. rewrite app_assoc in H.
    rewrite (IH (es1 ++ [x])) by (done || (cbn in Hf; lia)). f_equal. apply bool_decide_ext. set_solver.
Qed.

(** Freeing an object that is not on a list. *)
Lemma ring_delete m x r : x ∉ r -> ring m r -> ring (delete x m) r.
Proof.
  intros Hx. destruct r as [| y r]; [done |]. intros (? & ? & Hp). split_and!; [done.. |].
  assert (Hsame : forall u, u ∈ y :: r -> delete x m !! u = m !! u)
    by (intros u Hu; apply lookup_delete_ne; set_solver).
  eapply path_ext; [| | exact Hp]; intros u Hu; unfold nxt, prv; rewrite Hsame; set_solver.
Qed.

Section iteration.
Context {S : Type} (f : Z -> S -> S) (off : Z).

(** A loop body that works on the container without changing the list. *)
Definition visit (pos : Z) (st : store * S) : res (store * S) := Ok (st.1, f pos st.2).

(** The same where the chosen entries are removed and their containers freed, as
    in the typical loop that empties a list: a freed entry leaves the store, and
    reading it again is a [Trap]. *)
Definition visit_del (del : Z -> bool) (pos : Z) (st : store * S) : res (store * S) :=
  if del pos then m ← list_del (pos + off) st.1; Ok (delete (pos + off) m, f pos st.2)
  else Ok (st.1, f pos st.2).

Definition visit_all (es : list Z) (s : S) : S := foldl (fun s x => f (x - off) s) s es.

Lemma entry_loop_next m head es1 es2 fuel s :
  is_list m head (es1 ++ es2) -> (length es2 < fuel)%nat ->
  entry_loop visit next off fuel (hd head es2 - off) head (m, s) = Ok (m, visit_all es2 s).
Proof.
  revert es1 fuel s. induction es2 as [| x es2 IH]; intros es1 fuel s H Hf;
    (destruct fuel as [| fuel]; [cbn in Hf; lia |]); cbn [entry_loop hd]; rewrite Z.sub_add.
  - by rewrite Z.eqb_refl.
  - assert (Hx : x <> head) by (eapply is_list_head_notin; [exact H | set_solver]).
    rewrite (proj2 (Z.eqb_neq _ _) Hx). change (visit (x - off) (m, s)) with (Ok (m, f (x - off) s)).
    cbn [mbind res_bind fst snd]. rewrite (load_entry _ _ _ _ _ H). cbn [mbind res_bind next]. unfold list_entry.
    rewrite (ring_check m _ _ H) by (pose proof (hd_in head es2); set_solver). cbn [mbind res_bind].
    change (x :: es2) with ([x] ++ es2) in H. rewrite app_assoc in H.
    rewrite (IH (es1 ++ [x])) by (done || (cbn in Hf; lia)). done.
Qed.

Lemma entry_loop_prev m head es1 es2 fuel s :
  is_list m head (es1 ++ es2) -> (length es1 < fuel)%nat ->
  entry_loop visit prev off fuel (before head es1 - off) head (m, s) = Ok (m, visit_all (reverse es1) s).
Proof.
  revert es2 fuel s. induction es1 as [| x es1 IH] using rev_ind; intros es2 fuel s H Hf;
    (destruct fuel as [| fuel]; [rewrite ?length_app in Hf; cbn in Hf; lia |]); cbn [entry_loop]; rewrite Z.sub_add.
  - by rewrite Z.eqb_refl.
  - rewrite before_snoc. rewrite <- app_assoc in H. cbn [app] in H.
    assert (Hx : x <> head) by (eapply is_list_head_notin; [exact H | set_solver]).
    rewrite (proj2 (Z.eqb_neq _ _) Hx). change (visit (x - off) (m, s)) with (Ok (m, f (x - off) s)).
    cbn [mbind res_bind fst snd]. rewrite (load_entry _ _ _ _ _ H). cbn [mbind res_bind prev]. unfold list_entry.
    rewrite (ring_check m _ _ H) by (pose proof (before_in head es1); set_solver). cbn [mbind res_bind].
    rewrite (IH (x :: es2)) by (done || (rewrite length_app in Hf; cbn in Hf; lia)).
    rewrite reverse_app, reverse_singleton. done.
Qed.

Lemma list_loop_visit m head es1 es2 fuel s :
  is_list m head (es1 ++ es2) -> (length es2 < fuel)%nat ->
  list_loop visit fuel (hd head es2) head (m, s) = Ok (m, foldl (fun s x => f x s) s es2).
Proof.
  revert es1 fuel s. induction es2 as [| x es2 IH]; intros es1 fuel s H Hf;
    (destruct fuel as [| fuel]; [cbn in Hf; lia |]); cbn [list_loop hd].
  - by rewrite Z.eqb_refl.
  - assert (Hx : x <> head) by (eapply is_list_head_notin; [exact H | set_solver]).
    rewrite (proj2 (Z.eqb_neq _ _) Hx). change (visit x (m, s)) with (Ok (m, f x s)).
    cbn [mbind res_bind fst snd]. rewrite (load_entry _ _ _ _ _ H). cbn [mbind res_bind next].
    change (x :: es2) with ([x] ++ es2) in H. rewrite app_assoc in H.
    rewrite (IH (es1 ++ [x])) by (done || (cbn in Hf; lia)). done.
Qed.

Lemma visit_del_spec del m head ks x es s :
  is_list m head (ks ++ x :: es) ->
  exists m', visit_del del (x - off) (m, s) = Ok (m', f (x - off) s) /\
    is_list m' head ((if del (x - off) then ks else ks ++ [x]) ++ es) /\
    (if del (x - off) then m' !! x = None else m' = m).
Proof.
  intros H. unfold visit_del. cbn [fst snd]. rewrite Z.sub_add. destruct (del (x - off)).
  - destruct (del_spec m head ks x es H) as (m1 & -> & H1 & _). cbn [mbind res_bind].
    eexists. split; [done |]. split; [| apply lookup_delete_eq]. apply ring_delete; [| done].
    destruct H as (Hd & _). rewrite NoDup_cons, NoDup_app, NoDup_cons in Hd. set_solver.
  - exists m. split; [done |]. split; [| done]. by rewrite <- app_assoc.
Qed.

(** The plain iterator reads an entry after the body has freed it. *)
Lemma entry_loop_freed del m head ks es fuel s :
  is_list m head (ks ++ es) -> Exists (fun x => del (x - off) = true) es ->
  entry_loop (visit_del del) next off fuel (hd head es - off) head (m, s) = Trap.
Proof.
  intros H He. revert ks fuel s H. induction es as [| x es IH]; intros ks fuel s H; [by apply Exists_nil in He |].
  destruct fuel as [| fuel]; [done |]. cbn [entry_loop hd]. rewrite Z.sub_add.
  assert (Hx : x <> head) by (eapply is_list_head_notin; [exact H | set_solver]).
  rewrite (proj2 (Z.eqb_neq _ _) Hx).
  destruct (visit_del_spec del m head ks x es s H) as (m1 & -> & H1 & Hm). cbn [mbind res_bind fst].
  destruct (del (x - off)) eqn:Ed.
  { unfold load. rewrite Hm. by case_if. }
  subst m1. rewrite (load_entry _ _ _ _ _ H). cbn [mbind res_bind next]. unfold list_entry.
  rewrite (ring_check m _ _ H) by (pose proof (hd_in head es); set_solver). cbn [mbind res_bind].
  apply Exists_cons in He as [He | He]; [congruence |]. by apply (IH He (ks ++ [x])).
Qed.

(** Removal of entries while iterating. *)
Lemma safe_loop_visit del m head ks es fuel tmp s :
  is_list m head (ks ++ es) -> (length es < fuel)%nat ->
  (es <> [] -> tmp = hd head (tail es) - off) ->
  exists m', safe_loop (visit_del del) off fuel (hd head es - off) tmp head (m, s) = Ok (m', visit_all es s) /\
    is_list m' head (ks ++ filter (fun x => del (x - off) = false) es).
Proof.
  revert ks m fuel tmp s. induction es as [| x es IH]; intros ks m fuel tmp s H Hf Htmp;
    (destruct fuel as [| fuel]; [cbn in Hf; lia |]); cbn [safe_loop hd]; rewrite Z.sub_add.
  { rewrite Z.eqb_refl. by exists m. }
  assert (Hx : x <> head) by (eapply is_list_head_notin; [exact H | set_solver]).
  rewrite (proj2 (Z.eqb_neq _ _) Hx). rewrite Htmp by done. cbn [tail]. clear Htmp tmp.
  set (ks' := if del (x - off) then ks else ks ++ [x]).
  destruct (visit_del_spec del m head ks x es s H) as (m1 & -> & H1 & _). fold ks' in H1. cbn [mbind res_bind fst snd]. rewrite Z.sub_add.
  assert (Hfilt : filter (fun x => del (x - off) = false) (x :: es) =
    (if del (x - off) then [] else [x]) ++ filter (fun x => del (x - off) = false) es).
  { rewrite filter_cons. by destruct (del (x - off)); case_decide. }
  rewrite Hfilt. replace (ks ++ _ ++ filter _ es) with (ks' ++ filter (fun x => del (x - off) = false) es).
  2: { unfold ks'. destruct (del (x - off)); [done | by rewrite <- app_assoc]. }
  assert (Hload : exists h, load (hd head es) m1 = Ok h /\ next h ∈ head :: ks' ++ es /\
    (es <> [] -> next h = hd head (tail es))).
  { destruct es as [| y es].
    - rewrite app_nil_r in *. eexists. split; [cbn [hd]; by apply load_head |]. cbn [next].
      split; [pose proof (hd_in head ks'); set_solver | done].
    - eexists. split; [cbn [hd]; by eapply load_entry |]. cbn [next tail].
      split; [pose proof (hd_in head es); set_solver | done]. }
  destruct Hload as (h & -> & Hin & Htmp). cbn [mbind res_bind]. unfold list_entry.
  rewrite (ring_check m1 _ _ H1 Hin). cbn [mbind res_bind].
  apply IH; [done | cbn in Hf; lia |]. intros Hne. by rewrite Htmp.
Qed.

End iteration.

(** The iterators that follow one pointer from the head, or from an entry. *)
Lemma for_each_dir_next {S} (f : Z -> S -> S) off m head es s :
  is_list m head es ->
  list_for_each_entry (visit f) head off (m, s) = Ok (m, visit_all f off es s).
Proof.
  intros H. unfold list_for_each_entry, list_for_each_entry_dir. cbn [fst].
  rewrite (ring_check m _ head H), (load_head _ _ _ H) by set_solver. cbn [mbind res_bind next]. unfold list_entry.
  rewrite (ring_check m _ _ H) by (pose proof (hd_in head es); set_solver). cbn [mbind res_bind].
  apply (entry_loop_next f off m head [] es); [done | by apply (list_fuel_enough m head)].
Qed.

Lemma for_each_dir_prev {S} (f : Z -> S -> S) off m head es s :
  is_list m head es ->
  list_for_each_entry_reverse (visit f) head off (m, s) = Ok (m, visit_all f off (reverse es) s).
Proof.
  intros H. unfold list_for_each_entry_reverse, list_for_each_entry_dir. cbn [fst].
  rewrite (ring_check m _ head H), (load_head _ _ _ H) by set_solver. cbn [mbind res_bind prev]. unfold list_entry.
  rewrite (ring_check m _ _ H) by (pose proof (before_in head es); set_solver). cbn [mbind res_bind].
  apply (entry_loop_prev f off m head es []); [by rewrite app_nil_r | by apply (list_fuel_enough m head)].
Qed.

Lemma for_each_continue {S} (f : Z -> S -> S) off m head es1 x es2 s :
  is_list m head (es1 ++ x :: es2) ->
  list_for_each_entry_continue (visit f) (x - off) head off (m, s) = Ok (m, visit_all f off es2 s) /\
  list_for_each_entry_continue_reverse (visit f) (x - off) head off (m, s) =
    Ok (m, visit_all f off (reverse es1) s).
Proof.
  intros H. pose proof (list_fuel_enough _ _ _ H) as Hfuel. rewrite length_app in Hfuel. cbn [length] in Hfuel.
  unfold list_for_each_entry_continue, list_for_each_entry_continue_reverse, list_for_each_entry_continue_dir.
  cbn [fst]. rewrite Z.sub_add, (load_entry _ _ _ _ _ H), (ring_check m _ head H) by set_solver.
  cbn [mbind res_bind next prev]. unfold list_entry.
  rewrite (ring_check m _ (hd head es2) H) by (pose proof (hd_in head es2); set_solver).
  rewrite (ring_check m _ (before head es1) H) by (pose proof (before_in head es1); set_solver).
  cbn [mbind res_bind]. split.
  - apply (entry_loop_next f off m head (es1 ++ [x]) es2); [by rewrite <- app_assoc | lia].
  - apply (entry_loop_prev f off m head es1 (x :: es2)); [done | lia].
Qed.

(** C28. Iteration.  Every iterator ends, passes every assertion and visits
    exactly the entries it should, once and in order: all of them forwards or
    backwards, or those after or before a given one; [list_contains] decides
    membership; and the iterator that is safe against deletion visits every
    entry even when the loop body removes and frees any choice of them, and
    leaves the list of the others.  The plain iterator is not safe: with such a
    body it reads the first freed entry. *)
Theorem list_iteration_correct {S} (f : Z -> S -> S) (del : Z -> bool) off m head es s :
  is_list m head es ->
  list_for_each (visit f) head (m, s) = Ok (m, foldl (fun s x => f x s) s es) /\
  list_for_each_entry (visit f) head off (m, s) = Ok (m, visit_all f off es s) /\
  list_for_each_entry_reverse (visit f) head off (m, s) = Ok (m, visit_all f off (reverse es) s) /\
  (forall es1 x es2, es = es1 ++ x :: es2 ->
    list_for_each_entry_continue (visit f) (x - off) head off (m, s) = Ok (m, visit_all f off es2 s) /\
    list_for_each_entry_continue_reverse (visit f) (x - off) head off (m, s) =
      Ok (m, visit_all f off (reverse es1) s)) /\
  (forall entry, list_check entry m = Ok tt -> list_contains entry head m = Ok (bool_decide (entry ∈ es))) /\
  exists m', list_for_each_entry_safe (visit_del f off del) head off (m, s) = Ok (m', visit_all f off es s) /\
    is_list m' head (filter (fun x => del (x - off) = false) es) /\
    (Exists (fun x => del (x - off) = true) es ->
     list_for_each_entry (visit_del f off del) head off (m, s) = Trap).
Proof.
  intros H. pose proof (list_fuel_enough _ _ _ H) as Hfuel.
  pose proof (ring_check m _ head H ltac:(set_solver)) as Hc. pose proof (load_head _ _ _ H) as Hl.
  pose proof (ring_check m _ (hd head es) H (hd_in head es)) as Hc'.
  split_and!; [| by apply for_each_dir_next | by apply for_each_dir_prev | | |].
  - unfold list_for_each. cbn [fst]. rewrite Hc, Hl. cbn [mbind res_bind next].
    by apply (list_loop_visit f m head []).
  - intros es1 x es2 ->. by apply for_each_continue.
  - intros entry He. unfold list_contains, inline_list_contains. rewrite Hc, He, Hl. cbn [mbind res_bind next].
    by apply (contains_loop_spec m head []).
  - unfold list_for_each_entry_safe. cbn [fst]. rewrite Hc, Hl. cbn [mbind res_bind next]. unfold list_entry.
    rewrite Hc'. cbn [mbind res_bind]. rewrite Z.sub_add.
    assert (Hload : exists h, load (hd head es) m = Ok h /\ next h ∈ head :: es /\ (es <> [] -> next h = hd head (tail es))).
    { destruct es as [| y es].
      - eexists. split; [cbn [hd]; by apply load_head |]. cbn [next hd]. split; [set_solver | done].
      - eexists. split; [cbn [hd]; by apply (load_entry m head [] y es) |]. cbn [next tail].
        split; [pose proof (hd_in head es); set_solver | done]. }
    destruct Hload as (h & -> & Hin & Htmp). cbn [mbind res_bind]. rewrite (ring_check m _ _ H Hin).
    cbn [mbind res_bind].
    destruct (safe_loop_visit f off del m head [] es (list_fuel m) (next h - off) s) as (m' & -> & H');
      [done | done | by intros Hne; rewrite Htmp |].
    exists m'. split_and!; [done | done |]. intros He.
    unfold list_for_each_entry, list_for_each_entry_dir. cbn [fst]. rewrite Hc, Hl. cbn [mbind res_bind next].
    unfold list_entry. rewrite Hc'. cbn [mbind res_bind]. by apply (entry_loop_freed f off del m head []).
Qed.

(** ** A concrete list: the head at 8 and entries at 16, 32 and 48, and an
    unlinked object at 64. *)

Definition example_store : store :=
  list_to_map [(8, ListHead 16 48); (16, ListHead 32 8); (32, ListHead 48 16); (48, ListHead 8 32);
               (64, ListHead 0 0); (80, ListHead 80 80); (96, ListHead 104 104); (104, ListHead 96 96)].

Lemma example_list : is_list example_store 8 [16; 32; 48].
Proof. split_and!; [by apply (bool_decide_unpack _) | by apply (bool_decide_unpack _) | by vm_compute]. Qed.

Lemma list_add_correct_witness :
  exists m', list_add 64 32 example_store = Ok m' /\ list_add_tail 64 48 example_store = Ok m' /\
    is_list m' 8 [16; 32; 64; 48] /\ touches [8; 16; 32; 64; 48] example_store m'.
Proof.
  apply (list_add_correct example_store 8 [16; 32] [48] 64).
  - exact example_list.
  - split; [done | by exists (ListHead 0 0)].
  - by apply (bool_decide_unpack _).
Defined.

Lemma list_del_correct_witness :
  exists m', list_del 32 example_store = Ok m' /\ is_list m' 8 [16; 48] /\
    touches [8; 16; 48] example_store m' /\ m' !! 32 = example_store !! 32.
Proof. apply (list_del_correct example_store 8 [16] 32 [48]). exact example_list. Defined.

Lemma list_cut_position_correct_witness :
  exists m', list_cut_position 80 8 32 example_store = Ok m' /\
    is_list m' 80 [16; 32] /\ is_list m' 8 [48] /\ touches [80; 8; 16; 32; 48] example_store m'.
Proof.
  apply (list_cut_position_correct example_store 80 8 [16; 32] [48]).
  - split_and!; [by apply (bool_decide_unpack _) | by apply (bool_decide_unpack _) | by vm_compute].
  - exact example_list.
  - by apply (bool_decide_unpack _).
Defined.

Lemma list_splice_correct_witness :
  exists m', list_splice 96 32 example_store = Ok m' /\ is_list m' 8 [16; 32; 104; 48].
Proof.
  destruct (list_splice_correct example_store 96 [104] 8 [16; 32] [48]) as [(m' & E & _ & H & _) _].
  - split_and!; [by apply (bool_decide_unpack _) | by apply (bool_decide_unpack _) | by vm_compute].
  - exact example_list.
  - intros u Hu. assert (u = 96 \/ u = 104) as [-> | ->] by set_solver; by apply (bool_decide_unpack _).
  - by exists m'.
Defined.

(** Removing and freeing the second entry while counting all of them. *)
Lemma list_iteration_correct_witness :
  list_for_each_entry (visit_del (fun _ n => n + 1) 4 (fun pos => pos =? 28)) 8 4 (example_store, 0) = Trap /\
  exists m', list_for_each_entry_safe (visit_del (fun _ n => n + 1) 4 (fun pos => pos =? 28)) 8 4 (example_store, 0) =
    Ok (m', 3) /\ is_list m' 8 [16; 48].
Proof.
  pose proof (list_iteration_correct (fun _ n => n + 1) (fun pos => pos =? 28) 4 example_store 8 [16; 32; 48] 0
    example_list) as (_ & _ & _ & _ & _ & m' & E & H & Hf).
  split; [| by exists m']. apply Hf, Exists_cons. right. apply Exists_cons. by left.
Defined.
