(* ===== verification/Heap.v ===== *)
(** * Dynamic memory allocation ([core/malloc.c])

    The allocator keeps one list of free blocks in ascending address order,
    with adjacent blocks always merged.  The list is threaded through the free
    memory itself; here it is a Rocq list of [(address, size)] pairs, which is
    what a traversal with [list_for_each_entry] sees.  The contents of memory
    are a finite map from addresses to bytes, used by the sized-block layer
    ([realloc], [malloc], [free], [zalloc]); the bytes in which the list is kept are
    absent from it. *)

From Stdlib Require Import ZArith Lia Bool ZifyBool.
From stdpp Require Import base numbers list gmap.
From S2P Require Import Prelude.

Local Open Scope Z_scope.

(** ** Platform

    The word size is that of [size_t] and of pointers.  [virt_to_phys] differs
    between platforms; [librm_user_to_phys] is the one of the BIOS build. *)

Class Platform := {
  word_bits : Z;
  word_bits_ok : word_bits = 32 \/ word_bits = 64;
  virt_to_phys : Z -> Z;
}.

Definition librm_user_to_phys (w virt_offset userptr offset : Z) : Z :=
  let addr := wrap w (userptr + offset) in
  if (32 <? w) && (addr <=? 0xffffffff) then addr
  else wrap w (addr + virt_offset).

Definition librm_virt_to_phys (w virt_offset addr : Z) : Z :=
  librm_user_to_phys w virt_offset addr 0.

#[program] Definition i386_pcbios : Platform :=
  {| word_bits := 32; virt_to_phys := librm_virt_to_phys 32 0x40000 |}.
Next Obligation. auto. Qed.

#[program] Definition x86_64_efi : Platform :=
  {| word_bits := 64; virt_to_phys := fun a => a |}.
Next Obligation. auto. Qed.

(** [__constant_flsll]: find last (most significant) set bit. *)
Definition flsll (x : Z) : Z :=
  let step (mask sh : Z) '(x, r) :=
    if Z.land x mask =? 0 then (x, r) else (Z.shiftr x sh, r + sh) in
  let '(x, r) :=
    step 0x2 1 (step 0xc 2 (step 0xf0 4 (step 0xff00 8
      (step 0xffff0000 16 (step 0xffffffff00000000 32 (x, 0)))))) in
  if x =? 0 then 0 else r + 1.

(** ** State *)

Record memory_block := MemoryBlock { block_addr : Z; block_size : Z }.

Record heap := Heap {
  free_blocks : list memory_block;
  freemem : Z;
  usedmem : Z;
  maxusedmem : Z;
  mem : gmap Z Z
}.

#[global] Instance memory_block_eq_dec : EqDecision memory_block.
Proof. solve_decision. Defined.

Definition with_free_blocks (l : list memory_block) (h : heap) : heap :=
  Heap l (freemem h) (usedmem h) (maxusedmem h) (mem h).
Definition with_mem (m : gmap Z Z) (h : heap) : heap :=
  Heap (free_blocks h) (freemem h) (usedmem h) (maxusedmem h) m.

Section Malloc.
Context {P : Platform}.

Abbreviation W := word_bits.
Abbreviation size_t := (wrap word_bits).

Definition sizeof_ptr : Z := W / 8.

(** [struct memory_block]: a [size_t], padding that covers
    [refcnt.count] (an [int] at offset 0), and a two-pointer list node aligned
    to a pointer. *)
Definition sizeof_memory_block : Z :=
  let pad_end := sizeof_ptr + 4 in
  let list_off := (pad_end + sizeof_ptr - 1) / sizeof_ptr * sizeof_ptr in
  list_off + 2 * sizeof_ptr.

Definition MIN_MEMBLOCK_SIZE : Z := 2 ^ flsll (sizeof_memory_block - 1).

Definition NOWHERE : Z := 2 ^ W - 1.

(** [check_blocks], the integrity check run on entry and exit when assertions
    are enabled. *)
Fixpoint check_blocks_from (prev : option memory_block) (l : list memory_block)
    : bool :=
  match l with
  | [] => true
  | block :: l' =>
      (sizeof_memory_block <=? block_size block)
      && (MIN_MEMBLOCK_SIZE <=? block_size block)
      && (block_addr block <? size_t (block_addr block + block_size block))
      && match prev with
         | None => true
         | Some p =>
             (block_addr p <? block_addr block)
             && (size_t (block_addr p + block_size p) <? block_addr block)
         end
      && check_blocks_from (Some block) l'
  end.

Definition check_blocks (h : heap) : bool := check_blocks_from None (free_blocks h).

(** Size actually consumed by a request ([alloc_memblock], [free_memblock]). *)
Definition round_size (size : Z) : Z :=
  Z.land (size_t (size + MIN_MEMBLOCK_SIZE - 1)) (Z.lnot (MIN_MEMBLOCK_SIZE - 1)).

(** ** Freeing *)

(** The size and the list links of a free block are kept in its own first bytes.
    The fields are the elements of [free_blocks]; to a client their bytes are
    indeterminate, so the writes to them leave the bytes absent from [mem]. *)
Fixpoint forget_bytes (n : nat) (a : Z) (m : gmap Z Z) : gmap Z Z :=
  match n with
  | O => m
  | S n' => forget_bytes n' (a + 1) (delete a m)
  end.

Definition forget_headers (l : list memory_block) (m : gmap Z Z) : gmap Z Z :=
  foldr (fun b => forget_bytes (Z.to_nat sizeof_memory_block) (block_addr b)) m l.

(** The insertion loop of [free_memblock].  [freeing] is the block being
    released; it absorbs an immediately preceding free block, and is inserted
    before the first block that follows it, absorbing that one if adjacent.
    [None] is the case in which the code would insert next to a block that it
    has just unlinked. *)
Fixpoint free_insert (actual_size : Z) (freeing : memory_block)
    (l : list memory_block) : option (list memory_block) :=
  match l with
  | [] => Some [freeing]
  | block :: rest =>
      let gap_before :=
        to_signed W (block_addr freeing - (block_addr block + block_size block)) in
      let gap_after :=
        to_signed W (block_addr block - (block_addr freeing + block_size freeing)) in
      if gap_before =? 0 then
        let merged :=
          MemoryBlock (block_addr block) (size_t (block_size block + actual_size)) in
        if 0 <=? gap_after then None else free_insert actual_size merged rest
      else if 0 <=? gap_after then
        if gap_after =? 0
        then Some (MemoryBlock (block_addr freeing)
                     (size_t (block_size freeing + block_size block)) :: rest)
        else Some (freeing :: block :: rest)
      else
        match free_insert actual_size freeing rest with
        | Some rest' => Some (block :: rest')
        | None => None
        end
  end.

Definition free_memblock (ptr size : Z) (h : heap) : option heap :=
  if ptr =? 0 then Some h
  else
    let actual_size := round_size size in
    let freeing := MemoryBlock ptr actual_size in
    match free_insert actual_size freeing (free_blocks h) with
    | None => None
    | Some l =>
        Some (Heap l (size_t (freemem h + actual_size))
                (size_t (usedmem h - actual_size)) (maxusedmem h)
                (forget_headers (freeing :: free_blocks h) (mem h)))
    end.

(** [mpopulate] and [init_heap]. *)
Definition mpopulate (start len : Z) (h : heap) : option heap :=
  let len := Z.land len (Z.lnot (MIN_MEMBLOCK_SIZE - 1)) in
  match free_memblock start len h with
  | None => None
  | Some h' =>
      Some (Heap (free_blocks h') (freemem h') (size_t (usedmem h' + len))
              (maxusedmem h') (mem h'))
  end.

Abbreviation HEAP_SIZE := (512 * 1024).

Definition init_heap (heap_addr : Z) : option heap :=
  mpopulate heap_addr HEAP_SIZE (Heap [] 0 0 0 ∅).

(** ** Memory contents *)

(** Little-endian word at [a] of [n] bytes. *)
Fixpoint store_word (n : nat) (a v : Z) (m : gmap Z Z) : gmap Z Z :=
  match n with
  | O => m
  | S n' => store_word n' (a + 1) (v / 256) (<[a := v mod 256]> m)
  end.

Fixpoint load_word (n : nat) (a : Z) (m : gmap Z Z) : option Z :=
  match n with
  | O => Some 0
  | S n' =>
      match m !! a, load_word n' (a + 1) m with
      | Some b, Some v => Some (b + 256 * v)
      | _, _ => None
      end
  end.

(** [memcpy], byte by byte, ascending; a byte never written is absent. *)
Fixpoint copy_bytes (n : nat) (dst src : Z) (m : gmap Z Z) : gmap Z Z :=
  match n with
  | O => m
  | S n' =>
      copy_bytes n' (dst + 1) (src + 1) (partial_alter (fun _ => m !! src) dst m)
  end.

Fixpoint fill_bytes (n : nat) (dst v : Z) (m : gmap Z Z) : gmap Z Z :=
  match n with
  | O => m
  | S n' => fill_bytes n' (dst + 1) v (<[dst := v]> m)
  end.

(** ** Allocation *)

(** One pass over the free list: the first block with enough space is split
    into pre-block, block and post-block. *)
Fixpoint alloc_search (actual_size align_mask offset : Z) (l : list memory_block)
    : option (Z * list memory_block) :=
  match l with
  | [] => None
  | block :: rest =>
      let pre_size :=
        Z.land (size_t (offset - virt_to_phys (block_addr block))) align_mask in
      if (block_size block <? pre_size)
         || (size_t (block_size block - pre_size) <? actual_size)
      then
        match alloc_search actual_size align_mask offset rest with
        | Some (ptr, rest') => Some (ptr, block :: rest')
        | None => None
        end
      else
        let post_size := size_t (block_size block - pre_size - actual_size) in
        let pre := block_addr block in
        let ptr := size_t (pre + pre_size) in
        let post := size_t (ptr + actual_size) in
        let rest' :=
          if MIN_MEMBLOCK_SIZE <=? post_size
          then MemoryBlock post post_size :: rest else rest in
        Some (ptr,
              if pre_size <? MIN_MEMBLOCK_SIZE then rest'
              else MemoryBlock pre pre_size :: rest')
  end.

Section Discard.
Context {cache : Type}.
(** The cache discarder table: callbacks that may release cached data. *)
Context (cache_discarders : list (cache -> heap -> Z * cache * heap)).

Fixpoint discard_cache_in (ds : list (cache -> heap -> Z * cache * heap))
    (c : cache) (h : heap) : Z * cache * heap :=
  match ds with
  | [] => (0, c, h)
  | discard :: ds' =>
      let '(discarded, c', h') := discard c h in
      if discarded =? 0 then discard_cache_in ds' c' h' else (discarded, c', h')
  end.

Definition discard_cache : cache -> heap -> Z * cache * heap :=
  discard_cache_in cache_discarders.

(** [discard_all_cache]: repeat until nothing is discarded. *)
Fixpoint discard_all_cache (fuel : nat) (c : cache) (h : heap)
    : option (cache * heap) :=
  match fuel with
  | O => None
  | S fuel' =>
      let '(discarded, c', h') := discard_cache c h in
      if discarded =? 0 then Some (c', h') else discard_all_cache fuel' c' h'
  end.

(** The [while ( 1 )] loop: search, and on failure discard cached data and try
    again.  [None] means the fuel ran out. *)
Fixpoint alloc_loop (fuel : nat) (actual_size align_mask offset : Z)
    (c : cache) (h : heap) : option (Z * cache * heap) :=
  match fuel with
  | O => None
  | S fuel' =>
      match alloc_search actual_size align_mask offset (free_blocks h) with
      | Some (ptr, l) =>
          let used := size_t (usedmem h + actual_size) in
          Some (ptr, c,
                Heap l (size_t (freemem h - actual_size)) used
                  (if maxusedmem h <? used then used else maxusedmem h)
                  (forget_headers (free_blocks h ++ l) (mem h)))
      | None =>
          let '(discarded, c', h') := discard_cache c h in
          if discarded =? 0 then Some (0, c', h')
          else alloc_loop fuel' actual_size align_mask offset c' h'
      end
  end.

Definition alloc_memblock (fuel : nat) (size align offset : Z)
    (c : cache) (h : heap) : option (Z * cache * heap) :=
  let actual_size := round_size size in
  if actual_size =? 0 then Some (0, c, h)
  else
    let align_mask := Z.lor (size_t (align - 1)) (MIN_MEMBLOCK_SIZE - 1) in
    alloc_loop fuel actual_size align_mask offset c h.

(** ** Sized blocks

    [struct autosized_block] prefixes the data with its total size. *)

(** First half of [realloc]: obtain the new block, if a size is requested, and
    store its total size in front of the data.  The inner [None] is a failed
    allocation. *)
Definition realloc_new (fuel : nat) (new_size : Z) (c : cache) (h : heap)
    : option (option Z * cache * heap) :=
  if new_size =? 0 then Some (Some NOWHERE, c, h)
  else
    let new_total_size := size_t (new_size + sizeof_ptr) in
    if new_total_size <? new_size then Some (None, c, h)
    else
      match alloc_memblock fuel new_total_size 1 0 c h with
      | None => None
      | Some (new_block, c', h') =>
          if new_block =? 0 then Some (None, c', h')
          else
            let m := store_word (Z.to_nat sizeof_ptr) new_block new_total_size
                       (mem h') in
            Some (Some (size_t (new_block + sizeof_ptr)), c', with_mem m h')
      end.

(** [realloc]: the new pointer, or [None] where the model's fuel ran out or the
    sized-block header is unreadable. *)
Definition realloc (fuel : nat) (old_ptr new_size : Z) (c : cache) (h : heap)
    : option (Z * cache * heap) :=
  match realloc_new fuel new_size c h with
  | None => None
  | Some (None, c', h') => Some (0, c', h')
  | Some (Some new_ptr, c', h') =>
      if (old_ptr =? 0) || (old_ptr =? NOWHERE) then Some (new_ptr, c', h')
      else
        let old_block := size_t (old_ptr - sizeof_ptr) in
        match load_word (Z.to_nat sizeof_ptr) old_block (mem h') with
        | None => None
        | Some old_total_size =>
            let old_size := size_t (old_total_size - sizeof_ptr) in
            let n := if old_size <? new_size then old_size else new_size in
            let m := copy_bytes (Z.to_nat n) new_ptr old_ptr (mem h') in
            match free_memblock old_block old_total_size (with_mem m h') with
            | None => None
            | Some h'' => Some (new_ptr, c', h'')
            end
        end
  end.

Definition malloc (fuel : nat) (size : Z) (c : cache) (h : heap)
    : option (Z * cache * heap) := realloc fuel 0 size c h.

Definition free (ptr : Z) (c : cache) (h : heap) : option (cache * heap) :=
  match realloc 1 ptr 0 c h with
  | Some (_, c', h') => Some (c', h')
  | None => None
  end.

Definition zalloc (fuel : nat) (size : Z) (c : cache) (h : heap)
    : option (Z * cache * heap) :=
  match malloc fuel size c h with
  | None => None
  | Some (data, c', h') =>
      if data =? 0 then Some (data, c', h')
      else Some (data, c', with_mem (fill_bytes (Z.to_nat size) data 0 (mem h')) h')
  end.

End Discard.
End Malloc.

(** ** The free-list invariant *)

Section FreeList.
Context {P : Platform}.

Abbreviation W := word_bits.
Abbreviation size_t := (wrap word_bits).

(** The free blocks lie in [[lo, hi)], ascending, each at least the minimum
    size, and no two adjacent. *)
Fixpoint blocks_ok (lo hi : Z) (l : list memory_block) : Prop :=
  match l with
  | [] => True
  | b :: l' =>
      lo <= block_addr b /\ MIN_MEMBLOCK_SIZE <= block_size b
      /\ block_addr b + block_size b <= hi
      /\ blocks_ok (block_addr b + block_size b + 1) hi l'
  end.

(** The region managed by the allocator: no address is null, the end is
    representable, and differences of addresses fit a signed word. *)
Definition region (lo hi : Z) : Prop :=
  0 < lo /\ lo <= hi /\ hi < 2 ^ W /\ hi - lo < 2 ^ (W - 1).

(** Address [a] is free. *)
Definition covers (l : list memory_block) (a : Z) : Prop :=
  Exists (fun b => block_addr b <= a < block_addr b + block_size b) l.

Definition total_free (l : list memory_block) : Z :=
  foldr (fun b n => block_size b + n) 0 l.

Lemma word_bits_pos : 32 <= W.
Proof. destruct word_bits_ok; lia. Qed.

Lemma min_memblock_pow2 :
  exists k, MIN_MEMBLOCK_SIZE = 2 ^ k /\ 4 <= k <= 5
            /\ sizeof_memory_block = MIN_MEMBLOCK_SIZE.
Proof.
  unfold MIN_MEMBLOCK_SIZE, sizeof_memory_block, sizeof_ptr.
  destruct word_bits_ok as [E|E]; rewrite E.
  - exists 4. vm_compute. intuition congruence.
  - exists 5. vm_compute. intuition congruence.
Qed.

Lemma min_memblock_pos : 0 < MIN_MEMBLOCK_SIZE.
Proof. destruct min_memblock_pow2 as (k & -> & ? & _). apply pow2_pos; lia. Qed.

Lemma half_word : 2 ^ W = 2 * 2 ^ (W - 1).
Proof.
  pose proof word_bits_pos. rewrite <- Z.pow_succ_r by lia. f_equal; lia.
Qed.

Lemma signed_small z : - 2 ^ (W - 1) <= z < 2 ^ (W - 1) -> to_signed W z = z.
Proof.
  intros Hz. unfold to_signed, wrap. pose proof half_word. pose proof word_bits_pos.
  destruct (Z.leb_spec 0 z).
  - rewrite Z.mod_small by lia. case_if; lia.
  - assert (z mod 2 ^ W = z + 2 ^ W) as ->.
    { rewrite <- (Z.mod_add z 1), Z.mul_1_l by lia. apply Z.mod_small. lia. }
    case_if; lia.
Qed.

Lemma blocks_ok_weaken lo lo' hi l :
  lo' <= lo -> blocks_ok lo hi l -> blocks_ok lo' hi l.
Proof. destruct l; simpl; intuition lia. Qed.

Lemma covers_cons b l a :
  covers (b :: l) a <->
  block_addr b <= a < block_addr b + block_size b \/ covers l a.
Proof. unfold covers. rewrite Exists_cons. done. Qed.

Lemma covers_nil a : covers [] a <-> False.
Proof. unfold covers. rewrite Exists_nil. done. Qed.

Lemma covers_bounds lo hi l a : blocks_ok lo hi l -> covers l a -> lo <= a < hi.
Proof.
  revert lo; induction l as [|b l IH]; intros lo Hok Hc.
  - by apply covers_nil in Hc.
  - simpl in Hok. apply covers_cons in Hc as [Hc|Hc]; [lia|].
    pose proof (IH _ (proj2 (proj2 (proj2 Hok))) Hc).
    pose proof min_memblock_pos. lia.
Qed.

Lemma blocks_ok_in lo hi l b :
  blocks_ok lo hi l -> b ∈ l ->
  lo <= block_addr b /\ MIN_MEMBLOCK_SIZE <= block_size b
  /\ block_addr b + block_size b <= hi.
Proof.
  pose proof min_memblock_pos. revert lo; induction l as [|b0 l IH]; intros lo Hok Hb.
  - by apply not_elem_of_nil in Hb.
  - simpl in Hok. destruct Hok as (? & ? & ? & Hok).
    apply elem_of_cons in Hb as [->|Hb]; [lia|].
    specialize (IH _ Hok Hb). lia.
Qed.

(** [blocks_ok] is what [check_blocks] asserts. *)
Lemma blocks_ok_check_from lo hi prev l :
  region lo hi ->
  (forall p, prev = Some p -> block_addr p < lo /\ 0 <= block_addr p + block_size p < lo) ->
  blocks_ok lo hi l -> check_blocks_from prev l = true.
Proof.
  intros (Hlo & Hlh & Hhi & Hr). revert lo prev Hlo Hlh Hr.
  pose proof min_memblock_pos as Hmin.
  destruct min_memblock_pow2 as (_ & _ & _ & Hsz).
  induction l as [|b l IH]; intros lo prev Hlo Hlh Hr Hprev Hok; [done|].
  simpl in *. destruct Hok as (H1 & H2 & H3 & H4).
  rewrite (wrap_small W (block_addr b + block_size b)) by (unfold in_range; lia).
  rewrite Hsz. repeat (apply andb_true_intro; split); try lia.
  - destruct prev as [p|]; [|done]. destruct (Hprev p eq_refl).
    rewrite wrap_small by (unfold in_range; lia). lia.
  - destruct l as [|b' l']; [done|].
    simpl in H4. apply (IH (block_addr b + block_size b + 1)); try lia.
    + intros p [= <-]. lia.
    + simpl. done.
Qed.

(** ** Freeing *)

(** Once every remaining block lies above the freed one, the loop stops at the
    first of them. *)
Lemma free_insert_above actual lo hi f l :
  region lo hi -> lo <= block_addr f -> 0 < block_size f ->
  block_addr f + block_size f <= hi ->
  blocks_ok (block_addr f + block_size f) hi l ->
  exists l', free_insert actual f l = Some l'
    /\ (MIN_MEMBLOCK_SIZE <= block_size f -> blocks_ok (block_addr f) hi l')
    /\ total_free l' = block_size f + total_free l
    /\ forall a, covers l' a <->
         block_addr f <= a < block_addr f + block_size f \/ covers l a.
Proof.
  intros (Hlo & Hlh & Hhi & Hr) Hf Hs Hfe Hok.
  pose proof min_memblock_pos as Hmin.
  destruct l as [|b l]; simpl in Hok |- *.
  - eexists; split; [done|]. split; [simpl; lia|]. split; [simpl; lia|].
    intros a. rewrite covers_cons. done.
  - destruct Hok as (H1 & H2 & H3 & H4).
    rewrite !signed_small by lia.
    destruct (Z.eqb_spec (block_addr f - (block_addr b + block_size b)) 0); [lia|].
    destruct (Z.leb_spec 0 (block_addr b - (block_addr f + block_size f))); [|lia].
    destruct (Z.eqb_spec (block_addr b - (block_addr f + block_size f)) 0).
    + rewrite wrap_small by (unfold in_range; lia).
      eexists; split; [done|]. simpl. split; [|split; [lia|]].
      * intros. repeat split; try lia.
        eapply blocks_ok_weaken; [|exact H4]. lia.
      * intros a. rewrite !covers_cons. simpl. intuition lia.
    + eexists; split; [done|]. simpl. split; [|split; [lia|]].
      * intros. repeat split; try lia. exact H4.
      * intros a. rewrite !covers_cons. done.
Qed.

Lemma free_insert_spec lo hi p n l :
  region lo hi -> lo <= p -> MIN_MEMBLOCK_SIZE <= n -> p + n <= hi ->
  blocks_ok lo hi l ->
  (forall a, p <= a < p + n -> ~ covers l a) ->
  exists l', free_insert n (MemoryBlock p n) l = Some l'
    /\ blocks_ok lo hi l'
    /\ total_free l' = n + total_free l
    /\ forall a, covers l' a <-> p <= a < p + n \/ covers l a.
Proof.
  intros Hreg. assert (Hreg' := Hreg). destruct Hreg' as (Hlo & Hlh & Hhi & Hr).
  revert lo Hreg Hlo Hlh Hr. pose proof min_memblock_pos as Hmin.
  induction l as [|b l IH]; intros lo Hreg Hlo Hlh Hr Hp Hn Hpn Hok Hdis.
  - eexists; split; [done|]. simpl. split; [lia|]. split; [lia|].
    intros a. rewrite covers_cons. done.
  - simpl in Hok. destruct Hok as (H1 & H2 & H3 & H4).
    assert (Hsep : p + n <= block_addr b \/ block_addr b + block_size b <= p).
    { destruct (decide (p + n <= block_addr b)) as [|Hn1]; [by left|].
      destruct (decide (block_addr b + block_size b <= p)) as [|Hn2]; [by right|].
      exfalso. apply (Hdis (Z.max p (block_addr b))); [lia|].
      apply covers_cons. left. lia. }
    destruct Hsep as [Hsep|Hsep].
    + (* the block follows *)
      destruct (free_insert_above n lo hi (MemoryBlock p n) (b :: l))
        as (l' & E & Hok' & Ht & Hc); simpl; try lia; try done.
      exists l'. repeat split; try done.
      * eapply blocks_ok_weaken; [|apply Hok']; simpl; lia.
      * by apply Hc.
      * by apply Hc.
    + simpl. rewrite !signed_small by lia.
      destruct (Z.eqb_spec (p - (block_addr b + block_size b)) 0) as [E|E].
      * destruct (Z.leb_spec 0 (block_addr b - (p + n))); [lia|].
        rewrite wrap_small by (unfold in_range; lia).
        destruct (free_insert_above n lo hi (MemoryBlock (block_addr b) (block_size b + n)) l)
          as (l' & E' & Hok' & Ht & Hc); simpl in *; try lia; try done.
        { destruct l as [|b' l2]; [done|]. simpl in *. repeat split; try lia.
          - destruct (decide (block_addr b + (block_size b + n) <= block_addr b')); [done|].
            exfalso. apply (Hdis (block_addr b')); [lia|].
            apply covers_cons. right. apply covers_cons. left. lia.
          - apply H4. }
        exists l'. split; [done|]. split; [|split; [lia|]].
        -- eapply blocks_ok_weaken; [|apply Hok']; lia.
        -- intros a. rewrite Hc, covers_cons. intuition lia.
      * destruct (Z.leb_spec 0 (block_addr b - (p + n))); [lia|].
        destruct (IH (block_addr b + block_size b + 1)) as (l' & E' & Hok' & Ht & Hc);
          try lia; try done.
        { unfold region; lia. }
        { intros a Ha Hca. apply (Hdis a Ha), covers_cons. by right. }
        rewrite E'. eexists; split; [done|]. simpl. split; [|split; [lia|]].
        -- repeat split; try lia. done.
        -- intros a. rewrite !covers_cons, Hc. tauto.
Qed.

(** The free list is canonical: it is determined by the set of free
    addresses. *)
Lemma blocks_ok_unique lo hi l1 l2 :
  blocks_ok lo hi l1 -> blocks_ok lo hi l2 ->
  (forall a, covers l1 a <-> covers l2 a) -> l1 = l2.
Proof.
  pose proof min_memblock_pos as Hmin.
  revert lo l2; induction l1 as [|b1 l1 IH]; intros lo [|b2 l2] H1 H2 Hc; simpl in *.
  - done.
  - exfalso. apply (covers_nil (block_addr b2)), Hc, covers_cons. lia.
  - exfalso. apply (covers_nil (block_addr b1)), Hc, covers_cons. lia.
  - destruct H1 as (H1a & H1b & H1c & H1d), H2 as (H2a & H2b & H2c & H2d).
    assert (B1 : forall a, covers l1 a -> block_addr b1 + block_size b1 + 1 <= a)
      by (intros a Ha; eapply covers_bounds in Ha; [|done]; lia).
    assert (B2 : forall a, covers l2 a -> block_addr b2 + block_size b2 + 1 <= a)
      by (intros a Ha; eapply covers_bounds in Ha; [|done]; lia).
    assert (M : forall a, block_addr b1 <= a < block_addr b1 + block_size b1 \/ covers l1 a
                     <-> block_addr b2 <= a < block_addr b2 + block_size b2 \/ covers l2 a)
      by (intros a; rewrite <- !covers_cons; done).
    assert (Ea : block_addr b1 = block_addr b2).
    { pose proof (proj1 (M (block_addr b1)) ltac:(left; lia)) as [|Hx1%B2];
      pose proof (proj2 (M (block_addr b2)) ltac:(left; lia)) as [|Hx2%B1]; lia. }
    assert (Es : block_size b1 = block_size b2).
    { destruct (Z.lt_trichotomy (block_size b1) (block_size b2)) as [Hlt|[|Hlt]]; [|done|].
      - pose proof (proj2 (M (block_addr b1 + block_size b1)) ltac:(left; lia)) as [|Hx%B1]; lia.
      - pose proof (proj1 (M (block_addr b2 + block_size b2)) ltac:(left; lia)) as [|Hx%B2]; lia. }
    destruct b1 as [a1 s1], b2 as [a2 s2]; simpl in *; subst a2 s2. f_equal.
    apply (IH (a1 + s1 + 1)); [done..|].
    intros a. specialize (M a). specialize (B1 a). specialize (B2 a).
    split; intros Hx.
    + pose proof (B1 Hx). destruct (proj1 M (or_intror Hx)); [lia|done].
    + pose proof (B2 Hx). destruct (proj2 M (or_intror Hx)); [lia|done].
Qed.

(** ** Allocation *)

Lemma round_size_spec size :
  0 < size < 2 ^ W ->
  (2 ^ W - MIN_MEMBLOCK_SIZE < size /\ round_size size = 0)
  \/ (size <= round_size size < size + MIN_MEMBLOCK_SIZE
      /\ round_size size < 2 ^ W /\ (MIN_MEMBLOCK_SIZE | round_size size)).
Proof.
  intros Hs. unfold round_size. pose proof word_bits_pos.
  destruct min_memblock_pow2 as (k & -> & Hk & _).
  rewrite land_not_mask by lia. unfold wrap.
  assert (H2 : 2 ^ W = 2 ^ (W - k) * 2 ^ k) by (rewrite <- Z.pow_add_r by lia; f_equal; lia).
  pose proof (pow2_pos k ltac:(lia)).
  assert (2 ^ k <= 2 ^ W) by (apply Z.pow_le_mono_r; lia).
  destruct (Z.leb_spec (2 ^ W) (size + 2 ^ k - 1)) as [Hov|Hov].
  - left. split; [lia|].
    assert ((size + 2 ^ k - 1) mod 2 ^ W = size + 2 ^ k - 1 - 2 ^ W) as ->.
    { symmetry. apply (Z.mod_unique _ _ 1); lia. }
    rewrite Z.mod_small by lia. lia.
  - right. rewrite (Z.mod_small _ (2 ^ W)) by lia.
    pose proof (Z.mod_pos_bound (size + 2 ^ k - 1) (2 ^ k) ltac:(lia)).
    repeat split; try lia.
    exists ((size + 2 ^ k - 1) / 2 ^ k).
    pose proof (Z.div_mod (size + 2 ^ k - 1) (2 ^ k)). lia.
Qed.

(** Distance from the start of a block to the first suitably aligned byte. *)
Definition pre_size (k offset : Z) (b : memory_block) : Z :=
  (offset - virt_to_phys (block_addr b)) mod 2 ^ k.

(** The block has room for [n] bytes at its first suitably aligned address. *)
Definition fits (n k offset : Z) (b : memory_block) : Prop :=
  pre_size k offset b + n <= block_size b.

Lemma alloc_pre_size k offset x :
  0 <= k <= W -> Z.land (size_t (offset - x)) (2 ^ k - 1) = (offset - x) mod 2 ^ k.
Proof.
  intros. rewrite land_mask by lia. unfold wrap. apply mod_pow2_le; lia.
Qed.

(** Replacing one block by its usable remainder at either side. *)
Lemma alloc_split_ok lo hi b rest pre n :
  region lo hi -> blocks_ok lo hi (b :: rest) -> 0 <= pre -> 0 < n ->
  pre + n <= block_size b ->
  let post := MemoryBlock (block_addr b + pre + n) (block_size b - pre - n) in
  let rest' := if MIN_MEMBLOCK_SIZE <=? block_size b - pre - n then post :: rest else rest in
  let l' := if pre <? MIN_MEMBLOCK_SIZE then rest'
            else MemoryBlock (block_addr b) pre :: rest' in
  blocks_ok lo hi l'
  /\ (forall a, covers l' a -> covers (b :: rest) a
               /\ ~ (block_addr b + pre <= a < block_addr b + pre + n))
  /\ total_free l' + n <= total_free (b :: rest)
       < total_free l' + n + 2 * MIN_MEMBLOCK_SIZE
  /\ ((MIN_MEMBLOCK_SIZE | pre) -> (MIN_MEMBLOCK_SIZE | block_size b - pre - n) ->
      (forall a, covers (b :: rest) a <->
         covers l' a \/ block_addr b + pre <= a < block_addr b + pre + n)
      /\ total_free l' + n = total_free (b :: rest)).
Proof.
  intros Hreg (H1 & H2 & H3 & H4) Hpre Hn Hfit post rest' l'.
  pose proof min_memblock_pos as Hmin.
  assert (Hb : forall a, covers rest a -> block_addr b + block_size b + 1 <= a)
    by (intros a Ha; eapply covers_bounds in Ha; [|done]; lia).
  assert (Hr : blocks_ok (block_addr b + pre + 1) hi rest'
    /\ (forall a, covers rest' a ->
          covers rest a \/ block_addr b + pre + n <= a < block_addr b + block_size b)
    /\ total_free rest' <= total_free rest + (block_size b - pre - n)
        < total_free rest' + MIN_MEMBLOCK_SIZE
    /\ ((MIN_MEMBLOCK_SIZE | block_size b - pre - n) ->
        (forall a, covers rest a \/ block_addr b + pre + n <= a < block_addr b + block_size b ->
           covers rest' a) /\ total_free rest' = total_free rest + (block_size b - pre - n))).
  { subst rest'. destruct (Z.leb_spec MIN_MEMBLOCK_SIZE (block_size b - pre - n)).
    - simpl. split; [|split; [|split]].
      + repeat split; try lia. eapply blocks_ok_weaken; [|done]. lia.
      + intros a. rewrite covers_cons. simpl. intuition lia.
      + lia.
      + intros _. split; [|lia]. intros a. rewrite covers_cons. simpl. intuition lia.
    - split; [eapply blocks_ok_weaken; [|done]; lia|]. split; [auto|]. split; [lia|].
      intros [q Hq]. assert (q = 0) by nia. split; [|lia].
      intros a [|]; [done|lia]. }
  destruct Hr as (Hr1 & Hr2 & Hr3 & Hr4).
  subst l'. destruct (Z.ltb_spec pre MIN_MEMBLOCK_SIZE).
  - split; [eapply blocks_ok_weaken; [|done]; lia|].
    split; [|split].
    + intros a Ha. apply Hr2 in Ha as [Ha|Ha].
      * split; [apply covers_cons; by right|]. apply Hb in Ha. lia.
      * split; [apply covers_cons; lia|]. lia.
    + simpl. lia.
    + intros [q Hq] Hd. assert (q = 0) by nia. destruct (Hr4 Hd) as [Hc Ht].
      split; [|simpl; lia]. intros a. rewrite covers_cons. split.
      * intros [Ha|Ha]; [|left; apply Hc; by left].
        destruct (decide (a < block_addr b + pre + n)); [right; lia|].
        left. apply Hc. right. lia.
      * intros [Ha|Ha]; [|left; lia]. apply Hr2 in Ha as [|]; [by right|left; lia].
  - split; [simpl; repeat split; try lia; done|].
    split; [|split].
    + intros a. rewrite !covers_cons. simpl. intros [Ha|Ha]; [lia|].
      apply Hr2 in Ha as [Ha|Ha]; [|lia]. pose proof (Hb a Ha). split; [by right|lia].
    + simpl. lia.
    + intros _ Hd. destruct (Hr4 Hd) as [Hc Ht]. split; [|simpl; lia].
      intros a. rewrite !covers_cons. simpl. split.
      * intros [Ha|Ha]; [|left; right; apply Hc; by left].
        destruct (decide (a < block_addr b + pre)); [lia|].
        destruct (decide (a < block_addr b + pre + n)); [lia|].
        left. right. apply Hc. right. lia.
      * intros [[Ha|Ha]|Ha]; [left; lia| |left; lia].
        apply Hr2 in Ha as [|]; [by right|left; lia].
Qed.

(** Effect of a successful search on the free list. *)
Record alloc_effect (lo hi n k offset : Z) (l : list memory_block)
    (ptr : Z) (l' : list memory_block) : Prop := {
  ae_block : exists b, b ∈ l /\ ptr = block_addr b + pre_size k offset b
                       /\ fits n k offset b;
  ae_ok : blocks_ok lo hi l';
  ae_bounds : lo <= ptr /\ ptr + n <= hi;
  ae_was_free : forall a, ptr <= a < ptr + n -> covers l a;
  ae_subset : forall a, covers l' a -> covers l a /\ ~ (ptr <= a < ptr + n);
  ae_total : total_free l' + n <= total_free l
             < total_free l' + n + 2 * MIN_MEMBLOCK_SIZE;
  ae_exact : Forall (fun b => (MIN_MEMBLOCK_SIZE | pre_size k offset b)
                              /\ (MIN_MEMBLOCK_SIZE | block_size b)) l ->
             (MIN_MEMBLOCK_SIZE | n) ->
             (forall a, covers l a <-> covers l' a \/ ptr <= a < ptr + n)
             /\ total_free l' + n = total_free l
}.

Lemma alloc_effect_skip lo hi n k offset b l ptr l' :
  blocks_ok lo hi (b :: l) ->
  alloc_effect (block_addr b + block_size b + 1) hi n k offset l ptr l' ->
  alloc_effect lo hi n k offset (b :: l) ptr (b :: l').
Proof.
  intros (H1 & H2 & H3 & H4) [(b0 & Hb0 & Hp & Hf) Hok [Hlo Hhi] Hwas Hsub Htot Hex].
  pose proof min_memblock_pos as Hmin.
  split.
  - exists b0. split; [by right|done].
  - simpl. auto.
  - lia.
  - intros a Ha. apply covers_cons. right. auto.
  - intros a. rewrite !covers_cons. intros [Ha|Ha]; [split; [by left|lia]|].
    destruct (Hsub a Ha). auto.
  - simpl. lia.
  - intros [_ Hall]%Forall_cons Hn. destruct (Hex Hall Hn) as [Hc Ht].
    split; [|simpl; lia]. intros a. rewrite !covers_cons, Hc. tauto.
Qed.

Lemma alloc_search_some lo hi n k offset l ptr l' :
  region lo hi -> 0 <= k <= W -> 0 < n < 2 ^ W -> blocks_ok lo hi l ->
  alloc_search n (2 ^ k - 1) offset l = Some (ptr, l') ->
  alloc_effect lo hi n k offset l ptr l'.
Proof.
  intros Hreg Hk Hn. assert (Hreg' := Hreg). destruct Hreg' as (Hlo & Hlh & Hhi & Hr).
  pose proof min_memblock_pos as Hmin.
  revert lo Hreg Hlo Hlh Hr ptr l'.
  induction l as [|b l IH]; intros lo Hreg Hlo Hlh Hr ptr l' Hok Hs; [done|].
  assert (Hok' := Hok). destruct Hok' as (H1 & H2 & H3 & H4).
  simpl in Hs. rewrite alloc_pre_size in Hs by done.
  fold (pre_size k offset b) in Hs.
  assert (Hpre : 0 <= pre_size k offset b)
    by (apply Z.mod_pos_bound, pow2_pos; lia).
  destruct (Z.ltb_spec (block_size b) (pre_size k offset b)) as [Hlt|Hge]; simpl in Hs.
  - destruct (alloc_search n (2 ^ k - 1) offset l) as [[p r]|] eqn:E; [|done].
    injection Hs as <- <-. apply alloc_effect_skip; [done|].
    destruct l as [|b2 l2]; [done|]. simpl in H4.
    apply IH; try done; try lia. unfold region; lia.
  - rewrite (wrap_small W (block_size b - pre_size k offset b)) in Hs
      by (unfold in_range; lia).
    destruct (Z.ltb_spec (block_size b - pre_size k offset b) n) as [Hlt|Hfit].
    + destruct (alloc_search n (2 ^ k - 1) offset l) as [[p r]|] eqn:E; [|done].
      injection Hs as <- <-. apply alloc_effect_skip; [done|].
      destruct l as [|b2 l2]; [done|]. simpl in H4.
      apply IH; try done; try lia. unfold region; lia.
    + rewrite (wrap_small W (block_size b - pre_size k offset b - n)) in Hs
        by (unfold in_range; lia).
      rewrite (wrap_small W (block_addr b + pre_size k offset b)) in Hs
        by (unfold in_range; lia).
      rewrite (wrap_small W (block_addr b + pre_size k offset b + n)) in Hs
        by (unfold in_range; lia).
      injection Hs as <- <-.
      destruct (alloc_split_ok lo hi b l (pre_size k offset b) n)
        as (Hk1 & Hk2 & Hk3 & Hk4); try done; try lia.
      split; try done.
      * exists b. split; [by left|]. split; [done|]. unfold fits. lia.
      * lia.
      * intros a Ha. apply covers_cons. left. lia.
      * intros [[Hd1 Hd2] _]%Forall_cons Hdn. apply Hk4; [done|].
        apply Z.divide_sub_r; [apply Z.divide_sub_r|]; done.
Qed.

(** The search fails only when no block has room. *)
Lemma alloc_search_none lo hi n k offset l :
  region lo hi -> 0 <= k <= W -> 0 < n < 2 ^ W -> blocks_ok lo hi l ->
  alloc_search n (2 ^ k - 1) offset l = None ->
  Forall (fun b => ~ fits n k offset b) l.
Proof.
  intros (Hlo & Hlh & Hhi & Hr) Hk Hn. pose proof min_memblock_pos as Hmin.
  revert lo Hlo Hlh Hr. induction l as [|b l IH]; intros lo Hlo Hlh Hr Hok Hs;
    [constructor|].
  destruct Hok as (H1 & H2 & H3 & H4).
  simpl in Hs. rewrite alloc_pre_size in Hs by done.
  fold (pre_size k offset b) in Hs.
  assert (Hpre : 0 <= pre_size k offset b)
    by (apply Z.mod_pos_bound, pow2_pos; lia).
  assert (Hrest : alloc_search n (2 ^ k - 1) offset l = None ->
                  Forall (fun b => ~ fits n k offset b) l).
  { destruct l as [|b2 l2]; [constructor|]. simpl in H4.
    apply (IH (block_addr b + block_size b + 1)); try lia. done. }
  unfold fits in *.
  destruct (Z.ltb_spec (block_size b) (pre_size k offset b)) as [Hlt|Hge]; simpl in Hs.
  - destruct (alloc_search n (2 ^ k - 1) offset l) as [[p r]|]; [done|].
    constructor; [lia|auto].
  - rewrite (wrap_small W (block_size b - pre_size k offset b)) in Hs
      by (unfold in_range; lia).
    destruct (Z.ltb_spec (block_size b - pre_size k offset b) n) as [Hlt|Hfit]; [|done].
    destruct (alloc_search n (2 ^ k - 1) offset l) as [[p r]|]; [done|].
    constructor; [lia|auto].
Qed.

End FreeList.

(** ** Allocated blocks *)

Section HeapInvariant.
Context {P : Platform}.

Abbreviation W := word_bits.
Abbreviation size_t := (wrap word_bits).

Definition in_block (pn : Z * Z) (a : Z) : Prop := pn.1 <= a < pn.1 + pn.2.

Definition disjoint_blocks (x y : Z * Z) : Prop :=
  forall a, ~ (in_block x a /\ in_block y a).

(** [live] lists the blocks handed out, each with the size actually consumed:
    they lie in the region, are not free, and do not overlap. *)
Record heap_ok (lo hi : Z) (live : list (Z * Z)) (h : heap) : Prop := {
  ho_region : region lo hi;
  ho_free : blocks_ok lo hi (free_blocks h);
  ho_live : Forall (fun pn => lo <= pn.1 /\ MIN_MEMBLOCK_SIZE <= pn.2
                              /\ pn.1 + pn.2 <= hi) live;
  ho_not_free : Forall (fun pn => forall a, in_block pn a ->
                                    ~ covers (free_blocks h) a) live;
  ho_disjoint : ForallOrdPairs disjoint_blocks live
}.

Lemma disjoint_blocks_sym x y : disjoint_blocks x y -> disjoint_blocks y x.
Proof. intros H a [? ?]. by apply (H a). Qed.

Lemma heap_ok_perm lo hi l1 l2 h :
  Permutation l1 l2 -> heap_ok lo hi l1 h -> heap_ok lo hi l2 h.
Proof.
  intros Hp [Hr Hf Hl Hn Hd]. split; try done.
  - by rewrite <- Hp.
  - by rewrite <- Hp.
  - clear -Hp Hd. induction Hp as [|x l l' Hp IH|x y l|]; auto.
    + inversion Hd; subst. constructor; [|auto]. by rewrite <- Hp.
    + inversion Hd as [|? ? Ha Hd']; subst. inversion Hd' as [|? ? Hb Hd'']; subst.
      apply Forall_cons in Ha as [Hxy Ha].
      repeat constructor; auto using disjoint_blocks_sym.
Qed.

Lemma heap_ok_check lo hi live h : heap_ok lo hi live h -> check_blocks h = true.
Proof.
  intros [Hr Hf _ _ _]. eapply blocks_ok_check_from; [done| |done]. done.
Qed.

Lemma heap_ok_mem lo hi live h m : heap_ok lo hi live h -> heap_ok lo hi live (with_mem m h).
Proof. intros [? ? ? ? ?]; by split. Qed.

(** Bytes of the caller's blocks are unchanged. *)
Definition same_bytes (live : list (Z * Z)) (h h' : heap) : Prop :=
  forall pn a, pn ∈ live -> in_block pn a -> mem h' !! a = mem h !! a.

Lemma forget_bytes_other n a m x :
  ~ (a <= x < a + Z.of_nat n) -> forget_bytes n a m !! x = m !! x.
Proof.
  revert a m; induction n as [|n IH]; intros a m Hx; simpl; [done|].
  rewrite IH by lia. apply lookup_delete_ne. lia.
Qed.

(** Rewriting the headers of free blocks changes free bytes only. *)
Lemma forget_headers_other l m x :
  Forall (fun b => MIN_MEMBLOCK_SIZE <= block_size b) l -> ~ covers l x ->
  forget_headers l m !! x = m !! x.
Proof.
  destruct min_memblock_pow2 as (_ & _ & _ & Hsz). pose proof min_memblock_pos.
  induction 1 as [|b l Hb _ IH]; intros Hx; [done|]. simpl.
  rewrite covers_cons in Hx. rewrite forget_bytes_other; [apply IH; tauto|].
  rewrite Z2Nat.id, Hsz by lia. intros ?. apply Hx. left. lia.
Qed.

Lemma blocks_ok_sizes lo hi l :
  blocks_ok lo hi l -> Forall (fun b => MIN_MEMBLOCK_SIZE <= block_size b) l.
Proof.
  revert lo; induction l as [|b l IH]; intros lo Hok; [done|].
  destruct Hok as (? & ? & ? & Hok). constructor; [done|]. by eapply IH.
Qed.

Lemma covers_app l1 l2 a : covers (l1 ++ l2) a <-> covers l1 a \/ covers l2 a.
Proof. unfold covers. apply Exists_app. Qed.

(** Recording an allocation. *)
Lemma heap_ok_alloc lo hi live h n k offset ptr l' f u mx m :
  heap_ok lo hi live h -> MIN_MEMBLOCK_SIZE <= n ->
  alloc_effect lo hi n k offset (free_blocks h) ptr l' ->
  heap_ok lo hi ((ptr, n) :: live) (Heap l' f u mx m).
Proof.
  intros [Hr Hf Hl Hn Hd] Hmin [_ Hok [Hlo Hhi] Hwas Hsub _ _].
  split; try done; simpl.
  - constructor; [simpl; lia|done].
  - constructor.
    + intros a Ha Hc. apply Hsub in Hc as [_ Hc]. by apply Hc.
    + eapply Forall_impl; [exact Hn|]. simpl. intros pn Hpn a Ha Hc.
      apply (Hpn a Ha). by apply Hsub.
  - constructor; [|done]. apply Forall_forall. intros pn Hin a [Ha Ha'].
    rewrite Forall_forall in Hn. apply (Hn pn Hin a Ha'). by apply Hwas.
Qed.

Lemma alloc_same_bytes lo hi live h n k offset ptr l' f u mx :
  heap_ok lo hi live h -> alloc_effect lo hi n k offset (free_blocks h) ptr l' ->
  same_bytes live h (Heap l' f u mx (forget_headers (free_blocks h ++ l') (mem h))).
Proof.
  intros [_ Hf _ Hn _] [_ Hok _ _ Hsub _ _] pn a Hin Ha. simpl.
  rewrite Forall_forall in Hn. pose proof (Hn pn Hin a Ha) as Hfree.
  apply forget_headers_other; [apply Forall_app; split; by eapply blocks_ok_sizes|].
  rewrite covers_app. intros [Hc|Hc]; [done|]. by apply Hsub in Hc as [Hc _].
Qed.

(** Releasing a live block. *)
Lemma heap_ok_free lo hi live h p size :
  0 < size < 2 ^ W ->
  heap_ok lo hi ((p, round_size size) :: live) h ->
  exists h', free_memblock p size h = Some h'
    /\ heap_ok lo hi live h' /\ same_bytes live h h'
    /\ size_t (freemem h' + usedmem h') = size_t (freemem h + usedmem h)
    /\ total_free (free_blocks h') = total_free (free_blocks h) + round_size size
    /\ forall a, covers (free_blocks h') a <->
                 covers (free_blocks h) a \/ p <= a < p + round_size size.
Proof.
  intros Hs [Hr Hf [Hl0 Hl]%Forall_cons [Hn0 Hn]%Forall_cons Hd].
  inversion Hd as [|? ? Hd0 Hd']; subst. simpl in Hl0.
  assert (Hp : p <> 0) by (unfold region in Hr; lia).
  destruct (free_insert_spec lo hi p (round_size size) (free_blocks h))
    as (l' & E & Hok & Ht & Hc); try done; try lia.
  unfold free_memblock. apply Z.eqb_neq in Hp. rewrite Hp, E.
  eexists. split; [done|]. simpl. split; [|split; [|split; [|split]]].
  - split; try done. rewrite Forall_forall in *. intros pn Hin a Ha Hca.
    apply Hc in Hca as [Hca|Hca]; [|by apply (Hn pn Hin a)].
    by apply (Hd0 pn Hin a).
  - intros pn a Hin Ha. rewrite Forall_forall in Hn, Hd0.
    apply (forget_headers_other (MemoryBlock p (round_size size) :: free_blocks h)).
    + constructor; [simpl; lia|]. by eapply blocks_ok_sizes.
    + rewrite covers_cons. simpl. intros [Hca|Hca]; [by apply (Hd0 pn Hin a)|].
      by apply (Hn pn Hin a).
  - rewrite wrap_add_idemp_l, wrap_add_idemp_r. f_equal. lia.
  - lia.
  - intros a. rewrite Hc. tauto.
Qed.

End HeapInvariant.

(** ** Cache discarders

    What the allocator relies on from a discarder table: a discarder frees only
    blocks that the caches own, leaves every other allocated byte alone, and
    makes progress whenever it reports a discarded item. *)

Class CacheOwner {P : Platform} {cache : Type}
    (ds : list (cache -> heap -> Z * cache * heap)) := {
  owned : cache -> list (Z * Z);
  items : cache -> nat;
  discard_ok : forall d c h n c' h' lo hi live,
    d ∈ ds -> d c h = (n, c', h') -> heap_ok lo hi (live ++ owned c) h ->
    heap_ok lo hi (live ++ owned c') h'

    /\ (forall pn a, pn ∈ live -> in_block pn a -> mem h' !! a = mem h !! a);
  discard_progress : forall d c h n c' h',
    d ∈ ds -> d c h = (n, c', h') ->
    if decide (n = 0) then c' = c /\ h' = h else (items c' < items c)%nat
}.

(** A table with no discarders. *)
#[global, program] Instance no_caches {P : Platform} :
    CacheOwner (cache := unit) [] := {| owned _ := []; items _ := O |}.
Next Obligation. intros. by destruct (not_elem_of_nil d). Qed.
Next Obligation. intros. by destruct (not_elem_of_nil d). Qed.

Section Allocator.
Context {P : Platform} {cache : Type}.
Context (ds : list (cache -> heap -> Z * cache * heap)) {CO : CacheOwner ds}.

Abbreviation W := word_bits.
Abbreviation size_t := (wrap word_bits).

Lemma discard_cache_in_ok ds' c h n c' h' lo hi live :
  ds' ⊆ ds -> discard_cache_in ds' c h = (n, c', h') ->
  heap_ok lo hi (live ++ owned c) h ->
  heap_ok lo hi (live ++ owned c') h' /\ same_bytes live h h'
  /\ if decide (n = 0) then c' = c /\ h' = h else (items c' < items c)%nat.
Proof.
  revert c h; induction ds' as [|d ds' IH]; intros c h Hsub E Hok; simpl in E.
  - simplify_eq. rewrite decide_True by done. done.
  - destruct (d c h) as [[n1 c1] h1] eqn:Ed.
    assert (Hd : d ∈ ds) by set_solver.
    destruct (discard_ok d c h n1 c1 h1 lo hi live Hd Ed Hok) as [Hok1 Hm1].
    pose proof (discard_progress d c h n1 c1 h1 Hd Ed) as Hi1.
    destruct (Z.eqb_spec n1 0) as [->|Hn1].
    + rewrite decide_True in Hi1 by done. destruct Hi1 as [-> ->].
      apply IH; [set_solver|done..].
    + simplify_eq. done.
Qed.

(** The allocation loop terminates within one iteration per cached item, and
    either records a new block or fails with no free block that fits. *)
Lemma alloc_loop_spec fuel n k offset c h lo hi live :
  0 <= k <= W -> MIN_MEMBLOCK_SIZE <= n < 2 ^ W ->
  heap_ok lo hi (live ++ owned c) h -> (items c < fuel)%nat ->
  exists ptr c' h', alloc_loop ds fuel n (2 ^ k - 1) offset c h = Some (ptr, c', h')
    /\ same_bytes live h h'
    /\ ((ptr = 0 /\ heap_ok lo hi (live ++ owned c') h'
         /\ discard_cache ds c' h' = (0, c', h')
         /\ Forall (fun b => ~ fits n k offset b) (free_blocks h'))
        \/ (ptr <> 0 /\ heap_ok lo hi ((ptr, n) :: live ++ owned c') h'
            /\ exists h1, heap_ok lo hi (live ++ owned c') h1
               /\ alloc_effect lo hi n k offset (free_blocks h1) ptr (free_blocks h'))).
Proof.
  intros Hk Hn. pose proof min_memblock_pos as Hmin.
  revert c h. induction fuel as [|fuel IH]; intros c h Hok Hi; [lia|]. simpl.
  destruct (alloc_search n (2 ^ k - 1) offset (free_blocks h)) as [[ptr l']|] eqn:E.
  - pose proof (alloc_search_some lo hi n k offset _ _ _ (ho_region _ _ _ _ Hok)
      Hk ltac:(lia) (ho_free _ _ _ _ Hok) E) as He.
    do 3 eexists. split; [done|]. split.
    { intros pn a Hin. apply (alloc_same_bytes _ _ _ _ _ _ _ _ _ _ _ _ Hok He pn a).
      apply elem_of_app. by left. }
    right. split; [destruct (ae_bounds _ _ _ _ _ _ _ _ He), (ho_region _ _ _ _ Hok); lia|].
    split; [eapply heap_ok_alloc; [exact Hok|lia|exact He]|].
    by exists h.
  - pose proof (alloc_search_none lo hi n k offset _ (ho_region _ _ _ _ Hok)
      Hk ltac:(lia) (ho_free _ _ _ _ Hok) E) as Hnone.
    destruct (discard_cache ds c h) as [[d c1] h1] eqn:Ed.
    destruct (discard_cache_in_ok ds c h d c1 h1 lo hi live) as (Hok1 & Hm1 & Hi1);
      [done..|].
    destruct (Z.eqb_spec d 0) as [->|Hd].
    + rewrite decide_True in Hi1 by done. destruct Hi1 as [-> ->].
      do 3 eexists. split; [done|]. split; [done|]. by left.
    + rewrite decide_False in Hi1 by done.
      destruct (IH c1 h1 Hok1 ltac:(lia)) as (ptr & c' & h' & E' & Hm & Hcase).
      exists ptr, c', h'. split; [done|]. split; [|done].
      intros pn a Hin Ha. by rewrite (Hm pn a), (Hm1 pn a).
Qed.

(** Physical addresses of the region are virtual ones at a fixed offset. *)
Definition phys_linear (lo hi d : Z) : Prop :=
  forall a, lo <= a <= hi -> virt_to_phys a = size_t (a + d).

Lemma pre_size_aligned lo hi d k offset b ptr :
  0 <= k <= W -> phys_linear lo hi d ->
  lo <= block_addr b <= hi -> lo <= ptr <= hi ->
  ptr = block_addr b + pre_size k offset b ->
  (virt_to_phys ptr - offset) mod 2 ^ k = 0.
Proof.
  intros Hk Hl Hb Hp ->. rewrite (Hl _ Hp). unfold pre_size. rewrite (Hl _ Hb).
  unfold wrap. pose proof (pow2_pos k ltac:(lia)).
  rewrite Zminus_mod, mod_pow2_le, <- Zminus_mod by lia.
  rewrite (Zminus_mod offset), mod_pow2_le, <- Zminus_mod by lia.
  rewrite (Z.mod_eq (offset - _)) by lia.
  match goal with |- (?x) mod _ = 0 =>
    replace x with (- ((offset - (block_addr b + d)) / 2 ^ k) * 2 ^ k) by lia end.
  apply Z.mod_mul. lia.
Qed.

(** An address of the block at which the request could be satisfied. *)
Definition placement (n k offset : Z) (b : memory_block) (p : Z) : Prop :=
  block_addr b <= p /\ p + n <= block_addr b + block_size b
  /\ (virt_to_phys p - offset) mod 2 ^ k = 0.

Lemma placement_fits lo hi d n k offset b p :
  0 <= k <= W -> phys_linear lo hi d ->
  lo <= block_addr b -> block_addr b + block_size b <= hi -> 0 < n ->
  placement n k offset b p -> fits n k offset b.
Proof.
  intros Hk Hl Hb Hb' Hn (H1 & H2 & H3). unfold fits, pre_size.
  rewrite (Hl p) in H3 by lia. rewrite (Hl (block_addr b)) by lia.
  unfold wrap in *. pose proof (pow2_pos k ltac:(lia)).
  rewrite Zminus_mod, mod_pow2_le, <- Zminus_mod in H3 by lia.
  rewrite (Zminus_mod offset), mod_pow2_le, <- Zminus_mod by lia.
  apply Z.mod_divide in H3 as [q Hq]; [|lia].
  assert ((offset - (block_addr b + d)) mod 2 ^ k = (p - block_addr b) mod 2 ^ k) as ->.
  { replace (offset - (block_addr b + d)) with (p - block_addr b + (-q) * 2 ^ k) by lia.
    apply Z.mod_add. lia. }
  pose proof (Z.mod_le (p - block_addr b) (2 ^ k)). lia.
Qed.

End Allocator.

(** ** Memory contents *)

Lemma store_word_other n a v m x :
  ~ (a <= x < a + Z.of_nat n) -> store_word n a v m !! x = m !! x.
Proof.
  revert a v m; induction n as [|n IH]; intros a v m Hx; simpl; [done|].
  rewrite IH by lia. apply lookup_insert_ne. lia.
Qed.

Lemma load_store_word n a v m :
  0 <= v -> load_word n a (store_word n a v m) = Some (v mod 256 ^ Z.of_nat n).
Proof.
  revert a v m; induction n as [|n IH]; intros a v m Hv.
  - simpl. by rewrite Z.mod_1_r.
  - cbn [load_word store_word]. rewrite store_word_other by lia.
    rewrite lookup_insert_eq, IH by (apply Z.div_pos; lia).
    f_equal. rewrite Nat2Z.inj_succ, Z.pow_succ_r by lia.
    rewrite (Z.rem_mul_r v 256) by lia. done.
Qed.

Lemma load_word_ext n a m m' :
  (forall x, a <= x < a + Z.of_nat n -> m' !! x = m !! x) ->
  load_word n a m' = load_word n a m.
Proof.
  revert a; induction n as [|n IH]; intros a Hx; simpl; [done|].
  rewrite Hx, IH by (intros; try apply Hx; lia). done.
Qed.

Lemma copy_bytes_other n dst src m x :
  ~ (dst <= x < dst + Z.of_nat n) -> copy_bytes n dst src m !! x = m !! x.
Proof.
  revert dst src m; induction n as [|n IH]; intros dst src m Hx; simpl; [done|].
  rewrite IH by lia. apply lookup_partial_alter_ne. lia.
Qed.

Lemma copy_bytes_lookup n dst src m i :
  (dst + Z.of_nat n <= src \/ src + Z.of_nat n <= dst) -> 0 <= i < Z.of_nat n ->
  copy_bytes n dst src m !! (dst + i) = m !! (src + i).
Proof.
  revert dst src m i; induction n as [|n IH]; intros dst src m i Hd Hi; [lia|].
  simpl. destruct (decide (i = 0)) as [->|Hi0].
  - rewrite copy_bytes_other by lia. rewrite !Z.add_0_r.
    by rewrite lookup_partial_alter_eq.
  - replace (dst + i) with (dst + 1 + (i - 1)) by lia.
    rewrite IH by lia. rewrite lookup_partial_alter_ne by lia.
    f_equal. lia.
Qed.

Lemma fill_bytes_other n dst v m x :
  ~ (dst <= x < dst + Z.of_nat n) -> fill_bytes n dst v m !! x = m !! x.
Proof.
  revert dst m; induction n as [|n IH]; intros dst m Hx; simpl; [done|].
  rewrite IH by lia. apply lookup_insert_ne. lia.
Qed.

Lemma fill_bytes_lookup n dst v m x :
  dst <= x < dst + Z.of_nat n -> fill_bytes n dst v m !! x = Some v.
Proof.
  revert dst m; induction n as [|n IH]; intros dst m Hx; [lia|]. simpl.
  destruct (decide (x = dst)) as [->|].
  - rewrite fill_bytes_other by lia. by rewrite lookup_insert_eq.
  - apply IH. lia.
Qed.

(** ** Theorems *)

Section Theorems.
Context {P : Platform} {cache : Type}.
Context (ds : list (cache -> heap -> Z * cache * heap)) {CO : CacheOwner ds}.

Abbreviation W := word_bits.
Abbreviation size_t := (wrap word_bits).

(** Alignment actually enforced: at least that of the minimum block. *)
Definition align_log2 (j : Z) : Z := Z.max j (Z.log2 MIN_MEMBLOCK_SIZE).

Lemma align_mask_log2 j :
  0 <= j < W ->
  0 <= align_log2 j <= W
  /\ Z.lor (size_t (2 ^ j - 1)) (MIN_MEMBLOCK_SIZE - 1) = 2 ^ align_log2 j - 1.
Proof.
  intros Hj. unfold align_log2. destruct min_memblock_pow2 as (k & -> & Hk & _).
  pose proof word_bits_pos. rewrite Z.log2_pow2 by lia. split; [lia|].
  rewrite wrap_small; [apply lor_masks; lia|].
  unfold in_range. pose proof (pow2_pos j ltac:(lia)).
  assert (2 ^ j <= 2 ^ W) by (apply Z.pow_le_mono_r; lia). lia.
Qed.

Lemma round_size_min size :
  0 < size < 2 ^ W -> round_size size <> 0 ->
  MIN_MEMBLOCK_SIZE <= round_size size < 2 ^ W /\ size <= round_size size.
Proof.
  intros Hs Hr. destruct (round_size_spec size Hs) as [[_ ?]|(H1 & H2 & [q Hq])]; [done|].
  pose proof min_memblock_pos. assert (1 <= q) by nia.
  split; [split; [nia|done]|lia].
Qed.

(** [alloc_memblock] always returns, and what it returned. *)
Lemma alloc_memblock_cases fuel size j offset c h lo hi live :
  0 < size < 2 ^ W -> 0 <= j < W ->
  heap_ok lo hi (live ++ owned c) h -> (items c < fuel)%nat ->
  exists ptr c' h', alloc_memblock ds fuel size (2 ^ j) offset c h = Some (ptr, c', h')
    /\ same_bytes live h h'
    /\ ((ptr = 0 /\ heap_ok lo hi (live ++ owned c') h'
         /\ (round_size size <> 0 -> discard_cache ds c' h' = (0, c', h')
             /\ Forall (fun b => ~ fits (round_size size) (align_log2 j) offset b)
                  (free_blocks h')))
        \/ (ptr <> 0 /\ size <= round_size size
            /\ heap_ok lo hi ((ptr, round_size size) :: live ++ owned c') h'
            /\ exists h1, heap_ok lo hi (live ++ owned c') h1
               /\ alloc_effect lo hi (round_size size) (align_log2 j) offset
                    (free_blocks h1) ptr (free_blocks h'))).
Proof.
  intros Hs Hj Hok Hi. unfold alloc_memblock.
  destruct (Z.eqb_spec (round_size size) 0) as [E|E].
  - do 3 eexists. split; [done|]. split; [done|]. left. split; [done|].
    split; [done|]. intros; done.
  - destruct (align_mask_log2 j Hj) as [Hk ->].
    destruct (round_size_min size Hs E) as [Hm Hle].
    destruct (alloc_loop_spec ds fuel (round_size size) (align_log2 j) offset c h lo hi live)
      as (ptr & c' & h' & E' & Hsame & [(-> & ? & ? & ?)|(? & ? & ?)]); try done.
    + exists 0, c', h'. auto 7.
    + exists ptr, c', h'. auto 8.
Qed.

(** C3.  [alloc_memblock] is safe and always returns: given a heap in which the
    free list is well formed and every allocated block is disjoint from it and
    from the others, whatever the cache discarders release on the way, the call
    returns (within one round per cached item), leaves the bytes of the
    caller's blocks alone, and either returns NULL with the invariant intact or
    returns a new block, at least as large as requested, that overlaps no free
    block and no allocated one and whose physical address has the requested
    alignment and offset. *)
Theorem alloc_memblock_safe fuel size j offset c h lo hi d live :
  0 < size < 2 ^ W -> 0 <= j < W -> phys_linear lo hi d ->
  heap_ok lo hi (live ++ owned c) h -> (items c < fuel)%nat ->
  exists ptr c' h', alloc_memblock ds fuel size (2 ^ j) offset c h = Some (ptr, c', h')
    /\ same_bytes live h h'
    /\ ((ptr = 0 /\ heap_ok lo hi (live ++ owned c') h')
        \/ (ptr <> 0 /\ size <= round_size size
            /\ heap_ok lo hi ((ptr, round_size size) :: live ++ owned c') h'
            /\ (virt_to_phys ptr - offset) mod 2 ^ j = 0)).
Proof.
  intros Hs Hj Hl Hok Hi.
  destruct (alloc_memblock_cases fuel size j offset c h lo hi live)
    as (ptr & c' & h' & E & Hsame & [(-> & ? & _)|(Hp & Hle & Hok' & h1 & Hok1 & He)]);
    try done.
  - exists 0, c', h'. auto.
  - exists ptr, c', h'. split; [done|]. split; [done|]. right.
    split; [done|]. split; [done|]. split; [done|].
    destruct He as [(b & Hb & Hpre & _) _ [? ?] _ _ _ _].
    destruct (align_mask_log2 j Hj) as [Hk _].
    pose proof (blocks_ok_in _ _ _ b (ho_free _ _ _ _ Hok1) Hb).
    pose proof min_memblock_pos.
    assert (Hal : (virt_to_phys ptr - offset) mod 2 ^ align_log2 j = 0)
      by (eapply pre_size_aligned; [..|exact Hpre]; try done; lia).
    rewrite <- (mod_pow2_le _ j (align_log2 j)), Hal by (unfold align_log2 in *; lia).
    apply Z.mod_0_l. pose proof (pow2_pos j). lia.
Qed.

(** C22.  [alloc_memblock] fails only when it must: NULL is returned only if
    rounding up the size overflows the word, or if the cache discarders have
    nothing left to discard and no free block contains a suitably aligned range
    of the rounded size. *)
Theorem alloc_memblock_complete fuel size j offset c h lo hi d live c' h' :
  0 < size < 2 ^ W -> 0 <= j < W -> phys_linear lo hi d ->
  heap_ok lo hi (live ++ owned c) h -> (items c < fuel)%nat ->
  alloc_memblock ds fuel size (2 ^ j) offset c h = Some (0, c', h') ->
  2 ^ W - MIN_MEMBLOCK_SIZE < size
  \/ (discard_cache ds c' h' = (0, c', h')
      /\ forall b p, b ∈ free_blocks h' ->
           ~ placement (round_size size) (align_log2 j) offset b p).
Proof.
  intros Hs Hj Hl Hok Hi Hnull.
  destruct (alloc_memblock_cases fuel size j offset c h lo hi live)
    as (ptr & c1 & h1 & E & _ & [(-> & Hok1 & Hnone)|(Hp & _)]); try done;
    rewrite E in Hnull; simplify_eq.
  destruct (round_size_spec size Hs) as [[? _]|(H1 & H2 & H3)]; [by left|right].
  pose proof min_memblock_pos. destruct (Hnone ltac:(lia)) as [Hdisc Hfits].
  split; [done|]. intros b p Hb Hpl. destruct (align_mask_log2 j Hj) as [Hk _].
  pose proof (blocks_ok_in _ _ _ b (ho_free _ _ _ _ Hok1) Hb).
  rewrite Forall_forall in Hfits. apply (Hfits b Hb).
  eapply (placement_fits lo hi d); [..|exact Hpl]; try done; lia.
Qed.

(** C12.  Freeing a live block returns exactly its (rounded) bytes to the free
    list and nothing else: the loop finds the insertion point, merges with a
    preceding and a following neighbour when adjacent, and the list it leaves
    passes [check_blocks]; the other blocks stay allocated with their bytes
    unchanged (the list's own bookkeeping is written into free memory only), and
    the sum of the usage counters does not change. *)
Theorem free_memblock_ok p size h lo hi live :
  0 < size < 2 ^ W -> heap_ok lo hi ((p, round_size size) :: live) h ->
  exists h', free_memblock p size h = Some h'
    /\ heap_ok lo hi live h' /\ check_blocks h' = true
    /\ same_bytes live h h'
    /\ size_t (freemem h' + usedmem h') = size_t (freemem h + usedmem h)
    /\ forall a, covers (free_blocks h') a <->
                 covers (free_blocks h) a \/ p <= a < p + round_size size.
Proof.
  intros Hs Hok.
  destruct (heap_ok_free lo hi live h p size Hs Hok) as (h' & E & Hok' & Hm & Hu & _ & Hc).
  exists h'. split; [done|]. split; [done|].
  split; [by eapply heap_ok_check|]. auto.
Qed.

Lemma round_size_divide size :
  0 < size < 2 ^ W -> (MIN_MEMBLOCK_SIZE | round_size size).
Proof.
  intros Hs. destruct (round_size_spec size Hs) as [[_ ->]|(_ & _ & H)]; [|done].
  apply Z.divide_0_r.
Qed.

Lemma pre_size_divide j offset b :
  0 <= j < W -> (MIN_MEMBLOCK_SIZE | virt_to_phys (block_addr b) - offset) ->
  (MIN_MEMBLOCK_SIZE | pre_size (align_log2 j) offset b).
Proof.
  intros Hj [q Hq]. unfold pre_size. destruct (align_mask_log2 j Hj) as [Hk _].
  revert Hq Hk. unfold align_log2. destruct min_memblock_pow2 as (k & -> & Hk0 & _).
  rewrite Z.log2_pow2 by lia. intros Hq Hk.
  rewrite Z.mod_eq by (pose proof (pow2_pos (Z.max j k)); lia).
  apply Z.divide_sub_r; [exists (-q); lia|].
  apply Z.divide_mul_l. exists (2 ^ (Z.max j k - k)).
  rewrite <- Z.pow_add_r by lia. f_equal. lia.
Qed.

End Theorems.

Section RoundTrip.
Context {P : Platform}.

Abbreviation W := word_bits.

(**  Allocation and release are inverse: on a heap whose blocks are
    multiples of the minimum block in position (relative to the requested
    offset) and size, allocating a block and freeing it again gives back the
    very same free list and usage counters, with no fragment lost. *)
Theorem alloc_free_roundtrip fuel size j offset h lo hi live ptr h' :
  0 < size < 2 ^ W -> 0 <= j < W -> heap_ok lo hi live h ->
  in_range W (freemem h) -> in_range W (usedmem h) ->
  Forall (fun b => (MIN_MEMBLOCK_SIZE | virt_to_phys (block_addr b) - offset)
                   /\ (MIN_MEMBLOCK_SIZE | block_size b)) (free_blocks h) ->
  alloc_memblock (cache := unit) [] (S fuel) size (2 ^ j) offset tt h
    = Some (ptr, tt, h') ->
  ptr <> 0 ->
  exists h'', free_memblock ptr size h' = Some h''
    /\ free_blocks h'' = free_blocks h /\ freemem h'' = freemem h
    /\ usedmem h'' = usedmem h.
Proof.
  intros Hs Hj Hok Hf Hu Hal Ha Hp. unfold alloc_memblock in Ha.
  destruct (Z.eqb_spec (round_size size) 0) as [E0|E0]; [simplify_eq|].
  destruct (round_size_min size Hs E0) as [Hm Hle].
  destruct (align_mask_log2 j Hj) as [Hk Hmask]. rewrite Hmask in Ha. simpl in Ha.
  destruct (alloc_search _ _ _ (free_blocks h)) as [[p l']|] eqn:E; simplify_eq.
  pose proof min_memblock_pos as Hmin.
  assert (Hn : 0 < round_size size < 2 ^ W) by lia.
  pose proof (alloc_search_some lo hi _ _ _ _ _ _ (ho_region _ _ _ _ Hok) Hk
    Hn (ho_free _ _ _ _ Hok) E) as He.
  match goal with |- exists _, free_memblock _ _ ?hh = _ /\ _ => set (h1 := hh) end.
  assert (Hok1 : heap_ok lo hi ((ptr, round_size size) :: live) h1)
    by (eapply heap_ok_alloc; [done|lia|done]).
  destruct (ae_exact _ _ _ _ _ _ _ _ He) as [Hcov _].
  { eapply Forall_impl; [exact Hal|]. intros b [? ?]. split; [|done].
    by apply pre_size_divide. }
  { by apply round_size_divide. }
  destruct (heap_ok_free lo hi live h1 ptr size Hs Hok1)
    as (h'' & E'' & Hok'' & _ & _ & _ & Hc).
  exists h''. split; [done|].
  split.
  - apply (blocks_ok_unique lo hi); [apply Hok''|apply Hok|].
    intros a. rewrite Hc, Hcov. done.
  - revert E''. unfold free_memblock. destruct (ptr =? 0) eqn:?; [lia|].
    destruct (free_insert _ _ _); [|done]. intros [= <-]. simpl.
    rewrite wrap_add_idemp_l, wrap_sub_idemp_l, Z.sub_add, Z.add_simpl_r.
    split; by apply wrap_small.
Qed.

End RoundTrip.

Section Realloc.
Context {P : Platform} {cache : Type}.
Context (ds : list (cache -> heap -> Z * cache * heap)) {CO : CacheOwner ds}.

Abbreviation W := word_bits.

Lemma sizeof_ptr_cases : sizeof_ptr = 4 \/ sizeof_ptr = 8.
Proof. unfold sizeof_ptr. destruct word_bits_ok as [-> | ->]; auto. Qed.

Lemma sizeof_ptr_bytes : 256 ^ sizeof_ptr = 2 ^ W.
Proof. unfold sizeof_ptr. destruct word_bits_ok as [-> | ->]; done. Qed.

Lemma disjoint_blocks_sep p n q m :
  0 < n -> 0 < m -> disjoint_blocks (p, n) (q, m) -> p + n <= q \/ q + m <= p.
Proof.
  intros Hn Hm Hd. destruct (decide (p + n <= q)) as [|H1]; [by left|].
  destruct (decide (q + m <= p)) as [|H2]; [by right|].
  destruct (Hd (Z.max p q)). unfold in_block; simpl; lia.
Qed.

(** A sized block handed out by [malloc]: its data pointer, its data size, the
    header in front of it and the memory it occupies. *)
Definition sized_block (ptr size : Z) : Z * Z :=
  (ptr - sizeof_ptr, round_size (size + sizeof_ptr)).

Definition has_header (ptr size : Z) (m : gmap Z Z) : Prop :=
  load_word (Z.to_nat sizeof_ptr) (ptr - sizeof_ptr) m = Some (size + sizeof_ptr).

Lemma heap_ok_head lo hi x live h :
  heap_ok lo hi (x :: live) h ->
  lo <= x.1 /\ MIN_MEMBLOCK_SIZE <= x.2 /\ x.1 + x.2 <= hi /\ 0 < lo /\ hi < 2 ^ W
  /\ Forall (disjoint_blocks x) live.
Proof.
  intros [(? & ? & ? & ?) _ [(? & ? & ?) _]%Forall_cons _ Hd]. inversion Hd; subst.
  repeat split; done.
Qed.

Lemma sized_block_bounds lo hi ptr size live h :
  0 < size -> size + sizeof_ptr < 2 ^ W ->
  heap_ok lo hi (sized_block ptr size :: live) h ->
  0 < ptr - sizeof_ptr
  /\ ptr - sizeof_ptr + (size + sizeof_ptr) <= (sized_block ptr size).1 + (sized_block ptr size).2
  /\ ptr + size < 2 ^ W /\ ptr <> 0 /\ ptr <> NOWHERE.
Proof.
  intros Hs Ht Hok. apply heap_ok_head in Hok as (H1 & H2 & H3 & H4 & H5 & _).
  simpl in *. pose proof min_memblock_pos. destruct sizeof_ptr_cases as [E|E];
    destruct (round_size_min (size + sizeof_ptr)) as [_ Hr]; unfold NOWHERE; lia.
Qed.

(** The sized-block layer of an allocation: header stored, data pointer
    returned. *)
Lemma realloc_new_ok fuel size c h lo hi live :
  0 < size < 2 ^ W -> heap_ok lo hi (live ++ owned c) h -> (items c < fuel)%nat ->
  exists r c' h', realloc_new ds fuel size c h = Some (r, c', h')
    /\ same_bytes live h h'
    /\ match r with
       | None => heap_ok lo hi (live ++ owned c') h'
       | Some ptr => size + sizeof_ptr < 2 ^ W
           /\ heap_ok lo hi (sized_block ptr size :: live ++ owned c') h'
           /\ has_header ptr size (mem h')
       end.
Proof.
  intros Hs Hok Hi. pose proof word_bits_pos. pose proof sizeof_ptr_bytes as Hb.
  assert (0 < sizeof_ptr <= 8) by (destruct sizeof_ptr_cases; lia).
  unfold realloc_new. destruct (Z.eqb_spec size 0); [lia|].
  assert (Hw : 8 < 2 ^ W) by (apply (Z.lt_le_trans _ (2 ^ 32)); [lia|];
    apply Z.pow_le_mono_r; lia).
  destruct (Z.ltb_spec (wrap W (size + sizeof_ptr)) size) as [|Hge].
  { do 3 eexists. split; [done|]. done. }
  assert (Ht : size + sizeof_ptr < 2 ^ W).
  { destruct (Z.ltb_spec (size + sizeof_ptr) (2 ^ W)); [done|]. exfalso. unfold wrap in Hge.
    assert ((size + sizeof_ptr) mod 2 ^ W = size + sizeof_ptr - 2 ^ W) as E
      by (symmetry; apply (Z.mod_unique _ _ 1); lia). lia. }
  rewrite (wrap_small W (size + sizeof_ptr)) by (unfold in_range; lia).
  change 1 with (2 ^ 0) at 1.
  destruct (alloc_memblock_cases ds fuel (size + sizeof_ptr) 0 0 c h lo hi live)
    as (blk & c' & h' & -> & Hsame & [(-> & Hok' & _)|(Hp & Hle & Hok' & _)]);
    try done; try lia.
  { simpl. do 3 eexists. split; [done|]. done. }
  apply Z.eqb_neq in Hp. rewrite Hp.
  pose proof (heap_ok_head _ _ _ _ _ Hok') as (H1 & H2 & H3 & H4 & H5 & Hdis). simpl in *.
  rewrite (wrap_small W (blk + sizeof_ptr)) by (unfold in_range; lia).
  do 3 eexists. split; [done|]. split.
  - intros pn a Hin Ha. simpl. rewrite store_word_other; [exact (Hsame pn a Hin Ha)|].
    intros Hx. rewrite Forall_forall in Hdis.
    apply (Hdis pn (proj2 (elem_of_app _ _ _) (or_introl Hin)) a).
    split; [|done]. unfold in_block; simpl. lia.
  - split; [done|]. unfold sized_block, has_header.
    replace (blk + sizeof_ptr - sizeof_ptr) with blk by lia.
    split; [by apply heap_ok_mem|]. simpl.
    rewrite load_store_word, Z2Nat.id, Hb by lia. rewrite Z.mod_small by lia. done.
Qed.

(** [realloc] on a live block either fails, returning NULL and leaving the
    old block allocated with its contents, or moves it: the new block holds the
    old contents up to the smaller of the two sizes and carries the new size in
    its header, the old block is released, and no byte of any other block of
    the caller changes. *)
Theorem realloc_moves fuel old_ptr old_size new_size c h lo hi live :
  0 < old_size -> old_size + sizeof_ptr < 2 ^ W -> 0 < new_size < 2 ^ W ->
  heap_ok lo hi (sized_block old_ptr old_size :: live ++ owned c) h ->
  has_header old_ptr old_size (mem h) -> (items c < fuel)%nat ->
  exists ptr c' h', realloc ds fuel old_ptr new_size c h = Some (ptr, c', h')
    /\ same_bytes live h h'
    /\ ((ptr = 0 /\ same_bytes [sized_block old_ptr old_size] h h'
         /\ heap_ok lo hi (sized_block old_ptr old_size :: live ++ owned c') h')
        \/ (ptr <> 0 /\ has_header ptr new_size (mem h')
            /\ heap_ok lo hi (sized_block ptr new_size :: live ++ owned c') h'
            /\ forall i, 0 <= i < Z.min old_size new_size ->
                 mem h' !! (ptr + i) = mem h !! (old_ptr + i))).
Proof.
  intros Hos Hot Hns Hok Hhdr Hi. unfold realloc.
  destruct (realloc_new_ok fuel new_size c h lo hi (sized_block old_ptr old_size :: live))
    as (r & c' & h1 & -> & Hsame & Hr); [done..|].
  assert (Hsl : same_bytes live h h1) by (intros pn a Hin; apply (Hsame pn a); by right).
  assert (Hso : same_bytes [sized_block old_ptr old_size] h h1).
  { intros pn a ->%list_elem_of_singleton. apply (Hsame _ a). by left. }
  destruct r as [ptr|]; [|exists 0, c', h1; auto 6].
  destruct Hr as (Hnt & Hok1 & Hhdr1).
  pose proof (sized_block_bounds _ _ _ _ _ _ Hos Hot Hok) as (Ho1 & Ho2 & Ho3 & Ho4 & Ho5).
  pose proof (sized_block_bounds _ _ _ _ _ _ (proj1 Hns) Hnt Hok1) as (Hn1 & Hn2 & Hn3 & Hn4 & Hn5).
  pose proof min_memblock_pos as Hmin.
  pose proof (heap_ok_head _ _ _ _ _ Hok1) as (_ & Hm1 & _ & _ & _ & Hdis).
  apply Forall_cons in Hdis as [Hdo Hdl].
  pose proof (heap_ok_head _ _ _ _ _ Hok) as (_ & Hm0 & _).
  apply disjoint_blocks_sep in Hdo; [|simpl in *; lia..].
  assert (0 < sizeof_ptr) by (destruct sizeof_ptr_cases; lia).
  apply Z.eqb_neq in Ho4, Ho5. rewrite Ho4, Ho5. simpl orb. cbv iota.
  rewrite (wrap_small W (old_ptr - sizeof_ptr)) by (unfold in_range; lia).
  rewrite (load_word_ext _ _ (mem h)).
  2: { intros x Hx. apply (Hso (sized_block old_ptr old_size)); [by left|].
       unfold in_block. simpl in *. lia. }
  rewrite Hhdr.
  rewrite (wrap_small W (old_size + sizeof_ptr - sizeof_ptr)) by (unfold in_range; lia).
  rewrite Z.add_simpl_r.
  set (n := if old_size <? new_size then old_size else new_size).
  assert (Hn : n = Z.min old_size new_size) by (unfold n; case_if; lia).
  set (m := copy_bytes (Z.to_nat n) ptr old_ptr (mem h1)).
  assert (Hm : forall x, ~ (ptr <= x < ptr + new_size) -> m !! x = mem h1 !! x)
    by (intros x Hx; apply copy_bytes_other; lia).
  apply (heap_ok_mem _ _ _ _ m) in Hok1.
  apply (heap_ok_perm _ _ _ _ _ (Permutation_swap _ _ _)) in Hok1.
  destruct (heap_ok_free lo hi (sized_block ptr new_size :: live ++ owned c')
    (with_mem m h1) (old_ptr - sizeof_ptr) (old_size + sizeof_ptr))
    as (h2 & -> & Hok2 & Hm2 & _); [lia|done|].
  assert (Hnew : forall x, ptr - sizeof_ptr <= x < ptr + new_size -> mem h2 !! x = m !! x).
  { intros x Hx. apply (Hm2 (sized_block ptr new_size)); [by left|].
    unfold in_block. simpl in *. lia. }
  exists ptr, c', h2. split; [done|]. split.
  - intros pn a Hin Ha. rewrite (Hm2 pn a) by set_solver. simpl.
    rewrite Hm; [by apply (Hsl pn a)|]. intros Hx. rewrite Forall_forall in Hdl.
    apply (Hdl pn (proj2 (elem_of_app _ _ _) (or_introl Hin)) a).
    split; [|done]. unfold in_block. simpl in *. lia.
  - right. split; [done|]. split; [|split; [done|]].
    + unfold has_header. rewrite (load_word_ext _ _ (mem h1)); [done|].
      intros x Hx. rewrite Hnew by lia. apply Hm. lia.
    + intros i Hi'. rewrite Hnew by lia. unfold m. rewrite copy_bytes_lookup; [|simpl in *; lia..].
      apply (Hso (sized_block old_ptr old_size)); [by left|].
      unfold in_block. simpl in *. lia.
Qed.

End Realloc.

(** ** Examples *)

Section Examples.

#[local] Existing Instance i386_pcbios.

(** A 4kB heap at 0x1000, and the same heap after [malloc ( 100 )]. *)
Definition ex_heap : heap := Heap [MemoryBlock 0x1000 0x1000] 0x1000 0 0 ∅.
Definition ex_heap_used : heap :=
  Heap [MemoryBlock 0x1070 0xf90] 0xf90 0x70 0x70 (store_word 4 0x1000 104 ∅).

Example malloc_example :
  malloc (cache := unit) [] 1 100 tt ex_heap = Some (0x1004, tt, ex_heap_used).
Proof. vm_compute. reflexivity. Qed.

Example init_heap_example :
  free_blocks <$> init_heap 0x1000 = Some [MemoryBlock 0x1000 0x80000].
Proof. vm_compute. reflexivity. Qed.

Lemma ex_min : MIN_MEMBLOCK_SIZE = 16.
Proof. reflexivity. Qed.

Lemma ex_phys_linear : phys_linear 0x1000 0x2000 0x40000.
Proof.
  intros a Ha. simpl. unfold librm_virt_to_phys, librm_user_to_phys. simpl.
  by rewrite wrap_add_idemp_l, Z.add_0_r.
Qed.

Lemma ex_heap_ok : heap_ok 0x1000 0x2000 [] ex_heap.
Proof.
  split; try constructor; rewrite ?ex_min; simpl; lia.
Qed.

Lemma ex_heap_used_ok : heap_ok 0x1000 0x2000 [(0x1000, 0x70)] ex_heap_used.
Proof.
  split; rewrite ?ex_min; try (repeat constructor; simpl; lia).
  - simpl. rewrite ex_min. lia.
  - constructor; [|constructor]. intros a Ha Hc.
    unfold in_block in Ha. apply covers_cons in Hc as [Hc|Hc]; simpl in *; [lia|].
    by apply covers_nil in Hc.
Qed.

(** The heap with a second block, of 2kB, in use. *)
Definition ex_heap_two : heap :=
  Heap [MemoryBlock 0x1070 0x790] 0x790 0x870 0x870 (store_word 4 0x1800 0x800 (store_word 4 0x1000 104 ∅)).

Lemma ex_heap_two_ok : heap_ok 0x1000 0x2000 [(0x1000, 0x70); (0x1800, 0x800)] ex_heap_two.
Proof.
  split; rewrite ?ex_min; try (repeat constructor; simpl; lia).
  - simpl. rewrite ex_min. lia.
  - repeat constructor; intros a Ha Hc; unfold in_block in Ha;
      apply covers_cons in Hc as [Hc|Hc]; simpl in *; try lia; by apply covers_nil in Hc.
  - repeat constructor. intros a [Ha Ha']. unfold in_block in *. simpl in *. lia.
Qed.

Lemma alloc_memblock_safe_witness :
  exists ptr c' h',
    alloc_memblock (cache := unit) [] 1 100 (2 ^ 8) 0 tt ex_heap = Some (ptr, c', h')
    /\ same_bytes [] ex_heap h'
    /\ ((ptr = 0 /\ heap_ok 0x1000 0x2000 ([] ++ owned c') h')
        \/ (ptr <> 0 /\ 100 <= round_size 100
            /\ heap_ok 0x1000 0x2000 ((ptr, round_size 100) :: [] ++ owned c') h'
            /\ (virt_to_phys ptr - 0) mod 2 ^ 8 = 0)).
Proof.
  apply (alloc_memblock_safe [] 1 100 8 0 tt ex_heap 0x1000 0x2000 0x40000 []).
  - simpl; lia.
  - simpl; lia.
  - exact ex_phys_linear.
  - exact ex_heap_ok.
  - simpl; lia.
Defined.

Lemma alloc_memblock_complete_witness :
  2 ^ word_bits - MIN_MEMBLOCK_SIZE < 5000
  \/ (discard_cache (cache := unit) [] tt ex_heap = (0, tt, ex_heap)
      /\ forall b p, b ∈ free_blocks ex_heap ->
           ~ placement (round_size 5000) (align_log2 0) 0 b p).
Proof.
  apply (alloc_memblock_complete [] 1 5000 0 0 tt ex_heap 0x1000 0x2000 0x40000 [] tt ex_heap).
  - simpl; lia.
  - simpl; lia.
  - exact ex_phys_linear.
  - exact ex_heap_ok.
  - simpl; lia.
  - vm_compute; reflexivity.
Defined.

Lemma free_memblock_ok_witness :
  exists h', free_memblock 0x1000 104 ex_heap_two = Some h'
    /\ heap_ok 0x1000 0x2000 [(0x1800, 0x800)] h' /\ check_blocks h' = true
    /\ same_bytes [(0x1800, 0x800)] ex_heap_two h'
    /\ wrap word_bits (freemem h' + usedmem h')
       = wrap word_bits (freemem ex_heap_two + usedmem ex_heap_two)
    /\ forall a, covers (free_blocks h') a <->
         covers (free_blocks ex_heap_two) a \/ 0x1000 <= a < 0x1000 + round_size 104.
Proof.
  apply (free_memblock_ok 0x1000 104 ex_heap_two 0x1000 0x2000 [(0x1800, 0x800)]).
  - simpl; lia.
  - exact ex_heap_two_ok.
Defined.

Lemma alloc_free_roundtrip_witness :
  exists h'', free_memblock 0x1000 104 (with_mem ∅ ex_heap_used) = Some h''
    /\ free_blocks h'' = free_blocks ex_heap /\ freemem h'' = freemem ex_heap
    /\ usedmem h'' = usedmem ex_heap.
Proof.
  apply (alloc_free_roundtrip 0 104 0 0 ex_heap 0x1000 0x2000 []).
  - simpl; lia.
  - simpl; lia.
  - exact ex_heap_ok.
  - vm_compute; split; congruence.
  - vm_compute; split; congruence.
  - repeat constructor; rewrite ?ex_min; [exists 0x4100; reflexivity|exists 0x100; reflexivity].
  - vm_compute; reflexivity.
  - lia.
Defined.

Lemma realloc_moves_witness :
  exists ptr c' h', realloc (cache := unit) [] 1 0x1004 200 tt ex_heap_used = Some (ptr, c', h')
    /\ same_bytes [] ex_heap_used h'
    /\ ((ptr = 0 /\ same_bytes [sized_block 0x1004 100] ex_heap_used h'
         /\ heap_ok 0x1000 0x2000 (sized_block 0x1004 100 :: [] ++ owned c') h')
        \/ (ptr <> 0 /\ has_header ptr 200 (mem h')
            /\ heap_ok 0x1000 0x2000 (sized_block ptr 200 :: [] ++ owned c') h'
            /\ forall i, 0 <= i < Z.min 100 200 ->
                 mem h' !! (ptr + i) = mem ex_heap_used !! (0x1004 + i))).
Proof.
  apply (realloc_moves [] 1 0x1004 100 200 tt ex_heap_used 0x1000 0x2000 []).
  - lia.
  - vm_compute; reflexivity.
  - simpl; lia.
  - exact ex_heap_used_ok.
  - vm_compute; reflexivity.
  - simpl; lia.
Defined.

End Examples.
