(* ===== verification/Dhcpopts.v ===== *)
(** * DHCP options blocks and DHCP packets

    Model of [net/dhcpopts.c] (search, resizing, creation, deletion and fetch of
    options, plain and encapsulated, in a raw options block) and of the packet
    interface of [net/dhcppkt.c] (dedicated header fields that shadow options).

    A block is the raw memory of the C object ([data], whose length is
    [alloc_len]) with its [used_len].  Every access goes through [rd], [wr],
    [rd_range] and [wr_range], so a read or write outside the allocation is
    [Trap].  The [realloc] method is a parameter; [dhcpopt_no_realloc] is its
    instance for packets.  The abstract view is a list of options ([opt]) obtained
    by [decode]; the theorems relate the byte-level code to that list. *)

From Stdlib Require Import ZArith Lia Bool ZifyBool.
From stdpp Require Import base numbers list.
From S2P Require Import Prelude.
Local Open Scope Z_scope.

Abbreviation DHCP_PAD := 0.
Abbreviation DHCP_END := 255.
Abbreviation DHCP_OPTION_HEADER_LEN := 2.
Abbreviation DHCP_MAX_LEN := 255.
Abbreviation DHCP_MAX_OPTION := 254.

Abbreviation DHCP_ENCAP_OPT encapsulator encapsulated := (Z.lor (Z.shiftl encapsulator 8) encapsulated).
Abbreviation DHCP_ENCAPSULATOR encap_opt := (Z.shiftr encap_opt 8).
Abbreviation DHCP_ENCAPSULATED encap_opt := (Z.land encap_opt 255).
Abbreviation DHCP_IS_ENCAP_OPT opt := (negb (DHCP_ENCAPSULATOR opt =? 0)).

Record dhcp_options := { data : bytes; used_len : Z }.

Definition alloc_len (o : dhcp_options) : Z := zlen (data o).

(** The reallocation method: the block with its new memory, or an error that
    leaves the block as it was. *)
Definition reallocator := dhcp_options -> Z -> res dhcp_options.

(** ** Operations *)

Definition dhcp_option_len (d : bytes) (offset : Z) : res Z :=
  tag ← rd d offset;
  if (tag =? DHCP_END) || (tag =? DHCP_PAD) then Ok 1
  else len ← rd d (offset + 1); Ok (len + DHCP_OPTION_HEADER_LEN).

(** The search loop.  The result pairs the encapsulator's offset (the initial
    value of [encap_offset] if none was entered) with the offset found, [None]
    standing for [-ENOENT]. *)
Fixpoint find_loop (fuel : nat) (d : bytes) (tag offset remaining encap_offset : Z)
  : res (Z * option Z) :=
  match fuel with
  | O => Trap
  | S fuel =>
    if remaining =? 0 then Ok (encap_offset, None) else
    option_len ← dhcp_option_len d offset;
    let remaining := remaining - option_len in
    if remaining <? 0 then Ok (encap_offset, None) else
    option_tag ← rd d offset;
    if option_tag =? DHCP_END then
      Ok (encap_offset, if tag =? DHCP_END then Some offset else None)
    else if option_tag =? tag then Ok (encap_offset, Some offset)
    else if DHCP_IS_ENCAP_OPT tag && (option_tag =? DHCP_ENCAPSULATOR tag) then
      find_loop fuel d (DHCP_ENCAPSULATED tag)
        (offset + DHCP_OPTION_HEADER_LEN) option_len offset
    else find_loop fuel d tag (offset + option_len) remaining encap_offset
  end.

(** Each iteration consumes at least one byte of [remaining], except the single
    one that enters an encapsulator, which sets it to at most 257. *)
Definition find_fuel (o : dhcp_options) : nat := Z.to_nat (used_len o) + 260.

Definition find_dhcp_option_with_encap (o : dhcp_options) (tag encap_offset : Z)
  : res (Z * option Z) :=
  if tag =? DHCP_PAD then Ok (encap_offset, None)
  else find_loop (find_fuel o) (data o) tag 0 (used_len o) encap_offset.

Definition dhcpopt_no_realloc : reallocator := fun o len =>
  if len <=? alloc_len o then Ok o else Err ENOSPC.

(** Clear the space a reallocation added after the first [old_alloc_len] bytes. *)
Definition clear_from (d : bytes) (old_alloc_len : Z) : bytes :=
  take (Z.to_nat old_alloc_len) d ++ replicate (length d - Z.to_nat old_alloc_len) 0.

(** The functions that may fail after changing the block return the block
    together with their status: [inl] an error, [inr] a value. *)
Definition status A := (errno + A)%type.

(** Expand the block, if necessary, to hold [new_used_len] bytes. *)
Definition expand_block (ra : reallocator) (o : dhcp_options) (new_used_len : Z)
  : res dhcp_options :=
  if alloc_len o <? new_used_len then
    o' ← ra o new_used_len;
    Ok {| data := clear_from (data o') (alloc_len o); used_len := used_len o' |}
  else Ok o.

(** Adjust the encapsulator's length; [None] if it would leave its range (as a
    [size_t], a negative length is above the maximum too). *)
Definition update_encapsulator (d : bytes) (encap_offset delta : Z) : res (option bytes) :=
  if 0 <=? encap_offset then
    len ← rd d (encap_offset + 1);
    if (len + delta <? 0) || (DHCP_MAX_LEN <? len + delta) then Ok None
    else d ← wr d (encap_offset + 1) (len + delta); Ok (Some d)
  else Ok (Some d).

Definition resize_dhcp_option (ra : reallocator) (o : dhcp_options)
    (offset encap_offset old_len new_len : Z) : res (dhcp_options * status unit) :=
  let delta := new_len - old_len in
  if DHCP_MAX_LEN <? new_len then Ok (o, inl ENOSPC) else
  let new_used_len := used_len o + delta in
  match expand_block ra o new_used_len with
  | Trap => Trap
  | Err e => Ok (o, inl e)
  | Ok o =>
    encapsulated ← update_encapsulator (data o) encap_offset delta;
    match encapsulated with
    | None => Ok (o, inl ENOSPC)
    | Some d =>
      rest ← rd_range d (offset + old_len) (new_used_len - offset - new_len);
      d ← wr_range d (offset + new_len) rest;
      let o := {| data := d; used_len := new_used_len |} in
      if new_used_len <? alloc_len o then
        match ra o new_used_len with
        | Trap => Trap
        | Err e => Ok (o, inl e)
        | Ok o => Ok (o, inr tt)
        end
      else Ok (o, inr tt)
    end
  end.

Definition write_option (o : dhcp_options) (offset tag : Z) (value : bytes)
  : res dhcp_options :=
  d ← wr (data o) offset (u8 tag);
  d ← wr d (offset + 1) (u8 (zlen value));
  d ← wr_range d (offset + DHCP_OPTION_HEADER_LEN) value;
  Ok {| data := d; used_len := used_len o |}.

(** The recursion creates, and deletes, the encapsulator, whose tag is the
    option's tag shifted right by eight: at most four levels for a 32-bit tag. *)
Fixpoint set_dhcp_option (depth : nat) (ra : reallocator) (o : dhcp_options)
    (tag : Z) (value : bytes) : res (dhcp_options * status Z) :=
  match depth with
  | O => Trap
  | S depth =>
    let encap_tag := DHCP_ENCAPSULATOR tag in
    let len := zlen value in
    let new_len := if len =? 0 then 0 else len + DHCP_OPTION_HEADER_LEN in
    if tag =? DHCP_PAD then Ok (o, inl ENOTTY) else
    creation ← find_dhcp_option_with_encap o DHCP_END (-1);
    let creation_offset := default (used_len o) (creation.2) in
    found ← find_dhcp_option_with_encap o tag (-1);
    let '(encap_offset, existing) := found in
    old_len ← match existing with
              | Some offset => dhcp_option_len (data o) offset
              | None => Ok 0
              end;
    encapsulator ←
      (if encap_tag =? 0 then Ok (o, inr (encap_offset, creation_offset))
       else
         made ← (if encap_offset <? 0
                 then set_dhcp_option depth ra o encap_tag [DHCP_END]
                 else Ok (o, inr encap_offset));
         match made with
         | (o, inl e) => Ok (o, inl e)
         | (o, inr encap_offset) =>
             Ok (o, inr (encap_offset, encap_offset + DHCP_OPTION_HEADER_LEN))
         end);
    match encapsulator with
    | (o, inl e) => Ok (o, inl e)
    | (o, inr (encap_offset, creation_offset)) =>
      let offset := default creation_offset existing in
      resized ← resize_dhcp_option ra o offset encap_offset old_len new_len;
      match resized with
      | (o, inl e) => Ok (o, inl e)
      | (o, inr _) =>
        o ← (if len =? 0 then Ok o else write_option o offset tag value);
        if 0 <=? encap_offset then
          encap_len ← rd (data o) (encap_offset + 1);
          if encap_len <=? 1 then
            deleted ← set_dhcp_option depth ra o encap_tag [];
            Ok (deleted.1, inr offset)
          else Ok (o, inr offset)
        else Ok (o, inr offset)
      end
    end
  end.

Definition dhcpopt_applies (tag : Z) : bool :=
  negb (tag =? 0) && (tag <=? DHCP_ENCAP_OPT DHCP_MAX_OPTION DHCP_MAX_OPTION).

Definition dhcpopt_store (ra : reallocator) (o : dhcp_options) (tag : Z)
    (value : bytes) : res (dhcp_options * status unit) :=
  stored ← set_dhcp_option 5 ra o tag value;
  Ok (stored.1, match stored.2 with inl e => inl e | inr _ => inr tt end).

(** Fetch returns the length of the setting and the bytes copied into a buffer
    of [len] bytes. *)
Definition dhcpopt_fetch (o : dhcp_options) (tag len : Z) : res (Z * bytes) :=
  found ← find_dhcp_option_with_encap o tag (-1);
  match found.2 with
  | None => Err ENOENT
  | Some offset =>
    option_len ← rd (data o) (offset + 1);
    value ← rd_range (data o) (offset + DHCP_OPTION_HEADER_LEN) (Z.min len option_len);
    Ok (option_len, value)
  end.

Fixpoint used_loop (fuel : nat) (d : bytes) (offset remaining used : Z) : res Z :=
  match fuel with
  | O => Trap
  | S fuel =>
    if remaining =? 0 then Ok used else
    option_len ← dhcp_option_len d offset;
    let remaining := remaining - option_len in
    if remaining <? 0 then Ok used else
    tag ← rd d offset;
    let offset := offset + option_len in
    used_loop fuel d offset remaining (if tag =? DHCP_PAD then used else offset)
  end.

Definition dhcpopt_update_used_len (o : dhcp_options) : res dhcp_options :=
  used ← used_loop (S (length (data o))) (data o) 0 (alloc_len o) 0;
  Ok {| data := data o; used_len := used |}.

Definition dhcpopt_init (d : bytes) : res dhcp_options :=
  dhcpopt_update_used_len {| data := d; used_len := 0 |}.

(** ** DHCP packets *)

Definition used_len_ipv4 (field : bytes) : Z :=
  if forallb (Z.eqb 0) (take 4 field) then 0 else 4.

(** [strnlen]: the number of bytes before the first NUL. *)
Fixpoint strnlen (s : bytes) : Z :=
  match s with
  | [] => 0
  | c :: s => if c =? 0 then 0 else 1 + strnlen s
  end.

Definition used_len_string (field : bytes) : Z := strnlen field.

Record dhcp_packet_field := {
  field_tag : Z;
  field_offset : Z;
  field_len : Z;
  field_used_len : bytes -> Z
}.

(** The layout of [struct dhcphdr]: [yiaddr] at 16, [siaddr] at 20, [sname] at
    44, [file] at 108, [options] at 240. *)
Definition dhcp_packet_fields : list dhcp_packet_field :=
  [ {| field_tag := DHCP_ENCAP_OPT 175 2; field_offset := 16; field_len := 4;
       field_used_len := used_len_ipv4 |};
    {| field_tag := DHCP_ENCAP_OPT 175 3; field_offset := 20; field_len := 4;
       field_used_len := used_len_ipv4 |};
    {| field_tag := 66; field_offset := 44; field_len := 64;
       field_used_len := used_len_string |};
    {| field_tag := 67; field_offset := 108; field_len := 128;
       field_used_len := used_len_string |} ].

Abbreviation sizeof_dhcphdr := (240).

(** The packet's buffer is split at [options]: the fixed header and the options
    block. *)
Record dhcp_packet := { dhcphdr : bytes; options : dhcp_options }.

Definition find_dhcp_packet_field (tag : Z) : option dhcp_packet_field :=
  List.find (fun f => field_tag f =? tag) dhcp_packet_fields.

Definition dhcppkt_store (p : dhcp_packet) (tag : Z) (value : bytes)
  : res (dhcp_packet * status unit) :=
  match find_dhcp_packet_field tag with
  | Some f =>
    if field_len f <? zlen value then Ok (p, inl ENOSPC) else
    h ← wr_range (dhcphdr p) (field_offset f) (replicate (Z.to_nat (field_len f)) 0);
    h ← wr_range h (field_offset f) value;
    erased ← dhcpopt_store dhcpopt_no_realloc (options p) tag [];
    Ok ({| dhcphdr := h; options := erased.1 |}, inr tt)
  | None =>
    stored ← dhcpopt_store dhcpopt_no_realloc (options p) tag value;
    Ok ({| dhcphdr := dhcphdr p; options := stored.1 |}, stored.2)
  end.

Definition dhcppkt_fetch (p : dhcp_packet) (tag len : Z) : res (Z * bytes) :=
  special ← match find_dhcp_packet_field tag with
            | Some f =>
              field ← rd_range (dhcphdr p) (field_offset f) (field_len f);
              Ok (field_used_len f field, field)
            | None => Ok (0, [])
            end;
  let '(field_len, field) := special in
  if field_len =? 0 then dhcpopt_fetch (options p) tag len
  else Ok (field_len, take (Z.to_nat (Z.min len field_len)) field).

Definition dhcppkt_init (buf : bytes) : res dhcp_packet :=
  h ← rd_range buf 0 sizeof_dhcphdr;
  o ← dhcpopt_init (drop (Z.to_nat sizeof_dhcphdr) buf);
  Ok {| dhcphdr := h; options := o |}.

Definition dhcppkt_len (p : dhcp_packet) : Z := sizeof_dhcphdr + used_len (options p).

(** ** The abstract view of a block *)

Inductive opt :=
| Pad
| End
| Opt (tag : Z) (payload : bytes).

Definition enc1 (op : opt) : bytes :=
  match op with
  | Pad => [DHCP_PAD]
  | End => [DHCP_END]
  | Opt tag payload => tag :: zlen payload :: payload
  end.

Definition encode (opts : list opt) : bytes := opts ≫= enc1.

Fixpoint decode_fuel (n : nat) (l : bytes) : list opt :=
  match n, l with
  | O, _ | _, [] => []
  | S n, tag :: l =>
    if tag =? DHCP_PAD then Pad :: decode_fuel n l
    else if tag =? DHCP_END then [End]
    else match l with
         | [] => []
         | len :: l =>
           if zlen l <? len then []
           else Opt tag (take (Z.to_nat len) l) :: decode_fuel n (drop (Z.to_nat len) l)
         end
  end.

(** The options of a raw block up to its end marker, the end of the block, or the
    first option whose length takes it beyond the block. *)
Definition decode (l : bytes) : list opt := decode_fuel (length l) l.

Definition wf_opt (op : opt) : Prop :=
  match op with
  | Pad => True
  | End => False
  | Opt tag payload => 0 < tag < 255 /\ zlen payload <= 255 /\ Forall is_byte payload
  end.

(** Position of the first option with a given tag. *)
Fixpoint locate (tag off : Z) (opts : list opt) : option Z :=
  match opts with
  | [] => None
  | Pad :: opts => locate tag (off + 1) opts
  | End :: _ => if tag =? DHCP_END then Some off else None
  | Opt t p :: opts => if t =? tag then Some off else locate tag (off + 2 + zlen p) opts
  end.

(** Position and payload of the first option with a given tag. *)
Fixpoint locate_opt (tag off : Z) (opts : list opt) : option (Z * bytes) :=
  match opts with
  | [] | End :: _ => None
  | Pad :: opts => locate_opt tag (off + 1) opts
  | Opt t p :: opts =>
      if t =? tag then Some (off, p) else locate_opt tag (off + 2 + zlen p) opts
  end.

Definition opt_tag (op : opt) : Z :=
  match op with Pad => DHCP_PAD | End => DHCP_END | Opt tag _ => tag end.

(** *** Encapsulated tags *)

Lemma encap_tag_plain tag : 0 <= tag <= 255 -> DHCP_ENCAPSULATOR tag = 0.
Proof. intros. rewrite Z.shiftr_div_pow2; [apply Z.div_small|]; lia. Qed.

Lemma is_encap_plain tag : 0 <= tag <= 255 -> DHCP_IS_ENCAP_OPT tag = false.
Proof. intros. by rewrite encap_tag_plain. Qed.

Lemma encap_opt_eq e t : 0 <= t <= 255 -> DHCP_ENCAP_OPT e t = e * 256 + t.
Proof.
  intros. pose proof (Z.add_lor_land (Z.shiftl e 8) t) as Hsum.
  assert (Z.land (Z.shiftl e 8) t = 0) as H0; [|rewrite H0, Z.shiftl_mul_pow2 in *; lia].
  apply Z.bits_inj'. intros n Hn.
  rewrite Z.land_spec, Z.bits_0, andb_false_iff.
  destruct (decide (n < 8)); [left; apply Z.shiftl_spec_low; lia|right].
  replace t with (t mod 2 ^ 8) by (apply Z.mod_small; lia).
  apply Z.mod_pow2_bits_high; lia.
Qed.

Lemma encapsulator_encap e t :
  0 <= t <= 255 -> DHCP_ENCAPSULATOR (DHCP_ENCAP_OPT e t) = e.
Proof.
  intros. rewrite encap_opt_eq by done.
  rewrite Z.shiftr_div_pow2 by lia. change (2 ^ 8) with 256.
  Z.div_mod_to_equations; lia.
Qed.

Lemma encapsulated_encap e t :
  0 <= t <= 255 -> DHCP_ENCAPSULATED (DHCP_ENCAP_OPT e t) = t.
Proof.
  intros. rewrite encap_opt_eq by done.
  change 255 with (2 ^ 8 - 1) in *. rewrite land_mask by lia. change (2 ^ 8) with 256 in *.
  Z.div_mod_to_equations; lia.
Qed.

(** *** One step of the search *)

Lemma enc1_nonempty op R : enc1 op ++ R <> [].
Proof. destruct op; cbn; congruence. Qed.

Lemma dhcp_option_len_enc A op R :
  wf_opt op -> dhcp_option_len (A ++ enc1 op ++ R) (zlen A) = Ok (zlen (enc1 op)).
Proof.
  intros Hwf. unfold dhcp_option_len.
  rewrite (rd_app_r A (enc1 op ++ R) (zlen A)) by (done || apply enc1_nonempty).
  destruct op as [| |t p]; [done|done|]. cbn [enc1 app hd mbind res_bind wf_opt] in *.
  case_if; [lia|]. rewrite cons_middle, app_assoc.
  rewrite rd_app_r by app_side.
  cbn [length hd mbind res_bind]. f_equal; lia.
Qed.

Lemma rd_enc A op R : rd (A ++ enc1 op ++ R) (zlen A) = Ok (opt_tag op).
Proof. rewrite rd_app_r by (done || apply enc1_nonempty). by destruct op. Qed.

Lemma find_step fuel A op R tag rem enc :
  wf_opt op -> 0 < tag -> zlen (enc1 op) <= rem ->
  find_loop (S fuel) (A ++ enc1 op ++ R) tag (zlen A) rem enc =
  if opt_tag op =? tag then Ok (enc, Some (zlen A))
  else if DHCP_IS_ENCAP_OPT tag && (opt_tag op =? DHCP_ENCAPSULATOR tag)
  then find_loop fuel (A ++ enc1 op ++ R) (DHCP_ENCAPSULATED tag)
         (zlen A + 2) (zlen (enc1 op)) (zlen A)
  else find_loop fuel (A ++ enc1 op ++ R) tag
         (zlen A + zlen (enc1 op)) (rem - zlen (enc1 op)) enc.
Proof.
  intros Hwf Ht Hrem. cbn [find_loop].
  assert (0 < zlen (enc1 op)) by (destruct op; cbn; lia).
  rewrite (proj2 (Z.eqb_neq rem 0)) by lia.
  rewrite dhcp_option_len_enc by done. cbn [mbind res_bind].
  rewrite (proj2 (Z.ltb_ge _ 0)) by lia. rewrite rd_enc. cbn [mbind res_bind].
  rewrite (proj2 (Z.eqb_neq _ DHCP_END)); [done|].
  destruct op; cbn in *; lia.
Qed.

Lemma find_end fuel A R tag rem enc :
  0 < rem ->
  find_loop (S fuel) (A ++ DHCP_END :: R) tag (zlen A) rem enc =
  Ok (enc, if tag =? DHCP_END then Some (zlen A) else None).
Proof.
  intros. cbn [find_loop]. rewrite (proj2 (Z.eqb_neq rem 0)) by lia.
  unfold dhcp_option_len. rewrite !rd_app_r by done. cbn.
  by rewrite (proj2 (Z.ltb_ge _ 0)) by lia.
Qed.

(** *** Decoding *)

Lemma decode_fuel_enough n l : (length l <= n)%nat -> decode_fuel n l = decode l.
Proof.
  unfold decode. revert l.
  enough (forall n m l, (length l <= n)%nat -> (length l <= m)%nat ->
                   decode_fuel n l = decode_fuel m l) by eauto.
  clear n. induction n as [|n IH]; intros [|m] [|t l] Hn Hm; try (cbn in *; lia || done).
  cbn [decode_fuel length] in *. repeat case_if; try done.
  - rewrite (IH m) by lia. done.
  - destruct l as [|len l]; [done|]. case_if; [done|]. cbn [length] in *.
    rewrite (IH m); [done|rewrite length_drop; lia..].
Qed.

(** Every block of bytes starts with an option, is exhausted, is at its end
    marker, or is malformed. *)
Inductive decode_view : bytes -> list opt -> Prop :=
| view_nil : decode_view [] []
| view_end l : decode_view (DHCP_END :: l) [End]
| view_opt op l : wf_opt op -> decode_view (enc1 op ++ l) (op :: decode l)
| view_lone t : 0 < t < 255 -> decode_view [t] []
| view_over t len l : 0 < t < 255 -> zlen l < len -> decode_view (t :: len :: l) [].

Lemma decode_cases l : Forall is_byte l -> decode_view l (decode l).
Proof.
  intros Hl. destruct l as [|t l]; [constructor|]. inv Hl as [|? ? Ht Hl'].
  unfold in_range in Ht. unfold decode. cbn [length decode_fuel].
  destruct (Z.eqb_spec t DHCP_PAD) as [->|].
  { rewrite decode_fuel_enough by lia. by apply (view_opt Pad). }
  destruct (Z.eqb_spec t DHCP_END) as [->|]; [constructor|].
  destruct l as [|len l]; [constructor; lia|]. inv Hl' as [|? ? Hlen Hl].
  unfold in_range in Hlen. destruct (Z.ltb_spec (zlen l) len); [constructor; lia|].
  rewrite decode_fuel_enough by (rewrite length_drop; cbn; lia).
  assert (t :: len :: l = enc1 (Opt t (take (Z.to_nat len) l)) ++ drop (Z.to_nat len) l) as ->.
  { cbn [enc1]. rewrite length_take, <- !app_comm_cons, take_drop. do 2 f_equal. lia. }
  constructor. cbn. rewrite length_take. split_and!; [lia..|by apply Forall_take].
Qed.

Lemma decode_enc1 op l : wf_opt op -> decode (enc1 op ++ l) = op :: decode l.
Proof.
  intros Hwf. unfold decode. rewrite length_app. destruct op as [| |t p]; [|done|].
  - done.
  - cbn in Hwf. destruct Hwf as (Ht & Hp & _). cbn [enc1 length app Nat.add].
    remember (S (length p + length l)) as n eqn:Hn. cbn [decode_fuel].
    rewrite !(proj2 (Z.eqb_neq _ _)) by lia.
    rewrite length_app, (proj2 (Z.ltb_ge _ _)) by lia.
    rewrite Nat2Z.id, take_app_length, drop_app_length.
    rewrite decode_fuel_enough by lia. done.
Qed.

Lemma encode_cons op opts : encode (op :: opts) = enc1 op ++ encode opts.
Proof. done. Qed.

Lemma encode_app opts1 opts2 : encode (opts1 ++ opts2) = encode opts1 ++ encode opts2.
Proof. apply bind_app. Qed.

Lemma decode_encode opts tail :
  Forall wf_opt opts -> decode (encode opts ++ tail) = opts ++ decode tail.
Proof.
  induction 1 as [|op opts Hop Hopts IH]; [done|].
  rewrite encode_cons, <- app_assoc, decode_enc1, IH by done. done.
Qed.

Lemma find_loop_over fuel A t len l R tag enc :
  0 < t < 255 -> zlen l < len ->
  find_loop (S fuel) (A ++ (t :: len :: l) ++ R) tag (zlen A) (zlen l + 2) enc
  = Ok (enc, None).
Proof.
  intros Ht Hlen. cbn [find_loop]. rewrite (proj2 (Z.eqb_neq _ 0)) by lia.
  unfold dhcp_option_len. rewrite <- !app_comm_cons.
  rewrite (rd_app_r A _ (zlen A)) by app_side. cbn [mbind res_bind hd].
  rewrite (proj2 (Z.eqb_neq t DHCP_END)), (proj2 (Z.eqb_neq t DHCP_PAD)) by lia.
  cbn [orb].
  rewrite cons_middle, app_assoc, rd_app_r by app_side.
  cbn [mbind res_bind hd]. by rewrite (proj2 (Z.ltb_lt _ 0)) by lia.
Qed.

Lemma find_loop_lone fuel A t R tag enc :
  0 < t < 255 -> Forall is_byte R -> R <> [] ->
  find_loop (S fuel) (A ++ [t] ++ R) tag (zlen A) 1 enc = Ok (enc, None).
Proof.
  intros Ht HR Hne. destruct R as [|len R]; [done|]. inv HR as [|? ? Hlen _].
  unfold in_range in Hlen.
  cbn [find_loop]. unfold dhcp_option_len. rewrite <- !app_comm_cons.
  rewrite (rd_app_r A _ (zlen A)) by app_side. cbn [mbind res_bind hd].
  rewrite (proj2 (Z.eqb_neq t DHCP_END)), (proj2 (Z.eqb_neq t DHCP_PAD)) by lia.
  cbn [orb app].
  rewrite cons_middle, app_assoc, rd_app_r by app_side.
  cbn [mbind res_bind hd Z.eqb]. by rewrite (proj2 (Z.ltb_lt _ 0)) by lia.
Qed.

(** A block that ends in the tag of an option without its length byte. *)
Definition lone_tag (l : bytes) : bool :=
  (zlen l =? zlen (encode (decode l)) + 1)
  && negb (existsb (fun op => opt_tag op =? DHCP_END) (decode l)).

Lemma find_loop_end_of_memory fuel A t tag enc :
  0 < t < 255 -> find_loop (S fuel) (A ++ [t]) tag (zlen A) 1 enc = Trap.
Proof.
  intros Ht. cbn [find_loop]. unfold dhcp_option_len.
  rewrite (rd_app_r A _ (zlen A)) by app_side. cbn [mbind res_bind hd].
  rewrite (proj2 (Z.eqb_neq t DHCP_END)), (proj2 (Z.eqb_neq t DHCP_PAD)) by lia. cbn [orb].
  assert (rd (A ++ [t]) (zlen A + 1) = Trap) as ->; [|done].
  unfold rd. rewrite lookup_ge_None_2 by (rewrite length_app; cbn; lia). by case_if.
Qed.

(** The search for a plain tag in a window of the block is the search in the
    decoded window, whatever its bytes, unless it reaches a lone tag in the last
    byte of memory. *)
Lemma find_window_any fuel A l R tag enc :
  Forall is_byte (l ++ R) -> 0 < tag <= 255 -> (length l < fuel)%nat ->
  find_loop fuel (A ++ l ++ R) tag (zlen A) (zlen l) enc =
  if bool_decide (R = []) && bool_decide (locate tag (zlen A) (decode l) = None) && lone_tag l
  then Trap else Ok (enc, locate tag (zlen A) (decode l)).
Proof.
  intros Hb Ht. unfold lone_tag. revert A l Hb.
  induction fuel as [|fuel IH]; intros A l Hb Hf; [lia|].
  apply Forall_app in Hb as [Hl HbR].
  destruct (decode_cases l Hl) as [|l|op l Hwf|t Htt|t len l Htt Hlen].
  - by rewrite andb_false_r.
  - rewrite <- app_comm_cons, find_end by (cbn; lia). by rewrite !andb_false_r.
  - rewrite <- app_assoc, find_step by (rewrite ?length_app; done || lia).
    rewrite is_encap_plain by lia. cbn [andb existsb].
    rewrite (proj2 (Z.eqb_neq (opt_tag op) DHCP_END)) by (destruct op; cbn in *; lia).
    rewrite encode_cons. cbn [orb].
    apply Forall_app in Hl as [_ Hl]. rewrite length_app in Hf.
    assert (0 < zlen (enc1 op)) by (destruct op; cbn; lia).
    specialize (IH (A ++ enc1 op) l (proj2 (Forall_app _ _ _) (conj Hl HbR)) ltac:(lia)).
    rewrite <- app_assoc in IH. rewrite !length_app in *.
    replace (Z.of_nat (length (enc1 op) + length l) - zlen (enc1 op)) with (zlen l) by lia.
    replace (zlen A + zlen (enc1 op)) with (Z.of_nat (length A + length (enc1 op))) by lia.
    replace (Z.of_nat (length (enc1 op) + length l) =? Z.of_nat (length (enc1 op) + length (encode (decode l))) + 1)
      with (zlen l =? zlen (encode (decode l)) + 1) by lia.
    rewrite IH. destruct op as [| |t p]; cbn [opt_tag locate] in *; [|done|].
    + rewrite (proj2 (Z.eqb_neq _ tag)) by lia.
      by replace (Z.of_nat (length A + length (enc1 Pad))) with (zlen A + 1) by (cbn; lia).
    + case_if; [by rewrite andb_false_r|].
      by replace (Z.of_nat (length A + length (enc1 (Opt t p)))) with (zlen A + 2 + zlen p) by (cbn; lia).
  - destruct R as [|x R]; [by apply find_loop_end_of_memory|]. by apply find_loop_lone.
  - cbn [length]. rewrite !Nat2Z.inj_succ, <- Z.add_1_r, <- Z.add_1_r, <- Z.add_assoc.
    rewrite find_loop_over by done. rewrite (proj2 (Z.eqb_neq (_ + _) _)) by (cbn; lia).
    by rewrite andb_false_r.
Qed.

Lemma find_window fuel A l R tag enc :
  Forall is_byte (l ++ R) -> R <> [] -> 0 < tag <= 255 -> (length l < fuel)%nat ->
  find_loop fuel (A ++ l ++ R) tag (zlen A) (zlen l) enc =
  Ok (enc, locate tag (zlen A) (decode l)).
Proof.
  intros Hb HR Ht Hf. rewrite find_window_any by done. by rewrite bool_decide_false.
Qed.

(** The same for a window given by its bounds. *)
Lemma find_slice fuel d off len tag enc :
  Forall is_byte d -> 0 <= off -> 0 <= len -> off + len < zlen d ->
  0 < tag <= 255 -> len < Z.of_nat fuel ->
  find_loop fuel d tag off len enc = Ok (enc, locate tag off (decode (slice d off len))).
Proof.
  intros Hd Hoff Hlen Hlt Ht Hf.
  set (A := take (Z.to_nat off) d). set (l := slice d off len).
  set (R := drop (Z.to_nat len) (drop (Z.to_nat off) d)).
  assert (zlen A = off) as HA by (subst A; rewrite length_take; lia).
  assert (zlen l = len) as Hl by (apply length_slice; lia).
  assert (d = A ++ l ++ R) as Heq by (subst A l R; unfold slice; by rewrite !take_drop).
  assert (R <> []) as HR.
  { intros E. apply (f_equal length) in E. subst R. rewrite !length_drop in E. cbn in E. lia. }
  rewrite Heq in Hd |- *. rewrite <- HA, <- Hl. apply find_window; try done; [|lia].
  by apply Forall_app in Hd as [_ Hd].
Qed.

Lemma find_encap_window fuel A l R e t enc :
  Forall is_byte (A ++ l ++ R) -> (3 <= length R)%nat -> 0 < e < 255 -> 0 < t <= 255 ->
  (length l + 259 < fuel)%nat ->
  find_loop fuel (A ++ l ++ R) (DHCP_ENCAP_OPT e t) (zlen A) (zlen l) enc =
  match locate_opt e (zlen A) (decode l) with
  | None => Ok (enc, None)
  | Some (i, p) =>
      Ok (i, locate t (i + 2) (decode (slice (A ++ l ++ R) (i + 2) (zlen p + 2))))
  end.
Proof.
  intros Hb HR He Ht. revert A l Hb. induction fuel as [|fuel IH]; intros A l Hb Hf; [lia|].
  assert (256 <= DHCP_ENCAP_OPT e t) as Hbig by (rewrite encap_opt_eq; lia).
  pose proof Hb as [HA [Hl HbR]%Forall_app]%Forall_app.
  destruct (decode_cases l Hl) as [|l|op l Hwf|u Htt|u len l Htt Hlen].
  - done.
  - rewrite <- app_comm_cons, find_end by (cbn; lia).
    by rewrite (proj2 (Z.eqb_neq _ DHCP_END)) by lia.
  - rewrite <- app_assoc, find_step by (rewrite ?length_app; done || lia).
    assert (opt_tag op <= 255) by (destruct op; cbn in *; lia).
    rewrite (proj2 (Z.eqb_neq (opt_tag op) _)) by lia.
    rewrite encapsulator_encap, encapsulated_encap by lia.
    rewrite (proj2 (Z.eqb_neq e 0)) by lia. cbn [negb andb].
    assert (0 < zlen (enc1 op)) by (destruct op; cbn; lia). rewrite length_app in Hf.
    destruct (Z.eqb_spec (opt_tag op) e) as [Heq|Hne].
    + destruct op as [| |u p]; cbn [opt_tag] in Heq; [lia|lia|subst u].
      cbn [locate_opt wf_opt] in *. rewrite Z.eqb_refl. rewrite <- app_assoc in Hb.
      rewrite find_slice by (rewrite ?length_app; (done || (cbn [enc1 length]; lia))).
      do 5 f_equal. cbn [enc1 length]. lia.
    + specialize (IH (A ++ enc1 op) l).
      rewrite <- app_assoc in IH. rewrite <- app_assoc in Hb. specialize (IH Hb ltac:(lia)).
      rewrite !length_app in *.
      replace (Z.of_nat (length (enc1 op) + length l) - zlen (enc1 op)) with (zlen l) by lia.
      replace (zlen A + zlen (enc1 op)) with (Z.of_nat (length A + length (enc1 op))) by lia.
      rewrite IH. destruct op as [| |u p]; cbn [opt_tag locate_opt enc1 length] in *; [|done|].
      * by replace (zlen A + 1) with (Z.of_nat (length A + 1)) by lia.
      * rewrite (proj2 (Z.eqb_neq _ _)) by lia.
        by replace (zlen A + 2 + zlen p) with (Z.of_nat (length A + S (S (length p)))) by lia.
  - apply find_loop_lone; [done..|]. intros ->; cbn in HR; lia.
  - cbn [length]. rewrite !Nat2Z.inj_succ, <- Z.add_1_r, <- Z.add_1_r, <- Z.add_assoc.
    by apply find_loop_over.
Qed.

(** ** What the search promises on well-formed blocks *)

Definition without (tag : Z) (opts : list opt) : Prop :=
  Forall (fun op => opt_tag op <> tag) opts.

Lemma opts_split tag opts :
  0 < tag < 255 -> Forall wf_opt opts ->
  without tag opts \/
  exists pre p post, opts = pre ++ Opt tag p :: post /\ without tag pre.
Proof.
  intros Ht. induction 1 as [|op opts Hop Hopts IH]; [left; constructor|].
  destruct (decide (opt_tag op = tag)) as [Heq|Hne].
  - right. destruct op as [| |u p]; cbn in Heq; try lia. subst u.
    exists [], p, opts. split; [done|constructor].
  - destruct IH as [IH|(pre & p & post & -> & IH)]; [left; by constructor|].
    right. exists (op :: pre), p, post. split; [done|by constructor].
Qed.

(** The tag, or its encapsulator, is not among the options skipped. *)
Definition skips (tag : Z) (op : opt) : Prop :=
  opt_tag op <> tag /\ (DHCP_ENCAPSULATOR tag <> 0 -> opt_tag op <> DHCP_ENCAPSULATOR tag).

Lemma find_skip fuel A pre R tag rem enc :
  0 < tag -> Forall wf_opt pre -> Forall (skips tag) pre -> zlen (encode pre) <= rem ->
  find_loop (length pre + fuel) (A ++ encode pre ++ R) tag (zlen A) rem enc =
  find_loop fuel (A ++ encode pre ++ R) tag (zlen (A ++ encode pre))
    (rem - zlen (encode pre)) enc.
Proof.
  intros Ht Hwf. revert A rem. induction Hwf as [|op pre Hop Hpre IH]; intros A rem Hs Hrem.
  - cbn. rewrite app_nil_r. f_equal; lia.
  - inv Hs as [|? ? [Hne Henc] Hs']. rewrite encode_cons, length_app in *.
    cbn [length Nat.add]. rewrite <- !app_assoc, find_step by (done || lia).
    rewrite (proj2 (Z.eqb_neq (opt_tag op) tag)) by done.
    replace (DHCP_IS_ENCAP_OPT tag && (opt_tag op =? DHCP_ENCAPSULATOR tag)) with false.
    2:{ symmetry. apply andb_false_iff.
        destruct (Z.eqb_spec (DHCP_ENCAPSULATOR tag) 0); [by left|right; lia]. }
    replace (zlen A + zlen (enc1 op)) with (zlen (A ++ enc1 op)) by app_side.
    rewrite app_assoc, IH by (done || lia). rewrite !length_app.
    rewrite <- !app_assoc. f_equal; lia.
Qed.

Lemma without_skips tag opts :
  0 <= tag <= 255 -> without tag opts -> Forall (skips tag) opts.
Proof.
  intros Ht Hw. apply (Forall_impl _ _ _ Hw). intros op Hop. split; [done|].
  by rewrite encap_tag_plain.
Qed.

Lemma wf_without_end opts : Forall wf_opt opts -> without DHCP_END opts.
Proof. intros Hwf. apply (Forall_impl _ _ _ Hwf). intros [| |t p]; cbn; lia. Qed.

Lemma without_encap_skips e t opts :
  0 < e < 255 -> 0 < t <= 255 -> Forall wf_opt opts -> without e opts ->
  Forall (skips (DHCP_ENCAP_OPT e t)) opts.
Proof.
  intros He Ht Hwf Hw. apply Forall_forall. intros op Hop. rewrite Forall_forall in Hwf.
  unfold without in Hw. rewrite Forall_forall in Hw.
  specialize (Hwf op Hop). specialize (Hw op Hop).
  split; [|by rewrite encapsulator_encap by lia].
  rewrite encap_opt_eq by lia. destruct op; cbn in *; lia.
Qed.

Lemma length_le_encode opts : (length opts <= length (encode opts))%nat.
Proof.
  induction opts as [|op opts IH]; [done|]. rewrite encode_cons, length_app.
  cbn [length]. assert (0 < length (enc1 op))%nat by (destruct op; cbn; lia). lia.
Qed.

(** A well-formed block: its used part is a sequence of options and then either
    nothing or an end marker (and whatever follows it). *)
Definition ends (tail : bytes) : Prop := tail = [] \/ exists r, tail = DHCP_END :: r.

Record block (o : dhcp_options) (opts : list opt) (tail : bytes) : Prop := {
  block_data : exists R, data o = encode opts ++ tail ++ R;
  block_used : used_len o = zlen (encode opts ++ tail);
  block_wf : Forall wf_opt opts;
  block_ends : ends tail
}.

Lemma block_find_at o pre R tag enc fuel :
  0 < tag -> Forall wf_opt pre -> Forall (skips tag) pre ->
  data o = encode pre ++ R -> zlen (encode pre) <= used_len o ->
  fuel = (Z.to_nat (used_len o) + 260 - length pre)%nat ->
  find_dhcp_option_with_encap o tag enc =
  find_loop fuel (encode pre ++ R) tag (zlen (encode pre))
    (used_len o - zlen (encode pre)) enc.
Proof.
  intros Ht Hwf Hs Hd Hlen Hfuel. unfold find_dhcp_option_with_encap, find_fuel.
  rewrite (proj2 (Z.eqb_neq _ DHCP_PAD)) by lia. pose proof (length_le_encode pre).
  replace (Z.to_nat (used_len o) + 260)%nat with (length pre + fuel)%nat by lia.
  rewrite Hd. apply (find_skip _ []); done.
Qed.

(** Position the code creates a new option at: the end of the options. *)
Lemma block_creation o opts tail :
  block o opts tail ->
  exists c, find_dhcp_option_with_encap o DHCP_END (-1) = Ok (-1, c) /\
            default (used_len o) c = zlen (encode opts).
Proof.
  intros [[R Hd] Hu Hwf Hends]. rewrite length_app in Hu.
  erewrite (block_find_at o opts (tail ++ R)) by
    (done || lia || apply without_skips, wf_without_end; done || lia).
  destruct Hends as [->|[r ->]]; cbn [length] in Hu.
  - exists None. replace (used_len o - _) with 0 by lia.
    pose proof (length_le_encode opts).
    destruct (_ + 260 - _)%nat eqn:E; [lia|]. cbn. split; [done|lia].
  - pose proof (length_le_encode opts).
    destruct (_ + 260 - _)%nat eqn:E; [lia|].
    rewrite <- app_comm_cons, find_end by lia. by eexists.
Qed.

Lemma block_absent o opts tail tag :
  block o opts tail -> 0 < tag -> tag <> DHCP_END -> Forall (skips tag) opts ->
  find_dhcp_option_with_encap o tag (-1) = Ok (-1, None).
Proof.
  intros [[R Hd] Hu Hwf Hends] Ht Hne Hs. rewrite length_app in Hu.
  erewrite (block_find_at o opts (tail ++ R)) by (done || lia).
  pose proof (length_le_encode opts).
  destruct (_ + 260 - _)%nat eqn:E; [lia|].
  destruct Hends as [->|[r ->]]; cbn [length] in Hu.
  - by replace (used_len o - _) with 0 by lia.
  - rewrite <- app_comm_cons, find_end by lia. by rewrite (proj2 (Z.eqb_neq _ _)).
Qed.

Lemma block_present o pre p post tail tag :
  block o (pre ++ Opt tag p :: post) tail -> without tag pre ->
  find_dhcp_option_with_encap o tag (-1) = Ok (-1, Some (zlen (encode pre))).
Proof.
  intros [[R Hd] Hu [Hwf [Hop Hpost]%Forall_cons]%Forall_app Hends] Hw.
  rewrite encode_app, encode_cons, <- !app_assoc in Hd. pose proof Hop as [Ht _].
  rewrite encode_app, encode_cons, !length_app in Hu.
  erewrite (block_find_at o pre) by (done || lia || apply without_skips; done || lia).
  pose proof (length_le_encode pre). destruct (_ + 260 - _)%nat eqn:E; [lia|].
  rewrite find_step by (done || lia). cbn [opt_tag]. by rewrite Z.eqb_refl.
Qed.

(** ** Resizing and writing an option *)

(** What a block's [realloc] method promises: it keeps the used length and the
    used bytes, and provides the length asked for.  It is called with a length
    that covers the used bytes and may refuse it, to grow as to shrink. *)
Class Reallocator (ra : reallocator) : Prop := {
  ra_total o len : ra o len <> Trap;
  ra_ok o len o' :
    ra o len = Ok o' -> 0 <= used_len o <= len ->
    used_len o' = used_len o /\ len <= alloc_len o' /\
    take (Z.to_nat (Z.min len (alloc_len o))) (data o') =
    take (Z.to_nat (Z.min len (alloc_len o))) (data o)
}.

#[global] Instance no_realloc_ok : Reallocator dhcpopt_no_realloc.
Proof.
  split; unfold dhcpopt_no_realloc; intros o len.
  - by case_if.
  - intros o'. case_if; [|done]. intros [= <-] Hlen. split_and!; (done || lia).
Qed.

(** Two blocks with the same used bytes. *)
Definition same_block (o o' : dhcp_options) : Prop :=
  used_len o' = used_len o /\
  take (Z.to_nat (used_len o)) (data o') = take (Z.to_nat (used_len o)) (data o).

Section Store.
Context (ra : reallocator) {Hra : Reallocator ra}.
#[local] Set Default Proof Using "Type*".

Lemma expand_block_ok o new_used :
  0 <= used_len o <= alloc_len o -> 0 <= new_used ->
  (exists e, expand_block ra o new_used = Err e /\ alloc_len o < new_used) \/
  (exists o1, expand_block ra o new_used = Ok o1 /\ same_block o o1 /\
              new_used <= alloc_len o1).
Proof.
  intros Hu Hn. unfold expand_block. destruct (Z.ltb_spec (alloc_len o) new_used) as [Hlt|].
  2:{ right. exists o. split_and!; done. }
  pose proof (ra_total o new_used) as Htot.
  destruct (ra o new_used) as [o1|e|] eqn:E; [|left; cbn; by eauto|done]. right.
  apply ra_ok in E as (Hu1 & Hlen & Htake); [|lia]. cbn. eexists. split; [done|].
  rewrite Z.min_r in Htake by lia. unfold same_block, clear_from, alloc_len in *. cbn. split.
  - split; [done|]. rewrite Htake, (firstn_all2 (n := Z.to_nat (zlen (data o)))) by lia.
    rewrite take_app_le by lia. done.
  - rewrite length_app, length_take, length_replicate. lia.
Qed.

(** The effect of [update_encapsulator] on the bytes before the option. *)
Inductive encap_upd (delta : Z) : Z -> bytes -> bytes -> Prop :=
| upd_none off A : off < 0 -> encap_upd delta off A A
| upd_in A1 e len A2 :
    0 <= len + delta <= 255 ->
    encap_upd delta (zlen A1) (A1 ++ e :: len :: A2) (A1 ++ e :: (len + delta) :: A2).

Lemma encap_upd_length delta off A A' : encap_upd delta off A A' -> length A' = length A.
Proof. by destruct 1; rewrite ?length_app. Qed.

Lemma update_encapsulator_ok delta off A A' X :
  encap_upd delta off A A' ->
  update_encapsulator (A ++ X) off delta = Ok (Some (A' ++ X)).
Proof.
  unfold update_encapsulator. destruct 1 as [off A Hoff|A1 e len A2 Hlen].
  - by rewrite (proj2 (Z.leb_gt _ _)) by lia.
  - rewrite (proj2 (Z.leb_le _ _)) by lia.
    rewrite <- app_assoc, <- !app_comm_cons, cons_middle, app_assoc.
    rewrite rd_app_r by app_side. cbn [mbind res_bind hd].
    rewrite (proj2 (Z.ltb_ge _ _)), (proj2 (Z.ltb_ge _ _)) by lia. cbn [orb].
    rewrite wr_app_r by app_side. cbn [mbind res_bind].
    by rewrite <- !app_assoc.
Qed.

Lemma move_rest A X B n :
  (n + length B <= length X)%nat ->
  wr_range (A ++ X) (zlen A + Z.of_nat n) B =
  Ok (A ++ take n X ++ B ++ drop (n + length B) X).
Proof.
  intros Hlen. unfold wr_range. rewrite !(proj2 (Z.leb_le _ _)) by app_side. cbn [andb].
  unfold splice. f_equal.
  replace (Z.to_nat (zlen A + Z.of_nat n)) with (length A + n)%nat by lia.
  rewrite take_app_add, <- app_assoc, <- Nat.add_assoc, drop_app_add. done.
Qed.

Lemma same_block_split o o1 used R :
  same_block o o1 -> data o = used ++ R -> used_len o = zlen used ->
  exists R1, data o1 = used ++ R1.
Proof.
  intros [_ Ht] Hd Hu. rewrite Hd, Hu, Nat2Z.id, take_app_length in Ht.
  exists (drop (length used) (data o1)). rewrite <- Ht at 1. by rewrite take_drop.
Qed.

(** The final step failed: the reallocator refused to give back the unused space. *)
Definition shrink_refused (o : dhcp_options) (err : errno) : Prop :=
  used_len o < alloc_len o /\ ra o (used_len o) = Err err.

(** Resizing fails before touching a byte of the block, or moves the bytes after
    the option, leaving a hole of the new size, and then succeeds unless the
    reallocator refuses to shrink the block. *)
Lemma resize_ok o A A' old B R encap_offset n :
  data o = (A ++ old ++ B) ++ R -> used_len o = zlen (A ++ old ++ B) ->
  encap_upd (Z.of_nat n - zlen old) encap_offset A A' -> (n <= 255)%nat ->
  (exists e, resize_dhcp_option ra o (zlen A) encap_offset (zlen old) (Z.of_nat n)
             = Ok (o, inl e) /\ alloc_len o < used_len o + (Z.of_nat n - zlen old)) \/
  (exists hole R' rc, length hole = n /\
     let o' := {| data := A' ++ hole ++ B ++ R'; used_len := zlen (A' ++ hole ++ B) |} in
     resize_dhcp_option ra o (zlen A) encap_offset (zlen old) (Z.of_nat n) = Ok (o', rc) /\
     match rc with inl err => shrink_refused o' err | inr _ => True end).
Proof.
  intros Hd Hu Hupd Hn. pose proof (encap_upd_length _ _ _ _ Hupd) as HA.
  unfold resize_dhcp_option. rewrite (proj2 (Z.ltb_ge _ _)) by lia.
  assert (used_len o <= alloc_len o) by (unfold alloc_len; rewrite Hd, Hu; app_side).
  assert (0 <= used_len o + (Z.of_nat n - zlen old)) by (rewrite Hu; app_side).
  destruct (expand_block_ok o (used_len o + (Z.of_nat n - zlen old)))
    as [(e & -> & Hlt)|(o1 & -> & Hsame & Hroom)]; [lia|lia|left; eauto|right].
  destruct (same_block_split _ _ _ _ Hsame Hd Hu) as [R1 Hd1].
  unfold alloc_len in Hroom. rewrite Hd1, Hu, !length_app in Hroom.
  rewrite Hd1, <- !app_assoc, (update_encapsulator_ok _ _ _ _ _ Hupd). cbn [mbind res_bind].
  rewrite app_assoc, (rd_range_app (A' ++ old) B)
    by (rewrite ?Hu, ?length_app; lia). cbn [mbind res_bind].
  rewrite <- app_assoc, <- HA, move_rest by (rewrite !length_app; lia).
  cbn [mbind res_bind]. set (X := old ++ B ++ R1).
  assert (length (take n X) = n) as Hhole.
  { subst X. rewrite length_take, !length_app. lia. }
  replace (used_len o + (Z.of_nat n - zlen old)) with (zlen (A' ++ take n X ++ B))
    by (rewrite Hu, !length_app; lia).
  case_if; [|by exists (take n X), (drop (n + length B) X), (inr tt)].
  set (o2 := {| data := _; used_len := _ |}) in *.
  pose proof (ra_total o2 (zlen (A' ++ take n X ++ B))) as Htot.
  destruct (ra o2 (zlen (A' ++ take n X ++ B))) as [o3|err|] eqn:E; [| |done].
  2:{ exists (take n X), (drop (n + length B) X), (inl err). split_and!; [done..|].
      split; [by apply Z.ltb_lt|exact E]. }
  pose proof (ra_ok _ _ _ E) as (Hu3 & _ & Htk); [cbn; lia|].
  rewrite Z.min_l in Htk by lia.
  destruct (same_block_split o2 o3 (A' ++ take n X ++ B) (drop (n + length B) X)) as [R3 H3].
  { split; [done|]. exact Htk. }
  { subst o2. cbn. by rewrite <- !app_assoc. }
  { done. }
  exists (take n X), R3, (inr tt). split; [done|]. split; [|done].
  destruct o3; cbn in *. subst. by rewrite <- !app_assoc.
Qed.

Lemma write_option_ok A hole X tag v u :
  length hole = (length v + 2)%nat -> zlen v <= 255 ->
  write_option {| data := A ++ hole ++ X; used_len := u |} (zlen A) tag v =
  Ok {| data := A ++ enc1 (Opt (u8 tag) v) ++ X; used_len := u |}.
Proof.
  intros Hh Hv. destruct hole as [|x [|y hole]]; cbn in Hh; [lia|lia|].
  unfold write_option. cbn [data used_len]. rewrite <- !app_comm_cons.
  rewrite wr_app_r by done. cbn [mbind res_bind].
  rewrite cons_middle, app_assoc, wr_app_r by app_side. cbn [mbind res_bind].
  rewrite (wrap_small 8 (zlen v)) by (unfold in_range; lia).
  rewrite cons_middle, app_assoc, wr_range_app by (rewrite ?length_app; cbn; lia).
  cbn [mbind res_bind enc1]. by rewrite <- !app_assoc.
Qed.

(** *** Plain options *)

(** Replace the first option with tag [t] by the value [v], removing it when [v]
    is empty and adding it after the others when there is none. *)
Definition one_opt (t : Z) (v : bytes) : list opt :=
  match v with [] => [] | _ => [Opt t v] end.

Fixpoint set_opt (t : Z) (v : bytes) (opts : list opt) : list opt :=
  match opts with
  | [] => one_opt t v
  | op :: opts => if opt_tag op =? t then one_opt t v ++ opts else op :: set_opt t v opts
  end.

Lemma set_opt_absent t v opts : without t opts -> set_opt t v opts = opts ++ one_opt t v.
Proof.
  induction 1 as [|op opts Hop Hopts IH]; [done|]. cbn.
  by rewrite (proj2 (Z.eqb_neq _ _)), IH.
Qed.

Lemma set_opt_present t v pre p post :
  without t pre -> set_opt t v (pre ++ Opt t p :: post) = pre ++ one_opt t v ++ post.
Proof.
  induction 1 as [|op pre Hop Hpre IH]; cbn; [by rewrite Z.eqb_refl|].
  by rewrite (proj2 (Z.eqb_neq _ _)), IH.
Qed.

Definition new_size (v : bytes) : nat := length (encode (one_opt 1 v)).

Lemma encode_one t v : length (encode (one_opt t v)) = new_size v.
Proof. by destruct v. Qed.

Lemma new_size_eq v :
  (if zlen v =? 0 then 0 else zlen v + DHCP_OPTION_HEADER_LEN) = Z.of_nat (new_size v).
Proof.
  destruct v as [|x v]; [done|]. unfold new_size. cbn [one_opt]. rewrite encode_cons.
  rewrite (proj2 (Z.eqb_neq _ _)), length_app by (cbn; lia). cbn. lia.
Qed.

Lemma wf_one_opt t v :
  0 < t < 255 -> Forall is_byte v -> (new_size v <= 255)%nat -> Forall wf_opt (one_opt t v).
Proof.
  intros Ht Hv Hn. pose proof (new_size_eq v) as Hs. destruct v as [|x v]; [done|].
  constructor; [|done]. rewrite (proj2 (Z.eqb_neq _ _)) in Hs by (cbn; lia).
  cbn [wf_opt]. split_and!; [lia..|done].
Qed.

Lemma write_option_one A hole X tag v u :
  length hole = new_size v -> zlen v <= 255 ->
  (if zlen v =? 0 then Ok {| data := A ++ hole ++ X; used_len := u |}
   else write_option {| data := A ++ hole ++ X; used_len := u |} (zlen A) tag v) =
  Ok {| data := A ++ encode (one_opt (u8 tag) v) ++ X; used_len := u |}.
Proof.
  intros Hh Hv. unfold new_size in Hh. destruct v as [|x v]; cbn [one_opt] in *.
  - by destruct hole.
  - rewrite (proj2 (Z.eqb_neq _ _)) by (cbn; lia).
    rewrite encode_cons, app_nil_r in *. apply write_option_ok; cbn in *; lia.
Qed.

(** Outcome of setting a plain option at a known place of a well-formed block. *)
Definition set_outcome (o : dhcp_options) (pre new post : list opt) (tail v : bytes)
    (result : res (dhcp_options * status Z)) : Prop :=
  exists o' r, result = Ok (o', r) /\
  match r with
  | inl e =>
      (o' = o /\ (253 < zlen v \/ alloc_len o < zlen (encode (pre ++ new ++ post) ++ tail))) \/
      (shrink_refused o' e /\ (v = [] -> block o' (pre ++ new ++ post) tail))
  | inr off => off = zlen (encode pre) /\ block o' (pre ++ new ++ post) tail
  end.

Lemma resize_plain o pre old post tail t v :
  block o (pre ++ old ++ post) tail -> 0 < t < 255 -> Forall is_byte v ->
  set_outcome o pre (one_opt t v) post tail v
    (resized ← resize_dhcp_option ra o (zlen (encode pre)) (-1) (zlen (encode old))
                 (Z.of_nat (new_size v));
     match resized with
     | (o, inl e) => Ok (o, inl e)
     | (o, inr _) =>
       o ← (if zlen v =? 0 then Ok o else write_option o (zlen (encode pre)) t v);
       Ok (o, inr (zlen (encode pre)))
     end).
Proof.
  intros [[R Hd] Hu Hwf Hends] Ht Hv. unfold set_outcome.
  rewrite !encode_app, <- !app_assoc in Hd, Hu.
  destruct (decide (new_size v <= 255)%nat) as [Hn|Hn].
  2:{ unfold resize_dhcp_option. rewrite (proj2 (Z.ltb_lt _ _)) by lia.
      do 2 eexists. split; [done|]. left. split; [done|]. left. pose proof (new_size_eq v).
      destruct (zlen v =? 0); lia. }
  destruct (resize_ok o (encode pre) (encode pre) (encode old) (encode post ++ tail) R
              (-1) (new_size v)) as [(e & -> & Hlt)|(hole & R' & rc & Hh & E & Hrc)];
    [by rewrite Hd, <- !app_assoc|by rewrite Hu|by constructor|done|..]; cbn [mbind res_bind].
  { do 2 eexists. split; [done|]. left. split; [done|]. right. rewrite !encode_app, <- !app_assoc.
    rewrite Hu in Hlt. rewrite !length_app, encode_one in *. lia. }
  assert (Hb' : block {| data := encode pre ++ encode (one_opt t v) ++ (encode post ++ tail) ++ R';
                         used_len := zlen (encode pre ++ hole ++ encode post ++ tail) |}
                  (pre ++ one_opt t v ++ post) tail).
  { apply Forall_app in Hwf as [Hpre [_ Hpost]%Forall_app]. split; cbn [data used_len].
    + exists R'. by rewrite !encode_app, <- !app_assoc.
    + rewrite !encode_app, <- !app_assoc, !length_app, encode_one. lia.
    + apply Forall_app; split; [done|]. apply Forall_app; split; [|done].
      by apply wf_one_opt.
    + done. }
  rewrite E. cbn [mbind res_bind]. destruct rc as [err|].
  - do 2 eexists. split; [done|]. right. split; [exact Hrc|]. intros ->.
    apply nil_length_inv in Hh as ->. exact Hb'.
  - rewrite write_option_one.
    2: done. 2:{ pose proof (new_size_eq v). destruct (zlen v =? 0) eqn:?; lia. }
    rewrite (wrap_small 8 t) by (unfold in_range; lia).
    cbn [mbind res_bind]. do 2 eexists. split; [done|]. split; [done|exact Hb'].
Qed.

Lemma set_plain_absent depth o opts tail t v :
  block o opts tail -> 0 < t < 255 -> Forall is_byte v -> without t opts ->
  set_outcome o opts (one_opt t v) [] tail v (set_dhcp_option (S depth) ra o t v).
Proof.
  intros Hb Ht Hv Hw. cbn [set_dhcp_option]. rewrite new_size_eq.
  destruct (block_creation o opts tail Hb) as (c & -> & Hc). cbn [mbind res_bind snd].
  rewrite (block_absent o opts tail t Hb), Hc
    by (lia || (apply without_skips; (done || lia))).
  rewrite encap_tag_plain, (proj2 (Z.eqb_neq t _)) by lia. cbn [mbind res_bind default].
  pose proof (resize_plain o opts [] [] tail t v) as H. cbn in H. rewrite app_nil_r in H.
  destruct (H Hb Ht Hv) as (o' & r & E & Hr). exists o', r. split; [exact E|done].
Qed.

Lemma set_plain_present depth o pre p post tail t v :
  block o (pre ++ Opt t p :: post) tail -> Forall is_byte v -> without t pre ->
  set_outcome o pre (one_opt t v) post tail v (set_dhcp_option (S depth) ra o t v).
Proof.
  intros Hb Hv Hw. pose proof (block_wf _ _ _ Hb) as [_ [Hop _]%Forall_cons]%Forall_app.
  pose proof Hop as [Ht _]. cbn [set_dhcp_option]. rewrite new_size_eq.
  destruct (block_creation _ _ _ Hb) as (c & -> & Hc). cbn [mbind res_bind snd].
  rewrite (block_present o _ _ _ _ t Hb Hw), (proj2 (Z.eqb_neq t _)) by lia.
  cbn [mbind res_bind default]. destruct (block_data _ _ _ Hb) as [R Hd].
  rewrite Hd, encode_app, encode_cons, <- !app_assoc, dhcp_option_len_enc by done.
  rewrite encap_tag_plain by lia. cbn [mbind res_bind default].
  pose proof (resize_plain o pre [Opt t p] post tail t v Hb Ht Hv) as (o' & r & E & Hr).
  rewrite encode_cons, app_nil_r in E. exists o', r. split; [exact E|done].
Qed.

(** Setting a plain option refines [set_opt] on the options of the block; it
    fails for want of room, leaving the block as it was, or when the reallocator
    refuses to shrink it. *)
Lemma set_plain depth o opts tail t v :
  block o opts tail -> 0 < t < 255 -> Forall is_byte v ->
  exists o' r, set_dhcp_option (S depth) ra o t v = Ok (o', r) /\
  match r with
  | inl e =>
      (o' = o /\ (253 < zlen v \/ alloc_len o < zlen (encode (set_opt t v opts) ++ tail))) \/
      shrink_refused o' e
  | inr off => block o' (set_opt t v opts) tail /\ 0 <= off
  end.
Proof.
  intros Hb Ht Hv.
  destruct (opts_split t opts Ht (block_wf _ _ _ Hb)) as [Hw|(pre & p & post & -> & Hw)].
  - destruct (set_plain_absent depth o opts tail t v Hb Ht Hv Hw) as (o' & [e|off] & E & Hr);
      rewrite set_opt_absent by done; rewrite app_nil_r in Hr.
    + exists o', (inl e). tauto.
    + exists o', (inr off). destruct Hr as [-> Hr]. split_and!; [done..|lia].
  - destruct (set_plain_present depth o pre p post tail t v Hb Hv Hw)
      as (o' & [e|off] & E & Hr); rewrite set_opt_present by done.
    + exists o', (inl e). tauto.
    + exists o', (inr off). destruct Hr as [-> Hr]. split_and!; [done..|lia].
Qed.

(** *** Encapsulated options

    The payload of an encapsulator is a block of its own, closed by an end marker
    (the code creates it that way). *)

Definition encap_payload (inner : list opt) (r : bytes) : bytes :=
  encode inner ++ DHCP_END :: r.

(** The encapsulator after an update: it disappears with its last option. *)
Definition encap_opts (e : Z) (inner : list opt) (r : bytes) : list opt :=
  match inner, r with
  | [], [] => []
  | _, _ => [Opt e (encap_payload inner r)]
  end.

(** Within an encapsulator a new option is added in front. *)
Definition set_opt_front (t : Z) (v : bytes) (inner : list opt) : list opt :=
  if existsb (fun op => opt_tag op =? t) inner then set_opt t v inner
  else one_opt t v ++ inner.

Lemma existsb_without t opts :
  without t opts -> existsb (fun op => opt_tag op =? t) opts = false.
Proof.
  induction 1 as [|op opts Hop _ IH]; [done|]. cbn. by rewrite (proj2 (Z.eqb_neq _ _)).
Qed.

Lemma existsb_present t pre p post :
  existsb (fun op => opt_tag op =? t) (pre ++ Opt t p :: post) = true.
Proof. rewrite existsb_app. cbn. by rewrite Z.eqb_refl, orb_true_r. Qed.

Lemma encode_bytes opts : Forall wf_opt opts -> Forall is_byte (encode opts).
Proof.
  induction 1 as [|op opts Hop _ IH]; [constructor|]. rewrite encode_cons.
  apply Forall_app; split; [|done]. unfold in_range.
  destruct op as [| |t p]; cbn in *; [repeat constructor; lia|done|].
  destruct Hop as (Ht & Hp & Hb). repeat constructor; (lia || done).
Qed.

Lemma encap_payload_app ipre new ipost r :
  encap_payload (ipre ++ new ++ ipost) r =
  encode ipre ++ encode new ++ encode ipost ++ DHCP_END :: r.
Proof. unfold encap_payload. by rewrite !encode_app, <- !app_assoc. Qed.

Lemma find_encap_enter o pre e p post tail t :
  block o (pre ++ Opt e p :: post) tail -> without e pre -> 0 < t < 255 ->
  exists fuel R, (Z.to_nat (zlen p) + 10 <= fuel)%nat /\
  find_dhcp_option_with_encap o (DHCP_ENCAP_OPT e t) (-1) =
  find_loop fuel ((encode pre ++ [e; zlen p]) ++ p ++ R) t
    (zlen (encode pre ++ [e; zlen p])) (zlen p + 2) (zlen (encode pre)).
Proof.
  intros [[R Hd] Hu [Hwf [Hop Hpost]%Forall_cons]%Forall_app Hends] Hw Ht.
  rewrite encode_app, encode_cons, <- !app_assoc in Hd. pose proof Hop as (He & Hp & _).
  rewrite encode_app, encode_cons, !length_app in Hu. cbn [enc1 length] in Hu.
  assert (256 <= DHCP_ENCAP_OPT e t) as Hbig by (rewrite encap_opt_eq; lia).
  pose proof (length_le_encode pre). 
  exists (Z.to_nat (used_len o) + 259 - length pre)%nat, (encode post ++ tail ++ R).
  split; [lia|]. erewrite (block_find_at o pre (enc1 (Opt e p) ++ _));
      [|lia|done|apply without_encap_skips; done || lia|exact Hd|lia|done].
  destruct (_ + 260 - _)%nat as [|fuel] eqn:E; [lia|].
  rewrite find_step by (done || (cbn; lia)). cbn [opt_tag].
  rewrite (proj2 (Z.eqb_neq e _)) by lia.
  rewrite encapsulator_encap, encapsulated_encap, Z.eqb_refl by lia.
  rewrite (proj2 (Z.eqb_neq e 0)) by lia. cbn [negb andb].
  replace fuel with (Z.to_nat (used_len o) + 259 - length pre)%nat by lia.
  f_equal.
  - cbn. by rewrite <- !app_assoc.
  - app_side.
  - cbn [enc1 length]. lia.
Qed.

Lemma find_encap_absent o pre e inner r post tail t :
  block o (pre ++ Opt e (encap_payload inner r) :: post) tail ->
  without e pre -> 0 < t < 255 -> Forall wf_opt inner -> without t inner ->
  find_dhcp_option_with_encap o (DHCP_ENCAP_OPT e t) (-1) = Ok (zlen (encode pre), None).
Proof.
  intros Hb Hw Ht Hwf Hwi.
  destruct (find_encap_enter _ _ _ _ _ _ t Hb Hw Ht) as (fuel & R & Hf & ->).
  set (A := encode pre ++ _). unfold encap_payload in *. rewrite length_app in *.
  cbn [length] in *. pose proof (length_le_encode inner).
  replace fuel with (length inner + S (fuel - length inner - 1))%nat by lia.
  rewrite <- app_assoc, find_skip; [|lia|done|apply without_skips; [lia|done]|lia].
  rewrite app_assoc, <- app_comm_cons, find_end by lia.
  by rewrite (proj2 (Z.eqb_neq _ _)) by lia.
Qed.

Lemma find_encap_present o pre e ipre q ipost r post tail t :
  block o (pre ++ Opt e (encap_payload (ipre ++ Opt t q :: ipost) r) :: post) tail ->
  without e pre -> Forall wf_opt (ipre ++ Opt t q :: ipost) -> without t ipre ->
  find_dhcp_option_with_encap o (DHCP_ENCAP_OPT e t) (-1) =
  Ok (zlen (encode pre), Some (zlen (encode pre) + 2 + zlen (encode ipre))).
Proof.
  intros Hb Hw [Hwf [Hop Hpost]%Forall_cons]%Forall_app Hwi. pose proof Hop as (Ht & _).
  destruct (find_encap_enter _ _ _ _ _ _ t Hb Hw Ht) as (fuel & R & Hf & ->).
  set (A := encode pre ++ _).
  replace (zlen (encode pre) + 2 + zlen (encode ipre)) with (zlen (A ++ encode ipre))
    by (subst A; app_side).
  change (Opt t q :: ipost) with ([Opt t q] ++ ipost) in *. rewrite encap_payload_app in *.
  rewrite encode_cons, app_nil_r in *. rewrite !length_app in *.
  cbn [length] in *. pose proof (length_le_encode ipre).
  replace fuel with (length ipre + S (fuel - length ipre - 1))%nat by lia.
  rewrite <- app_assoc, find_skip; [|lia|done|apply without_skips; [lia|done]|lia].
  rewrite <- app_assoc, app_assoc, find_step by (done || lia). cbn [opt_tag].
  by rewrite Z.eqb_refl, length_app.
Qed.

(** An encapsulator that would grow beyond 255 bytes: the block may have been
    reallocated but its used bytes are untouched. *)
Lemma resize_overlength o A1 e len X delta off old_len n :
  data o = A1 ++ e :: len :: X -> delta = n - old_len -> zlen A1 + 2 <= used_len o ->
  255 < len + delta -> 0 <= used_len o <= alloc_len o -> 0 <= used_len o + delta ->
  n <= 255 ->
  exists o' err, resize_dhcp_option ra o off (zlen A1) old_len n = Ok (o', inl err) /\
  same_block o o'.
Proof.
  intros Hd -> Hlen Hover Hu Hn Hmax. unfold resize_dhcp_option.
  rewrite (proj2 (Z.ltb_ge _ _)) by lia.
  destruct (expand_block_ok o (used_len o + (n - old_len)))
    as [(err & -> & Hlt)|(o1 & -> & Hsame & Hroom)]; [lia|lia|by exists o, err|].
  exists o1, ENOSPC. split; [|done].
  set (k := Z.to_nat (used_len o)).
  assert (take k (data o) = A1 ++ e :: len :: take (k - length A1 - 2) X) as Ht.
  { rewrite Hd, take_app_ge by lia. f_equal.
    destruct (k - length A1)%nat as [|[|m]] eqn:?; [lia..|]. cbn. by rewrite Nat.sub_0_r. }
  destruct (same_block_split o o1 (A1 ++ e :: len :: take (k - length A1 - 2) X)
              (drop k (data o)) Hsame) as [R1 Hd1].
  { by rewrite <- Ht, take_drop. }
  { rewrite <- Ht, length_take. unfold alloc_len in Hu. lia. }
  unfold update_encapsulator. rewrite (proj2 (Z.leb_le _ _)) by lia.
  rewrite Hd1, <- app_assoc, <- !app_comm_cons, cons_middle, app_assoc.
  rewrite rd_app_r by app_side. cbn [mbind res_bind hd].
  by rewrite (proj2 (Z.ltb_ge _ 0)), (proj2 (Z.ltb_lt 255 _)) by lia.
Qed.

Definition encap_outcome (o : dhcp_options) (pre : list opt) (e : Z) (inner : list opt)
    (r : bytes) (post : list opt) (tail v : bytes)
    (result : res (dhcp_options * status Z)) : Prop :=
  exists o' rc, result = Ok (o', rc) /\
  match rc with
  | inl err =>
      (same_block o o' /\
       (253 < zlen v \/ 255 < zlen (encap_payload inner r) \/
        alloc_len o < zlen (encode (pre ++ Opt e (encap_payload inner r) :: post) ++ tail))) \/
      shrink_refused o' err
  | inr _ => block o' (pre ++ encap_opts e inner r ++ post) tail
  end.

(** The rest of [set_dhcp_option] once the encapsulator is known. *)
Definition set_in_encap (depth : nat) (o : dhcp_options) (tag : Z) (v : bytes)
    (e offset encap_offset old_len : Z) : res (dhcp_options * status Z) :=
  resized ← resize_dhcp_option ra o offset encap_offset old_len (Z.of_nat (new_size v));
  match resized with
  | (o, inl e) => Ok (o, inl e)
  | (o, inr _) =>
    o ← (if zlen v =? 0 then Ok o else write_option o offset tag v);
    if 0 <=? encap_offset then
      encap_len ← rd (data o) (encap_offset + 1);
      if encap_len <=? 1 then
        deleted ← set_dhcp_option depth ra o e [];
        Ok (deleted.1, inr offset)
      else Ok (o, inr offset)
    else Ok (o, inr offset)
  end.

Lemma cleanup_encap depth o pre e inner r post tail off :
  block o (pre ++ Opt e (encap_payload inner r) :: post) tail -> without e pre ->
  exists o',
  (encap_len ← rd (data o) (zlen (encode pre) + 1);
   if encap_len <=? 1 then
     deleted ← set_dhcp_option (S depth) ra o e [];
     Ok (deleted.1, inr off)
   else Ok (o, inr off)) = Ok (o', inr off : status Z) /\
  block o' (pre ++ encap_opts e inner r ++ post) tail.
Proof.
  intros Hb Hw. pose proof (block_data _ _ _ Hb) as [R Hd].
  rewrite encode_app, encode_cons, <- !app_assoc in Hd. cbn [enc1] in Hd.
  rewrite <- !app_comm_cons, cons_middle, app_assoc in Hd.
  rewrite Hd, rd_app_r by app_side. cbn [mbind res_bind hd].
  unfold encap_payload at 1. rewrite length_app. cbn [length].
  destruct (Z.leb_spec (Z.of_nat (length (encode inner) + S (length r))) 1) as [Hle|Hgt].
  - pose proof (length_le_encode inner).
    destruct inner, r; cbn [length] in *; try lia. cbn [encap_opts app].
    destruct (set_plain_present depth o pre _ post tail e [] Hb) as (o' & [err|o2] & -> & Hr);
      [done..| |].
    + destruct Hr as [[_ Hr]|[_ Hr]]; [|exists o'; split; [done|by apply Hr]].
      unfold alloc_len in Hr. rewrite Hd in Hr. cbn in Hr. rewrite encode_app, !length_app in Hr. cbn in Hr. rewrite !length_app in Hr. lia.
    + exists o'. split; [done|]. by destruct Hr as [_ Hr].
  - exists o. split; [done|]. unfold encap_opts. destruct inner, r; cbn in *; done || lia.
Qed.
Lemma app_length_eq {A} (B x y z : list A) :
  length x = length y -> zlen (B ++ x ++ z) = zlen (B ++ y ++ z).
Proof. intros Hxy. by rewrite !length_app, Hxy. Qed.

Lemma zlen_block_encap pre e inner r post tail :
  zlen (encode (pre ++ Opt e (encap_payload inner r) :: post) ++ tail) =
  zlen (encode pre) + 2 + zlen (encap_payload inner r) + zlen (encode post) + zlen tail.
Proof. rewrite encode_app, encode_cons, !length_app. cbn [enc1 length]. lia. Qed.

Lemma zlen_payload_app ipre new ipost r :
  zlen (encap_payload (ipre ++ new ++ ipost) r) =
  zlen (encode ipre) + zlen (encode new) + zlen (encode ipost) + 1 + zlen r.
Proof. rewrite encap_payload_app, !length_app. cbn [length]. lia. Qed.

(** The block once the option has been written inside its encapsulator. *)
Lemma encap_rewritten o pre e ipre old ipost r post tail t v len' R' :
  block o (pre ++ Opt e (encap_payload (ipre ++ old ++ ipost) r) :: post) tail ->
  Forall wf_opt (ipre ++ old ++ ipost) ->
  0 < t < 255 -> Forall is_byte v -> (new_size v <= 255)%nat ->
  len' = zlen (encap_payload (ipre ++ old ++ ipost) r)
           + (Z.of_nat (new_size v) - zlen (encode old)) -> len' <= 255 ->
  block {| data := (encode pre ++ e :: len' :: encode ipre) ++ encode (one_opt t v) ++
                   (encode ipost ++ (DHCP_END :: r) ++ encode post ++ tail) ++ R';
           used_len := zlen ((encode pre ++ e :: len' :: encode ipre) ++
                             encode (one_opt t v) ++
                             encode ipost ++ (DHCP_END :: r) ++ encode post ++ tail) |}
    (pre ++ Opt e (encap_payload (ipre ++ one_opt t v ++ ipost) r) :: post) tail.
Proof.
  intros [[R Hd] Hu Hwf Hends] Hwi Ht Hv Hn Hlen Hle.
  rewrite zlen_payload_app in Hlen.
  apply Forall_app in Hwf as [Hpre [(He & Hp & Hpb) Hpost]%Forall_cons].
  apply Forall_app in Hwi as [Hipre [_ Hipost]%Forall_app].
  apply Forall_app in Hpb as [_ Hrb]. split; cbn [data used_len].
  - exists R'. rewrite encode_app, encode_cons, <- !app_assoc. f_equal. cbn [enc1].
    rewrite zlen_payload_app, encap_payload_app, encode_one. app_norm. do 2 f_equal. lia.
  - rewrite zlen_block_encap, zlen_payload_app, encode_one, !length_app.
    cbn [length]. rewrite encode_one. lia.
  - apply Forall_app; split; [done|]. constructor; [|done]. cbn [wf_opt].
    split; [done|]. split; [rewrite zlen_payload_app, encode_one; lia|].
    apply Forall_app; split; [|done]. apply encode_bytes.
    apply Forall_app; split; [done|]. apply Forall_app; split; [by apply wf_one_opt|done].
  - done.
Qed.

Lemma set_in_encap_ok depth o pre e ipre old ipost r post tail tag t v :
  block o (pre ++ Opt e (encap_payload (ipre ++ old ++ ipost) r) :: post) tail ->
  without e pre -> Forall wf_opt (ipre ++ old ++ ipost) ->
  0 < t < 255 -> Forall is_byte v -> u8 tag = t ->
  encap_outcome o pre e (ipre ++ one_opt t v ++ ipost) r post tail v
    (set_in_encap (S depth) o tag v e (zlen (encode pre) + 2 + zlen (encode ipre))
       (zlen (encode pre)) (zlen (encode old))).
Proof.
  intros Hb Hw Hwi Ht Hv Htag. pose proof Hb as [[R Hd] Hu Hwf Hends].
  unfold encap_outcome, set_in_encap.
  assert (used_len o <= alloc_len o) as Hfit
    by (unfold alloc_len; rewrite Hd, Hu, !length_app; lia).
  rewrite zlen_block_encap, zlen_payload_app in Hu.
  rewrite zlen_block_encap, zlen_payload_app, encode_one.
  pose proof (new_size_eq v) as Hnew.
  destruct (decide (new_size v <= 255)%nat) as [Hn|Hn].
  2:{ unfold resize_dhcp_option. rewrite (proj2 (Z.ltb_lt _ _)) by lia.
      do 2 eexists. split; [done|]. left. split; [done|]. left. destruct (zlen v =? 0); lia. }
  set (len := zlen (encap_payload (ipre ++ old ++ ipost) r)) in *.
  assert (Hlen : len = zlen (encode ipre) + zlen (encode old) + zlen (encode ipost) + 1 + zlen r)
    by apply zlen_payload_app.
  rewrite encode_app, encode_cons, <- !app_assoc in Hd. cbn [enc1] in Hd. fold len in Hd.
  rewrite <- !app_comm_cons in Hd.
  destruct (decide (len + (Z.of_nat (new_size v) - zlen (encode old)) <= 255)) as [Hle|Hgt].
  2:{ destruct (resize_overlength o (encode pre) e len _ _
         (zlen (encode pre) + 2 + zlen (encode ipre)) (zlen (encode old))
         (Z.of_nat (new_size v)) Hd eq_refl) as (o' & err & -> & Hs); [lia..|].
      do 2 eexists. split; [done|]. left. split; [done|]. right; left. lia. }
  rewrite encap_payload_app, <- !app_assoc in Hd.
  set (A := encode pre ++ e :: len :: encode ipre).
  replace (zlen (encode pre) + 2 + zlen (encode ipre)) with (zlen A) in * by (subst A; app_side).
  destruct (resize_ok o A (encode pre ++ e :: (len + (Z.of_nat (new_size v) - zlen (encode old)))
                :: encode ipre) (encode old)
              (encode ipost ++ (DHCP_END :: r) ++ encode post ++ tail) R
              (zlen (encode pre)) (new_size v)) as [(err & -> & Hlt)|(hole & R' & rc & Hh & E & Hrc)].
  - subst A. rewrite Hd. by app_norm.
  - rewrite Hu. subst A. rewrite !length_app; cbn [length]. lia.
  - constructor. lia.
  - done.
  - do 2 eexists. split; [done|]. left. split; [done|]. right; right. lia.
  - rewrite E. cbn [mbind res_bind]. clear E. destruct rc as [err|]; [do 2 eexists; split; [done|by right]|].
    replace (zlen A) with (zlen (encode pre ++ e :: (len + (Z.of_nat (new_size v)
      - zlen (encode old))) :: encode ipre)) by (subst A; app_side).
    rewrite write_option_one by (done || (destruct (zlen v =? 0) eqn:?; lia)).
    cbn [mbind res_bind]. rewrite Htag, (proj2 (Z.leb_le 0 _)) by lia.
    pose proof (encap_rewritten o pre e ipre old ipost r post tail t v _ R' Hb Hwi Ht Hv Hn
                  eq_refl Hle) as Hb'. fold len in Hb'.
    rewrite (app_length_eq _ (encode (one_opt t v)) hole) in Hb' by (by rewrite encode_one).
    destruct (cleanup_encap depth _ _ _ _ _ _ _ (zlen (encode pre ++ e
      :: (len + (Z.of_nat (new_size v) - zlen (encode old))) :: encode ipre)) Hb' Hw)
      as (o' & E & Ho').
    eexists o', (inr _). split; [exact E|done].
Qed.
Lemma u8_encap e t : 0 <= t <= 255 -> u8 (DHCP_ENCAP_OPT e t) = t.
Proof.
  intros. rewrite encap_opt_eq by done. unfold wrap. change (2 ^ 8) with 256.
  Z.div_mod_to_equations; lia.
Qed.

Lemma set_encap_existing depth o pre e inner r post tail t v :
  block o (pre ++ Opt e (encap_payload inner r) :: post) tail -> without e pre ->
  Forall wf_opt inner -> 0 < t < 255 -> Forall is_byte v ->
  encap_outcome o pre e (set_opt_front t v inner) r post tail v
    (set_dhcp_option (S (S depth)) ra o (DHCP_ENCAP_OPT e t) v).
Proof.
  intros Hb Hw Hwi Ht Hv.
  pose proof (block_wf _ _ _ Hb) as [_ [(He & _) _]%Forall_cons]%Forall_app.
  assert (256 <= DHCP_ENCAP_OPT e t) by (rewrite encap_opt_eq; lia).
  set (depth' := S depth). cbn [set_dhcp_option]. rewrite new_size_eq.
  rewrite (proj2 (Z.eqb_neq _ DHCP_PAD)) by lia. rewrite encapsulator_encap by lia.
  destruct (block_creation _ _ _ Hb) as (c & -> & _). cbn [mbind res_bind snd].
  rewrite (proj2 (Z.eqb_neq e 0)) by lia. unfold set_opt_front.
  destruct (opts_split t inner Ht Hwi) as [Hwt|(ipre & q & ipost & -> & Hwt)].
  - rewrite existsb_without by done.
    rewrite (find_encap_absent o pre e inner r post tail t) by done.
    cbn [mbind res_bind]. rewrite (proj2 (Z.ltb_ge _ 0)) by lia. cbn [mbind res_bind default].
    pose proof (set_in_encap_ok depth o pre e [] [] inner r post tail _ t v Hb Hw Hwi Ht Hv
                  (u8_encap e t ltac:(lia))) as H'.
    cbn [app] in H'. rewrite Z.add_0_r in H'. exact H'.
  - rewrite existsb_present, set_opt_present by done.
    rewrite (find_encap_present o pre e ipre q ipost r post tail t) by done.
    cbn [mbind res_bind default]. rewrite (proj2 (Z.ltb_ge _ 0)) by lia.
    pose proof (block_data _ _ _ Hb) as [R Hd]. rewrite Hd at 1.
    change (Opt t q :: ipost) with ([Opt t q] ++ ipost) in *.
    rewrite encode_app, encode_cons. cbn [enc1]. rewrite encap_payload_app, encode_cons, app_nil_r.
    replace (zlen (encode pre) + 2 + zlen (encode ipre))
      with (zlen (encode pre ++ [e; zlen (encap_payload (ipre ++ [Opt t q] ++ ipost) r)]
                    ++ encode ipre)) by app_side.
    rewrite encap_payload_app, encode_cons, app_nil_r.
    match goal with |- context [dhcp_option_len ?d ?off] =>
      replace (dhcp_option_len d off) with (Ok (zlen (enc1 (Opt t q))) : res Z) end.
    2:{ symmetry. apply Forall_app in Hwi as [_ [Hq _]%Forall_app]. inv Hq.
        erewrite <- (dhcp_option_len_enc _ (Opt t q)) by done. f_equal.
        app_norm. reflexivity. }
    cbn [mbind res_bind].
    pose proof (set_in_encap_ok depth o pre e ipre [Opt t q] ipost r post tail _ t v Hb Hw Hwi
                  Ht Hv (u8_encap e t ltac:(lia))) as H'.
    rewrite encode_cons, app_nil_r in H'. rewrite !length_app in *. cbn [length] in *.
    rewrite Nat2Z.inj_add, Nat2Z.inj_add, Z.add_assoc. exact H'.
Qed.

(** Without an encapsulator one is created first; if the option itself then does
    not fit, the empty encapsulator stays. *)
Lemma set_encap_new depth o opts tail e t v :
  block o opts tail -> 0 < e < 255 -> 0 < t < 255 -> Forall is_byte v -> without e opts ->
  exists o' rc, set_dhcp_option (S (S depth)) ra o (DHCP_ENCAP_OPT e t) v = Ok (o', rc) /\
  match rc with
  | inl err =>
      o' = o \/ (exists o1, block o1 (opts ++ [Opt e [DHCP_END]]) tail /\ same_block o1 o') \/
      shrink_refused o' err
  | inr _ => block o' (opts ++ encap_opts e (one_opt t v) []) tail
  end.
Proof.
  intros Hb He Ht Hv Hw.
  assert (256 <= DHCP_ENCAP_OPT e t) by (rewrite encap_opt_eq; lia).
  set (depth' := S depth). cbn [set_dhcp_option]. rewrite new_size_eq.
  rewrite (proj2 (Z.eqb_neq _ DHCP_PAD)) by lia. rewrite encapsulator_encap by lia.
  destruct (block_creation _ _ _ Hb) as (c & -> & _). cbn [mbind res_bind snd].
  rewrite (proj2 (Z.eqb_neq e 0)) by lia.
  rewrite (block_absent o opts tail (DHCP_ENCAP_OPT e t) Hb)
    by (lia || (apply without_encap_skips; (done || lia || by apply (block_wf _ _ _ Hb)))).
  cbn [mbind res_bind]. change (-1 <? 0) with true. cbv iota.
  destruct (set_plain_absent depth o opts tail e [DHCP_END] Hb He) as (o1 & [err|off] & E & Hr);
    [repeat constructor; lia|done|..]; fold depth' in E; rewrite E; cbn [mbind res_bind].
  - exists o1, (inl err). split; [done|]. destruct Hr as [[-> _]|[Hr _]]; auto.
  - destruct Hr as [-> Hb1]. cbn [one_opt] in Hb1. cbn [default].
    pose proof (set_in_encap_ok depth o1 opts e [] [] [] [] [] tail _ t v Hb1 Hw
                  (Forall_nil_2 _) Ht Hv (u8_encap e t ltac:(lia))) as (o' & rc & E' & Hr).
    cbn [app] in E', Hr. rewrite Z.add_0_r in E'. rewrite !app_nil_r in Hr.
    exists o', rc. split; [exact E'|]. destruct rc; [|done].
    destruct Hr as [[Hr _]|Hr]; [|auto]. right; left. by exists o1.
Qed.

End Store.

(** ** Fetching *)

Fixpoint lookup_opt (t : Z) (opts : list opt) : option bytes :=
  match opts with
  | [] => None
  | Opt u p :: opts => if u =? t then Some p else lookup_opt t opts
  | _ :: opts => lookup_opt t opts
  end.

Lemma lookup_without t opts : without t opts -> lookup_opt t opts = None.
Proof.
  induction 1 as [|op opts Hop _ IH]; [done|]. destruct op; cbn in *; try done.
  by rewrite (proj2 (Z.eqb_neq _ _)).
Qed.

Lemma lookup_present t pre p post :
  without t pre -> lookup_opt t (pre ++ Opt t p :: post) = Some p.
Proof.
  induction 1 as [|op opts Hop _ IH]; cbn; [by rewrite Z.eqb_refl|].
  destruct op; cbn in *; try done. by rewrite (proj2 (Z.eqb_neq _ _)).
Qed.

Lemma lookup_set_opt_eq t v opts :
  0 < t < 255 -> v <> [] -> Forall wf_opt opts -> lookup_opt t (set_opt t v opts) = Some v.
Proof.
  intros Ht Hv Hwf. assert (one_opt t v = [Opt t v]) as Hone by (by destruct v).
  destruct (opts_split t opts Ht Hwf) as [Hw|(pre & p & post & -> & Hw)].
  - rewrite set_opt_absent, Hone by done. by apply lookup_present.
  - rewrite set_opt_present, Hone by done. by apply lookup_present.
Qed.

Lemma lookup_one_ne t u v opts :
  t <> u -> lookup_opt u (one_opt t v ++ opts) = lookup_opt u opts.
Proof. intros Hne. destruct v; [done|]. cbn. by rewrite (proj2 (Z.eqb_neq _ _)). Qed.

Lemma lookup_set_opt_ne t u v opts :
  t <> u -> lookup_opt u (set_opt t v opts) = lookup_opt u opts.
Proof.
  intros Hne. induction opts as [|op opts IH]; cbn [set_opt].
  - rewrite <- (app_nil_r (one_opt t v)). by apply lookup_one_ne.
  - destruct (Z.eqb_spec (opt_tag op) t) as [<-|Hop].
    + rewrite lookup_one_ne by done. destruct op; cbn in *; try done.
      by rewrite (proj2 (Z.eqb_neq _ _)).
    + destruct op; cbn; by rewrite IH.
Qed.

Lemma fetch_at d A t p R off len :
  d = A ++ enc1 (Opt t p) ++ R -> off = zlen A -> 0 <= len ->
  (option_len ← rd d (off + 1);
   value ← rd_range d (off + DHCP_OPTION_HEADER_LEN) (Z.min len option_len);
   Ok (option_len, value)) = Ok (zlen p, take (Z.to_nat len) p).
Proof.
  intros -> -> Hlen. cbn [enc1]. rewrite <- !app_comm_cons.
  rewrite cons_middle, app_assoc, rd_app_r by app_side. cbn [mbind res_bind hd].
  rewrite cons_middle, app_assoc.
  replace (p ++ R) with (take (Z.to_nat len) p ++ drop (Z.to_nat len) p ++ R)
    by (by rewrite app_assoc, take_drop).
  rewrite rd_range_app by (rewrite ?length_take, ?length_app; cbn; lia). done.
Qed.

Lemma fetch_present o pre p post tail t len :
  block o (pre ++ Opt t p :: post) tail -> without t pre -> 0 <= len ->
  dhcpopt_fetch o t len = Ok (zlen p, take (Z.to_nat len) p).
Proof.
  intros Hb Hw Hlen. unfold dhcpopt_fetch.
  rewrite (block_present _ _ _ _ _ _ Hb Hw). cbn [mbind res_bind snd].
  destruct (block_data _ _ _ Hb) as [R Hd]. rewrite encode_app, encode_cons, <- !app_assoc in Hd.
  exact (fetch_at _ _ t p _ _ len Hd eq_refl Hlen).
Qed.

(** Fetching a plain option reads the first option with that tag. *)
Lemma fetch_plain o opts tail t len :
  block o opts tail -> 0 < t < 255 -> 0 <= len ->
  dhcpopt_fetch o t len =
  match lookup_opt t opts with
  | Some p => Ok (zlen p, take (Z.to_nat len) p)
  | None => Err ENOENT
  end.
Proof.
  intros Hb Ht Hlen. destruct (opts_split t opts Ht (block_wf _ _ _ Hb))
    as [Hw|(pre & p & post & -> & Hw)].
  - rewrite lookup_without by done. unfold dhcpopt_fetch.
    by rewrite (block_absent _ _ _ _ Hb) by (lia || (apply without_skips; (done || lia))).
  - rewrite lookup_present by done. by eapply fetch_present.
Qed.

Lemma fetch_encap_present o pre e ipre q ipost r post tail t len :
  block o (pre ++ Opt e (encap_payload (ipre ++ Opt t q :: ipost) r) :: post) tail ->
  without e pre -> Forall wf_opt (ipre ++ Opt t q :: ipost) -> without t ipre -> 0 <= len ->
  dhcpopt_fetch o (DHCP_ENCAP_OPT e t) len = Ok (zlen q, take (Z.to_nat len) q).
Proof.
  intros Hb Hw Hwi Hwt Hlen. unfold dhcpopt_fetch.
  rewrite (find_encap_present _ _ _ _ _ _ _ _ _ _ Hb Hw Hwi Hwt). cbn [mbind res_bind snd].
  destruct (block_data _ _ _ Hb) as [R Hd].
  rewrite encode_app, encode_cons in Hd. cbn [enc1] in Hd.
  set (n := zlen (encap_payload _ r)) in Hd. unfold encap_payload in Hd.
  rewrite encode_app, encode_cons in Hd.
  refine (fetch_at (data o) (encode pre ++ e :: n :: encode ipre) t q
    (encode ipost ++ (DHCP_END :: r) ++ encode post ++ tail ++ R) _ len _ _ Hlen).
  - rewrite Hd. by app_norm.
  - app_side.
Qed.

Lemma set_opt_front_shape t v inner :
  0 < t < 255 -> Forall wf_opt inner ->
  exists ipre ipost, set_opt_front t v inner = ipre ++ one_opt t v ++ ipost /\
  without t ipre /\ Forall wf_opt ipre /\ Forall wf_opt ipost.
Proof.
  intros Ht Hwi. unfold set_opt_front.
  destruct (opts_split t inner Ht Hwi) as [Hw|(ipre & q & ipost & -> & Hw)].
  - rewrite existsb_without by done. exists [], inner. split_and!; done || constructor.
  - rewrite existsb_present, set_opt_present by done. exists ipre, ipost.
    apply Forall_app in Hwi as [? [? ?]%Forall_cons]. done.
Qed.

Lemma fetch_encap_set o pre e inner r post tail t v len :
  block o (pre ++ encap_opts e (set_opt_front t v inner) r ++ post) tail ->
  without e pre -> Forall wf_opt inner -> 0 < t < 255 -> Forall is_byte v -> v <> [] ->
  0 <= len ->
  dhcpopt_fetch o (DHCP_ENCAP_OPT e t) len = Ok (zlen v, take (Z.to_nat len) v).
Proof.
  intros Hb Hw Hwi Ht Hv Hne Hlen.
  destruct (set_opt_front_shape t v inner Ht Hwi) as (ipre & ipost & E & Hwt & Hpre & Hpost).
  rewrite E in Hb. replace (one_opt t v) with [Opt t v] in Hb by (by destruct v).
  replace (encap_opts e (ipre ++ [Opt t v] ++ ipost) r)
    with [Opt e (encap_payload (ipre ++ Opt t v :: ipost) r)] in Hb by (by destruct ipre).
  pose proof (block_wf _ _ _ Hb) as [_ [(_ & Hp & _) _]%Forall_cons]%Forall_app.
  change (Opt t v :: ipost) with ([Opt t v] ++ ipost) in Hp.
  rewrite zlen_payload_app, encode_cons, length_app in Hp. cbn [enc1 length] in Hp.
  eapply fetch_encap_present; [exact Hb|done| |done|done].
  apply Forall_app; split; [done|]. constructor; [|done]. split_and!; (done || lia).
Qed.

(** ** The used length of a prepopulated block *)

Fixpoint used_after (off used : Z) (items : list opt) : Z :=
  match items with
  | [] => used
  | Pad :: items => used_after (off + 1) used items
  | op :: items => used_after (off + zlen (enc1 op)) (off + zlen (enc1 op)) items
  end.

Definition wf_item (op : opt) : Prop := op = End \/ wf_opt op.

Lemma used_step fuel A op R rem used :
  wf_item op -> zlen (enc1 op) <= rem ->
  used_loop (S fuel) (A ++ enc1 op ++ R) (zlen A) rem used =
  used_loop fuel (A ++ enc1 op ++ R) (zlen A + zlen (enc1 op)) (rem - zlen (enc1 op))
    (if opt_tag op =? DHCP_PAD then used else zlen A + zlen (enc1 op)).
Proof.
  intros Hop Hrem. cbn [used_loop].
  assert (0 < zlen (enc1 op)) by (destruct op; cbn; lia).
  rewrite (proj2 (Z.eqb_neq rem 0)) by lia.
  assert (dhcp_option_len (A ++ enc1 op ++ R) (zlen A) = Ok (zlen (enc1 op))) as ->.
  { destruct Hop as [->|Hop]; [|by apply dhcp_option_len_enc].
    unfold dhcp_option_len. by rewrite rd_enc. }
  cbn [mbind res_bind]. rewrite (proj2 (Z.ltb_ge _ 0)), rd_enc by lia. done.
Qed.

Lemma used_loop_items fuel A items R rem used :
  Forall wf_item items -> zlen (encode items) <= rem ->
  used_loop (length items + fuel) (A ++ encode items ++ R) (zlen A) rem used =
  used_loop fuel (A ++ encode items ++ R) (zlen A + zlen (encode items))
    (rem - zlen (encode items)) (used_after (zlen A) used items).
Proof.
  intros Hwf. revert A rem used. induction Hwf as [|op items Hop _ IH]; intros A rem used Hrem.
  - cbn. f_equal; lia.
  - rewrite encode_cons, length_app in *. cbn [length Nat.add].
    rewrite <- !app_assoc, used_step by (done || lia).
    specialize (IH (A ++ enc1 op) (rem - zlen (enc1 op))
      (if opt_tag op =? DHCP_PAD then used else zlen A + zlen (enc1 op)) ltac:(lia)).
    rewrite <- !app_assoc, !length_app, Nat2Z.inj_add in IH. rewrite IH.
    f_equal; [lia..|]. destruct Hop as [->|Hop]; [done|].
    destruct op as [| |t p]; cbn [used_after opt_tag]; [done|done|].
    destruct Hop as (Ht & _). by rewrite (proj2 (Z.eqb_neq t _)) by lia.
Qed.

Lemma used_after_last off used items op :
  op <> Pad -> used_after off used (items ++ [op]) = off + zlen (encode (items ++ [op])).
Proof.
  intros Hop. revert off used. induction items as [|i items IH]; intros off used.
  - cbn [app]. rewrite encode_cons, app_nil_r. by destruct op.
  - cbn [app]. rewrite encode_cons, length_app, Nat2Z.inj_add, Z.add_assoc.
    destruct i; cbn [used_after]; by rewrite IH.
Qed.

Lemma encode_pads n : encode (replicate n Pad) = replicate n 0.
Proof. induction n as [|n IH]; [done|]. cbn [replicate]. by rewrite encode_cons, IH. Qed.

Lemma used_after_pads off used n : used_after off used (replicate n Pad) = used.
Proof. revert off. induction n as [|n IH]; intros off; cbn; [done|]. apply IH. Qed.

Lemma used_after_app off used items1 items2 :
  used_after off used (items1 ++ items2) =
  used_after (off + zlen (encode items1)) (used_after off used items1) items2.
Proof.
  revert off used. induction items1 as [|i items1 IH]; intros off used; [cbn; f_equal; lia|].
  cbn [app]. rewrite encode_cons, length_app, Nat2Z.inj_add, Z.add_assoc.
  destruct i; cbn [used_after]; by rewrite IH.
Qed.

(** ** Properties of the options block *)

(** C13. Searching for a plain option is exact on arbitrary bytes:
    [find_dhcp_option_with_encap] terminates and returns the offset of the first
    option with the tag in the decoded block (or of the end marker), or [-ENOENT],
    reading only allocated memory -- except in one case, in which it reads the
    byte after the allocation: the used length fills the allocation, the last
    byte is the tag of an option without its length byte, and no option before
    it matched. *)
Theorem find_plain_exact o tag enc :
  Forall is_byte (data o) -> 0 <= used_len o <= alloc_len o -> 0 < tag <= 255 ->
  let l := take (Z.to_nat (used_len o)) (data o) in
  let found := locate tag 0 (decode l) in
  find_dhcp_option_with_encap o tag enc =
  if (used_len o =? alloc_len o) && bool_decide (found = None) && lone_tag l
  then Trap else Ok (enc, found).
Proof.
  intros Hd Hu Ht l found. unfold find_dhcp_option_with_encap, find_fuel.
  rewrite (proj2 (Z.eqb_neq _ _)) by lia. unfold alloc_len in *.
  assert (Hl : zlen l = used_len o) by (subst l; rewrite length_take; lia).
  pose proof (find_window_any (Z.to_nat (used_len o) + 260) [] l
                (drop (Z.to_nat (used_len o)) (data o)) tag enc) as H.
  cbn [app length] in H. change (Z.of_nat 0) with 0 in H. fold found in H.
  replace (l ++ drop _ _) with (data o) in H by (symmetry; apply take_drop).
  rewrite Hl in H. rewrite H by (done || lia).
  rewrite (bool_decide_ext (drop _ _ = []) (used_len o = zlen (data o))).
  { replace (used_len o =? zlen (data o)) with (bool_decide (used_len o = zlen (data o))); [done|].
    by destruct (Z.eqb_spec (used_len o) (zlen (data o))); [rewrite bool_decide_true|rewrite bool_decide_false]. }
  split; intros E.
  - apply (f_equal length) in E. rewrite length_drop in E. cbn in E. lia.
  - apply nil_length_inv. rewrite length_drop. lia.
Qed.

(** Searching for an encapsulated option [e.t] enters the first [e] option of
    the block and searches, from the start of its payload, a window that is two
    bytes longer than the payload: the result is the first [t] decoded from that
    window, together with the encapsulator's offset. *)
Theorem find_encap_window_exact o e t :
  Forall is_byte (data o) -> 0 <= used_len o -> used_len o + 2 < alloc_len o ->
  0 < e < 255 -> 0 < t <= 255 ->
  find_dhcp_option_with_encap o (DHCP_ENCAP_OPT e t) (-1) =
  match locate_opt e 0 (decode (take (Z.to_nat (used_len o)) (data o))) with
  | None => Ok (-1, None)
  | Some (i, p) => Ok (i, locate t (i + 2) (decode (slice (data o) (i + 2) (zlen p + 2))))
  end.
Proof.
  intros Hd Hu Hroom He Ht. unfold find_dhcp_option_with_encap, find_fuel, alloc_len in *.
  rewrite (proj2 (Z.eqb_neq _ DHCP_PAD)) by (rewrite encap_opt_eq; lia).
  set (l := take (Z.to_nat (used_len o)) (data o)).
  assert (zlen l = used_len o) as Hl by (subst l; rewrite length_take; lia).
  rewrite <- (take_drop (Z.to_nat (used_len o)) (data o)) in Hd.
  pose proof (find_encap_window (Z.to_nat (used_len o) + 260) [] l
                (drop (Z.to_nat (used_len o)) (data o)) e t (-1) Hd) as H.
  cbn [app length] in H. subst l. rewrite take_drop in H. rewrite <- Hl at 2. apply H; try lia.
  rewrite length_drop. lia.
Qed.

(** The two extra bytes of that window are not part of the encapsulator: a
    zero-length option that follows an empty encapsulator is found inside it. *)
Example encap_overrun :
  dhcpopt_fetch {| data := [43; 0; 6; 0]; used_len := 4 |} (DHCP_ENCAP_OPT 43 6) 16
  = Ok (0, []).
Proof. reflexivity. Qed.

(** The exceptional case: the search reads past the end of its memory. *)
Example find_reads_past_block :
  find_dhcp_option_with_encap {| data := [1]; used_len := 1 |} 6 (-1) = Trap.
Proof. reflexivity. Qed.

(** Storing a plain option in a well-formed block always returns, never
    accesses memory outside the block, and refines [set_opt] on the list of
    options (replace the first occurrence in place, append before the end marker,
    or remove for an empty value); it fails if the value is over 253 bytes or
    the result would not fit in the allocation, and then leaves the block as it
    was, or if the reallocator refuses to give back the space saved. *)
Theorem dhcpopt_store_plain ra o opts tail t v :
  Reallocator ra -> block o opts tail -> 0 < t < 255 -> Forall is_byte v ->
  exists o' rc, dhcpopt_store ra o t v = Ok (o', rc) /\
  match rc with
  | inl err =>
      (o' = o /\ (253 < zlen v \/ alloc_len o < zlen (encode (set_opt t v opts) ++ tail))) \/
      shrink_refused ra o' err
  | inr _ => block o' (set_opt t v opts) tail
  end.
Proof.
  intros Hra Hb Ht Hv. unfold dhcpopt_store.
  destruct (set_plain ra 4 o opts tail t v Hb Ht Hv) as (o' & [e|off] & -> & Hr);
    cbn [mbind res_bind fst snd].
  - by exists o', (inl e).
  - exists o', (inr tt). by destruct Hr.
Qed.

(** Round trip of plain options: after a successful store of a non-empty
    value, fetching the tag returns the value (truncated to the buffer) and its
    length, and fetching any other plain tag returns what it returned before. *)
Theorem dhcpopt_fetch_store ra o opts tail t v o' len :
  Reallocator ra -> block o opts tail -> 0 < t < 255 -> Forall is_byte v -> v <> [] ->
  dhcpopt_store ra o t v = Ok (o', inr tt) -> 0 <= len ->
  dhcpopt_fetch o' t len = Ok (zlen v, take (Z.to_nat len) v) /\
  (forall u, 0 < u < 255 -> u <> t -> dhcpopt_fetch o' u len = dhcpopt_fetch o u len).
Proof.
  intros Hra Hb Ht Hv Hne E Hlen. unfold dhcpopt_store in E.
  destruct (set_plain ra 4 o opts tail t v Hb Ht Hv) as (o1 & [e|off] & E1 & Hr);
    rewrite E1 in E; cbn in E; simplify_eq. destruct Hr as [Hb' _]. split.
  - rewrite (fetch_plain _ _ _ _ _ Hb' Ht Hlen).
    by rewrite lookup_set_opt_eq by (done || by apply (block_wf _ _ _ Hb)).
  - intros u Hu Hut. rewrite (fetch_plain _ _ _ _ _ Hb' Hu Hlen).
    by rewrite (fetch_plain _ _ _ _ _ Hb Hu Hlen), lookup_set_opt_ne.
Qed.

(** C10. Storing an encapsulated option [e.t] in a block that has an encapsulator
    [e] whose contents are options closed by an end marker: the code always
    returns; on success exactly those contents are updated (and the encapsulator
    removed with its last option), its length byte adjusted, every other option
    kept, and a non-empty value can be fetched back; on failure the used bytes are
    unchanged and the cause is the value's size, the encapsulator's size or the
    allocation, or the block's reallocator refused, as the last step, to give back
    unused space (and its error is returned). *)
Theorem dhcpopt_store_encap ra o pre e inner r post tail t v :
  Reallocator ra -> block o (pre ++ Opt e (encap_payload inner r) :: post) tail ->
  without e pre -> Forall wf_opt inner -> 0 < t < 255 -> Forall is_byte v ->
  exists o' rc, dhcpopt_store ra o (DHCP_ENCAP_OPT e t) v = Ok (o', rc) /\
  match rc with
  | inl err =>
      (same_block o o' /\
       (253 < zlen v \/ 255 < zlen (encap_payload (set_opt_front t v inner) r) \/
        alloc_len o <
        zlen (encode (pre ++ Opt e (encap_payload (set_opt_front t v inner) r) :: post) ++ tail)))
      \/ shrink_refused ra o' err
  | inr _ => block o' (pre ++ encap_opts e (set_opt_front t v inner) r ++ post) tail /\
      (v <> [] -> forall len, 0 <= len ->
       dhcpopt_fetch o' (DHCP_ENCAP_OPT e t) len = Ok (zlen v, take (Z.to_nat len) v))
  end.
Proof.
  intros Hra Hb Hw Hwi Ht Hv. unfold dhcpopt_store.
  destruct (set_encap_existing ra 3 o pre e inner r post tail t v Hb Hw Hwi Ht Hv)
    as (o' & [err|off] & -> & Hr); cbn [mbind res_bind fst snd].
  - by exists o', (inl err).
  - exists o', (inr tt). split; [done|]. split; [done|]. intros Hne len Hlen.
    by apply (fetch_encap_set o' pre e inner r post tail t v len).
Qed.

(** A reallocator that refuses to shrink leaves the block half edited: the option
    has been cut to its new size, but its length byte still has the old value, so
    that the option's old value is lost and the bytes after it are misread. *)
Example shrink_refused_corrupts :
  let ra := fun o len => if len =? alloc_len o then Ok o else Err ENOMEM in
  let o := {| data := [12; 3; 1; 2; 3; 6; 1; 7; 255]; used_len := 9 |} in
  dhcpopt_store ra o 12 [9] =
    Ok ({| data := [12; 3; 1; 6; 1; 7; 255; 7; 255]; used_len := 7 |}, inl ENOMEM)
  /\ dhcpopt_fetch {| data := [12; 3; 1; 6; 1; 7; 255; 7; 255]; used_len := 7 |} 12 8 = Ok (3, [1; 6; 1]).
Proof. split; vm_compute; reflexivity. Qed.

(** Initialising a prepopulated block finds its used length: for any sequence
    of options and end markers that does not end in padding, followed by any
    number of zero bytes, the used length is exactly the sequence's length (zero
    for an all-zero block), and no byte outside the block is read. *)
Theorem dhcpopt_init_used items n :
  Forall wf_item items -> last items <> Some Pad ->
  dhcpopt_init (encode items ++ replicate n 0) =
  Ok {| data := encode items ++ replicate n 0; used_len := zlen (encode items) |}.
Proof.
  intros Hwf Hlast. unfold dhcpopt_init, dhcpopt_update_used_len, alloc_len. cbn [data].
  assert (Forall wf_item (items ++ replicate n Pad)) as Hwf'.
  { apply Forall_app; split; [done|]. apply Forall_replicate. by right. }
  rewrite <- encode_pads, <- encode_app.
  pose proof (length_le_encode (items ++ replicate n Pad)) as Hle.
  set (all := items ++ replicate n Pad) in *.
  replace (S (length (encode all)))
    with (length all + S (length (encode all) - length all))%nat by lia.
  pose proof (used_loop_items (S (length (encode all) - length all)) [] all []
                (zlen (encode all)) 0 Hwf' ltac:(lia)) as H.
  cbn [app length] in H. rewrite app_nil_r in H. change (Z.of_nat 0) with 0 in H.
  rewrite H, Z.sub_diag. cbn.
  do 2 f_equal. subst all. rewrite used_after_app, used_after_pads.
  destruct items as [|i items _] using rev_ind; [done|].
  rewrite used_after_last; [done|]. rewrite last_snoc in Hlast. congruence.
Qed.

(** ** Packet fields *)

(** The options block lets the equivalent of a dedicated field be erased: for an
    encapsulated tag the encapsulator is absent or end-terminated. *)
Definition erasable (tag : Z) (opts : list opt) : Prop :=
  tag <= 255 \/ without (DHCP_ENCAPSULATOR tag) opts \/
  exists pre inner r post,
    opts = pre ++ Opt (DHCP_ENCAPSULATOR tag) (encap_payload inner r) :: post /\
    without (DHCP_ENCAPSULATOR tag) pre /\ Forall wf_opt inner.

Lemma erase_total o opts tail f tag :
  block o opts tail -> find_dhcp_packet_field tag = Some f -> erasable tag opts ->
  exists o' rc, dhcpopt_store dhcpopt_no_realloc o tag [] = Ok (o', rc).
Proof.
  intros Hb Hf Her. unfold dhcpopt_store.
  enough (exists o' rc, set_dhcp_option 5 dhcpopt_no_realloc o tag [] = Ok (o', rc))
    as (o' & rc & ->) by (cbn; eauto).
  assert ((tag = 66 \/ tag = 67) \/ exists t, tag = DHCP_ENCAP_OPT 175 t /\ 0 < t < 255) as Htag.
  { unfold find_dhcp_packet_field, dhcp_packet_fields in Hf. cbn [List.find field_tag] in Hf.
    repeat case_if; simplify_eq; first [left; lia | right; eexists; split; [|]; [symmetry; by apply Z.eqb_eq|lia]]. }
  destruct Htag as [Htag|(t & -> & Ht)].
  - destruct (set_plain dhcpopt_no_realloc 4 o opts tail tag [] Hb) as (o' & rc & E & _);
      [lia|done|eauto].
  - unfold erasable in Her. rewrite encapsulator_encap, encap_opt_eq in Her by lia.
    destruct Her as [?|[Hw|(pre & inner & r & post & -> & Hw & Hwi)]]; [lia|..].
    + destruct (set_encap_new dhcpopt_no_realloc 3 o opts tail 175 t [] Hb)
        as (o' & rc & E & _); [lia|lia|done|done|eauto].
    + destruct (set_encap_existing dhcpopt_no_realloc 3 o pre 175 inner r post tail t [] Hb)
        as (o' & rc & E & _); [done..|eauto].
Qed.

Lemma packet_field_bounds tag f :
  find_dhcp_packet_field tag = Some f ->
  0 <= field_offset f /\ 0 < field_len f /\ field_offset f + field_len f <= 236.
Proof.
  unfold find_dhcp_packet_field, dhcp_packet_fields. cbn [List.find].
  intros Hf. repeat case_if; simplify_eq; cbn; lia.
Qed.

(** The contents of a field after a store: the value and zero padding. *)
Definition field_value (f : dhcp_packet_field) (v : bytes) : bytes :=
  v ++ replicate (Z.to_nat (field_len f) - length v) 0.

(** Dedicated packet fields: storing a value that fits its field (and whose
    used length, by the field's own rule, is its length) succeeds, changes only the
    bytes of that field in the header, and makes the packet's fetch return the
    value whatever the options block contained; a value longer than the field is
    refused with [-ENOSPC] and changes nothing. *)
Theorem dhcppkt_store_field p opts tail tag f v :
  find_dhcp_packet_field tag = Some f -> length (dhcphdr p) = 240%nat ->
  block (options p) opts tail -> erasable tag opts ->
  (field_len f < zlen v -> dhcppkt_store p tag v = Ok (p, inl ENOSPC)) /\
  (zlen v <= field_len f -> v <> [] -> field_used_len f (field_value f v) = zlen v ->
   exists p', dhcppkt_store p tag v = Ok (p', inr tt) /\
   dhcphdr p' = splice (dhcphdr p) (field_offset f) (field_value f v) /\
   forall len, 0 <= len -> dhcppkt_fetch p' tag len = Ok (zlen v, take (Z.to_nat len) v)).
Proof.
  intros Hf Hh Hb Her. pose proof (packet_field_bounds _ _ Hf) as (Hoff & Hfl & Hend).
  unfold dhcppkt_store, dhcppkt_fetch. rewrite Hf. split.
  { intros Hbig. by rewrite (proj2 (Z.ltb_lt _ _)). }
  intros Hsmall Hne Hused. rewrite (proj2 (Z.ltb_ge _ _)) by lia.
  destruct (erase_total _ _ _ _ _ Hb Hf Her) as (o' & rc & ->).
  set (A := take (Z.to_nat (field_offset f)) (dhcphdr p)).
  set (F := slice (dhcphdr p) (field_offset f) (field_len f)).
  set (B := drop (Z.to_nat (field_len f)) (drop (Z.to_nat (field_offset f)) (dhcphdr p))).
  assert (HA : zlen A = field_offset f) by (subst A; rewrite length_take; lia).
  assert (HF : zlen F = field_len f) by (apply length_slice; lia).
  assert (Heq : dhcphdr p = A ++ F ++ B) by (subst A F B; unfold slice; by rewrite !take_drop).
  assert (HV : length (field_value f v) = Z.to_nat (field_len f))
    by (unfold field_value; rewrite length_app, length_replicate; lia).
  rewrite Heq, wr_range_app by (rewrite ?length_replicate; lia). cbn [mbind res_bind].
  replace (replicate (Z.to_nat (field_len f)) 0)
    with (replicate (length v) 0 ++ replicate (Z.to_nat (field_len f) - length v) 0)
    by (rewrite <- replicate_add; f_equal; lia).
  rewrite <- app_assoc, wr_range_app by (rewrite ?length_replicate; lia).
  cbn [mbind res_bind fst]. eexists. split; [done|]. cbn [dhcphdr].
  rewrite (app_assoc v). fold (field_value f v). split.
  { unfold splice. rewrite <- HA, Nat2Z.id, take_app_length, <- drop_drop, drop_app_length.
    replace (length (field_value f v)) with (length F) by lia. by rewrite drop_app_length. }
  intros len Hlen. rewrite rd_range_app by lia. cbn [mbind res_bind]. rewrite Hused.
  rewrite (proj2 (Z.eqb_neq _ 0)) by (destruct v; cbn; done || lia).
  do 2 f_equal. unfold field_value. rewrite take_app_le by lia.
  destruct (decide (len <= zlen v)); [by rewrite Z.min_l|].
  rewrite Z.min_r by lia. by rewrite !firstn_all2 by lia.
Qed.

(** ** Concrete instances *)

Section Examples.

(** Options 1 = {9} and 43 = {6 = {7}, end}, an end marker, and free space. *)
Definition ex_opts : list opt := [Opt 1 [9]; Opt 43 (encap_payload [Opt 6 [7]] [])].
Definition ex_block : dhcp_options :=
  {| data := [1; 1; 9; 43; 4; 6; 1; 7; 255; 255; 0; 0; 0; 0; 0; 0]; used_len := 10 |}.

Ltac concrete := repeat (constructor || split || (unfold in_range, wf_opt; lia) || discriminate).

Lemma ex_block_ok : block ex_block ex_opts [DHCP_END].
Proof.
  split; [by exists [0; 0; 0; 0; 0; 0]|done| |right; by exists []].
  unfold ex_opts. concrete.
Defined.

Lemma find_plain_exact_witness :
  find_dhcp_option_with_encap ex_block 43 (-1) = Ok (-1, Some 3).
Proof.
  rewrite (find_plain_exact ex_block 43 (-1)); [vm_compute; reflexivity|..]; concrete.
Defined.

Lemma find_encap_window_exact_witness :
  find_dhcp_option_with_encap ex_block (DHCP_ENCAP_OPT 43 6) (-1) = Ok (3, Some 5).
Proof.
  rewrite (find_encap_window_exact ex_block 43 6); [reflexivity|..]; concrete.
Defined.

Lemma dhcpopt_store_plain_witness :
  exists o' rc, dhcpopt_store dhcpopt_no_realloc ex_block 12 [1; 2] = Ok (o', rc) /\
  match rc with
  | inl err => (o' = ex_block /\ (253 < 2 \/ 16 < 14)) \/ shrink_refused dhcpopt_no_realloc o' err
  | inr _ => block o' (set_opt 12 [1; 2] ex_opts) [DHCP_END]
  end.
Proof.
  apply (dhcpopt_store_plain dhcpopt_no_realloc ex_block ex_opts [DHCP_END] 12 [1; 2]);
    [apply no_realloc_ok|apply ex_block_ok|lia|concrete].
Defined.

Lemma dhcpopt_fetch_store_witness :
  let o' := {| data := [1; 1; 9; 43; 4; 6; 1; 7; 255; 12; 2; 1; 2; 255; 0; 0];
               used_len := 14 |} in
  dhcpopt_fetch o' 12 8 = Ok (2, [1; 2]) /\
  (forall u, 0 < u < 255 -> u <> 12 -> dhcpopt_fetch o' u 8 = dhcpopt_fetch ex_block u 8).
Proof.
  apply (dhcpopt_fetch_store dhcpopt_no_realloc ex_block ex_opts [DHCP_END] 12 [1; 2]);
    [apply no_realloc_ok|apply ex_block_ok|lia|concrete|done|reflexivity|lia].
Defined.

Lemma dhcpopt_store_encap_witness :
  exists o' rc, dhcpopt_store dhcpopt_no_realloc ex_block (DHCP_ENCAP_OPT 43 9) [5] = Ok (o', rc)
  /\ match rc with
     | inl err => (same_block ex_block o' /\
         (253 < 1 \/ 255 < zlen (encap_payload (set_opt_front 9 [5] [Opt 6 [7]]) []) \/
          alloc_len ex_block <
          zlen (encode ([Opt 1 [9]] ++
                        Opt 43 (encap_payload (set_opt_front 9 [5] [Opt 6 [7]]) []) :: [])
                ++ [DHCP_END]))) \/ shrink_refused dhcpopt_no_realloc o' err
     | inr _ => block o' ([Opt 1 [9]] ++ encap_opts 43 (set_opt_front 9 [5] [Opt 6 [7]]) [] ++ [])
                  [DHCP_END] /\
         ([5] <> [] -> forall len, 0 <= len ->
          dhcpopt_fetch o' (DHCP_ENCAP_OPT 43 9) len = Ok (zlen [5], take (Z.to_nat len) [5]))
     end.
Proof.
  apply (dhcpopt_store_encap dhcpopt_no_realloc ex_block [Opt 1 [9]] 43 [Opt 6 [7]] [] []
           [DHCP_END] 9 [5]);
    [apply no_realloc_ok|apply ex_block_ok| |concrete|lia|concrete].
  repeat constructor. cbn. lia.
Defined.

Lemma dhcpopt_init_used_witness :
  dhcpopt_init [1; 1; 9; 255; 0; 0] = Ok {| data := [1; 1; 9; 255; 0; 0]; used_len := 4 |}.
Proof.
  apply (dhcpopt_init_used [Opt 1 [9]; End] 2); [|discriminate].
  constructor; [right; concrete|]. constructor; [by left|constructor].
Defined.

Definition ex_packet : dhcp_packet :=
  {| dhcphdr := replicate 240 0; options := ex_block |}.

Lemma dhcppkt_store_field_witness :
  exists p', dhcppkt_store ex_packet 67 [97; 98] = Ok (p', inr tt) /\
  forall len, 0 <= len -> dhcppkt_fetch p' 67 len = Ok (2, take (Z.to_nat len) [97; 98]).
Proof.
  destruct (dhcppkt_store_field ex_packet ex_opts [DHCP_END] 67 _ [97; 98] eq_refl eq_refl
              ex_block_ok) as [_ H]; [left; lia|].
  destruct H as (p' & E & _ & Hf); [cbn; lia|discriminate|reflexivity|].
  exists p'. split; [exact E|exact Hf].
Defined.

End Examples.
