(* ===== verification/Strings.v ===== *)
(** * C strings

    Model of the parts of [core/string.c], [include/ctype.h], [core/ctype.c] and
    [core/basename.c] that the URI, formatting and encoding code uses.

    Two views of a string are used.  A string in memory is an offset into a byte
    object that holds its NUL terminator ([str_at]); the search functions work on
    that view and [Trap] if they run off the object.  The value of a string is the
    list of its bytes without the terminator; number parsing works on that view,
    reading the terminator (0) past the end of the list. *)

From Stdlib Require Import ZArith Lia Bool ZifyBool.
From stdpp Require Import base numbers list strings.
From S2P Require Import Prelude.
Local Open Scope Z_scope.

(** ** Character types

    [char] is signed: a byte is converted by [schar] where the code does so. *)

Definition schar (c : Z) : Z := to_signed 8 c.

Definition isdigit (c : Z) : bool := (ch "0" <=? c) && (c <=? ch "9").
Definition isxdigit (c : Z) : bool :=
  ((ch "0" <=? c) && (c <=? ch "9")) || ((ch "A" <=? c) && (c <=? ch "F")) ||
  ((ch "a" <=? c) && (c <=? ch "f")).
Definition isupper (c : Z) : bool := (ch "A" <=? c) && (c <=? ch "Z").
Definition islower (c : Z) : bool := (ch "a" <=? c) && (c <=? ch "z").
Definition isalpha (c : Z) : bool := isupper c || islower c.
Definition isalnum (c : Z) : bool := isalpha c || isdigit c.
Definition isprint (c : Z) : bool := (ch " " <=? c) && (c <=? ch "~").
Definition tolower (c : Z) : Z := if isupper c then c - ch "A" + ch "a" else c.
Definition toupper (c : Z) : Z := if islower c then c - ch "a" + ch "A" else c.

(** Space, FF, LF, CR, HT and VT. *)
Definition isspace (c : Z) : bool := existsb (Z.eqb c) [32; 12; 10; 13; 9; 11].

(** ** Strings in memory *)

(** The string that starts an object: its bytes up to the terminator. *)
Fixpoint cstr (l : bytes) : option bytes :=
  match l with
  | [] => None
  | c :: l => if c =? 0 then Some [] else cons c <$> cstr l
  end.

Definition string_at (mem : bytes) (off : Z) : res bytes :=
  if off <? 0 then Trap else of_option (cstr (drop (Z.to_nat off) mem)).

Definition strlen (mem : bytes) (off : Z) : res Z := s ← string_at mem off; Ok (zlen s).

(** The scan of [strchr] over the bytes at [i], [i + 1], ... *)
Fixpoint strchr_in (l : bytes) (c i : Z) : res (option Z) :=
  match l with
  | [] => Trap
  | b :: l => if b =? c then Ok (Some i) else if b =? 0 then Ok None else strchr_in l c (i + 1)
  end.

Definition strchr (mem : bytes) (off c : Z) : res (option Z) :=
  if off <? 0 then Trap else strchr_in (drop (Z.to_nat off) mem) c off.

(** The backward scan of [strrchr], over the bytes below offset [i]. *)
Fixpoint strrchr_in (rev_s : bytes) (c i : Z) : option Z :=
  match rev_s with
  | [] => None
  | b :: rev_s => if b =? c then Some (i - 1) else strrchr_in rev_s c (i - 1)
  end.

Definition strrchr (mem : bytes) (off c : Z) : res (option Z) :=
  s ← string_at mem off; Ok (strrchr_in (reverse s) c (off + zlen s)).

Fixpoint memcmp (first second : bytes) (len : nat) : res Z :=
  match len, first, second with
  | O, _, _ => Ok 0
  | S len, a :: first, b :: second => if a - b =? 0 then memcmp first second len else Ok (a - b)
  | S _, _, _ => Trap
  end.

Fixpoint strstr_in (l needle : bytes) (i : Z) : res (option Z) :=
  match l with
  | [] => Trap
  | b :: l' =>
    if b =? 0 then Ok None else
    diff ← memcmp l needle (length needle);
    if diff =? 0 then Ok (Some i) else strstr_in l' needle (i + 1)
  end.

Definition strstr (mem : bytes) (off : Z) (needle : bytes) : res (option Z) :=
  if off <? 0 then Trap else strstr_in (drop (Z.to_nat off) mem) needle off.

(** [strncmp] on terminated strings; the terminator is read as 0. *)
Fixpoint strncmp (first second : bytes) (max : nat) : Z :=
  match max with
  | O => 0
  | S max =>
    let a := hd 0 first in
    let b := hd 0 second in
    if negb (a - b =? 0) then a - b
    else if a =? 0 then 0
    else strncmp (tail first) (tail second) max
  end.

(** The bound is never reached: the scan stops at the first terminator. *)
Definition strcmp (first second : bytes) : Z := strncmp first second (S (length first)).

(** ** Path names *)

(** Before and after the first occurrence of a character. *)
Fixpoint split_first (c : Z) (s : bytes) : option (bytes * bytes) :=
  match s with
  | [] => None
  | b :: s => if b =? c then Some ([], s)
              else match split_first c s with Some (x, y) => Some (b :: x, y) | None => None end
  end.

(** Before and after the last occurrence, which [strrchr] finds. *)
Definition split_last (c : Z) (s : bytes) : option (bytes * bytes) :=
  match split_first c (reverse s) with
  | Some (y, x) => Some (reverse x, reverse y)
  | None => None
  end.

Definition basename (path : bytes) : bytes :=
  match split_last (ch "/") path with Some (_, base) => base | None => path end.

Definition dirname (path : bytes) : bytes :=
  match split_last (ch "/") path with
  | Some ([], _) => [ch "/"]
  | Some (dir, _) => dir
  | None => [ch "."]
  end.

(** ** Numbers *)

Definition digit_value (character : Z) : Z :=
  if ch "a" <=? character then u32 (character - (ch "a" - 10))
  else if ch "A" <=? character then u32 (character - (ch "A" - 10))
  else if character <=? ch "9" then u32 (character - ch "0")
  else character.

Fixpoint skip_spaces (s : bytes) : bytes :=
  match s with
  | c :: s' => if isspace (schar c) then skip_spaces s' else s
  | [] => []
  end.

Definition strtoul_pre (s : bytes) (base : Z) : bytes * bool * Z :=
  let s := skip_spaces s in
  let '(s, negate) :=
    match s with
    | c :: s' => if c =? ch "-" then (s', true)
                 else if c =? ch "+" then (s', false) else (s, false)
    | [] => (s, false)
    end in
  let '(s, base) :=
    if base =? 0 then
      match s with
      | c :: s' =>
        if c =? ch "0" then
          match s' with
          | x :: s'' => if Z.land x (Z.lnot 32) =? ch "X" then (s'', 16) else (s', 8)
          | [] => (s', 8)
          end
        else (s, 10)
      | [] => (s, 10)
      end
    else (s, base) in
  (s, negate, base).

(** The digit loop, in an unsigned type of [w] bits; returns the value and the
    rest of the string.  [digit_value] takes the (signed) character converted to
    [unsigned int]. *)
Fixpoint strtoul_digits (w : Z) (s : bytes) (base value : Z) : Z * bytes :=
  match s with
  | c :: s' =>
    let digit := digit_value (u32 (schar c)) in
    if base <=? digit then (value, s)
    else strtoul_digits w s' base (wrap w (value * base + digit))
  | [] => (value, [])
  end.

(** [strtoul] ([w] the width of [unsigned long]) and [strtoull] ([w] = 64): the
    value and the rest of the string, which [endp] points to. *)
Definition strtoul (w : Z) (s : bytes) (base : Z) : Z * bytes :=
  let '(s, negate, base) := strtoul_pre s base in
  let '(value, rest) := strtoul_digits w s base 0 in
  (if negate then wrap w (- value) else value, rest).

(** ** Reference splitting functions on string values *)

(** Before and after the first occurrence of a substring. *)
Fixpoint split_sub (needle s : bytes) : option (bytes * bytes) :=
  match s with
  | [] => None
  | b :: s' =>
    if decide (needle = take (length needle) s)
    then Some ([], drop (length needle) s)
    else match split_sub needle s' with Some (x, y) => Some (b :: x, y) | None => None end
  end.

Lemma split_first_Some c s x y :
  split_first c s = Some (x, y) <-> s = x ++ c :: y /\ Forall (fun b => b <> c) x.
Proof.
  revert x y. induction s as [|b s IH]; intros x y; cbn.
  { split; [done|]. intros [E _]. by destruct x. }
  destruct (Z.eqb_spec b c) as [->|Hne].
  - split.
    + intros [= <- <-]. split; [done|constructor].
    + intros [E Hx]. destruct x as [|b' x]; cbn in E; simplify_eq; [done|]. by inv Hx.
  - split.
    + destruct (split_first c s) as [[x' y']|] eqn:E; [|done]. intros [= <- <-].
      destruct (proj1 (IH x' y') eq_refl) as [-> Hx]. split; [done|by constructor].
    + intros [E Hx]. destruct x as [|b' x]; cbn in E; simplify_eq. inv Hx.
      by rewrite (proj2 (IH x y)).
Qed.

Lemma split_first_None c s : split_first c s = None <-> Forall (fun b => b <> c) s.
Proof.
  induction s as [|b s IH]; cbn; [done|]. rewrite Forall_cons, <- IH.
  destruct (Z.eqb_spec b c); [by split; [|intros [? _]]|].
  destruct (split_first c s) as [[? ?]|]; split; by try intros [? ?].
Qed.

Lemma split_last_Some c s x y :
  split_last c s = Some (x, y) <-> s = x ++ c :: y /\ Forall (fun b => b <> c) y.
Proof.
  unfold split_last. destruct (split_first c (reverse s)) as [[y' x']|] eqn:E.
  - apply split_first_Some in E as [E Hy]. apply (f_equal reverse) in E.
    rewrite reverse_involutive, reverse_app, reverse_cons, <- app_assoc in E. cbn in E. split.
    + intros [= <- <-]. split; [done|by apply Forall_reverse].
    + intros [E' Hy']. enough (split_first c (reverse s) = Some (reverse y, reverse x)) as H.
      { rewrite (proj2 (split_first_Some c (reverse s) y' x')) in H.
        - simplify_eq. by rewrite !reverse_involutive.
        - rewrite E, reverse_app, reverse_cons, <- app_assoc, !reverse_involutive. done. }
      apply split_first_Some. split; [|by apply Forall_reverse].
      rewrite E', reverse_app, reverse_cons, <- app_assoc. done.
  - apply split_first_None in E. apply Forall_reverse in E. rewrite reverse_involutive in E.
    split; [done|]. intros [-> _]. apply Forall_app in E as [_ E]. by inv E.
Qed.

Lemma split_last_None c s : split_last c s = None <-> Forall (fun b => b <> c) s.
Proof.
  unfold split_last. destruct (split_first c (reverse s)) as [[y' x']|] eqn:E.
  - split; [done|]. intros H. apply split_first_Some in E as [E _].
    apply Forall_reverse in H. rewrite E in H. apply Forall_app in H as [_ H]. by inv H.
  - apply split_first_None, Forall_reverse in E. by rewrite reverse_involutive in E.
Qed.

Lemma strrchr_in_split c l i :
  strrchr_in l c i = match split_first c l with
                     | Some (y, _) => Some (i - zlen y - 1) | None => None end.
Proof.
  revert i. induction l as [|b l IH]; intros i; cbn; [done|].
  destruct (b =? c); [cbn; f_equal; lia|]. rewrite IH.
  destruct (split_first c l) as [[y x]|]; [|done]. cbn. f_equal; lia.
Qed.

(** ** Strings in memory and their values *)

(** The string value [s] is stored, with its terminator, at offset [off]. *)
Definition str_at (mem : bytes) (off : Z) (s : bytes) : Prop :=
  0 <= off /\ Forall (fun c => c <> 0) s /\
  exists R, drop (Z.to_nat off) mem = s ++ 0 :: R.

Lemma cstr_app s R : Forall (fun c => c <> 0) s -> cstr (s ++ 0 :: R) = Some s.
Proof.
  induction 1 as [|c s Hc _ IH]; [done|]. cbn. by rewrite (proj2 (Z.eqb_neq _ _)), IH.
Qed.

Lemma string_at_str mem off s : str_at mem off s -> string_at mem off = Ok s.
Proof.
  intros (Hoff & Hs & R & HR). unfold string_at.
  by rewrite (proj2 (Z.ltb_ge _ _)), HR, cstr_app.
Qed.

Lemma strlen_str mem off s : str_at mem off s -> strlen mem off = Ok (zlen s).
Proof. intros H. unfold strlen. by rewrite (string_at_str _ _ _ H). Qed.

Lemma strchr_str mem off s c :
  str_at mem off s -> c <> 0 ->
  strchr mem off c = Ok (match split_first c s with
                         | Some (x, _) => Some (off + zlen x) | None => None end).
Proof.
  intros (Hoff & Hs & R & HR) Hc. unfold strchr. rewrite (proj2 (Z.ltb_ge _ _)), HR by done.
  clear HR Hoff. revert off. induction Hs as [|b s Hb _ IH]; intros off; cbn [app strchr_in split_first].
  - by rewrite (proj2 (Z.eqb_neq 0 c)) by done.
  - destruct (b =? c); [cbn; do 2 f_equal; lia|]. rewrite (proj2 (Z.eqb_neq b 0)), IH by done.
    destruct (split_first c s) as [[x y]|]; [|done]. cbn. do 2 f_equal; lia.
Qed.

Lemma strrchr_str mem off s c :
  str_at mem off s ->
  strrchr mem off c = Ok (match split_last c s with
                          | Some (x, _) => Some (off + zlen x) | None => None end).
Proof.
  intros H. unfold strrchr. rewrite (string_at_str _ _ _ H). cbn [mbind res_bind]. f_equal.
  rewrite strrchr_in_split. unfold split_last.
  destruct (split_first c (reverse s)) as [[y x]|] eqn:E; [|done]. f_equal.
  apply split_first_Some in E as [E _]. apply (f_equal length) in E.
  rewrite length_app, !length_reverse in E. cbn in E. rewrite length_reverse. lia.
Qed.

Lemma memcmp_spec n a b :
  (n <= length a)%nat -> (n <= length b)%nat ->
  exists d, memcmp a b n = Ok d /\ (d = 0 <-> take n a = take n b).
Proof.
  revert a b. induction n as [|n IH]; intros a b Ha Hb; [exists 0; by destruct a|].
  destruct a as [|x a], b as [|y b]; cbn in Ha, Hb; try lia. cbn [memcmp take].
  destruct (Z.eqb_spec (x - y) 0) as [E|E].
  - destruct (IH a b) as (d & Hd & Hiff); [lia..|]. exists d. split; [done|]. rewrite Hiff.
    replace y with x by lia. split; [by intros -> | by intros [=]].
  - exists (x - y). split; [done|]. split; [done | intros [=]; lia].
Qed.

Lemma memcmp_prefix needle s R :
  Forall (fun c => c <> 0) needle -> Forall (fun c => c <> 0) s ->
  exists d, memcmp (s ++ 0 :: R) needle (length needle) = Ok d /\
  (d = 0 <-> needle = take (length needle) s).
Proof.
  intros Hn. revert s. induction Hn as [|c needle Hc _ IH]; intros s Hs; cbn.
  - exists 0. split; [by destruct (s ++ 0 :: R)|]. by destruct s.
  - destruct s as [|b s]; cbn.
    + exists (0 - c). split; [by rewrite (proj2 (Z.eqb_neq _ 0)) by lia|]. split; [lia|done].
    + inv Hs as [|? ? Hb Hs']. destruct (Z.eqb_spec (b - c) 0).
      * destruct (IH s Hs') as (d & -> & Hd). exists d. split; [done|]. rewrite Hd.
        replace b with c by lia. split; [intros; f_equal; done|by intros [=]].
      * exists (b - c). split; [done|]. split; [lia|intros [=]; lia].
Qed.

Lemma strstr_str mem off s needle :
  str_at mem off s -> Forall (fun c => c <> 0) needle ->
  strstr mem off needle = Ok (match split_sub needle s with
                              | Some (x, _) => Some (off + zlen x) | None => None end).
Proof.
  intros (Hoff & Hs & R & HR) Hn. unfold strstr. rewrite (proj2 (Z.ltb_ge _ _)), HR by done.
  clear HR Hoff. revert off. induction Hs as [|b s Hb Hs IH]; intros off; [done|].
  destruct (memcmp_prefix needle (b :: s) R Hn) as (d & Hd & Hiff); [by constructor|].
  cbn [strstr_in app split_sub] in *. rewrite (proj2 (Z.eqb_neq b 0)), Hd by done.
  cbn [mbind res_bind]. destruct (Z.eqb_spec d 0) as [E|E].
  - rewrite decide_True by tauto. cbn. do 2 f_equal; lia.
  - rewrite decide_False, IH by tauto.
    destruct (split_sub needle s) as [[x y]|]; [|done]. cbn. do 2 f_equal; lia.
Qed.

Lemma split_sub_Some needle s x y :
  split_sub needle s = Some (x, y) -> s = x ++ needle ++ y.
Proof.
  revert x y. induction s as [|b s IH]; intros x y; cbn [split_sub]; [done|].
  destruct (decide _) as [E|E].
  - intros [= <- <-]. rewrite E at 1. by rewrite take_drop.
  - destruct (split_sub needle s) as [[x' y']|] eqn:E'; [|done]. intros [= <- <-].
    cbn. f_equal. by apply IH.
Qed.

(** *** Updates *)

Lemma str_at_app mem off x c y :
  str_at mem off (x ++ c :: y) -> str_at mem (off + zlen x + 1) y.
Proof.
  intros (Hoff & [_ [_ Hy]%Forall_cons]%Forall_app & R & HR).
  split; [lia|]. split; [done|]. exists R.
  replace (Z.to_nat (off + zlen x + 1)) with (Z.to_nat off + (length x + 1))%nat by lia.
  rewrite <- drop_drop, HR, <- app_assoc, drop_app_add. done.
Qed.

(** Writing a terminator inside a string cuts it there. *)
Lemma wr_cut mem off x c y i :
  str_at mem off (x ++ c :: y) -> i = off + zlen x ->
  exists mem', wr mem i 0 = Ok mem' /\ mem' = <[Z.to_nat i := 0]> mem /\ str_at mem' off x.
Proof.
  intros (Hoff & [Hx _]%Forall_app & R & HR) ->.
  assert (zlen mem > off + zlen x).
  { apply (f_equal length) in HR. rewrite length_drop, !length_app in HR. cbn in HR. lia. }
  eexists. unfold wr. rewrite (proj2 (Z.leb_le _ _)), (proj2 (Z.ltb_lt _ _)) by lia.
  split; [done|]. split; [done|]. split; [done|]. split; [done|]. exists (y ++ 0 :: R).
  rewrite drop_insert_ge by lia. rewrite HR, <- app_assoc.
  replace (Z.to_nat (off + zlen x) - Z.to_nat off)%nat with (length x + 0)%nat by lia.
  by rewrite insert_app_r.
Qed.

(** A write outside a string leaves it. *)
Lemma insert_frame mem off s i v :
  str_at mem off s -> 0 <= i -> i < off \/ off + zlen s < i ->
  str_at (<[Z.to_nat i := v]> mem) off s.
Proof.
  intros (Hoff & Hs & R & HR) Hi Hout. split; [done|]. split; [done|].
  destruct Hout as [Hlt|Hgt].
  - exists R. rewrite drop_insert_lt by lia. done.
  - exists (<[Z.to_nat i - Z.to_nat off - length s - 1 := v]> R)%nat.
    rewrite drop_insert_ge, HR by lia. rewrite insert_app_r_alt by lia. f_equal.
    destruct (Z.to_nat i - Z.to_nat off - length s)%nat as [|k] eqn:E; [lia|].
    cbn. do 2 f_equal. lia.
Qed.

Lemma splice_frame mem off s pos d :
  str_at mem off s -> 0 <= pos -> pos + zlen d <= zlen mem ->
  pos + zlen d <= off \/ off + zlen s < pos ->
  str_at (splice mem pos d) off s.
Proof.
  intros (Hoff & Hs & R & HR) Hpos Hlen Hout. split; [done|]. split; [done|].
  unfold splice. destruct Hout as [Hlt|Hgt].
  - exists R. rewrite drop_app_ge by (rewrite length_take; lia).
    rewrite drop_app_ge by (rewrite length_take; lia). rewrite length_take, drop_drop, <- HR.
    f_equal. lia.
  - rewrite drop_app_le by (rewrite length_take; lia).
    rewrite skipn_firstn_comm, HR, take_app_ge by lia.
    destruct (Z.to_nat pos - Z.to_nat off - length s)%nat as [|k] eqn:E; [lia|].
    cbn [take]. eexists. by rewrite <- app_assoc, <- app_comm_cons.
Qed.

Lemma str_at_bounds mem off s : str_at mem off s -> 0 <= off /\ off + zlen s < zlen mem.
Proof.
  intros (Hoff & _ & R & HR). apply (f_equal length) in HR.
  rewrite length_drop, length_app in HR. cbn in HR. lia.
Qed.

Lemma take_take_le {A} (l : list A) n m : (n <= m)%nat -> take n (take m l) = take n l.
Proof. intros. rewrite take_take. f_equal. lia. Qed.

(** Two memories that differ at most inside [[lo, hi)]. *)
Definition agree (mem mem' : bytes) (lo hi : Z) : Prop :=
  0 <= lo <= hi /\ length mem = length mem' /\
  take (Z.to_nat lo) mem = take (Z.to_nat lo) mem' /\
  drop (Z.to_nat hi) mem = drop (Z.to_nat hi) mem'.

Lemma agree_refl mem lo hi : 0 <= lo <= hi -> agree mem mem lo hi.
Proof. done. Qed.

Lemma agree_trans m1 m2 m3 lo hi : agree m1 m2 lo hi -> agree m2 m3 lo hi -> agree m1 m3 lo hi.
Proof. intros (? & E1 & E2 & E3) (_ & E4 & E5 & E6). repeat split; try lia; congruence. Qed.

Lemma agree_widen mem mem' lo hi lo' hi' :
  agree mem mem' lo hi -> 0 <= lo' <= lo -> hi <= hi' -> agree mem mem' lo' hi'.
Proof.
  intros (Hr & Hlen & Ht & Hd) Hlo Hhi. split; [lia|]. split; [done|]. split.
  - rewrite <- (take_take_le mem (Z.to_nat lo') (Z.to_nat lo)) by lia.
    rewrite <- (take_take_le mem' (Z.to_nat lo') (Z.to_nat lo)) by lia. by rewrite Ht.
  - replace (Z.to_nat hi') with (Z.to_nat hi + (Z.to_nat hi' - Z.to_nat hi))%nat by lia.
    by rewrite <- !drop_drop, Hd.
Qed.

Lemma agree_str mem mem' lo hi off s :
  agree mem mem' lo hi -> str_at mem off s -> off + zlen s < lo \/ hi <= off ->
  str_at mem' off s.
Proof.
  intros (Hr & Hlen & Ht & Hd) (Hoff & Hs & R & HR) Hout. split; [done|]. split; [done|].
  destruct Hout as [Hlt|Hge].
  - assert (take (Z.to_nat lo - Z.to_nat off) (drop (Z.to_nat off) mem') =
            s ++ 0 :: take (Z.to_nat lo - Z.to_nat off - length s - 1) R) as E.
    { rewrite <- skipn_firstn_comm, <- Ht, skipn_firstn_comm, HR, take_app_ge by lia. f_equal.
      destruct (Z.to_nat lo - Z.to_nat off - length s)%nat as [|k] eqn:Ek; [lia|].
      cbn. do 2 f_equal. lia. }
    rewrite <- (take_drop (Z.to_nat lo - Z.to_nat off) (drop (Z.to_nat off) mem')), E.
    rewrite <- app_assoc, <- app_comm_cons. by eexists.
  - exists R. rewrite <- HR.
    replace (Z.to_nat off) with (Z.to_nat hi + (Z.to_nat off - Z.to_nat hi))%nat by lia.
    by rewrite <- !drop_drop, Hd.
Qed.

Lemma insert_agree mem i v lo hi :
  0 <= lo <= i -> i < hi -> agree mem (<[Z.to_nat i := v]> mem) lo hi.
Proof.
  intros Hlo Hhi. split; [lia|]. split; [by rewrite length_insert|]. split.
  - by rewrite take_insert_ge by lia.
  - by rewrite drop_insert_lt by lia.
Qed.

Lemma splice_agree mem pos d lo hi :
  0 <= lo <= pos -> pos + zlen d <= hi -> pos + zlen d <= zlen mem ->
  agree mem (splice mem pos d) lo hi.
Proof.
  intros Hlo Hhi Hlen. split; [lia|]. split; [by rewrite length_splice by lia|].
  unfold splice. split.
  - rewrite take_app_le by (rewrite length_take; lia). by rewrite take_take_le by lia.
  - rewrite drop_app_ge by (rewrite length_take; lia).
    rewrite drop_app_ge by (rewrite length_take; lia). rewrite drop_drop. f_equal.
    rewrite length_take. lia.
Qed.

(** Where a string of the given form is stored. *)
Lemma str_at_intro A s R off :
  Forall (fun c => c <> 0) s -> off = zlen A -> str_at (A ++ s ++ 0 :: R) off s.
Proof.
  intros Hs ->. split; [lia|]. split; [done|]. exists R. by rewrite Nat2Z.id, drop_app_length.
Qed.

Lemma str_at_elim mem off s :
  str_at mem off s -> exists A R, mem = A ++ s ++ 0 :: R /\ off = zlen A.
Proof.
  intros H. pose proof (str_at_bounds _ _ _ H) as Hb. destruct H as (Hoff & Hs & R & HR).
  exists (take (Z.to_nat off) mem), R. split; [by rewrite <- HR, take_drop|].
  rewrite length_take. lia.
Qed.
