(* ===== verification/Vsprintf.v ===== *)
(** * Formatted output

    Model of [core/vsprintf.c]: the number formatters, the format-string
    interpreter [vcprintf], and [vsnprintf]/[snprintf]/[vssnprintf]/[ssnprintf],
    which write the result into a bounded buffer.

    The interpreter is a scan of the format string with an explicit state (inside
    or outside a conversion specification).  The variable arguments are a list of
    typed values; taking an argument of the wrong type or past the last one, using
    more than the 31 characters of the temporary buffer, or running off the end of
    the format string is [Trap].  [long_bits] is the width of [long] and
    [size_t]. *)

From Stdlib Require Import ZArith Lia Bool ZifyBool.
From stdpp Require Import base numbers list strings.
From S2P Require Import Prelude Strings.
Local Open Scope Z_scope.

Abbreviation LCASE := 32.
Abbreviation ALT_FORM := 2.
Abbreviation ZPAD := 16.

(** A value passed through [...]: an integer of a given width (as an unsigned
    pattern), a string or a wide string ([None] for a null pointer). *)
Inductive arg :=
| Anum (bits v : Z)
| Astr (s : option bytes)
| Awstr (s : option (list Z)).

(** The usable part of [tmp_buf]. *)
Definition tmp_buf_len : Z := 31.

(** A text written backwards into [tmp_buf]. *)
Definition in_tmp_buf (s : bytes) : res bytes := if zlen s <=? tmp_buf_len then Ok s else Trap.

Definition has_flag (flags f : Z) : bool := negb (Z.land flags f =? 0).

Definition hex_digit (n case_mod : Z) : Z :=
  Z.lor (nth (Z.to_nat n) (bytes_of_string "0123456789ABCDEF") 0) case_mod.

(** The digit loops; [fuel] bounds the number of digits of the widest type. *)
Fixpoint hex_digits (fuel : nat) (num case_mod : Z) (acc : bytes) : bytes :=
  match fuel with
  | O => acc
  | S fuel =>
    let acc := hex_digit (Z.land num 15) case_mod :: acc in
    let num := Z.shiftr num 4 in
    if num =? 0 then acc else hex_digits fuel num case_mod acc
  end.

Fixpoint dec_digits (fuel : nat) (num : Z) (acc : bytes) : bytes :=
  match fuel with
  | O => acc
  | S fuel =>
    let acc := (ch "0" + num mod 10) :: acc in
    let num := num / 10 in
    if num =? 0 then acc else dec_digits fuel num acc
  end.

Definition pad_to (width pad : Z) (s : bytes) : bytes :=
  replicate (Z.to_nat (width - zlen s)) pad ++ s.

Definition format_hex (num width flags : Z) : res bytes :=
  let case_mod := Z.land flags LCASE in
  let pad := Z.lor (Z.land flags ZPAD) (ch " ") in
  let s := pad_to width pad (hex_digits 16 num case_mod []) in
  let s := if has_flag flags ALT_FORM then ch "0" :: Z.lor (ch "X") case_mod :: s else s in
  in_tmp_buf s.

(** Negating the most negative [long] is undefined. *)
Definition format_decimal (long_bits num width flags : Z) : res bytes :=
  let zpad := has_flag flags ZPAD in
  let pad := Z.lor (Z.land flags ZPAD) (ch " ") in
  let negative := num <? 0 in
  if num =? - 2 ^ (long_bits - 1) then Trap else
  let s := dec_digits 20 (Z.abs num) [] in
  let s := if negative && negb zpad then ch "-" :: s else s in
  let s := pad_to width pad s in
  let s := if negative && zpad then match s with [] => [] | _ :: s => ch "-" :: s end else s in
  in_tmp_buf s.

(** Where in a conversion specification the interpreter is: reading flags, the
    field width, or length modifiers. *)
Inductive phase := Flags | Width | Length.
Inductive fmt_state :=
| Ordinary
| Spec (flags width length : Z) (p : phase).

(** Index into [type_sizes]: [CHAR_LEN] to [SIZE_T_LEN]. *)
Abbreviation INT_LEN := 2.
Abbreviation LONG_LEN := 3.
Abbreviation SIZE_T_LEN := 5.

Definition type_bits (long_bits length : Z) : res Z :=
  match length with
  | 0 => Ok 8 | 1 => Ok 16 | 2 => Ok 32 | 3 => Ok long_bits | 4 => Ok 64 | 5 => Ok long_bits
  | _ => Trap
  end.

Definition va_arg (args : list arg) (bits : Z) : res (Z * list arg) :=
  match args with
  | Anum b v :: args => if b =? bits then Ok (v, args) else Trap
  | _ => Trap
  end.

Fixpoint upto_nul (s : list Z) : bytes :=
  match s with [] => [] | c :: s => if c =? 0 then [] else c :: upto_nul s end.

(** One conversion: the text it produces and the remaining arguments. *)
Definition convert (long_bits flags width length c : Z) (args : list arg)
  : res (bytes * list arg) :=
  if c =? ch "c" then
    '(v, args) ← va_arg args 32;
    if length <? LONG_LEN then Ok ([u8 v], args) else Ok (upto_nul [u8 v], args)
  else if c =? ch "s" then
    if length <? LONG_LEN then
      match args with
      | Astr s :: args => Ok (default (bytes_of_string "<NULL>") s, args)
      | _ => Trap
      end
    else
      match args with
      | Awstr s :: args =>
          Ok (match s with Some s => u8 <$> s | None => bytes_of_string "<NULL>" end, args)
      | _ => Trap
      end
  else if c =? ch "p" then
    '(v, args) ← va_arg args long_bits;
    s ← format_hex (wrap 64 (to_signed long_bits v)) width (Z.lor ALT_FORM LCASE);
    Ok (s, args)
  else if Z.land c (Z.lnot 32) =? ch "X" then
    bits ← type_bits long_bits length;
    '(v, args) ← va_arg args (if 64 <=? bits then 64 else if long_bits <=? bits then long_bits
                               else 32);
    s ← format_hex v width (Z.lor flags (Z.land c 32));
    Ok (s, args)
  else if (c =? ch "d") || (c =? ch "i") then
    bits ← type_bits long_bits length;
    let bits := if long_bits <=? bits then long_bits else 32 in
    '(v, args) ← va_arg args bits;
    s ← format_decimal long_bits (to_signed bits v) width flags;
    Ok (s, args)
  else Ok ([c], args).

(** The interpreter: the characters passed to [cputchar], in order. *)
Fixpoint vcprintf (long_bits : Z) (st : fmt_state) (fmt : bytes) (args : list arg) : res bytes :=
  match fmt with
  | [] => match st with Ordinary => Ok [] | Spec _ _ _ _ => Trap end
  | c :: fmt =>
    match st with
    | Ordinary =>
      if c =? ch "%" then vcprintf long_bits (Spec 0 0 INT_LEN Flags) fmt args
      else cons c <$> vcprintf long_bits Ordinary fmt args
    | Spec flags width length p =>
      let in_flags := match p with Flags => true | _ => false end in
      let in_width := match p with Length => false | _ => true end in
      if in_flags && (c =? ch "#") then
        vcprintf long_bits (Spec (Z.lor flags ALT_FORM) width length Flags) fmt args
      else if in_flags && (c =? ch "0") then
        vcprintf long_bits (Spec (Z.lor flags ZPAD) width length Flags) fmt args
      else if in_width && isdigit c then
        vcprintf long_bits (Spec flags (width * 10 + (c - ch "0")) length Width) fmt args
      else if c =? ch "h" then
        vcprintf long_bits (Spec flags width (length - 1) Length) fmt args
      else if c =? ch "l" then
        vcprintf long_bits (Spec flags width (length + 1) Length) fmt args
      else if c =? ch "z" then
        vcprintf long_bits (Spec flags width SIZE_T_LEN Length) fmt args
      else
        '(s, args) ← convert long_bits flags width length c args;
        rest ← vcprintf long_bits Ordinary fmt args;
        Ok (s ++ rest)
    end
  end.

(** [printf_sputc]: the character at position [i] of the output is stored if it
    is within the buffer, which starts at [off] in [mem] and has [max_len] bytes. *)
Fixpoint sputs (mem : bytes) (off max_len i : Z) (s : bytes) : res bytes :=
  match s with
  | [] => Ok mem
  | c :: s =>
    mem ← (if i <? max_len then wr mem (off + i) c else Ok mem);
    sputs mem off max_len (i + 1) s
  end.

Section Printf.
Context (long_bits : Z).

(** [vsnprintf] into the [size] bytes at [off]: the new memory and the length of
    the whole formatted string, a [size_t] that is returned as an [int].  (The
    counter itself is not wrapped: the text is assumed shorter than the address
    space.) *)
Definition vsnprintf (mem : bytes) (off size : Z) (fmt : bytes) (args : list arg)
  : res (bytes * Z) :=
  s ← vcprintf long_bits Ordinary fmt args;
  mem ← sputs mem off size 0 s;
  let len := zlen s in
  let rc := to_signed 32 len in
  if size =? 0 then Ok (mem, rc)
  else mem ← wr mem (off + (if len <? size - 1 then len else size - 1)) 0; Ok (mem, rc).

Definition vssnprintf (mem : bytes) (off ssize : Z) (fmt : bytes) (args : list arg)
  : res (bytes * Z) :=
  vsnprintf mem off (if ssize <? 0 then 0 else ssize) fmt args.

Definition snprintf := vsnprintf.
Definition ssnprintf := vssnprintf.

(** [vasprintf]: the length is computed with an empty buffer, then the string is
    written into newly allocated memory ([None]: no memory).  One is added to the
    length as an [int], and the sum is converted to a [size_t]. *)
Definition vasprintf (alloc : Z -> bool) (fmt : bytes) (args : list arg) : res (option bytes) :=
  '(_, len) ← vsnprintf [] 0 0 fmt args;
  if len =? 2 ^ 31 - 1 then Trap else
  let len := wrap long_bits (len + 1) in
  if alloc len then
    '(mem, _) ← vsnprintf (replicate (Z.to_nat len) 0) 0 len fmt args;
    Some <$> string_at mem 0
  else Ok None.
End Printf.

(** ** The bounded buffer *)

(** Characters beyond the buffer are counted but not stored. *)
Lemma sputs_over mem off max_len i s : max_len <= i -> sputs mem off max_len i s = Ok mem.
Proof.
  revert i. induction s as [|c s IH]; intros i Hi; cbn [sputs]; [done|].
  rewrite (proj2 (Z.ltb_ge _ _)) by lia. cbn [mbind res_bind]. apply IH. lia.
Qed.

Lemma sputs_fill A B C off i s :
  off + i = zlen A ->
  sputs (A ++ B ++ C) off (i + zlen B) i s
  = Ok (A ++ (take (length B) s ++ drop (length s) B) ++ C).
Proof.
  revert A B i. induction s as [|c s IH]; intros A B i Hi; cbn [sputs].
  - by rewrite take_nil, drop_0.
  - destruct B as [|b B].
    + rewrite (proj2 (Z.ltb_ge _ _)) by (cbn; lia). cbn [mbind res_bind].
      rewrite sputs_over by (cbn; lia). by rewrite drop_nil.
    + rewrite (proj2 (Z.ltb_lt _ _)) by (cbn; lia).
      rewrite <- app_comm_cons, wr_app_r by done. cbn [mbind res_bind].
      rewrite cons_middle, app_assoc.
      replace (i + zlen (b :: B)) with (i + 1 + zlen B) by (cbn; lia).
      rewrite IH by app_side. cbn. by rewrite <- !app_assoc.
Qed.

(** Writing [s] as [vsnprintf] does: the prefix that fits, and a terminator. *)
Lemma vsnprintf_text lb mem off size fmt args s :
  vcprintf lb Ordinary fmt args = Ok s -> 0 <= off -> 0 <= size -> off + size <= zlen mem ->
  vsnprintf lb mem off size fmt args =
  Ok (if size =? 0 then mem else splice mem off (take (Z.to_nat (size - 1)) s ++ [0]),
      to_signed 32 (zlen s)).
Proof.
  intros Hs Hoff Hsize Hroom. unfold vsnprintf. rewrite Hs. cbn [mbind res_bind].
  set (A := take (Z.to_nat off) mem). set (B := slice mem off size).
  set (C := drop (Z.to_nat size) (drop (Z.to_nat off) mem)).
  assert (HA : zlen A = off) by (subst A; rewrite length_take; lia).
  assert (HB : zlen B = size) by (apply length_slice; lia).
  assert (Hm : mem = A ++ B ++ C) by (subst A B C; unfold slice; by rewrite !take_drop).
  pose proof (sputs_fill A B C off 0 s ltac:(lia)) as Hput.
  rewrite HB in Hput. change (0 + size) with size in Hput. rewrite Hm at 1. rewrite Hput.
  cbn [mbind res_bind]. destruct (Z.eqb_spec size 0) as [->|Hne].
  { destruct B; [|cbn in HB; lia]. cbn [length]. rewrite take_0, drop_nil. by rewrite Hm. }
  set (k := if zlen s <? size - 1 then zlen s else size - 1).
  assert (Hk : k = Z.min (zlen s) (size - 1)) by (subst k; case_if; lia).
  rewrite (wr_mid A _ C _ (Z.to_nat k)); [|lia|rewrite length_app, length_take, length_drop; lia].
  cbn [mbind res_bind]. do 2 f_equal. unfold splice.
  rewrite Hm, <- HA, Nat2Z.id, take_app_length, drop_app_add.
  rewrite <- !app_assoc. f_equal. rewrite length_app, length_take. cbn [length].
  replace (Z.to_nat (size - 1) `min` length s + 1)%nat with (Z.to_nat k + 1)%nat by lia.
  assert (take (Z.to_nat k) (take (length B) s ++ drop (length s) B)
          = take (Z.to_nat (size - 1)) s) as ->.
  { rewrite take_app_le by (rewrite length_take; lia). rewrite take_take.
    destruct (decide (zlen s < size - 1)).
    - by rewrite !firstn_all2 by lia.
    - f_equal. lia. }
  f_equal. cbn [app]. f_equal. rewrite (drop_app_le B C) by lia. f_equal.
  destruct (decide (zlen s < size)).
  - rewrite firstn_all2 by lia. rewrite drop_app_ge by lia. rewrite drop_drop. f_equal. lia.
  - rewrite !drop_ge; [done|lia..|rewrite length_app, length_take, length_drop; lia].
Qed.

Lemma vsnprintf_empty lb mem off fmt args s :
  vcprintf lb Ordinary fmt args = Ok s -> vsnprintf lb mem off 0 fmt args = Ok (mem, to_signed 32 (zlen s)).
Proof.
  intros Hs. unfold vsnprintf. rewrite Hs. cbn [mbind res_bind].
  by rewrite sputs_over by lia.
Qed.

(** A buffer of [len] bytes at the start of [mem] holding as much of [txt] as
    fits, terminated. *)
Definition buffer (mem : bytes) (len : Z) (txt : bytes) : Prop :=
  0 <= len <= zlen mem /\
  (0 < len -> exists R, mem = take (Z.to_nat (len - 1)) txt ++ 0 :: R).

Lemma int_length (s : bytes) : zlen s < 2 ^ 31 -> to_signed 32 (zlen s) = zlen s.
Proof. intros Hs. wrap_lia. Qed.

(** Appending to a buffer, whether or not the text still fits. *)
Lemma ssnprintf_append lb mem len txt fmt args s :
  buffer mem len txt -> vcprintf lb Ordinary fmt args = Ok s -> zlen s < 2 ^ 31 ->
  exists mem', ssnprintf lb mem (zlen txt) (len - zlen txt) fmt args = Ok (mem', zlen s) /\
  buffer mem' len (txt ++ s) /\ length mem' = length mem.
Proof.
  intros [Hlen Hbuf] Hs Hint. unfold ssnprintf, vssnprintf.
  destruct (decide (len <= zlen txt)) as [Hover|Hfit].
  - replace (if len - zlen txt <? 0 then 0 else len - zlen txt) with 0 by (case_if; lia).
    rewrite (vsnprintf_empty _ _ _ _ _ s), int_length by done. exists mem. split; [done|].
    split; [|done]. split; [done|]. intros Hpos. destruct (Hbuf Hpos) as [R ->]. exists R.
    by rewrite take_app_le by lia.
  - rewrite (proj2 (Z.ltb_ge _ 0)) by lia. destruct (Hbuf ltac:(lia)) as [R Hm].
    rewrite firstn_all2 in Hm by lia.
    rewrite (vsnprintf_text _ _ _ _ _ _ s), int_length by (done || lia).
    rewrite (proj2 (Z.eqb_neq _ 0)) by lia. eexists. split; [done|].
    assert (zlen (take (Z.to_nat (len - zlen txt - 1)) s ++ [0]) <= len - zlen txt).
    { rewrite length_app, length_take. cbn. lia. }
    split; [|rewrite length_splice by lia; done]. split; [rewrite length_splice; lia|].
    assert (take (Z.to_nat (zlen txt)) mem = txt) as Et
      by (by rewrite Hm, Nat2Z.id, take_app_length).
    intros _. unfold splice. rewrite Et.
    rewrite take_app, (firstn_all2 txt) by lia.
    replace (Z.to_nat (len - 1) - length txt)%nat with (Z.to_nat (len - zlen txt - 1)) by lia.
    eexists. rewrite <- !app_assoc. reflexivity.
Qed.

Lemma buffer_start mem len :
  0 <= len <= zlen mem ->
  exists mem', (if len =? 0 then Ok mem else wr mem 0 0) = Ok mem' /\ buffer mem' len [] /\
  length mem' = length mem.
Proof.
  intros Hlen. destruct (Z.eqb_spec len 0) as [->|].
  - exists mem. split; [done|]. split; [|done]. split; [lia|]. lia.
  - destruct mem as [|b mem]; [cbn in Hlen; lia|]. exists (0 :: mem). split; [done|].
    split; [|done]. split; [done|]. intros _. exists mem. by rewrite take_nil.
Qed.

(** Re-terminating a buffer at the end of its text changes nothing. *)
Lemma buffer_terminate mem len txt :
  buffer mem len txt ->
  (if 0 <? len - zlen txt then wr mem (zlen txt) 0 else Ok mem) = Ok mem.
Proof.
  intros [Hlen Hbuf]. destruct (Z.ltb_spec 0 (len - zlen txt)); [|done].
  destruct (Hbuf ltac:(lia)) as [R ->]. rewrite firstn_all2 by lia. by apply wr_app_r.
Qed.

Lemma buffer_string mem len txt :
  buffer mem len txt -> zlen txt < len -> Forall (fun c => c <> 0) txt ->
  string_at mem 0 = Ok txt.
Proof.
  intros [Hlen Hbuf] Hfit Hnz. apply string_at_str. destruct (Hbuf ltac:(lia)) as [R ->].
  rewrite firstn_all2 by lia. by apply (str_at_intro [] txt R).
Qed.

(** [vasprintf] returns the whole text. *)
Lemma vasprintf_text lb alloc fmt args s :
  32 <= lb -> vcprintf lb Ordinary fmt args = Ok s -> Forall (fun c => c <> 0) s ->
  zlen s < 2 ^ 31 - 1 ->
  vasprintf lb alloc fmt args = Ok (if alloc (zlen s + 1) then Some s else None).
Proof.
  intros Hlb Hs Hnz Hint. unfold vasprintf.
  rewrite (vsnprintf_empty _ _ _ _ _ s Hs), int_length by lia. cbn [mbind res_bind].
  assert (2 ^ 32 <= 2 ^ lb) by (apply Z.pow_le_mono_r; lia).
  rewrite (proj2 (Z.eqb_neq _ _)), (wrap_small lb) by (unfold in_range; lia). cbv zeta.
  destruct (alloc (zlen s + 1)); [|done].
  rewrite (vsnprintf_text _ _ _ _ _ _ s Hs) by (rewrite ?length_replicate; lia).
  rewrite (proj2 (Z.eqb_neq _ 0)) by lia. cbn [mbind res_bind].
  replace (Z.to_nat (zlen s + 1 - 1)) with (length s) by lia. rewrite firstn_all.
  unfold splice. cbn [Z.to_nat take app]. rewrite <- app_assoc.
  rewrite (string_at_str _ _ s); [done|]. by apply (str_at_intro [] s _).
Qed.

(** The formats the other components use. *)
Lemma vcprintf_s lb s : vcprintf lb Ordinary (bytes_of_string "%s") [Astr (Some s)] = Ok s.
Proof. transitivity (Ok (s ++ []) : res bytes); [done|]. by rewrite app_nil_r. Qed.

Lemma vcprintf_colon_s lb s :
  vcprintf lb Ordinary (bytes_of_string ":%s") [Astr (Some s)] = Ok (ch ":" :: s).
Proof. transitivity (Ok (ch ":" :: s ++ []) : res bytes); [done|]. by rewrite app_nil_r. Qed.

Lemma vcprintf_slash_s lb s :
  vcprintf lb Ordinary (bytes_of_string "/%s") [Astr (Some s)] = Ok (ch "/" :: s).
Proof. transitivity (Ok (ch "/" :: s ++ []) : res bytes); [done|]. by rewrite app_nil_r. Qed.

Lemma vcprintf_sss lb s1 s2 s3 :
  vcprintf lb Ordinary (bytes_of_string "%s%s%s") [Astr (Some s1); Astr (Some s2); Astr (Some s3)]
  = Ok (s1 ++ s2 ++ s3).
Proof.
  transitivity (Ok (s1 ++ s2 ++ s3 ++ []) : res bytes); [done|]. by rewrite app_nil_r.
Qed.

Lemma vcprintf_c lb v : vcprintf lb Ordinary (bytes_of_string "%c") [Anum 32 v] = Ok [u8 v].
Proof. done. Qed.

(** ** Numbers *)

Lemma land_pow2 flags k :
  0 <= k -> Z.land flags (2 ^ k) = 0 \/ Z.land flags (2 ^ k) = 2 ^ k.
Proof.
  intros Hk. destruct (Z.testbit flags k) eqn:E; [right|left];
    apply Z.bits_inj'; intros n Hn;
    rewrite Z.land_spec, ?Z.bits_0, !Z.pow2_bits_eqb by lia;
    (destruct (Z.eqb_spec k n) as [<-|]; [by rewrite E|by rewrite andb_false_r]).
Qed.

Lemma hex_case_mod flags : Z.land flags LCASE = 0 \/ Z.land flags LCASE = 32.
Proof. apply (land_pow2 flags 5). lia. Qed.

Lemma pad_char flags :
  Z.lor (Z.land flags ZPAD) (ch " ") = 32 \/
  Z.lor (Z.land flags ZPAD) (ch " ") = 48.
Proof. destruct (land_pow2 flags 4) as [E|E]; [lia|..]; change (2 ^ 4) with ZPAD in E; rewrite E; auto. Qed.

(** The characters of the digits and their values. *)
Lemma hex_digit_value n cm :
  0 <= n < 16 -> cm = 0 \/ cm = 32 ->
  digit_value (u32 (schar (hex_digit n cm))) = n /\ isspace (schar (hex_digit n cm)) = false /\
  hex_digit n cm <> ch "-" /\ hex_digit n cm <> ch "+".
Proof.
  intros Hn Hcm.
  assert (n ∈ seqZ 0 16) as Hin by (apply elem_of_seqZ; lia).
  destruct Hcm as [-> | ->]; clear Hn; revert n Hin; apply Forall_forall;
    repeat (constructor; [by vm_compute|]); constructor.
Qed.

Lemma dec_digit_value n :
  0 <= n < 10 ->
  digit_value (u32 (schar (ch "0" + n))) = n /\ isspace (schar (ch "0" + n)) = false /\
  ch "0" + n <> ch "-" /\ ch "0" + n <> ch "+".
Proof.
  intros Hn. assert (n ∈ seqZ 0 10) as Hin by (apply elem_of_seqZ; lia).
  clear Hn. revert n Hin. apply Forall_forall. repeat (constructor; [by vm_compute|]). constructor.
Qed.

Lemma hex_digits_value w fuel num cm acc :
  0 <= w -> cm = 0 \/ cm = 32 -> 0 <= num < 16 ^ Z.of_nat fuel -> (0 < fuel)%nat ->
  strtoul_digits w (hex_digits fuel num cm acc) 16 0 =
  strtoul_digits w acc 16 (wrap w num).
Proof.
  intros Hw Hcm. revert num acc. induction fuel as [|fuel IH]; intros num acc Hnum Hf; [lia|].
  cbn [hex_digits]. change 15 with (2 ^ 4 - 1). rewrite land_mask, Z.shiftr_div_pow2 by lia.
  change (2 ^ 4) with 16.
  assert (0 <= num mod 16 < 16) as Hd by (apply Z.mod_pos_bound; lia).
  destruct (hex_digit_value (num mod 16) cm Hd Hcm) as (Hval & _).
  assert (num = 16 * (num / 16) + num mod 16) as Hsplit by (apply Z.div_mod; lia).
  destruct (Z.eqb_spec (num / 16) 0) as [H0|H0].
  - cbn [strtoul_digits]. rewrite Hval, (proj2 (Z.leb_gt _ _)) by lia.
    do 2 f_equal. lia.
  - destruct fuel as [|fuel]; [cbn in Hnum; Z.div_mod_to_equations; lia|].
    rewrite IH; [|rewrite Nat2Z.inj_succ, Z.pow_succ_r in Hnum by lia;
                  Z.div_mod_to_equations; lia|lia].
    cbn [strtoul_digits]. rewrite Hval, (proj2 (Z.leb_gt _ _)) by lia.
    f_equal. unfold wrap. rewrite Zplus_mod, Zmult_mod_idemp_l, <- Zplus_mod. f_equal. lia.
Qed.

Lemma dec_digits_value w fuel num acc :
  0 <= w -> 0 <= num < 10 ^ Z.of_nat fuel -> (0 < fuel)%nat ->
  strtoul_digits w (dec_digits fuel num acc) 10 0 =
  strtoul_digits w acc 10 (wrap w num).
Proof.
  intros Hw. revert num acc. induction fuel as [|fuel IH]; intros num acc Hnum Hf; [lia|].
  cbn [dec_digits].
  assert (0 <= num mod 10 < 10) as Hd by (apply Z.mod_pos_bound; lia).
  destruct (dec_digit_value (num mod 10) Hd) as (Hval & _).
  assert (num = 10 * (num / 10) + num mod 10) as Hsplit by (apply Z.div_mod; lia).
  destruct (Z.eqb_spec (num / 10) 0) as [H0|H0].
  - cbn [strtoul_digits]. rewrite Hval, (proj2 (Z.leb_gt _ _)) by lia.
    do 2 f_equal. lia.
  - destruct fuel as [|fuel]; [cbn in Hnum; Z.div_mod_to_equations; lia|].
    rewrite IH; [|rewrite Nat2Z.inj_succ, Z.pow_succ_r in Hnum by lia;
                  Z.div_mod_to_equations; lia|lia].
    cbn [strtoul_digits]. rewrite Hval, (proj2 (Z.leb_gt _ _)) by lia.
    f_equal. unfold wrap. rewrite Zplus_mod, Zmult_mod_idemp_l, <- Zplus_mod. f_equal. lia.
Qed.

(** The first digit is not a space or a sign, so [strtoul_pre] passes it. *)
Definition plain_start (s : bytes) : Prop :=
  match s with
  | [] => False
  | c :: _ => isspace (schar c) = false /\ c <> ch "-" /\ c <> ch "+"
  end.

Lemma hex_digits_start fuel num cm acc :
  cm = 0 \/ cm = 32 -> 0 <= num -> (0 < fuel)%nat -> plain_start (hex_digits fuel num cm acc).
Proof.
  intros Hcm. revert num acc. induction fuel as [|fuel IH]; intros num acc Hnum Hf; [lia|].
  cbn [hex_digits]. change 15 with (2 ^ 4 - 1). rewrite land_mask, Z.shiftr_div_pow2 by lia.
  change (2 ^ 4) with 16.
  assert (plain_start (hex_digit (num mod 16) cm :: acc)).
  { destruct (hex_digit_value (num mod 16) cm) as (_ & ?); [apply Z.mod_pos_bound; lia|done..]. }
  case_if; [done|]. destruct fuel; [done|]. apply IH; [apply Z.div_pos; lia|lia].
Qed.

Lemma dec_digits_start fuel num acc :
  0 <= num -> (0 < fuel)%nat -> plain_start (dec_digits fuel num acc).
Proof.
  revert num acc. induction fuel as [|fuel IH]; intros num acc Hnum Hf; [lia|].
  cbn [dec_digits]. assert (plain_start ((ch "0" + num mod 10) :: acc)).
  { destruct (dec_digit_value (num mod 10)) as (_ & ?); [apply Z.mod_pos_bound; lia|done..]. }
  case_if; [done|]. destruct fuel; [done|]. apply IH; [apply Z.div_pos; lia|lia].
Qed.

Lemma strtoul_pre_plain s base : plain_start s -> base <> 0 -> strtoul_pre s base = (s, false, base).
Proof.
  destruct s as [|c s]; [done|]. intros (Hsp & Hm & Hp) Hb. unfold strtoul_pre.
  cbn [skip_spaces]. rewrite Hsp.
  by rewrite !(proj2 (Z.eqb_neq c _)), (proj2 (Z.eqb_neq base 0)) by done.
Qed.

Lemma strtoul_plain w s base :
  plain_start s -> base <> 0 -> strtoul w s base = strtoul_digits w s base 0.
Proof.
  intros Hs Hb. unfold strtoul. rewrite strtoul_pre_plain by done.
  by destruct (strtoul_digits w s base 0).
Qed.

Lemma strtoul_minus w s base :
  base <> 0 -> strtoul w (ch "-" :: s) base =
  let '(v, rest) := strtoul_digits w s base 0 in (wrap w (- v), rest).
Proof. intros Hb. unfold strtoul, strtoul_pre. cbn. by rewrite (proj2 (Z.eqb_neq base 0)). Qed.

Lemma strtoul_spaces w n s base : strtoul w (replicate n 32 ++ s) base = strtoul w s base.
Proof. induction n as [|n IH]; [done|]. exact IH. Qed.

Lemma strtoul_digits_zeros w n s base :
  0 <= w -> 0 < base ->
  strtoul_digits w (replicate n 48 ++ s) base 0 = strtoul_digits w s base 0.
Proof.
  intros Hw Hb. induction n as [|n IH]; [done|]. cbn [replicate app strtoul_digits].
  change (digit_value (u32 (schar 48))) with 0. rewrite (proj2 (Z.leb_gt _ _)) by lia.
  change (wrap w (0 * base + 0)) with (wrap w 0).
  rewrite (wrap_small w 0); [done|]. unfold in_range. pose proof (pow2_pos w Hw). lia.
Qed.

(** Padding with spaces or zeros does not change the value read back. *)
Lemma strtoul_padded w width pad s base :
  plain_start s -> pad = 32 \/ pad = 48 -> 0 <= w -> 0 < base ->
  strtoul w (pad_to width pad s) base = strtoul_digits w s base 0.
Proof.
  intros Hs Hpad Hw Hb. unfold pad_to. destruct Hpad as [-> | ->].
  - rewrite strtoul_spaces. apply strtoul_plain; [done|lia].
  - rewrite <- (strtoul_digits_zeros w (Z.to_nat (width - zlen s))) by done.
    apply strtoul_plain; [|lia]. by destruct (Z.to_nat (width - zlen s)).
Qed.

Lemma hex_digits_length fuel num cm acc :
  (length (hex_digits fuel num cm acc) <= fuel + length acc)%nat.
Proof.
  revert num acc. induction fuel as [|fuel IH]; intros num acc; cbn [hex_digits]; [lia|].
  case_if; [cbn; lia|]. etrans; [apply IH|]. cbn. lia.
Qed.

Lemma dec_digits_length fuel num acc :
  (length (dec_digits fuel num acc) <= fuel + length acc)%nat.
Proof.
  revert num acc. induction fuel as [|fuel IH]; intros num acc; cbn [dec_digits]; [lia|].
  case_if; [cbn; lia|]. etrans; [apply IH|]. cbn. lia.
Qed.

Lemma pad_to_length width pad s : zlen (pad_to width pad s) = Z.max width (zlen s).
Proof. unfold pad_to. rewrite length_app, length_replicate. lia. Qed.

(** The digits of a [long]: at most 20 of them, read back as its magnitude. *)
Lemma decimal_digits lb num :
  0 < lb <= 64 -> - 2 ^ (lb - 1) < num < 2 ^ (lb - 1) ->
  let digits := dec_digits 20 (Z.abs num) [] in
  (length digits <= 20)%nat /\ plain_start digits /\
  strtoul_digits lb digits 10 0 = (wrap lb (Z.abs num), []).
Proof.
  intros Hlb Hnum digits. split; [etrans; [apply dec_digits_length|cbn; lia]|].
  split; [apply dec_digits_start; lia|].
  unfold digits. rewrite dec_digits_value; [done|lia| |lia]. split; [lia|].
  assert (2 ^ (lb - 1) <= 2 ^ 63) by (apply Z.pow_le_mono_r; lia).
  change (10 ^ Z.of_nat 20) with 100000000000000000000.
  change (2 ^ 63) with 9223372036854775808 in *. lia.
Qed.

(** The URI escape sequence. *)
Lemma vcprintf_escape lb v :
  32 <= lb ->
  vcprintf lb Ordinary (bytes_of_string "%%%02X") [Anum 32 v]
  = Ok (ch "%" :: pad_to 2 48 (hex_digits 16 v 0 [])).
Proof.
  intros Hlb.
  assert (va_arg [Anum 32 v] (if 64 <=? 32 then 64 else if lb <=? 32 then lb else 32)
          = Ok (v, [])) as Harg.
  { cbn. destruct (Z.leb_spec lb 32) as [?|?]; [|done]. by replace lb with 32 by lia. }
  assert (format_hex v 2 (Z.lor ZPAD (Z.land (ch "X") 32))
          = Ok (pad_to 2 48 (hex_digits 16 v 0 []))) as Hfmt.
  { unfold format_hex, in_tmp_buf, tmp_buf_len.
    pose proof (hex_digits_length 16 v 0 []) as Hl. cbn [length] in Hl.
    change (has_flag (Z.lor ZPAD (Z.land (ch "X") 32)) ALT_FORM) with false. cbv iota.
    change (Z.land (Z.lor ZPAD (Z.land (ch "X") 32)) LCASE) with 0.
    change (Z.lor (Z.land (Z.lor ZPAD (Z.land (ch "X") 32)) ZPAD) (ch " ")) with 48.
    by rewrite pad_to_length, (proj2 (Z.leb_le _ _)) by lia. }
  change (vcprintf lb Ordinary (bytes_of_string "%%%02X") [Anum 32 v])
    with (rest ← ('(s, args) ← ('(v, args) ← va_arg [Anum 32 v]
                    (if 64 <=? 32 then 64 else if lb <=? 32 then lb else 32);
                  s ← format_hex v 2 (Z.lor ZPAD (Z.land (ch "X") 32)); Ok (s, args));
                  rest ← vcprintf lb Ordinary [] args; Ok (s ++ rest));
          Ok ([ch "%"] ++ rest)).
  rewrite Harg. cbn [mbind res_bind]. rewrite Hfmt. cbn [mbind res_bind vcprintf].
  by rewrite app_nil_r.
Qed.

(** ** Properties of formatted output *)

(** C24. Output never leaves the buffer: if the format and its arguments produce
    the text [s], of a length that a [size_t] can count, then [ssnprintf] into the
    [ssize] bytes at [off] (none if [ssize] is not positive) stores exactly the
    first [ssize - 1] characters and a terminator, and changes nothing else.  It
    returns the length of the whole text converted to an [int]: the length itself
    for a text shorter than 2^31 characters. *)
Theorem ssnprintf_bounded lb mem off ssize fmt args s :
  vcprintf lb Ordinary fmt args = Ok s -> zlen s < 2 ^ lb ->
  0 <= off -> off + Z.max 0 ssize <= zlen mem ->
  ssnprintf lb mem off ssize fmt args =
  Ok (if ssize <=? 0 then mem else splice mem off (take (Z.to_nat (ssize - 1)) s ++ [0]),
      to_signed 32 (zlen s)) /\
  (zlen s < 2 ^ 31 -> to_signed 32 (zlen s) = zlen s).
Proof.
  intros Hs _ Hoff Hroom. split; [|apply int_length]. unfold ssnprintf, vssnprintf.
  rewrite (vsnprintf_text lb mem off _ fmt args s); [|done|done|case_if; lia..].
  do 3 f_equal. destruct (Z.ltb_spec ssize 0); destruct (Z.leb_spec ssize 0); try lia; try done.
  - by replace ssize with 0 by lia.
  - by rewrite (proj2 (Z.eqb_neq ssize 0)) by lia.
Qed.

(** Hexadecimal round trip: [format_hex] of any 64-bit number, in either case
    and with any padding up to the temporary buffer's 31 characters (and no "0x"
    prefix), succeeds, and [strtoul] reads the number back (modulo the width of
    its type), consuming the whole text. *)
Theorem format_hex_roundtrip w num width flags :
  0 <= w -> 0 <= num < 2 ^ 64 -> width <= 31 -> has_flag flags ALT_FORM = false ->
  exists s, format_hex num width flags = Ok s /\ strtoul w s 16 = (wrap w num, []).
Proof.
  intros Hw Hnum Hwidth Halt. unfold format_hex, in_tmp_buf, tmp_buf_len. rewrite Halt.
  rewrite pad_to_length.
  pose proof (hex_digits_length 16 num (Z.land flags LCASE) []) as Hlen. cbn [length] in Hlen.
  rewrite (proj2 (Z.leb_le _ _)) by lia. eexists. split; [done|].
  rewrite strtoul_padded; [|apply hex_digits_start; [apply hex_case_mod|lia|lia]
                          |apply pad_char|done|lia].
  rewrite hex_digits_value; [done|done|apply hex_case_mod| |lia].
  change (16 ^ Z.of_nat 16) with (2 ^ 64). done.
Qed.

(** Decimal round trip: [format_decimal] of any [long] but the most negative
    one, with any padding up to 31 characters, succeeds, and [strtoul] reads the
    number back modulo [2 ^ long_bits], provided a zero-padded negative number has
    at least one column of padding for its sign. *)
Theorem format_decimal_roundtrip lb num width flags :
  0 < lb <= 64 -> - 2 ^ (lb - 1) < num < 2 ^ (lb - 1) -> width <= 31 ->
  (num < 0 -> has_flag flags ZPAD = true -> zlen (dec_digits 20 (- num) []) < width) ->
  exists s, format_decimal lb num width flags = Ok s /\ strtoul lb s 10 = (wrap lb num, []).
Proof.
  intros Hlb Hnum Hwidth Hsign. unfold format_decimal, in_tmp_buf, tmp_buf_len.
  rewrite (proj2 (Z.eqb_neq num _)) by lia.
  destruct (decimal_digits lb num Hlb Hnum) as (Hlen & Hstart & Hval).
  set (digits := dec_digits 20 (Z.abs num) []) in *.
  destruct (Z.ltb_spec num 0) as [Hneg|Hpos]; cbn [andb].
  2:{ rewrite pad_to_length, (proj2 (Z.leb_le _ _)) by lia. eexists. split; [done|].
      rewrite strtoul_padded by (done || lia || apply pad_char).
      by rewrite Hval, Z.abs_eq by lia. }
  assert (strtoul lb (ch "-" :: digits) 10 = (wrap lb num, [])) as Hminus.
  { rewrite strtoul_minus, Hval by lia. f_equal.
    change (- wrap lb (Z.abs num)) with (0 - wrap lb (Z.abs num)).
    rewrite wrap_sub_idemp_r. f_equal. lia. }
  destruct (has_flag flags ZPAD) eqn:Hz; cbn [negb].
  - specialize (Hsign Hneg eq_refl). replace (- num) with (Z.abs num) in Hsign by lia.
    fold digits in Hsign. unfold pad_to.
    assert (Z.lor (Z.land flags ZPAD) (ch " ") = 48) as ->.
    { destruct (land_pow2 flags 4) as [E|E]; [lia| |]; change (2 ^ 4) with ZPAD in E;
        [unfold has_flag in Hz; by rewrite E in Hz|by rewrite E]. }
    destruct (Z.to_nat (width - zlen digits)) as [|n] eqn:En; [lia|].
    cbn [replicate app]. rewrite (proj2 (Z.leb_le _ _)) by (cbn [length]; rewrite length_app, length_replicate; lia).
    eexists. split; [done|]. rewrite strtoul_minus, strtoul_digits_zeros by lia.
    rewrite strtoul_minus in Hminus by lia. exact Hminus.
  - rewrite pad_to_length, (proj2 (Z.leb_le _ _)) by (cbn [length]; lia). eexists. split; [done|].
    assert (Z.lor (Z.land flags ZPAD) (ch " ") = 32) as ->.
    { unfold has_flag in Hz. apply negb_false_iff, Z.eqb_eq in Hz. by rewrite Hz. }
    unfold pad_to. by rewrite strtoul_spaces.
Qed.

(** Without that column the sign overwrites the first digit. *)
Example zero_padded_negative_loses_digit :
  format_decimal 64 (-55) 2 ZPAD = Ok (bytes_of_string "-5").
Proof. reflexivity. Qed.

Section Examples.
Lemma ssnprintf_bounded_witness :
  ssnprintf 64 [1; 1; 1; 1; 1] 1 3 (bytes_of_string "%02x-%d") [Anum 32 10; Anum 32 7]
  = Ok (splice [1; 1; 1; 1; 1] 1 (take 2 (bytes_of_string "0a-7") ++ [0]), 4).
Proof.
  pose proof (ssnprintf_bounded 64 [1; 1; 1; 1; 1] 1 3 (bytes_of_string "%02x-%d")
    [Anum 32 10; Anum 32 7] (bytes_of_string "0a-7") eq_refl eq_refl) as [H _];
    [lia|cbn; lia|exact H].
Defined.

Lemma format_hex_roundtrip_witness :
  exists s, format_hex 48879 8 ZPAD = Ok s /\ strtoul 32 s 16 = (wrap 32 48879, []).
Proof. apply (format_hex_roundtrip 32 48879 8 ZPAD); [lia|lia|lia|reflexivity]. Defined.

Lemma format_decimal_roundtrip_witness :
  exists s, format_decimal 32 (-55) 5 ZPAD = Ok s /\ strtoul 32 s 10 = (wrap 32 (-55), []).
Proof.
  apply (format_decimal_roundtrip 32 (-55) 5 ZPAD); [lia|lia|lia|]. intros _ _. reflexivity.
Defined.
End Examples.
