(* ===== verification/Uri.v ===== *)
(** * Uniform Resource Identifiers

    Model of [core/uri.c] and of the form parameter lists of [core/params.c].

    [parse_uri] is modelled as the code is written: the string is copied into one
    memory object, cut in place by terminators written into it (with the authority
    shuffled down over a slash), and each field, an offset into that object, is
    then decoded in place.  [parse_spec] is the reference: it splits string values.
    Formatting writes into a bounded buffer through the model of [ssnprintf];
    [format_spec] is the reference text.

    A URI's nine string fields are a list indexed as the [enum uri_fields]. *)

From Stdlib Require Import ZArith Lia Bool ZifyBool.
From stdpp Require Import base numbers list strings.
From S2P Require Import Prelude Strings Vsprintf.
Local Open Scope Z_scope.

Abbreviation URI_SCHEME := 0%nat.
Abbreviation URI_OPAQUE := 1%nat.
Abbreviation URI_USER := 2%nat.
Abbreviation URI_PASSWORD := 3%nat.
Abbreviation URI_HOST := 4%nat.
Abbreviation URI_PORT := 5%nat.
Abbreviation URI_PATH := 6%nat.
Abbreviation URI_QUERY := 7%nat.
Abbreviation URI_FRAGMENT := 8%nat.
Abbreviation URI_FIELDS := 9%nat.

Abbreviation fields A := (list (option A)).
Definition uri_field {A} (u : fields A) (field : nat) : option A := mjoin (u !! field).
Definition set_field {A} (field : nat) (x : A) (u : fields A) : fields A :=
  <[field := Some x]> u.
Definition no_fields {A} : fields A := replicate URI_FIELDS None.

(** ** Form parameter lists *)

Record parameters := { params_name : option bytes; params_entries : list (bytes * bytes) }.

(** Two null names are the same pointer; comparing a name with a null pointer
    reads through it. *)
Definition same_name (a b : option bytes) : res bool :=
  match a, b with
  | None, None => Ok true
  | Some a, Some b => Ok (strcmp a b =? 0)
  | _, _ => Trap
  end.

(** The position of the list found. *)
Fixpoint find_parameters (ps : list parameters) (name : option bytes) : res (option nat) :=
  match ps with
  | [] => Ok None
  | p :: ps =>
    same ← same_name (params_name p) name;
    if (same : bool) then Ok (Some O) else option_map S <$> find_parameters ps name
  end.

Definition claim_parameters (ps : list parameters) (i : nat) : list parameters := delete i ps.

Definition create_parameters (alloc_ok : bool) (ps : list parameters) (name : option bytes)
  : res (list parameters * option nat) :=
  found ← find_parameters ps name;
  let ps := match found with Some i => claim_parameters ps i | None => ps end in
  if alloc_ok then
    Ok (ps ++ [{| params_name := name; params_entries := [] |}], Some (length ps))
  else Ok (ps, None).

Definition add_parameter (alloc_ok : bool) (p : parameters) (key value : bytes)
  : option parameters :=
  if alloc_ok then
    Some {| params_name := params_name p; params_entries := params_entries p ++ [(key, value)] |}
  else None.

Record uri := { u_fields : fields bytes; u_params : option parameters }.

Section Uri.
Context (long_bits : Z).

(** A reference count (two words) and ten pointers. *)
Definition sizeof_uri : Z := 12 * (long_bits / 8).

(** ** Decoding *)

(** The two characters after a percent sign, as [snprintf] copies them. *)
Definition hexbuf_of (encoded : bytes) : res bytes :=
  '(hexbuf, _) ← snprintf long_bits (replicate 3 0) 0 3 (bytes_of_string "%s")
                   [Astr (Some encoded)];
  string_at hexbuf 0.

(** The loop of [uri_decode], reading at [src] and writing at [dst + count] in the
    same memory; every iteration consumes at least one byte. *)
Fixpoint uri_decode_loop (fuel : nat) (mem : bytes) (src dst count len : Z) : res (bytes * Z) :=
  match fuel with
  | O => Trap
  | S fuel =>
    c ← rd mem src;
    let src := src + 1 in
    if c =? 0 then Ok (mem, count) else
    '(c, src) ←
      (if c =? ch "%" then
         encoded ← string_at mem src;
         hexbuf ← hexbuf_of encoded;
         let '(decoded, rest) := strtoul long_bits hexbuf 16 in
         let skip := zlen hexbuf - zlen rest in
         Ok (if skip =? 0 then c else u8 decoded, src + skip)
       else Ok (c, src));
    mem ← (if count <? len then wr mem (dst + count) c else Ok mem);
    uri_decode_loop fuel mem src dst (count + 1) len
  end.

Definition uri_decode (mem : bytes) (src dst len : Z) : res (bytes * Z) :=
  uri_decode_loop (S (length mem)) mem src dst 0 len.

Definition uri_decode_inplace (mem : bytes) (field : option Z) : res bytes :=
  match field with
  | None => Ok mem
  | Some encoded =>
    max ← strlen mem encoded;
    '(mem, len) ← uri_decode mem encoded encoded max;
    wr mem (encoded + len) 0
  end.

(** ** Encoding *)

Definition escaped_chars (field : nat) : bytes :=
  bytes_of_string
    (match field with
     | URI_SCHEME => "/#:@?=&"
     | URI_OPAQUE => "#"
     | URI_USER | URI_PASSWORD => "/#:@?"
     | URI_HOST => "/#@?"
     | URI_PORT => "/#:@?"
     | URI_PATH | URI_QUERY => "#:@?"
     | _ => "/#:@?"
     end)%string.

(** [c] is a signed [char].  [strchr] also finds the terminator of the set. *)
Definition uri_character_escaped (c : Z) (field : nat) : bool :=
  negb (isprint c) || (c =? ch " ") || (c =? ch "%") ||
  existsb (Z.eqb c) (escaped_chars field ++ [0]).

Fixpoint uri_encode_loop (mem : bytes) (field : nat) (raw : bytes) (buf remaining : Z)
  : res (bytes * Z) :=
  match raw with
  | [] => Ok (mem, remaining)
  | c :: raw =>
    let c := schar c in
    '(mem, used) ←
      (if uri_character_escaped c field
       then ssnprintf long_bits mem buf remaining (bytes_of_string "%%%02X") [Anum 32 (u32 c)]
       else ssnprintf long_bits mem buf remaining (bytes_of_string "%c") [Anum 32 (u32 c)]);
    uri_encode_loop mem field raw (buf + used) (remaining - used)
  end.

Definition uri_encode (mem : bytes) (field : nat) (raw : bytes) (buf len : Z)
  : res (bytes * Z) :=
  mem ← (if 0 <? len then wr mem buf 0 else Ok mem);
  '(mem, remaining) ← uri_encode_loop mem field raw buf len;
  Ok (mem, len - remaining).

(** ** Parsing *)

(** [if ( ( tmp = strchr ( p, c ) ) ) { *(tmp++) = '\0'; ... }]: the memory and
    the start of the second part, if any. *)
Definition cut (mem : bytes) (p c : Z) : res (bytes * option Z) :=
  found ← strchr mem p c;
  match found with
  | Some tmp => mem ← wr mem tmp 0; Ok (mem, Some (tmp + 1))
  | None => Ok (mem, None)
  end.

Definition parse_params (mem : bytes) (ps : list parameters)
  : res (bytes * option parameters * list parameters) :=
  found ← strstr mem 0 (bytes_of_string "##params");
  match found with
  | None => Ok (mem, None, ps)
  | Some tmp =>
    mem ← wr mem tmp 0;
    let tmp := tmp + 8 in
    c ← rd mem tmp;
    name ← (if c =? 0 then Ok None else Some <$> string_at mem (tmp + 1));
    found ← find_parameters ps name;
    match found with
    | Some i => Ok (mem, ps !! i, claim_parameters ps i)
    | None => Ok (mem, None, ps)
    end
  end.

(** The scheme, and the opaque part or the start of the path. *)
Definition parse_scheme (mem : bytes) (u : fields Z) : res (bytes * fields Z * option Z) :=
  '(mem, rest) ← cut mem 0 (ch ":");
  match rest with
  | Some tmp =>
    let u := set_field URI_SCHEME 0 u in
    c ← rd mem tmp;
    if c =? ch "/" then Ok (mem, u, Some tmp)
    else Ok (mem, set_field URI_OPAQUE tmp u, None)
  | None => Ok (mem, u, Some 0)
  end.

(** The path, and the authority if the path is a net path. *)
Definition parse_path (mem : bytes) (u : fields Z) (path : Z)
  : res (bytes * fields Z * option Z) :=
  s ← string_at mem path;
  if match uri_field u URI_SCHEME with Some _ => true | None => false end
     && (strncmp s (bytes_of_string "//") 2 =? 0) then
    let authority := path + 2 in
    found ← strchr mem authority (ch "/");
    match found with
    | Some tmp =>
      let u := set_field URI_PATH tmp u in
      moved ← rd_range mem authority (tmp - authority);
      mem ← wr_range mem (authority - 1) moved;
      mem ← wr mem (tmp - 1) 0;
      Ok (mem, u, Some (authority - 1))
    | None => Ok (mem, u, Some authority)
    end
  else Ok (mem, set_field URI_PATH path u, None).

Definition parse_userinfo (mem : bytes) (u : fields Z) (authority : Z)
  : res (bytes * fields Z * Z) :=
  '(mem, rest) ← cut mem authority (ch "@");
  match rest with
  | Some host =>
    let u := set_field URI_USER authority (set_field URI_HOST host u) in
    '(mem, password) ← cut mem authority (ch ":");
    Ok (mem, match password with Some p => set_field URI_PASSWORD p u | None => u end, host)
  | None => Ok (mem, set_field URI_HOST authority u, authority)
  end.

Definition parse_port (mem : bytes) (u : fields Z) (host : Z) : res (bytes * fields Z) :=
  found ← strrchr mem host (ch ":");
  match found with
  | None => Ok (mem, u)
  | Some tmp =>
    len ← strlen mem host;
    last ← rd mem (host + len - 1);
    if last =? ch "]" then Ok (mem, u)
    else mem ← wr mem tmp 0; Ok (mem, set_field URI_PORT (tmp + 1) u)
  end.

(** The hierarchical part, from the start of the path. *)
Definition parse_hier (mem : bytes) (u : fields Z) (path : Z) : res (bytes * fields Z) :=
  '(mem, query) ← cut mem path (ch "?");
  let u := match query with Some q => set_field URI_QUERY q u | None => u end in
  c ← rd mem path;
  if c =? 0 then Ok (mem, u) else
  '(mem, u, authority) ← parse_path mem u path;
  match authority with
  | None => Ok (mem, u)
  | Some authority =>
    '(mem, u, host) ← parse_userinfo mem u authority;
    parse_port mem u host
  end.

Fixpoint decode_fields (mem : bytes) (us : list (option Z)) : res bytes :=
  match us with
  | [] => Ok mem
  | f :: us => mem ← uri_decode_inplace mem f; decode_fields mem us
  end.

Fixpoint read_fields (mem : bytes) (us : list (option Z)) : res (list (option bytes)) :=
  match us with
  | [] => Ok []
  | f :: us =>
    s ← match f with Some off => Some <$> string_at mem off | None => Ok None end;
    cons s <$> read_fields mem us
  end.

(** [alloc] tells whether an allocation of a given size succeeds. *)
Definition parse_uri (alloc : Z -> bool) (ps : list parameters) (uri_string : bytes)
  : res (option uri * list parameters) :=
  let raw_len := zlen uri_string + 1 in
  if negb (alloc (sizeof_uri + raw_len)) then Ok (None, ps) else
  let mem := uri_string ++ [0] in
  '(mem, params, ps) ← parse_params mem ps;
  '(mem, fragment) ← cut mem 0 (ch "#");
  let u := match fragment with Some f => set_field URI_FRAGMENT f no_fields
                             | None => no_fields end in
  '(mem, u, path) ← parse_scheme mem u;
  '(mem, u) ← match path with Some path => parse_hier mem u path | None => Ok (mem, u) end;
  mem ← decode_fields mem u;
  strings ← read_fields mem u;
  Ok (Some {| u_fields := strings; u_params := params |}, ps).

Definition uri_port (u : option uri) (default_port : Z) : Z :=
  match u with
  | None => default_port
  | Some u => match uri_field (u_fields u) URI_PORT with
              | None => default_port
              | Some port => u32 (strtoul long_bits port 0).1
              end
  end.

(** ** Formatting *)

Definition prefixes (field : nat) : option Z :=
  match field with
  | URI_PASSWORD | URI_PORT => Some (ch ":")
  | URI_QUERY => Some (ch "?")
  | URI_FRAGMENT => Some (ch "#")
  | _ => None
  end.

Definition is_present {A} (x : option A) : bool := match x with Some _ => true | None => false end.

Definition field_prefix (u : fields bytes) (field : nat) : option Z :=
  if (field =? URI_HOST)%nat && is_present (uri_field u URI_USER) then Some (ch "@")
  else prefixes field.

(** One iteration of the loop of [format_uri]; [len - used] is computed as a
    [size_t] and passed as an [ssize_t]. *)
Definition format_field (mem : bytes) (len used : Z) (u : fields bytes) (field : nat)
  : res (bytes * Z) :=
  match uri_field u field with
  | None => Ok (mem, used)
  | Some s =>
    '(mem, used) ←
      match field_prefix u field with
      | Some prefix =>
        '(mem, n) ← ssnprintf long_bits mem used (len - used) (bytes_of_string "%c")
                      [Anum 32 prefix];
        Ok (mem, used + n)
      | None => Ok (mem, used)
      end;
    '(mem, n) ← uri_encode mem field s used (len - used);
    let used := used + n in
    if (field =? URI_SCHEME)%nat then
      '(mem, n) ← ssnprintf long_bits mem used (len - used) (bytes_of_string ":%s")
                    [Astr (Some (if is_present (uri_field u URI_HOST)
                                 then bytes_of_string "//" else []))];
      Ok (mem, used + n)
    else Ok (mem, used)
  end.

Fixpoint format_fields (mem : bytes) (len used : Z) (u : fields bytes) (todo : list nat)
  : res (bytes * Z) :=
  match todo with
  | [] => Ok (mem, used)
  | field :: todo =>
    '(mem, used) ← format_field mem len used u field;
    format_fields mem len used u todo
  end.

(** The buffer is the first [len] bytes of [mem]. *)
Definition format_uri (u : option uri) (mem : bytes) (len : Z) : res (bytes * Z) :=
  mem ← (if len =? 0 then Ok mem else wr mem 0 0);
  match u with
  | None => Ok (mem, 0)
  | Some u => format_fields mem len 0 (u_fields u) (seq 0 URI_FIELDS)
  end.

Definition format_uri_alloc (alloc : Z -> bool) (u : option uri) : res (option bytes) :=
  '(_, n) ← format_uri u [] 0;
  let len := n + 1 in
  if alloc len then
    '(mem, _) ← format_uri u (replicate (Z.to_nat len) 0) len;
    Some <$> string_at mem 0
  else Ok None.

(** ** Copying *)

(** [uri_copy_fields] into the string area that follows the structure: the area's
    contents so far, and the fields as offsets into it. *)
Fixpoint uri_copy_fields (src : fields bytes) (out : bytes) : bytes * fields Z :=
  match src with
  | [] => (out, [])
  | None :: src => let '(out, dest) := uri_copy_fields src out in (out, None :: dest)
  | Some s :: src =>
    let '(out', dest) := uri_copy_fields src (out ++ s ++ [0]) in (out', Some (zlen out) :: dest)
  end.

Definition uri_dup (alloc : Z -> bool) (u : uri) : res (option uri) :=
  let '(area, dest) := uri_copy_fields (u_fields u) [] in
  if alloc (sizeof_uri + zlen area) then
    strings ← read_fields area dest;
    Ok (Some {| u_fields := strings; u_params := u_params u |})
  else Ok None.

(** ** Resolution *)

(** The loop over the leading dot elements of the relative path; each iteration
    that continues consumes at least one character. *)
Fixpoint resolve_dots (fuel : nat) (base relative : bytes) : res (bytes * bytes) :=
  match fuel with
  | O => Trap
  | S fuel =>
    match relative with
    | dot :: rel1 =>
      if dot =? ch "." then
        match rel1 with
        | [] => resolve_dots fuel base []
        | c :: rel2 =>
          if c =? ch "/" then resolve_dots fuel base rel2
          else if c =? ch "." then
            match rel2 with
            | [] => resolve_dots fuel (dirname base) []
            | d :: rel3 =>
              if d =? ch "/" then resolve_dots fuel (dirname base) rel3
              else Ok (base, relative)
            end
          else Ok (base, relative)
        end
      else Ok (base, relative)
    | [] => Ok (base, relative)
    end
  end.

Definition resolve_path (alloc : Z -> bool) (base_path relative_path : bytes)
  : res (option bytes) :=
  if match relative_path with c :: _ => c =? ch "/" | [] => false end then
    Ok (if alloc (zlen relative_path + 1) then Some relative_path else None)
  else if negb (alloc (zlen base_path + 1)) then Ok None else
  '(base_tmp, relative_path) ← resolve_dots (S (length relative_path)) (dirname base_path)
                                 relative_path;
  last ← rd base_tmp (zlen base_tmp - 1);
  vasprintf long_bits alloc (bytes_of_string "%s%s%s")
    [Astr (Some base_tmp); Astr (Some (if last =? ch "/" then [] else bytes_of_string "/"));
     Astr (Some relative_path)].

Definition uri_is_absolute (u : uri) : bool := is_present (uri_field (u_fields u) URI_SCHEME).

Definition put_field {A} (field : nat) (x : option A) (u : fields A) : fields A :=
  <[field := x]> u.

(** A path that could not be allocated is left out, as the code does. *)
Definition resolve_uri (alloc : Z -> bool) (base_uri : option uri) (relative_uri : uri)
  : res (option uri) :=
  match base_uri with
  | None => Ok (Some relative_uri)
  | Some base_uri =>
    if uri_is_absolute relative_uri then Ok (Some relative_uri) else
    let base := u_fields base_uri in
    let rel := u_fields relative_uri in
    tmp ←
      match uri_field rel URI_PATH with
      | Some path =>
        tmp_path ← resolve_path alloc (default (bytes_of_string "/") (uri_field base URI_PATH)) path;
        Ok {| u_fields := put_field URI_PATH tmp_path
                (put_field URI_QUERY (uri_field rel URI_QUERY)
                  (put_field URI_FRAGMENT (uri_field rel URI_FRAGMENT) base));
              u_params := u_params relative_uri |}
      | None =>
        if is_present (uri_field rel URI_QUERY) then
          Ok {| u_fields := put_field URI_QUERY (uri_field rel URI_QUERY)
                  (put_field URI_FRAGMENT (uri_field rel URI_FRAGMENT) base);
                u_params := u_params relative_uri |}
        else if is_present (uri_field rel URI_FRAGMENT) then
          Ok {| u_fields := put_field URI_FRAGMENT (uri_field rel URI_FRAGMENT) base;
                u_params := u_params relative_uri |}
        else if is_present (u_params relative_uri) then
          Ok {| u_fields := base; u_params := u_params relative_uri |}
        else Ok base_uri
      end;
    uri_dup alloc tmp
  end.

(** ** PXE filenames *)

(** [sock_ntoa] (the text of a socket address) is a parameter: it is dispatched
    through the table of address families. *)
Definition tftp_uri (alloc : Z -> bool) (host : option bytes) (st_port : Z) (filename : bytes)
  : res (option uri) :=
  match host with
  | None => Ok None
  | Some host =>
    port ← (if st_port =? 0 then Ok None
            else '(buf, _) ← snprintf long_bits (replicate 6 0) 0 6 (bytes_of_string "%d")
                               [Anum 32 st_port];
                 Some <$> string_at buf 0);
    path ← vasprintf long_bits alloc (bytes_of_string "/%s") [Astr (Some filename)];
    match path with
    | None => Ok None
    | Some path =>
      uri_dup alloc
        {| u_fields := put_field URI_SCHEME (Some (bytes_of_string "tftp"))
             (put_field URI_HOST (Some host)
               (put_field URI_PORT port (put_field URI_PATH (Some path) no_fields)));
           u_params := None |}
    end
  end.

Definition pxe_uri (alloc : Z -> bool) (ps : list parameters) (host : option bytes)
    (st_port : Z) (filename : option bytes) : res (option uri * list parameters) :=
  match filename with
  | None | Some [] => Ok (None, ps)
  | Some filename =>
    '(u, ps) ← parse_uri alloc ps filename;
    match u with
    | Some u' =>
      if uri_is_absolute u' && negb (is_present (uri_field (u_fields u') URI_OPAQUE))
      then Ok (u, ps)
      else u ← tftp_uri alloc host st_port filename; Ok (u, ps)
    | None => u ← tftp_uri alloc host st_port filename; Ok (u, ps)
    end
  end.
End Uri.

(** ** Decoding in place *)

(** The characters an escape sequence stands for, and how many it uses after the
    percent sign. *)
Definition unescape1 (lb : Z) (s : bytes) : Z * nat :=
  let hexbuf := take 2 s in
  let '(decoded, rest) := strtoul lb hexbuf 16 in
  let skip := (length hexbuf - length rest)%nat in
  (if (skip =? 0)%nat then ch "%" else u8 decoded, skip).

(** Reference decoding of a string value. *)
Fixpoint unescape_fuel (lb : Z) (n : nat) (s : bytes) : bytes :=
  match n, s with
  | O, _ | _, [] => []
  | S n, c :: s =>
    if c =? ch "%" then
      let '(c, skip) := unescape1 lb s in c :: unescape_fuel lb n (drop skip s)
    else c :: unescape_fuel lb n s
  end.

Definition unescape (lb : Z) (s : bytes) : bytes := unescape_fuel lb (length s) s.

Section Decode.
Context (lb : Z).

Lemma strtoul_digits_rest w s base v : (length (strtoul_digits w s base v).2 <= length s)%nat.
Proof.
  revert v. induction s as [|c s IH]; intros v; cbn [strtoul_digits]; [done|].
  case_if; [done|]. etrans; [apply IH|]. cbn. lia.
Qed.

Lemma skip_spaces_length s : (length (skip_spaces s) <= length s)%nat.
Proof. induction s as [|c s IH]; cbn [skip_spaces]; [done|]. case_if; cbn; lia. Qed.

Lemma strtoul_rest w s base : base <> 0 -> (length (strtoul w s base).2 <= length s)%nat.
Proof.
  intros Hb. unfold strtoul, strtoul_pre. rewrite (proj2 (Z.eqb_neq _ _)) by done.
  pose proof (skip_spaces_length s) as Hs.
  destruct (skip_spaces s) as [|c s'] eqn:E; [cbn; lia|]. cbn [length] in Hs.
  destruct (c =? ch "-"); [|destruct (c =? ch "+")];
    match goal with |- context [strtoul_digits w ?s base 0] =>
      pose proof (strtoul_digits_rest w s base 0); destruct (strtoul_digits w s base 0) end;
    cbn in *; lia.
Qed.

Lemma unescape1_skip s : ((unescape1 lb s).2 <= length s)%nat.
Proof.
  unfold unescape1. pose proof (length_take s 2).
  destruct (strtoul lb (take 2 s) 16) as [v rest]. cbn. lia.
Qed.

Lemma unescape_fuel_enough n s : (length s <= n)%nat -> unescape_fuel lb n s = unescape lb s.
Proof.
  unfold unescape. revert s.
  enough (forall n m s, (length s <= n)%nat -> (length s <= m)%nat ->
            unescape_fuel lb n s = unescape_fuel lb m s) by eauto.
  clear n. induction n as [|n IH]; intros [|m] [|c s] Hn Hm; try (cbn in *; lia || done).
  cbn [unescape_fuel length] in *. case_if; [|f_equal; apply IH; lia].
  destruct (unescape1 lb s) as [c' skip]. f_equal. apply IH; rewrite length_drop; lia.
Qed.

Lemma unescape_cons c s :
  unescape lb (c :: s) =
  if c =? ch "%" then (unescape1 lb s).1 :: unescape lb (drop (unescape1 lb s).2 s)
  else c :: unescape lb s.
Proof.
  unfold unescape at 1. cbn [length unescape_fuel].
  case_if; [|by rewrite unescape_fuel_enough]. destruct (unescape1 lb s) as [c' skip].
  cbn. by rewrite unescape_fuel_enough by (rewrite length_drop; lia).
Qed.

(** Decoding never lengthens a string. *)
Lemma unescape_length s : (length (unescape lb s) <= length s)%nat.
Proof.
  remember (length s) as n eqn:Hn. revert s Hn. induction n as [n IH] using lt_wf_ind.
  intros s ->. destruct s as [|c s]; [done|]. rewrite unescape_cons. case_if; cbn [length].
  - specialize (IH (length (drop (unescape1 lb s).2 s))).
    rewrite length_drop in IH. specialize (IH ltac:(cbn; lia) (drop (unescape1 lb s).2 s)).
    rewrite length_drop in IH. specialize (IH eq_refl). lia.
  - specialize (IH (length s) ltac:(cbn; lia) s eq_refl). lia.
Qed.

Lemma hexbuf_take2 s : Forall (fun c => c <> 0) s -> hexbuf_of lb s = Ok (take 2 s).
Proof.
  intros Hs. unfold hexbuf_of, snprintf.
  rewrite (vsnprintf_text lb _ 0 3 _ _ s); [|apply vcprintf_s|lia|lia|cbn; lia].
  cbn [mbind res_bind Z.eqb]. apply string_at_str.
  split; [lia|]. split; [by apply Forall_take|].
  exists (drop (length (take 2 s) + 1) (replicate 3 0)). unfold splice.
  cbn [Z.to_nat take drop]. rewrite length_app. cbn [length]. change (Z.to_nat (3 - 1)) with 2%nat.
  by rewrite <- app_assoc.
Qed.

(** The character decoded at a position and the number of characters it takes
    after the first one. *)
Definition decode1 (c : Z) (s : bytes) : Z * nat :=
  if c =? ch "%" then unescape1 lb s else (c, O).

Lemma unescape_decode1 c s :
  unescape lb (c :: s) = (decode1 c s).1 :: unescape lb (drop (decode1 c s).2 s).
Proof. rewrite unescape_cons. unfold decode1. by destruct (c =? ch "%"). Qed.

Lemma decode1_skip c s : ((decode1 c s).2 <= length s)%nat.
Proof. unfold decode1. case_if; [apply unescape1_skip|cbn; lia]. Qed.

Lemma decode_char mem src c s :
  str_at mem src s ->
  (if c =? ch "%" then
     encoded ← string_at mem src;
     hexbuf ← hexbuf_of lb encoded;
     let '(decoded, rest) := strtoul lb hexbuf 16 in
     let skip := zlen hexbuf - zlen rest in
     Ok (if skip =? 0 then c else u8 decoded, src + skip)
   else Ok (c, src)) = Ok ((decode1 c s).1, src + Z.of_nat (decode1 c s).2).
Proof.
  intros Hstr. pose proof Hstr as (_ & Hs & _). unfold decode1.
  destruct (Z.eqb_spec c (ch "%")) as [->|]; [|do 2 f_equal; cbn; lia].
  rewrite (string_at_str _ _ _ Hstr). cbn [mbind res_bind].
  rewrite hexbuf_take2 by done. cbn [mbind res_bind].
  unfold unescape1. pose proof (strtoul_rest lb (take 2 s) 16 ltac:(lia)) as Hr.
  destruct (strtoul lb (take 2 s) 16) as [v rest]. cbn [snd fst] in *. do 2 f_equal; [|lia].
  destruct (Nat.eqb_spec (length (take 2 s) - length rest) 0);
    destruct (Z.eqb_spec (zlen (take 2 s) - zlen rest) 0); done || lia.
Qed.

(** The loop of [uri_decode], in place: [out] has been written, [gap] is between
    the write and read positions, [s] is still to be read. *)
Lemma uri_decode_loop_ok fuel A out gap s R len :
  Forall (fun c => c <> 0) s -> (length s < fuel)%nat -> zlen out + zlen s <= len ->
  exists gap', uri_decode_loop lb fuel (A ++ out ++ gap ++ s ++ 0 :: R)
    (zlen (A ++ out ++ gap)) (zlen A) (zlen out) len =
  Ok (A ++ out ++ unescape lb s ++ gap' ++ 0 :: R, zlen out + zlen (unescape lb s)) /\
  (length gap' + length (unescape lb s) = length gap + length s)%nat.
Proof.
  revert out gap s. induction fuel as [|fuel IH]; intros out gap s Hs Hf Hlen; [lia|].
  cbn [uri_decode_loop].
  replace (A ++ out ++ gap ++ s ++ 0 :: R) with ((A ++ out ++ gap) ++ s ++ 0 :: R)
    by (by rewrite <- !app_assoc).
  rewrite rd_app_r by (done || by destruct s). destruct s as [|c s].
  { cbn [app hd mbind res_bind Z.eqb]. exists gap. cbn. rewrite <- !app_assoc. split; [|lia].
    do 2 f_equal. lia. }
  inv Hs as [|? ? Hc Hs']. cbn [app hd mbind res_bind]. rewrite (proj2 (Z.eqb_neq c 0)) by done.
  rewrite (decode_char _ _ c s).
  2:{ rewrite cons_middle, app_assoc. apply str_at_intro; [done|]. app_side. }
  pose proof (decode1_skip c s) as Hskip. rewrite unescape_decode1.
  destruct (decode1 c s) as [c' skip]. cbn [mbind res_bind fst snd] in *.
  rewrite (proj2 (Z.ltb_lt (zlen out) len)) by (cbn in Hlen; lia).
  (* the region from the write position to the next read position *)
  destruct (gap ++ c :: take skip s) as [|x region] eqn:Ereg; [by destruct gap|].
  assert (length region = length gap + skip)%nat as Hreg.
  { apply (f_equal length) in Ereg. rewrite length_app in Ereg. cbn [length] in Ereg.
    rewrite length_take in Ereg. lia. }
  assert ((A ++ out ++ gap) ++ c :: s ++ 0 :: R =
          (A ++ out) ++ (x :: region) ++ drop skip s ++ 0 :: R) as ->.
  { rewrite <- Ereg. rewrite <- (take_drop skip s) at 1. by app_norm. }
  rewrite <- app_comm_cons, wr_app_r by app_side. cbn [mbind res_bind].
  destruct (IH (out ++ [c']) region (drop skip s)) as (gap' & E & Hg).
  { by apply Forall_drop. }
  { rewrite length_drop. cbn in Hf. lia. }
  { rewrite length_app, length_drop. cbn in Hlen |- *. lia. }
  exists gap'. rewrite length_drop in Hg. split; [|cbn [length]; lia].
  rewrite !length_app in *. cbn [length] in *.
  rewrite <- !app_assoc in E. cbn [app] in E. rewrite <- app_assoc.
  replace (zlen out + 1) with (Z.of_nat (length out + 1)) by lia.
  replace (Z.of_nat (length A + (length out + length gap)) + 1 + Z.of_nat skip)
    with (Z.of_nat (length A + (length out + 1 + length region))) by lia.
  rewrite E. cbn [app]. do 2 f_equal. lia.
Qed.

(** Decoding a field in place replaces its string and touches nothing outside. *)
Lemma decode_inplace_ok mem off s :
  str_at mem off s ->
  exists mem', uri_decode_inplace lb mem (Some off) = Ok mem' /\
  agree mem mem' off (off + zlen s + 1) /\ str_at mem' off (upto_nul (unescape lb s)).
Proof.
  intros Hstr. pose proof Hstr as (_ & Hs & _). cbn [uri_decode_inplace].
  rewrite (strlen_str _ _ _ Hstr). cbn [mbind res_bind].
  destruct (str_at_elim _ _ _ Hstr) as (A & R & -> & ->). unfold uri_decode.
  destruct (uri_decode_loop_ok (S (length (A ++ s ++ 0 :: R))) A [] [] s R (zlen s) Hs)
    as (gap & E & Hlen); [rewrite !length_app; cbn; lia|cbn; lia|].
  cbn [app length] in E. rewrite app_nil_r in E. change (Z.of_nat 0) with 0 in E. rewrite E.
  cbn [mbind res_bind Z.add length] in *. set (d := unescape lb s) in *.
  destruct (gap ++ 0 :: R) as [|x rest] eqn:Egap; [by destruct gap|].
  rewrite app_assoc, wr_app_r by app_side. eexists. split; [done|]. rewrite <- app_assoc. split.
  - assert (length (x :: rest) = length gap + 1 + length R)%nat as Hx.
    { rewrite <- Egap, length_app. cbn. lia. }
    cbn [length] in Hx. split; [lia|]. split; [rewrite !length_app; cbn; lia|].
    rewrite Nat2Z.id, !take_app_length. split; [done|].
    replace (Z.to_nat (zlen A + zlen s + 1)) with (length A + (length s + 1))%nat by lia.
    assert (drop (length gap) rest = R) as Hrest.
    { apply (f_equal (drop (length gap + 1))) in Egap.
      rewrite drop_app_add, Nat.add_1_r in Egap. by cbn in Egap. }
    rewrite !drop_app_add.
    replace (length s + 1)%nat with (length d + S (length gap))%nat by lia.
    rewrite drop_app_add. cbn [drop]. by rewrite Hrest.
  - assert (forall d, exists R', d ++ 0 :: rest = upto_nul d ++ 0 :: R') as Hupto.
    { clear. induction d as [|c d [R' IH]]; [by exists rest|]. cbn.
      destruct (Z.eqb_spec c 0) as [->|]; [by eexists|]. rewrite IH. by eexists. }
    destruct (Hupto d) as [R' ->]. apply str_at_intro; [|done]. clear.
    induction d as [|c d IH]; cbn; [done|]. case_if; [done|]. constructor; [lia|done].
Qed.
End Decode.

(** ** The memory layout of a parsed URI

    The fields are stored in the order of their indices, without overlap. *)

Abbreviation seg := (option (Z * bytes)).
Definition seg_off (x : seg) : option Z := fst <$> x.
Definition seg_str (x : seg) : option bytes := snd <$> x.

(** The fields [segs] are stored in order inside [[lo, hi)]. *)
Fixpoint layout (mem : bytes) (lo : Z) (segs : list seg) (hi : Z) : Prop :=
  match segs with
  | [] => lo <= hi
  | None :: segs => layout mem lo segs hi
  | Some (off, s) :: segs =>
      lo <= off /\ str_at mem off s /\ layout mem (off + zlen s + 1) segs hi
  end.

Lemma layout_lo mem lo segs hi : layout mem lo segs hi -> lo <= hi.
Proof.
  revert lo. induction segs as [|[[off s]|] segs IH]; intros lo; cbn; [done| |apply IH].
  intros (? & ? & H). apply IH in H. lia.
Qed.

Lemma layout_weaken mem lo lo' segs hi hi' :
  layout mem lo segs hi -> lo' <= lo -> hi <= hi' -> layout mem lo' segs hi'.
Proof.
  revert lo lo'. induction segs as [|[[off s]|] segs IH]; cbn; intros lo lo' H Hlo Hhi; [lia| |].
  - destruct H as (? & ? & H). split; [lia|]. split; [done|]. by eapply IH; [exact H|lia|].
  - by eapply IH.
Qed.

Lemma layout_app mem lo segs1 mid segs2 hi :
  layout mem lo segs1 mid -> layout mem mid segs2 hi -> layout mem lo (segs1 ++ segs2) hi.
Proof.
  revert lo. induction segs1 as [|[[off s]|] segs1 IH]; cbn; intros lo H1 H2.
  - by eapply layout_weaken.
  - destruct H1 as (? & ? & H1). split_and!; [done..|]. by apply IH.
  - by apply IH.
Qed.

Lemma layout_agree mem mem' lo segs hi a b :
  agree mem mem' a b -> layout mem lo segs hi -> hi <= a \/ b <= lo -> layout mem' lo segs hi.
Proof.
  intros Hag. revert lo. induction segs as [|[[off s]|] segs IH]; cbn; intros lo H Hout; [done| |].
  - destruct H as (Hlo & Hs & H). pose proof (layout_lo _ _ _ _ H).
    split; [done|]. split; [eapply agree_str; [done..|lia]|]. apply IH; [done|lia].
  - by apply IH.
Qed.

Lemma layout_one mem lo off s hi :
  str_at mem off s -> lo <= off -> off + zlen s + 1 <= hi -> layout mem lo [Some (off, s)] hi.
Proof. intros. cbn. done. Qed.

Lemma read_fields_layout mem lo segs hi :
  layout mem lo segs hi -> read_fields mem (seg_off <$> segs) = Ok (seg_str <$> segs).
Proof.
  revert lo. induction segs as [|[[off s]|] segs IH]; cbn; intros lo H; [done| |].
  - destruct H as (_ & Hs & H). rewrite (string_at_str _ _ _ Hs). cbn. by rewrite (IH _ H).
  - by rewrite (IH _ H).
Qed.

Section Parse.
Context (lb : Z).

Definition decode_seg (x : seg) : seg :=
  match x with Some (off, s) => Some (off, upto_nul (unescape lb s)) | None => None end.

Lemma upto_nul_length s : (length (upto_nul s) <= length s)%nat.
Proof. induction s as [|c s IH]; cbn; [done|]. case_if; cbn; lia. Qed.

Lemma decode_fields_layout mem lo segs hi :
  layout mem lo segs hi -> 0 <= lo ->
  exists mem', decode_fields lb mem (seg_off <$> segs) = Ok mem' /\
  agree mem mem' lo hi /\ layout mem' lo (decode_seg <$> segs) hi.
Proof.
  revert mem lo. induction segs as [|[[off s]|] segs IH]; cbn [layout]; intros mem lo H Hlo.
  - exists mem. by split_and!.
  - destruct H as (Hoff & Hs & H). pose proof (layout_lo _ _ _ _ H) as Hhi.
    destruct (decode_inplace_ok lb mem off s Hs) as (mem1 & E1 & Hag1 & Hs1).
    rewrite !fmap_cons. change (seg_off (Some (off, s))) with (Some off).
    cbn [decode_fields]. rewrite E1. cbn [mbind res_bind].
    destruct (IH mem1 (off + zlen s + 1)) as (mem2 & E2 & Hag2 & H2).
    { eapply layout_agree; [exact Hag1|exact H|lia]. }
    { lia. }
    exists mem2. split; [done|]. split.
    + eapply agree_trans; eapply agree_widen; (eassumption || lia).
    + pose proof (upto_nul_length (unescape lb s)). pose proof (unescape_length lb s).
      split; [done|]. split; [eapply agree_str; [exact Hag2|exact Hs1|lia]|].
      eapply layout_weaken; [exact H2|lia|lia].
  - by apply IH.
Qed.

(** ** Reference parsing of string values *)

Definition split_or (c : Z) (s : bytes) : bytes * option bytes :=
  match split_first c s with Some (x, y) => (x, Some y) | None => (s, None) end.

Definition spec_port (host : bytes) : bytes * option bytes :=
  match split_last (ch ":") host with
  | Some (h, p) => if decide (last host = Some (ch "]")) then (host, None) else (h, Some p)
  | None => (host, None)
  end.

Definition spec_authority (authority : bytes) : list (option bytes) :=
  let '(user, password, host) :=
    match split_first (ch "@") authority with
    | Some (userinfo, host) =>
        let '(user, password) := split_or (ch ":") userinfo in (Some user, password, host)
    | None => (None, None, authority)
    end in
  let '(host, port) := spec_port host in
  [user; password; Some host; port].

Definition no_authority : list (option bytes) := [None; None; None; None].

(** User, password, host, port, path and query. *)
Definition spec_hier (has_scheme : bool) (s : bytes) : list (option bytes) :=
  let '(path, query) := split_or (ch "?") s in
  match path with
  | [] => no_authority ++ [None; query]
  | _ =>
    if has_scheme && bool_decide (take 2 path = bytes_of_string "//") then
      match split_first (ch "/") (drop 2 path) with
      | Some (authority, rest) => spec_authority authority ++ [Some (ch "/" :: rest); query]
      | None => spec_authority (drop 2 path) ++ [None; query]
      end
    else no_authority ++ [Some path; query]
  end.

Definition spec_main (s : bytes) : list (option bytes) :=
  match split_first (ch ":") s with
  | Some (scheme, rest) =>
    if decide (head rest = Some (ch "/")) then [Some scheme; None] ++ spec_hier true rest
    else [Some scheme; Some rest] ++ no_authority ++ [None; None]
  | None => [None; None] ++ spec_hier false s
  end.

(** The nine fields of a URI string, before decoding. *)
Definition parse_spec (s : bytes) : fields bytes :=
  let s := match split_sub (bytes_of_string "##params") s with
           | Some (x, _) => x | None => s end in
  let '(main, fragment) := split_or (ch "#") s in
  spec_main main ++ [fragment].

(** ** The stages of the parser *)

Lemma cut_ok mem p c s :
  str_at mem p s -> c <> 0 ->
  exists mem', cut mem p c =
    Ok (mem', match split_first c s with Some (x, _) => Some (p + zlen x + 1) | None => None end)
  /\ agree mem mem' p (p + zlen s + 1) /\ str_at mem' p (split_or c s).1 /\
  forall x y, split_first c s = Some (x, y) -> str_at mem' (p + zlen x + 1) y.
Proof.
  intros Hs Hc. pose proof (str_at_bounds _ _ _ Hs) as Hb. unfold cut, split_or.
  rewrite (strchr_str _ _ _ _ Hs Hc). cbn [mbind res_bind].
  destruct (split_first c s) as [[x y]|] eqn:E.
  - apply split_first_Some in E as [-> Hx]. rewrite length_app in *. cbn [length] in *.
    destruct (wr_cut mem p x c y (p + zlen x) Hs eq_refl) as (mem' & -> & -> & Hx').
    eexists. split; [done|]. split; [apply insert_agree; lia|]. split; [done|].
    intros ? ? [= <- <-]. apply insert_frame; [by apply str_at_app in Hs|lia|lia].
  - exists mem. split; [done|]. split; [apply agree_refl; lia|]. by split.
Qed.

Lemma rd_str mem off s : str_at mem off s -> rd mem off = Ok (hd 0 s).
Proof.
  intros H. destruct (str_at_elim _ _ _ H) as (A & R & -> & ->).
  rewrite rd_app_r by (done || by destruct s). by destruct s.
Qed.

Lemma rd_str_last mem off s x :
  str_at mem off s -> last s = Some x -> rd mem (off + zlen s - 1) = Ok x.
Proof.
  intros H Hl. apply last_Some in Hl as [s' ->].
  destruct (str_at_elim _ _ _ H) as (A & R & -> & ->).
  rewrite <- app_assoc, app_assoc, rd_app_r; [done|rewrite !length_app; cbn; lia|done].
Qed.
Lemma parse_port_ok mem h host f0 f1 f2 f3 f6 f7 f8 :
  str_at mem h host ->
  exists mem' hs ps, parse_port mem [f0; f1; f2; f3; Some h; None; f6; f7; f8] h =
    Ok (mem', [f0; f1; f2; f3; Some h; seg_off ps; f6; f7; f8]) /\
  spec_port host = (hs, seg_str ps) /\
  agree mem mem' h (h + zlen host + 1) /\
  layout mem' h [Some (h, hs); ps] (h + zlen host + 1).
Proof.
  intros Hs. pose proof (str_at_bounds _ _ _ Hs) as Hb. unfold parse_port, spec_port.
  rewrite (strrchr_str _ _ _ _ Hs). cbn [mbind res_bind].
  destruct (split_last (ch ":") host) as [[x y]|] eqn:E.
  2:{ exists mem, host, None. split_and!; [done..|apply agree_refl; lia|]. cbn. split_and!; done || lia. }
  apply split_last_Some in E as [-> Hy].
  rewrite (strlen_str _ _ _ Hs). cbn [mbind res_bind].
  destruct (last (x ++ ch ":" :: y)) as [z|] eqn:El.
  2:{ apply last_None in El. by destruct x. }
  rewrite (rd_str_last _ _ _ _ Hs El). cbn [mbind res_bind].
  destruct (Z.eqb_spec z (ch "]")) as [->|Hz].
  { exists mem, (x ++ ch ":" :: y), None. rewrite decide_True by done.
    split_and!; [done..|apply agree_refl; lia|]. cbn [layout]. split_and!; done || lia. }
  rewrite decide_False by congruence.
  destruct (wr_cut mem h x (ch ":") y (h + zlen x) Hs eq_refl) as (mem' & -> & -> & Hx').
  cbn [mbind res_bind]. rewrite length_app in *. cbn [length] in *.
  eexists _, x, (Some (h + zlen x + 1, y)). split; [done|]. split; [done|].
  split; [apply insert_agree; lia|]. cbn [layout]. split_and!; [lia|done|lia| |lia].
  apply insert_frame; [by apply str_at_app in Hs|lia|lia].
Qed.

(** User, password, host and port. *)
Lemma parse_authority_ok mem a auth f0 f1 f6 f7 f8 :
  str_at mem a auth ->
  exists mem' segs,
  ('(mem, u, host) ← parse_userinfo mem [f0; f1; None; None; None; None; f6; f7; f8] a;
   parse_port mem u host) = Ok (mem', [f0; f1] ++ (seg_off <$> segs) ++ [f6; f7; f8]) /\
  seg_str <$> segs = spec_authority auth /\
  agree mem mem' a (a + zlen auth + 1) /\ layout mem' a segs (a + zlen auth + 1).
Proof.
  intros Hs. pose proof (str_at_bounds _ _ _ Hs) as Hb. unfold parse_userinfo, spec_authority.
  destruct (cut_ok mem a (ch "@") auth Hs) as (mem1 & -> & Hag1 & Hx1 & Hy1); [done|].
  cbn [mbind res_bind]. unfold split_or in Hx1.
  destruct (split_first (ch "@") auth) as [[info host]|] eqn:E.
  - pose proof E as [Hauth _]%split_first_Some. cbn [fst] in Hx1.
    specialize (Hy1 _ _ eq_refl). rewrite Hauth, length_app in *. cbn [length] in *.
    destruct (cut_ok mem1 a (ch ":") info Hx1) as (mem2 & -> & Hag2 & Hx2 & Hy2); [done|].
    assert (str_at mem2 (a + zlen info + 1) host) as Hhost
      by (eapply agree_str; [exact Hag2|exact Hy1|lia]).
    unfold split_or in *. cbn [mbind res_bind].
    set (pw := match split_first (ch ":") info with
               | Some (x, y) => Some (a + zlen x + 1, y) | None => None end : seg).
    destruct (parse_port_ok mem2 (a + zlen info + 1) host f0 f1 (Some a) (seg_off pw) f6 f7 f8
                Hhost) as (mem3 & hs & ps & E3 & Hsp & Hag3 & Hl3).
    pose proof (layout_lo _ _ _ _ Hl3) as Hlo3.
    exists mem3, [Some (a, (match split_first (ch ":") info with
                            | Some (x, y) => (x, Some y) | None => (info, None) end).1);
                  pw; Some (a + zlen info + 1, hs); ps].
    split; [by destruct (split_first (ch ":") info) as [[x y]|]|]. split.
    + subst pw. destruct (split_first (ch ":") info) as [[x y]|]; by rewrite Hsp.
    + split.
      { eapply agree_trans; [exact Hag1|].
        eapply agree_trans; eapply agree_widen; (eassumption || lia). }
      eapply (layout_app _ _ [_; _] (a + zlen info + 1)); [|eapply layout_weaken; [exact Hl3|lia..]].
      eapply layout_agree; [exact Hag3| |lia]. subst pw.
      destruct (split_first (ch ":") info) as [[x y]|] eqn:E'; cbn [layout fst] in *.
      * apply split_first_Some in E' as [-> _]. rewrite length_app in *. cbn [length] in *.
        split_and!; [lia|done|lia|by eapply Hy2|lia].
      * split_and!; done || lia.
  - destruct (parse_port_ok mem1 a auth f0 f1 None None f6 f7 f8 Hx1)
      as (mem3 & hs & ps & E3 & Hsp & Hag3 & Hl3).
    exists mem3, [None; None; Some (a, hs); ps]. split; [done|]. split.
    + by rewrite Hsp.
    + split; [eapply agree_trans; eassumption|done].
Qed.

Lemma strncmp_slashes s :
  Forall (fun c => c <> 0) s ->
  (strncmp s (bytes_of_string "//") 2 =? 0) = bool_decide (take 2 s = bytes_of_string "//").
Proof.
  intros Hs. change (bytes_of_string "//") with [47; 47].
  destruct s as [|a [|b s]]; [done|..]; cbn [strncmp take hd tail].
  - rewrite bool_decide_false by done. inv Hs.
    rewrite (proj2 (Z.eqb_neq a 0)) by done.
    destruct (Z.eqb_spec (a - 47) 0) as [?|E]; cbn; [done|by apply Z.eqb_neq].
  - inv Hs as [|? ? Ha Hs']. inv Hs' as [|? ? Hb _].
    rewrite (proj2 (Z.eqb_neq a 0)), (proj2 (Z.eqb_neq b 0)) by done.
    destruct (Z.eqb_spec (a - 47) 0) as [?|E]; cbn [negb];
      [destruct (Z.eqb_spec (b - 47) 0) as [?|E]; cbn [negb]|].
    + rewrite bool_decide_true; [done|]. repeat f_equal; lia.
    + rewrite bool_decide_false; [by apply Z.eqb_neq|intros [=]; lia].
    + rewrite bool_decide_false; [by apply Z.eqb_neq|intros [=]; lia].
Qed.

(** Shuffling the authority down by one byte makes room for its terminator. *)
Lemma shuffle_ok mem p auth rest :
  str_at mem p (bytes_of_string "//" ++ auth ++ ch "/" :: rest) ->
  exists moved mem1 mem2,
    rd_range mem (p + 2) (zlen auth) = Ok moved /\
    wr_range mem (p + 1) moved = Ok mem1 /\ wr mem1 (p + 2 + zlen auth - 1) 0 = Ok mem2 /\
    str_at mem2 (p + 1) auth /\ str_at mem2 (p + 2 + zlen auth) (ch "/" :: rest) /\
    agree mem mem2 p (p + 2 + zlen auth).
Proof.
  intros Hs. pose proof Hs as (_ & Hnz & _).
  destruct (str_at_elim _ _ _ Hs) as (A & R & -> & ->).
  apply Forall_app in Hnz as [_ [Ha Hr]%Forall_app].
  destruct (ch "/" :: auth) as [|z pre _] eqn:E using rev_ind; [done|].
  assert (length pre = length auth) as Hpre
    by (apply (f_equal length) in E; rewrite length_app in E; cbn in E; lia).
  exists auth, (A ++ [ch "/"] ++ auth ++ [z] ++ (ch "/" :: rest) ++ 0 :: R),
    (A ++ [ch "/"] ++ auth ++ [0] ++ (ch "/" :: rest) ++ 0 :: R).
  split_and!.
  - change (bytes_of_string "//") with [ch "/"; ch "/"]. rewrite <- !app_assoc, app_assoc.
    apply rd_range_app; [app_side|done].
  - replace (A ++ (bytes_of_string "//" ++ auth ++ ch "/" :: rest) ++ 0 :: R)
      with ((A ++ [ch "/"]) ++ pre ++ [z] ++ (ch "/" :: rest) ++ 0 :: R).
    2:{ rewrite (app_assoc pre), <- E. by app_norm. }
    rewrite wr_range_app by (rewrite ?length_app; cbn; lia). by app_norm.
  - replace (A ++ [ch "/"] ++ auth ++ [z] ++ (ch "/" :: rest) ++ 0 :: R)
      with ((A ++ [ch "/"] ++ auth) ++ z :: (ch "/" :: rest) ++ 0 :: R) by (by app_norm).
    rewrite wr_app_r by app_side. by app_norm.
  - rewrite app_assoc. apply str_at_intro; [done|app_side].
  - replace (A ++ [ch "/"] ++ auth ++ [0] ++ (ch "/" :: rest) ++ 0 :: R)
      with ((A ++ [ch "/"] ++ auth ++ [0]) ++ (ch "/" :: rest) ++ 0 :: R) by (by app_norm).
    apply str_at_intro; [done|app_side].
  - split; [lia|]. split; [rewrite !length_app; cbn; rewrite ?length_app; cbn; lia|].
    rewrite Nat2Z.id, !take_app_length. split; [done|].
    replace (A ++ (bytes_of_string "//" ++ auth ++ ch "/" :: rest) ++ 0 :: R)
      with ((A ++ bytes_of_string "//" ++ auth) ++ (ch "/" :: rest) ++ 0 :: R)
      by (by app_norm).
    replace (A ++ [ch "/"] ++ auth ++ [0] ++ (ch "/" :: rest) ++ 0 :: R)
      with ((A ++ [ch "/"] ++ auth ++ [0]) ++ (ch "/" :: rest) ++ 0 :: R) by (by app_norm).
    by rewrite !drop_app_length' by (rewrite !length_app; cbn; lia).
Qed.

Lemma take2_slashes s :
  take 2 s = bytes_of_string "//" -> s = bytes_of_string "//" ++ drop 2 s.
Proof. intros E. by rewrite <- E, take_drop. Qed.

(** Everything from the path on, once the query has been cut off. *)
Lemma parse_net_ok mem p s f0 f1 f7 f8 :
  str_at mem p s -> s <> [] ->
  exists mem' segs,
  ('(mem, u, authority) ← parse_path mem [f0; f1; None; None; None; None; None; f7; f8] p;
   match authority with
   | None => Ok (mem, u)
   | Some authority =>
     '(mem, u, host) ← parse_userinfo mem u authority;
     parse_port mem u host
   end) = Ok (mem', [f0; f1] ++ (seg_off <$> segs) ++ [f7; f8]) /\
  seg_str <$> segs =
    (if is_present f0 && bool_decide (take 2 s = bytes_of_string "//") then
       match split_first (ch "/") (drop 2 s) with
       | Some (authority, rest) => spec_authority authority ++ [Some (ch "/" :: rest)]
       | None => spec_authority (drop 2 s) ++ [None]
       end
     else no_authority ++ [Some s]) /\
  agree mem mem' p (p + zlen s + 1) /\ layout mem' p segs (p + zlen s + 1).
Proof.
  intros Hs Hne. pose proof (str_at_bounds _ _ _ Hs) as Hb. pose proof Hs as (_ & Hnz & _).
  unfold parse_path. rewrite (string_at_str _ _ _ Hs). cbn [mbind res_bind].
  rewrite strncmp_slashes by done.
  change (uri_field [f0; f1; None; None; None; None; None; f7; f8] URI_SCHEME) with f0.
  change (match f0 with Some _ => true | None => false end) with (is_present f0).
  destruct (is_present f0 && bool_decide (take 2 s = bytes_of_string "//")) eqn:Enet.
  2:{ exists mem, [None; None; None; None; Some (p, s)].
      split_and!; [done|done|apply agree_refl; lia|]. cbn [layout]. split_and!; done || lia. }
  apply andb_true_iff in Enet as [_ Enet%bool_decide_eq_true]. apply take2_slashes in Enet.
  remember (drop 2 s) as net eqn:Hnet. clear Hnet. subst s. rewrite length_app in *.
  change (length (bytes_of_string "//")) with 2%nat in *.
  assert (str_at mem (p + 2) net) as Hnet.
  { replace (p + 2) with (p + zlen [ch "/"] + 1) by (cbn; lia).
    apply (str_at_app _ _ _ (ch "/")). exact Hs. }
  rewrite (strchr_str _ _ _ (ch "/") Hnet) by done. cbn [mbind res_bind].
  destruct (split_first (ch "/") net) as [[auth rest]|] eqn:E.
  - pose proof E as [-> _]%split_first_Some. rewrite length_app in *. cbn [length] in *.
    destruct (shuffle_ok mem p auth rest Hs) as (moved & mem1 & mem2 & E1 & E2 & E3 & Ha & Hr & Hag).
    replace (p + 2 + zlen auth - (p + 2)) with (zlen auth) by lia. rewrite E1.
    cbn [mbind res_bind]. replace (p + 2 - 1) with (p + 1) by lia. rewrite E2.
    cbn [mbind res_bind]. rewrite E3. cbn [mbind res_bind].
    destruct (parse_authority_ok mem2 (p + 1) auth f0 f1 (Some (p + 2 + zlen auth)) f7 f8 Ha)
      as (mem3 & segs & E4 & Hsp & Hag3 & Hl).
    exists mem3, (segs ++ [Some (p + 2 + zlen auth, ch "/" :: rest)]).
    rewrite !fmap_app, Hsp, <- !app_assoc. split; [exact E4|]. split; [done|]. split.
    + eapply agree_trans; eapply agree_widen; (eassumption || lia).
    + eapply (layout_app _ _ _ (p + 2 + zlen auth)); [eapply layout_weaken; [exact Hl|lia..]|].
      apply layout_one; [eapply agree_str; [exact Hag3|exact Hr|lia]|lia|cbn; lia].
  - destruct (parse_authority_ok mem (p + 2) net f0 f1 None f7 f8 Hnet)
      as (mem3 & segs & E4 & Hsp & Hag3 & Hl).
    exists mem3, (segs ++ [None]). rewrite !fmap_app, Hsp, <- !app_assoc.
    split; [exact E4|]. split; [done|]. cbn [length]. split.
    + eapply agree_widen; [exact Hag3|lia..].
    + eapply layout_app; [eapply layout_weaken; [exact Hl|lia|]; reflexivity|]. cbn. lia.
Qed.

Lemma parse_hier_ok mem p s f0 f1 f8 :
  str_at mem p s ->
  exists mem' segs,
  parse_hier mem [f0; f1; None; None; None; None; None; None; f8] p =
    Ok (mem', [f0; f1] ++ (seg_off <$> segs) ++ [f8]) /\
  seg_str <$> segs = spec_hier (is_present f0) s /\
  agree mem mem' p (p + zlen s + 1) /\ layout mem' p segs (p + zlen s + 1).
Proof.
  intros Hs. pose proof (str_at_bounds _ _ _ Hs) as Hb. unfold parse_hier, spec_hier, split_or.
  destruct (cut_ok mem p (ch "?") s Hs) as (mem1 & -> & Hag1 & Hx1 & Hy1); [done|].
  cbn [mbind res_bind]. unfold split_or in Hx1.
  set (q := match split_first (ch "?") s with
            | Some (x, y) => Some (p + zlen x + 1, y) | None => None end : seg).
  set (path := (match split_first (ch "?") s with
                | Some (x, y) => (x, Some y) | None => (s, None) end).1) in *.
  assert (zlen path <= zlen s) as Hpath.
  { subst path. destruct (split_first (ch "?") s) as [[x y]|] eqn:E; [|done].
    apply split_first_Some in E as [-> _]. rewrite length_app. cbn. lia. }
  assert (layout mem1 (p + zlen path + 1) [q] (p + zlen s + 1)) as Hq.
  { subst q path. destruct (split_first (ch "?") s) as [[x y]|] eqn:E; cbn [layout fst]; [|lia].
    split; [lia|]. split; [by apply Hy1|]. apply split_first_Some in E as [-> _].
    rewrite length_app. cbn. lia. }
  replace (match match split_first (ch "?") s with
                 | Some (x, _) => Some (p + zlen x + 1) | None => None end with
           | Some q => set_field URI_QUERY q [f0; f1; None; None; None; None; None; None; f8]
           | None => [f0; f1; None; None; None; None; None; None; f8] end)
    with [f0; f1; None; None; None; None; None; seg_off q; f8]
    by (subst q; by destruct (split_first (ch "?") s) as [[x y]|]).
  replace (match split_first (ch "?") s with
           | Some (x, y) => (x, Some y) | None => (s, None) end) with (path, seg_str q)
    by (subst q path; by destruct (split_first (ch "?") s) as [[x y]|]).
  rewrite (rd_str _ _ _ Hx1). cbn [mbind res_bind].
  destruct (decide (path = [])) as [E|Hne].
  - rewrite E in *. cbn [hd Z.eqb length] in *. exists mem1, [None; None; None; None; None; q].
    split_and!; [done..|]. cbn [layout] in *. eapply (layout_weaken _ _ _ [q]); [exact Hq|lia|lia].
  - pose proof Hx1 as (_ & Hnz & _). rewrite (proj2 (Z.eqb_neq (hd 0 path) 0)).
    2:{ destruct path; [done|]. by inv Hnz. }
    destruct (parse_net_ok mem1 p path f0 f1 (seg_off q) f8 Hx1 Hne)
      as (mem2 & segs & -> & Hsp & Hag2 & Hl). exists mem2, (segs ++ [q]).
    rewrite !fmap_app, Hsp, <- !app_assoc. split; [done|]. split.
    + destruct path; [done|]. case_if; [|done].
      destruct (split_first _ (drop 2 _)) as [[? ?]|]; by rewrite <- app_assoc.
    + split; [eapply agree_trans; [exact Hag1|]; eapply agree_widen; [exact Hag2|lia..]|].
      eapply layout_app; [exact Hl|]. eapply layout_agree; [exact Hag2|exact Hq|lia].
Qed.

Lemma parse_main_ok mem s f8 :
  str_at mem 0 s ->
  exists mem' segs,
  ('(mem, u, path) ← parse_scheme mem [None; None; None; None; None; None; None; None; f8];
   match path with Some path => parse_hier mem u path | None => Ok (mem, u) end)
    = Ok (mem', (seg_off <$> segs) ++ [f8]) /\
  seg_str <$> segs = spec_main s /\
  agree mem mem' 0 (zlen s + 1) /\ layout mem' 0 segs (zlen s + 1).
Proof.
  intros Hs. unfold parse_scheme, spec_main.
  destruct (cut_ok mem 0 (ch ":") s Hs) as (mem1 & -> & Hag1 & Hx1 & Hy1); [done|].
  cbn [mbind res_bind]. unfold split_or in Hx1. rewrite Z.add_0_l in *.
  destruct (split_first (ch ":") s) as [[scheme rest]|] eqn:E.
  - pose proof E as [-> _]%split_first_Some. specialize (Hy1 _ _ eq_refl).
    rewrite Z.add_0_l in *. cbn [fst] in Hx1. rewrite length_app in *. cbn [length] in *.
    rewrite (rd_str _ _ _ Hy1). cbn [mbind res_bind].
    destruct (Z.eqb_spec (hd 0 rest) (ch "/")) as [Hd|Hd].
    + rewrite decide_True by (destruct rest; [done|cbn [hd head] in *; congruence]).
      destruct (parse_hier_ok mem1 (zlen scheme + 1) rest (Some 0) None f8 Hy1)
        as (mem2 & segs & E2 & Hsp & Hag2 & Hl). cbn [is_present] in Hsp.
      exists mem2, ([Some (0, scheme); None] ++ segs). rewrite !fmap_app, Hsp, <- !app_assoc.
      split; [exact E2|]. split; [done|].
      split; [eapply agree_trans; [exact Hag1|]; eapply agree_widen; [exact Hag2|lia..]|].
      eapply (layout_app _ _ _ (zlen scheme + 1)); [|eapply layout_weaken; [exact Hl|lia..]].
      eapply layout_agree; [exact Hag2| |lia]. cbn [layout]. split_and!; done || lia.
    + rewrite decide_False by (destruct rest; [done|cbn [hd head] in *; congruence]).
      exists mem1, [Some (0, scheme); Some (zlen scheme + 1, rest); None; None; None; None; None; None].
      split_and!; [done|done|eapply agree_widen; [exact Hag1|lia..]|].
      cbn [layout]. split_and!; done || lia.
  - destruct (parse_hier_ok mem1 0 s None None f8 Hx1) as (mem2 & segs & E2 & Hsp & Hag2 & Hl).
    rewrite !Z.add_0_l in *. exists mem2, ([None; None] ++ segs).
    rewrite !fmap_app, Hsp, <- !app_assoc. split; [exact E2|]. split; [done|].
    split; [eapply agree_trans; [exact Hag1|exact Hag2]|done].
Qed.

(** The parameter list a URI string names. *)
Definition spec_params (ps : list parameters) (s : bytes)
  : res (option parameters * list parameters) :=
  match split_sub (bytes_of_string "##params") s with
  | None => Ok (None, ps)
  | Some (_, rest) =>
    found ← find_parameters ps (match rest with [] => None | _ :: name => Some name end);
    Ok (match found with
        | Some i => (ps !! i, claim_parameters ps i) | None => (None, ps) end)
  end.

Definition strip_params (s : bytes) : bytes :=
  match split_sub (bytes_of_string "##params") s with Some (x, _) => x | None => s end.

Lemma parse_params_ok ps s :
  Forall (fun c => c <> 0) s ->
  exists mem, str_at mem 0 (strip_params s) /\
  parse_params (s ++ [0]) ps = pp ← spec_params ps s; Ok (mem, pp.1, pp.2).
Proof.
  intros Hs. assert (str_at (s ++ [0]) 0 s) as H0 by (apply (str_at_intro [] s []); done).
  unfold parse_params, spec_params, strip_params.
  rewrite (strstr_str _ _ _ _ H0) by (by repeat constructor). cbn [mbind res_bind].
  destruct (split_sub (bytes_of_string "##params") s) as [[x y]|] eqn:E; [|by eexists].
  apply split_sub_Some in E. rewrite Z.add_0_l.
  assert (s = x ++ ch "#" :: bytes_of_string "#params" ++ y) as E1 by exact E.
  assert (s = (x ++ bytes_of_string "##param") ++ ch "s" :: y) as E2
    by (rewrite E; by rewrite <- app_assoc).
  pose proof H0 as H2. rewrite E1 in H0 at 2. rewrite E2 in H2 at 2.
  apply str_at_app in H2. rewrite length_app in H2.
  change (length (bytes_of_string "##param")) with 7%nat in H2.
  destruct (wr_cut _ 0 x _ _ (zlen x) H0) as (mem' & -> & -> & Hx); [lia|].
  cbn [mbind res_bind]. eexists. split; [exact Hx|].
  assert (str_at (<[Z.to_nat (zlen x) := 0]> (s ++ [0])) (zlen x + 8) y) as Hy.
  { apply insert_frame; [|lia|lia]. by replace (zlen x + 8) with (0 + Z.of_nat (length x + 7) + 1) by lia. }
  rewrite (rd_str _ _ _ Hy). cbn [mbind res_bind]. destruct y as [|c y].
  - cbn. by destruct (find_parameters ps None) as [[i|]| |].
  - pose proof Hy as (_ & Hnz & _). inv Hnz. cbn [hd].
    rewrite (proj2 (Z.eqb_neq c 0)) by done. apply (str_at_app _ _ []) in Hy.
    replace (zlen x + 8 + zlen [] + 1) with (zlen x + 8 + 1) in Hy by (cbn; lia).
    rewrite (string_at_str _ _ _ Hy). cbn.
    by destruct (find_parameters ps (Some y)) as [[i|]| |].
Qed.

(** The fields a URI string denotes. *)
Definition decoded_fields (s : bytes) : fields bytes :=
  option_map (fun f => upto_nul (unescape lb f)) <$> parse_spec s.

Lemma decode_read_ok mem segs hi :
  layout mem 0 segs hi ->
  exists mem', decode_fields lb mem (seg_off <$> segs) = Ok mem' /\
  read_fields mem' (seg_off <$> segs) =
    Ok (option_map (fun f => upto_nul (unescape lb f)) <$> (seg_str <$> segs)).
Proof.
  intros Hl. destruct (decode_fields_layout mem 0 segs hi Hl) as (mem' & E & _ & Hl'); [lia|].
  exists mem'. split; [done|].
  replace (seg_off <$> segs) with (seg_off <$> (decode_seg <$> segs)).
  2:{ rewrite <- list_fmap_compose. apply list_fmap_ext. by intros ? [[? ?]|]. }
  rewrite (read_fields_layout _ _ _ _ Hl'). f_equal.
  rewrite <- !list_fmap_compose. apply list_fmap_ext. by intros ? [[? ?]|].
Qed.

Lemma parse_uri_spec alloc ps s :
  Forall (fun c => c <> 0) s -> alloc (sizeof_uri lb + (zlen s + 1)) = true ->
  parse_uri lb alloc ps s =
  pp ← spec_params ps s; Ok (Some {| u_fields := decoded_fields s; u_params := pp.1 |}, pp.2).
Proof.
  intros Hs Hal. unfold parse_uri. rewrite Hal. cbn [negb].
  destruct (parse_params_ok ps s Hs) as (mem0 & Hm0 & ->).
  destruct (spec_params ps s) as [[params ps']|e|]; [|done|done]. cbn [mbind res_bind fst snd].
  unfold decoded_fields, parse_spec. fold (strip_params s). set (t := strip_params s) in *.
  destruct (cut_ok mem0 0 (ch "#") t Hm0) as (mem1 & -> & _ & Hx1 & Hy1); [done|].
  cbn [mbind res_bind]. change (0 + zlen ?x) with (zlen x) in *.
  set (fr := match split_first (ch "#") t with
             | Some (x, y) => Some (zlen x + 1, y) | None => None end : seg).
  replace (match match split_first (ch "#") t with
                 | Some (x, _) => Some (zlen x + 1) | None => None end with
           | Some f => set_field URI_FRAGMENT f no_fields | None => no_fields end)
    with [None; None; None; None; None; None; None; None; seg_off fr]
    by (subst fr; by destruct (split_first (ch "#") t) as [[x y]|]).
  set (main := (split_or (ch "#") t).1) in *.
  assert (split_or (ch "#") t = (main, seg_str fr)) as ->.
  { subst main fr. unfold split_or. by destruct (split_first (ch "#") t) as [[x y]|]. }
  destruct (parse_main_ok mem1 main (seg_off fr) Hx1) as (mem2 & segs & E & Hsp & Hag & Hl).
  assert (layout mem2 0 (segs ++ [fr]) (zlen t + 1)) as Hlay.
  { eapply layout_app; [exact Hl|]. eapply layout_agree; [exact Hag| |lia].
    subst fr main. unfold split_or. specialize (Hy1) as Hy1'.
    destruct (split_first (ch "#") t) as [[x y]|] eqn:Es; cbn [layout fst]; [|lia].
    apply split_first_Some in Es as [-> _]. rewrite length_app in *. cbn [length] in *.
    split_and!; [lia| |lia]. by eapply Hy1. }
  match goal with |- mbind ?k (parse_scheme ?m0 ?u0) = _ =>
    transitivity (r ← ('(mem, u, path) ← parse_scheme m0 u0;
                       match path with Some path => parse_hier mem u path
                                     | None => Ok (mem, u) end);
                  mem ← decode_fields lb r.1 r.2; strings ← read_fields mem r.2;
                  Ok (Some {| u_fields := strings; u_params := params |}, ps')) end.
  { destruct (parse_scheme _ _) as [[[m u] [path|]]| |]; cbn; try done.
    by destruct (parse_hier m u path) as [[? ?]| |]. }
  rewrite E. cbn [mbind res_bind fst snd].
  replace ((seg_off <$> segs) ++ [seg_off fr]) with (seg_off <$> (segs ++ [fr]))
    by (by rewrite fmap_app).
  destruct (decode_read_ok mem2 _ _ Hlay) as (mem3 & -> & Er). cbn [mbind res_bind].
  rewrite Er, fmap_app, Hsp. done.
Qed.

End Parse.

(** ** Reference formatting *)

(** The text of one character of a field. *)
Definition escape_char (field : nat) (c : Z) : bytes :=
  if uri_character_escaped (schar c) field
  then ch "%" :: pad_to 2 48 (hex_digits 16 (u32 (schar c)) 0 []) else [c].

Definition escape (field : nat) (s : bytes) : bytes := flat_map (escape_char field) s.

Definition field_text (u : fields bytes) (field : nat) : bytes :=
  match uri_field u field with
  | None => []
  | Some s =>
    match field_prefix u field with Some p => [p] | None => [] end ++ escape field s ++
    (if (field =? URI_SCHEME)%nat
     then ch ":" :: (if is_present (uri_field u URI_HOST) then bytes_of_string "//" else [])
     else [])
  end.

(** The text of a URI. *)
Definition format_spec (u : fields bytes) : bytes := flat_map (field_text u) (seq 0 URI_FIELDS).

Lemma escape_cons field c s : escape field (c :: s) = escape_char field c ++ escape field s.
Proof. done. Qed.

Lemma u8_schar c : is_byte c -> u8 (u32 (schar c)) = c.
Proof. unfold schar. wrap_lia. Qed.

(** Formatted text contains no terminator. *)
(** The text of one character has at most 17 characters. *)
Lemma escape_char_short field c : zlen (escape_char field c) < 2 ^ 31.
Proof.
  unfold escape_char. case_if; [|done]. cbn [length]. rewrite Nat2Z.inj_succ, pad_to_length.
  pose proof (hex_digits_length 16 (u32 (schar c)) 0 []) as H. cbn [length] in H. lia.
Qed.

Lemma escape_char_nonzero field c : Forall (fun b => b <> 0) (escape_char field c).
Proof.
  unfold escape_char. destruct (uri_character_escaped (schar c) field) eqn:E.
  - constructor; [done|]. unfold pad_to. apply Forall_app; split; [by apply Forall_replicate|].
    assert (forall fuel num acc, Forall (fun b => b <> 0) acc -> 0 <= num ->
              Forall (fun b => b <> 0) (hex_digits fuel num 0 acc)) as H.
    { induction fuel as [|fuel IH]; intros num acc Hacc Hn; cbn [hex_digits]; [done|].
      assert (Forall (fun b => b <> 0) (hex_digit (Z.land num 15) 0 :: acc)).
      { constructor; [|done]. change 15 with (2 ^ 4 - 1). rewrite land_mask by lia.
        assert (num mod 2 ^ 4 ∈ seqZ 0 16) as Hin
          by (apply elem_of_seqZ; pose proof (Z.mod_pos_bound num (2 ^ 4)); lia).
        revert Hin. generalize (num mod 2 ^ 4). apply Forall_forall.
        repeat (constructor; [by vm_compute|]). constructor. }
      case_if; [done|]. apply IH; [done|]. apply Z.shiftr_nonneg; lia. }
    apply H; [constructor|]. apply wrap_range; lia.
  - constructor; [|constructor]. intros ->. by vm_compute in E.
Qed.

Lemma escape_nonzero field s : Forall (fun b => b <> 0) (escape field s).
Proof.
  induction s as [|c s IH]; [constructor|]. rewrite escape_cons.
  apply Forall_app; split; [apply escape_char_nonzero|done].
Qed.

Lemma field_prefix_char u f p : field_prefix u f = Some p -> p <> 0 /\ u8 p = p.
Proof.
  unfold field_prefix, prefixes. intros E. repeat (case_match; simplify_eq; try done).
Qed.

Lemma format_spec_nonzero u : Forall (fun b => b <> 0) (format_spec u).
Proof.
  unfold format_spec. induction (seq 0 URI_FIELDS) as [|f l IH]; [constructor|].
  cbn [flat_map].
  apply Forall_app; split; [|done]. unfold field_text.
  destruct (uri_field u f); [|constructor]. repeat (apply Forall_app; split).
  - destruct (field_prefix u f) eqn:E; [|constructor].
    apply Forall_singleton. exact (proj1 (field_prefix_char _ _ _ E)).
  - apply escape_nonzero.
  - destruct (f =? URI_SCHEME)%nat; [|constructor].
    destruct (is_present (uri_field u URI_HOST)); repeat (constructor; [done|]); constructor.
Qed.
Section Format.
Context (lb : Z) (Hlb : 32 <= lb).
#[local] Set Default Proof Using "Hlb".

Lemma uri_encode_loop_ok field raw mem len txt :
  buffer mem len txt -> Forall is_byte raw ->
  exists mem', uri_encode_loop lb mem field raw (zlen txt) (len - zlen txt) =
    Ok (mem', len - zlen (txt ++ escape field raw)) /\
  buffer mem' len (txt ++ escape field raw) /\ length mem' = length mem.
Proof.
  intros Hbuf Hraw. revert mem txt Hbuf. induction Hraw as [|c raw Hc _ IH]; intros mem txt Hbuf.
  - exists mem. cbn. rewrite app_nil_r. done.
  - cbn [uri_encode_loop]. rewrite escape_cons. unfold escape_char.
    assert (vcprintf lb Ordinary
      (if uri_character_escaped (schar c) field then bytes_of_string "%%%02X"
       else bytes_of_string "%c") [Anum 32 (u32 (schar c))] = Ok (escape_char field c)) as Hv.
    { unfold escape_char. destruct (uri_character_escaped (schar c) field).
      - by apply vcprintf_escape.
      - rewrite vcprintf_c, u8_schar by done. done. }
    destruct (ssnprintf_append lb mem len txt _ _ _ Hbuf Hv) as (mem1 & E & Hbuf1 & Hlen1);
      [apply escape_char_short|].
    destruct (IH mem1 (txt ++ escape_char field c) Hbuf1) as (mem2 & E2 & Hbuf2 & Hlen2).
    exists mem2. fold (escape_char field c). rewrite <- !app_assoc in *.
    split; [|split; [done|congruence]]. rewrite <- E2.
    replace (zlen (txt ++ escape_char field c)) with (zlen txt + zlen (escape_char field c))
      by app_side.
    replace (len - (zlen txt + zlen (escape_char field c)))
      with (len - zlen txt - zlen (escape_char field c)) by lia.
    destruct (uri_character_escaped (schar c) field); rewrite E; done.
Qed.

Lemma uri_encode_ok field raw mem len txt :
  buffer mem len txt -> Forall is_byte raw ->
  exists mem', uri_encode lb mem field raw (zlen txt) (len - zlen txt) =
    Ok (mem', zlen (escape field raw)) /\
  buffer mem' len (txt ++ escape field raw) /\ length mem' = length mem.
Proof.
  intros Hbuf Hraw. unfold uri_encode. rewrite (buffer_terminate _ _ _ Hbuf).
  cbn [mbind res_bind]. destruct (uri_encode_loop_ok field raw mem len txt Hbuf Hraw)
    as (mem' & -> & Hbuf' & Hl). cbn [mbind res_bind]. exists mem'. split; [|done].
  do 2 f_equal. app_side.
Qed.

Lemma format_field_ok u field mem len txt :
  buffer mem len txt -> (forall s, uri_field u field = Some s -> Forall is_byte s) ->
  exists mem', format_field lb mem len (zlen txt) u field =
    Ok (mem', zlen (txt ++ field_text u field)) /\
  buffer mem' len (txt ++ field_text u field) /\ length mem' = length mem.
Proof.
  intros Hbuf Hb. unfold format_field, field_text.
  destruct (uri_field u field) as [s|]; [|exists mem; by rewrite app_nil_r].
  specialize (Hb s eq_refl).
  set (pre := match field_prefix u field with Some p => [p] | None => [] end).
  match goal with |- context [mbind ?k (match field_prefix u field with _ => _ end)] =>
    assert (exists mem1, match field_prefix u field with
      | Some prefix => '(mem, n) ← ssnprintf lb mem (zlen txt) (len - zlen txt)
                         (bytes_of_string "%c") [Anum 32 prefix]; Ok (mem, zlen txt + n)
      | None => Ok (mem, zlen txt) end = Ok (mem1, zlen (txt ++ pre)) /\
      buffer mem1 len (txt ++ pre) /\ length mem1 = length mem) as (mem1 & -> & Hbuf1 & Hl1) end.
  { subst pre. destruct (field_prefix u field) as [p|] eqn:Ep; [|exists mem; by rewrite app_nil_r].
    destruct (field_prefix_char _ _ _ Ep) as [_ Hp].
    destruct (ssnprintf_append lb mem len txt _ _ _ Hbuf (vcprintf_c lb p)) as (mem1 & -> & ? & ?);
      [done|].
    rewrite Hp in *. exists mem1. cbn [mbind res_bind]. split; [|done]. do 2 f_equal. app_side. }
  cbn [mbind res_bind].
  destruct (uri_encode_ok field s mem1 len (txt ++ pre) Hbuf1 Hb) as (mem2 & -> & Hbuf2 & Hl2).
  cbn [mbind res_bind].
  replace (zlen (txt ++ pre) + zlen (escape field s)) with (zlen ((txt ++ pre) ++ escape field s))
    by app_side.
  destruct (field =? URI_SCHEME)%nat.
  - destruct (ssnprintf_append lb mem2 len _ _ _ _ Hbuf2
      (vcprintf_colon_s lb (if is_present (uri_field u URI_HOST) then bytes_of_string "//" else [])))
      as (mem3 & -> & Hbuf3 & Hl3); [by destruct (is_present _)|]. cbn [mbind res_bind]. exists mem3.
    rewrite <- !app_assoc in *. split; [|split; [done|congruence]]. do 2 f_equal. app_side.
  - exists mem2. rewrite app_nil_r, <- !app_assoc in *. split; [done|]. split; [done|congruence].
Qed.

Lemma format_fields_ok u todo mem len txt :
  buffer mem len txt ->
  (forall field s, uri_field u field = Some s -> Forall is_byte s) ->
  exists mem', format_fields lb mem len (zlen txt) u todo =
    Ok (mem', zlen (txt ++ flat_map (field_text u) todo)) /\
  buffer mem' len (txt ++ flat_map (field_text u) todo) /\ length mem' = length mem.
Proof.
  intros Hbuf Hb. revert mem txt Hbuf. induction todo as [|f todo IH]; intros mem txt Hbuf.
  - exists mem. cbn. by rewrite app_nil_r.
  - cbn [format_fields].
    destruct (format_field_ok u f mem len txt Hbuf (Hb f)) as (mem1 & -> & Hbuf1 & Hl1).
    cbn [mbind res_bind].
    destruct (IH mem1 _ Hbuf1) as (mem2 & E & Hbuf2 & Hl2). exists mem2.
    cbn [flat_map].
    rewrite app_assoc. split; [exact E|]. split; [done|congruence].
Qed.

Lemma format_uri_ok u mem len :
  0 <= len <= zlen mem ->
  (forall field s, uri_field (u_fields u) field = Some s -> Forall is_byte s) ->
  exists mem', format_uri lb (Some u) mem len = Ok (mem', zlen (format_spec (u_fields u))) /\
  buffer mem' len (format_spec (u_fields u)) /\ length mem' = length mem.
Proof.
  intros Hlen Hb. unfold format_uri.
  destruct (buffer_start mem len Hlen) as (mem0 & -> & Hbuf & Hl0). cbn [mbind res_bind].
  destruct (format_fields_ok (u_fields u) (seq 0 URI_FIELDS) mem0 len [] Hbuf Hb)
    as (mem1 & E & Hbuf1 & Hl1). cbn [app length] in *.
  exists mem1. split; [exact E|]. split; [done|congruence].
Qed.

End Format.

(** ** Round trip of formatting and parsing *)

(** Characters that survive: the code escapes and unescapes 7-bit characters. *)
Definition ascii_char (c : Z) : Prop := 0 < c < 128.

Lemma ascii_in c : ascii_char c -> c ∈ seqZ 1 127.
Proof. unfold ascii_char. intros. apply elem_of_seqZ. lia. Qed.

Lemma forallb_elem {A} (P : A -> bool) l x : forallb P l = true -> x ∈ l -> P x = true.
Proof. intros H Hx. apply forallb_forall with (x := x) in H; [done|]. by apply list_elem_of_In. Qed.

(** The characters that are significant to the parser. *)
Definition special : bytes := bytes_of_string "/#:@?]".

Definition avoids (x : Z) (s : bytes) : bool := forallb (fun b => negb (b =? x)) s.

Lemma avoids_Forall x s : avoids x s = true <-> Forall (fun b => b <> x) s.
Proof.
  unfold avoids. induction s as [|b s IH]; cbn; [by split|].
  rewrite andb_true_iff, IH, Forall_cons. split; intros [? ?]; (split; [lia|done]).
Qed.

(** A property of the escape text of every 7-bit character in every field. *)
Lemma escape_char_check (P : nat -> Z -> bytes -> bool) f c :
  forallb (fun f => forallb (fun c => P f c (escape_char f c)) (seqZ 1 127)) (seq 0 9) = true ->
  (f < 9)%nat -> ascii_char c -> P f c (escape_char f c) = true.
Proof.
  intros H Hf Hc. apply (forallb_elem _ _ f) in H; [|apply elem_of_seq; lia].
  by apply (forallb_elem _ _ c) in H; [|apply ascii_in].
Qed.

Lemma escape_char_special f c x :
  (f < 9)%nat -> ascii_char c -> x ∈ special -> c <> x ->
  Forall (fun b => b <> x) (escape_char f c).
Proof.
  intros Hf Hc Hx Hne. apply avoids_Forall.
  pose proof (escape_char_check
    (fun _ c t => forallb (fun x => (c =? x) || avoids x t) special) f c) as H.
  specialize (H ltac:(by vm_compute) Hf Hc). apply (forallb_elem _ _ x) in H; [|done].
  apply orb_true_iff in H as [H|H]; [lia|done].
Qed.

Lemma escape_char_escaped f c x :
  (f < 9)%nat -> ascii_char c -> x ∈ escaped_chars f -> Forall (fun b => b <> x) (escape_char f c).
Proof.
  intros Hf Hc Hx. apply avoids_Forall.
  pose proof (escape_char_check
    (fun f c t => forallb (fun x => avoids x t) (escaped_chars f)) f c) as H.
  specialize (H ltac:(by vm_compute) Hf Hc). by apply (forallb_elem _ _ x) in H.
Qed.

(** An escaped character is a percent sign and two digits. *)
Lemma escape_char_shape f c :
  (f < 9)%nat -> ascii_char c ->
  (escape_char f c = [c] /\ c <> ch "%") \/
  (exists h1 h2, escape_char f c = [ch "%"; h1; h2] /\
     pad_to 2 48 (hex_digits 16 c 0 []) = [h1; h2]).
Proof.
  intros Hf Hc. unfold escape_char.
  assert (schar c = c) as Hs by (unfold schar, ascii_char in *; wrap_lia). rewrite Hs.
  destruct (uri_character_escaped c f) eqn:E.
  - right. rewrite wrap_small by (unfold ascii_char, in_range in *; lia).
    assert (length (pad_to 2 48 (hex_digits 16 c 0 [])) = 2%nat) as Hl.
    { apply Nat.eqb_eq. revert c Hc Hs E. intros c Hc _ _. apply ascii_in in Hc.
      revert c Hc. assert (forallb (fun c => length (pad_to 2 48 (hex_digits 16 c 0 [])) =? 2)%nat
        (seqZ 1 127) = true) as H by (by vm_compute). intros c Hc. exact (forallb_elem _ _ c H Hc). }
    destruct (pad_to 2 48 (hex_digits 16 c 0 [])) as [|h1 [|h2 [|? ?]]]; try done. by exists h1, h2.
  - left. split; [done|]. intros ->. unfold uri_character_escaped in E. by rewrite !orb_true_r in E.
Qed.

Section RoundTrip.
Context (lb : Z) (Hlb : 8 <= lb).
#[local] Set Default Proof Using "Hlb".

Lemma unescape_escape_char f c r :
  (f < 9)%nat -> ascii_char c -> unescape lb (escape_char f c ++ r) = c :: unescape lb r.
Proof.
  intros Hf Hc. destruct (escape_char_shape f c Hf Hc) as [[-> Hp]|(h1 & h2 & -> & Hd)].
  - cbn [app]. rewrite unescape_cons. by rewrite (proj2 (Z.eqb_neq _ _)).
  - cbn [app]. rewrite unescape_cons, Z.eqb_refl. unfold unescape1.
    change (take 2 (h1 :: h2 :: r)) with [h1; h2].
    unfold ascii_char in Hc. rewrite <- Hd, strtoul_padded;
      [|apply hex_digits_start; [by left|lia|lia]|by right|lia|lia].
    rewrite hex_digits_value; [|lia|by left|change (16 ^ Z.of_nat 16) with (2 ^ 64); lia|lia].
    cbn [strtoul_digits]. rewrite Hd. cbn [length Nat.sub Nat.eqb fst snd drop]. f_equal.
    rewrite (wrap_small lb); [apply wrap_small; unfold in_range; lia|].
    unfold in_range. split; [lia|]. apply Z.lt_le_trans with (2 ^ 8); [lia|].
    apply Z.pow_le_mono_r; lia.
Qed.

Lemma unescape_escape f s : (f < 9)%nat -> Forall ascii_char s -> unescape lb (escape f s) = s.
Proof.
  intros Hf. induction 1 as [|c s Hc _ IH]; [done|].
  by rewrite escape_cons, unescape_escape_char, IH.
Qed.
End RoundTrip.

Lemma escape_avoids f s x :
  (f < 9)%nat -> Forall ascii_char s ->
  x ∈ escaped_chars f \/ (x ∈ special /\ Forall (fun b => b <> x) s) ->
  Forall (fun b => b <> x) (escape f s).
Proof.
  intros Hf Hs Hx. induction Hs as [|c s Hc _ IH]; [constructor|]. rewrite escape_cons.
  apply Forall_app. destruct Hx as [Hx|[Hx Hne]].
  - split; [by apply escape_char_escaped|]. apply IH. by left.
  - inv Hne. split; [by apply escape_char_special|]. apply IH. by right.
Qed.

Lemma upto_nul_id s : Forall ascii_char s -> upto_nul s = s.
Proof.
  induction 1 as [|c s Hc _ IH]; [done|]. cbn. unfold ascii_char in Hc.
  by rewrite (proj2 (Z.eqb_neq c 0)), IH by lia.
Qed.

(** URIs whose text denotes them: the four forms the parser produces, with the
    conditions under which no separator is misread. *)
Inductive canonical : fields bytes -> Prop :=
| can_opaque scheme opaque fragment :
    head opaque <> Some (ch "/") ->
    canonical [Some scheme; Some opaque; None; None; None; None; None; None; fragment]
| can_net scheme user password host port path query fragment :
    (user = None -> password = None) ->
    match port with
    | None => Forall (fun b => b <> ch ":") host \/ last host = Some (ch "]")
    | Some p => last p <> Some (ch "]")
    end ->
    (forall p, path = Some p -> head p = Some (ch "/")) ->
    canonical [Some scheme; None; user; password; Some host; port; path; query; fragment]
| can_path scheme path query fragment :
    head path = Some (ch "/") -> take 2 path <> bytes_of_string "//" ->
    canonical [Some scheme; None; None; None; None; None; Some path; query; fragment]
| can_relative path query fragment :
    path <> Some [] ->
    canonical [None; None; None; None; None; None; path; query; fragment].

Definition ascii_field (x : option bytes) : Prop :=
  match x with Some s => Forall ascii_char s | None => True end.

Definition escape_fields (u : fields bytes) : fields bytes :=
  imap (fun f x => option_map (escape f) x) u.

Ltac concrete_in := refine (bool_decide_eq_true_1 _ _); vm_compute; reflexivity.

(** Prefix and text of an optional part. *)
Definition part (c : Z) (f : nat) (x : option bytes) : bytes :=
  match x with Some s => c :: escape f s | None => [] end.

Lemma split_first_app c x y :
  Forall (fun b => b <> c) x -> split_first c (x ++ c :: y) = Some (x, y).
Proof. intros. by apply split_first_Some. Qed.

Lemma split_or_part c f x s :
  Forall (fun b => b <> c) s -> split_or c (s ++ part c f x) = (s, option_map (escape f) x).
Proof.
  intros Hs. unfold split_or. destruct x as [t|]; cbn [part option_map].
  - by rewrite split_first_app.
  - rewrite app_nil_r. by rewrite (proj2 (split_first_None c s)).
Qed.

Lemma part_avoids c f x b :
  (f < 9)%nat -> ascii_field x -> b ∈ escaped_chars f -> c <> b ->
  Forall (fun a => a <> b) (part c f x).
Proof.
  intros Hf Hx Hb Hc. destruct x as [s|]; [|constructor]. constructor; [done|].
  apply escape_avoids; [done|done|by left].
Qed.

Lemma no_params s f x :
  (f < 9)%nat -> Forall (fun b => b <> ch "#") s ->
  ascii_field x -> ch "#" ∈ escaped_chars f ->
  split_sub (bytes_of_string "##params") (s ++ part (ch "#") f x) = None.
Proof.
  intros Hf Hs Hx Hin. destruct (split_sub _ _) as [[a b]|] eqn:E; [|done]. exfalso.
  apply split_sub_Some, (f_equal (fun l => length (filter (fun c => c = ch "#") l))) in E.
  assert (forall l, Forall (fun b => b <> ch "#") l -> filter (fun c => c = ch "#") l = []) as Hnil.
  { intros l Hl. induction Hl as [|c l Hc _ IH]; [done|]. by rewrite filter_cons_False. }
  rewrite !filter_app, !length_app, (Hnil s Hs) in E.
  change (length (filter (fun c => c = ch "#") (bytes_of_string "##params"))) with 2%nat in E.
  destruct x as [t|]; cbn [part] in E; [|cbn in E; lia].
  rewrite filter_cons_True, (Hnil (escape f t)) in E; [cbn in E; lia| |done].
  apply escape_avoids; [done|done|by left].
Qed.

(** Reference parsing of a text with its fragment. *)
Lemma parse_spec_text s x :
  Forall (fun b => b <> ch "#") s -> ascii_field x ->
  parse_spec (s ++ part (ch "#") URI_FRAGMENT x) =
  spec_main s ++ [option_map (escape URI_FRAGMENT) x].
Proof.
  intros Hs Hx. unfold parse_spec. rewrite no_params by (done || lia || concrete_in).
  by rewrite split_or_part.
Qed.

Lemma escape_head f s x :
  (f < 9)%nat -> Forall ascii_char s -> x ∈ special -> head (escape f s) = Some x -> head s = Some x.
Proof.
  intros Hf Hs Hx Hh. destruct Hs as [|c s Hc _]; [done|]. rewrite escape_cons in Hh.
  destruct (decide (c = x)) as [->|Hne]; [done|].
  pose proof (escape_char_special f c x Hf Hc Hx Hne) as Hav.
  destruct (escape_char_shape f c Hf Hc) as [[E _]|(h1 & h2 & E & _)]; rewrite E in *;
    cbn in Hh; simplify_eq; by inv Hav.
Qed.

Lemma escape_char_slash f : f = URI_OPAQUE \/ f = URI_PATH -> escape_char f (ch "/") = [ch "/"].
Proof. by intros [-> | ->]. Qed.

Lemma escape_slashes s :
  Forall ascii_char s -> take 2 (escape URI_PATH s) = bytes_of_string "//" ->
  take 2 s = bytes_of_string "//".
Proof.
  intros Hs E. change (bytes_of_string "//") with [ch "/"; ch "/"] in *.
  assert (head s = Some (ch "/")) as Hh.
  { apply (escape_head URI_PATH); [lia|done|concrete_in|].
    destruct (escape URI_PATH s); [done|]. cbn in E |- *. by simplify_eq. }
  destruct Hs as [|a s Ha Hs]; [done|]. cbn [head] in Hh. simplify_eq.
  rewrite escape_cons, escape_char_slash in E by (by right).
  assert (head s = Some (ch "/")) as Hh.
  { apply (escape_head URI_PATH); [lia|done|concrete_in|].
    destruct (escape URI_PATH s); [done|]. cbn in E |- *. by simplify_eq. }
  destruct s; cbn in Hh; by simplify_eq.
Qed.

Lemma escape_last f s x :
  (f < 9)%nat -> Forall ascii_char s -> x ∈ special -> last (escape f s) = Some x ->
  last s = Some x.
Proof.
  intros Hf Hs Hx Hl. destruct s as [|c s _] using rev_ind; [done|].
  apply Forall_app in Hs as [_ Hc]. inv Hc as [|? ? Hc' _]. rewrite last_snoc.
  destruct (decide (c = x)) as [->|Hne]; [done|].
  pose proof (escape_char_special f c x Hf Hc' Hx Hne) as Hav.
  assert (escape f (s ++ [c]) = escape f s ++ escape_char f c) as E.
  { unfold escape. rewrite flat_map_app. cbn. by rewrite app_nil_r. }
  rewrite E in Hl. exfalso.
  destruct (escape_char f c) as [|y t _] eqn:Et using rev_ind.
  { by destruct (escape_char_shape f c Hf Hc') as [[Es _]|(h1 & h2 & Es & _)]; rewrite Es in Et. }
  rewrite app_assoc, last_snoc in Hl. simplify_eq. apply Forall_app in Hav as [_ Hav]. by inv Hav.
Qed.

Lemma escape_bracket s : last s = Some (ch "]") -> last (escape URI_HOST s) = Some (ch "]").
Proof.
  intros [s' ->]%last_Some. unfold escape. rewrite flat_map_app. cbn [flat_map].
  change (escape_char URI_HOST (ch "]")) with [ch "]"].
  by rewrite app_nil_r, last_snoc.
Qed.

(** *** Reference parsing of formatted text *)

Lemma parse_port_text host port :
  Forall ascii_char host -> ascii_field port ->
  match port with
  | None => Forall (fun b => b <> ch ":") host \/ last host = Some (ch "]")
  | Some p => last p <> Some (ch "]")
  end ->
  spec_port (escape URI_HOST host ++ part (ch ":") URI_PORT port) =
  (escape URI_HOST host, option_map (escape URI_PORT) port).
Proof.
  intros Hh Hp Hok. unfold spec_port. destruct port as [p|]; cbn [part option_map].
  - rewrite (proj2 (split_last_Some _ _ (escape URI_HOST host) (escape URI_PORT p))).
    2:{ split; [done|]. apply escape_avoids; [lia|done|left; concrete_in]. }
    rewrite decide_False; [done|]. rewrite last_app_cons. intros Hl. apply Hok.
    destruct (escape URI_PORT p) as [|x t] eqn:E; [done|]. rewrite last_cons_cons, <- E in Hl.
    by apply (escape_last URI_PORT p (ch "]")); [lia|done|concrete_in|].
  - rewrite app_nil_r. destruct Hok as [Hno|Hbr].
    + rewrite (proj2 (split_last_None _ _)); [done|].
      apply escape_avoids; [lia|done|right; split; [concrete_in|done]].
    + apply escape_bracket in Hbr. destruct (split_last _ _) as [[? ?]|]; [|done].
      by rewrite decide_True.
Qed.

Definition userinfo (user password : option bytes) : bytes :=
  match user with
  | Some us => escape URI_USER us ++ part (ch ":") URI_PASSWORD password ++ [ch "@"]
  | None => []
  end.

Lemma parse_authority_text user password host port :
  ascii_field user -> ascii_field password -> Forall ascii_char host -> ascii_field port ->
  (user = None -> password = None) ->
  match port with
  | None => Forall (fun b => b <> ch ":") host \/ last host = Some (ch "]")
  | Some p => last p <> Some (ch "]")
  end ->
  spec_authority (userinfo user password ++ escape URI_HOST host ++ part (ch ":") URI_PORT port) =
  [option_map (escape URI_USER) user; option_map (escape URI_PASSWORD) password;
   Some (escape URI_HOST host); option_map (escape URI_PORT) port].
Proof.
  intros Hu Hpw Hh Hp Hpu Hok. unfold spec_authority, userinfo. destruct user as [us|].
  - rewrite <- !app_assoc. cbn [app].
    rewrite app_assoc, split_first_app.
    2:{ apply Forall_app; split; [apply escape_avoids; [lia|done|left; concrete_in]|].
        apply part_avoids; [lia|done|concrete_in|done]. }
    rewrite split_or_part by (apply escape_avoids; [lia|done|left; concrete_in]).
    by rewrite parse_port_text.
  - rewrite (Hpu eq_refl). cbn [app].
    rewrite (proj2 (split_first_None _ _)).
    2:{ apply Forall_app; split; [apply escape_avoids; [lia|done|left; concrete_in]|].
        apply part_avoids; [lia|done|concrete_in|done]. }
    by rewrite parse_port_text.
Qed.

Lemma authority_avoids user password host port x :
  ascii_field user -> ascii_field password -> Forall ascii_char host -> ascii_field port ->
  x ∈ [ch "/"; ch "#"; ch "?"] ->
  Forall (fun b => b <> x)
    (userinfo user password ++ escape URI_HOST host ++ part (ch ":") URI_PORT port).
Proof.
  intros Hu Hpw Hh Hp Hx.
  assert (forall f, f ∈ [URI_USER; URI_PASSWORD; URI_HOST; URI_PORT] -> x ∈ escaped_chars f) as Hin.
  { intros f Hf. repeat (apply elem_of_cons in Hf as [->|Hf]); [..|by apply not_elem_of_nil in Hf];
      repeat (apply elem_of_cons in Hx as [->|Hx]); try concrete_in; by apply not_elem_of_nil in Hx. }
  assert (x <> ch ":" /\ x <> ch "@") as [Hc Ha].
  { repeat (apply elem_of_cons in Hx as [->|Hx]); try done. by apply not_elem_of_nil in Hx. }
  repeat (apply Forall_app; split).
  - unfold userinfo. destruct user; [|constructor]. repeat (apply Forall_app; split).
    + apply escape_avoids; [lia|done|left; apply Hin; concrete_in].
    + apply part_avoids; [lia|done|apply Hin; concrete_in|done].
    + by constructor.
  - apply escape_avoids; [lia|done|left; apply Hin; concrete_in].
  - apply part_avoids; [lia|done|apply Hin; concrete_in|done].
Qed.

Definition path_text (path : option bytes) : bytes :=
  match path with Some p => escape URI_PATH p | None => [] end.

Lemma path_text_avoids path x :
  ascii_field path -> x ∈ escaped_chars URI_PATH -> Forall (fun b => b <> x) (path_text path).
Proof.
  intros Hp Hx. destruct path; [|constructor]. apply escape_avoids; [lia|done|by left].
Qed.

Lemma hier_relative path query :
  ascii_field path -> ascii_field query -> path <> Some [] ->
  spec_hier false (path_text path ++ part (ch "?") URI_QUERY query) =
  no_authority ++ [option_map (escape URI_PATH) path; option_map (escape URI_QUERY) query].
Proof.
  intros Hp Hq Hne. unfold spec_hier.
  rewrite split_or_part by (apply path_text_avoids; [done|concrete_in]).
  destruct path as [[|c p]|]; cbn [path_text option_map]; [done| |done].
  destruct (escape URI_PATH (c :: p)) as [|x t] eqn:E; [|done]. rewrite escape_cons in E.
  apply app_eq_nil in E as [E _]. inv Hp as [|? ? Hc _].
  by destruct (escape_char_shape URI_PATH c ltac:(lia) Hc) as [[Es _]|(h1 & h2 & Es & _)];
    rewrite Es in E.
Qed.

Lemma hier_path path query :
  Forall ascii_char path -> ascii_field query ->
  head path = Some (ch "/") -> take 2 path <> bytes_of_string "//" ->
  spec_hier true (escape URI_PATH path ++ part (ch "?") URI_QUERY query) =
  no_authority ++ [Some (escape URI_PATH path); option_map (escape URI_QUERY) query].
Proof.
  intros Hp Hq Hh Hne. unfold spec_hier.
  rewrite split_or_part by (apply (path_text_avoids (Some path)); [done|concrete_in]).
  rewrite bool_decide_false by (by intros E; apply escape_slashes in E).
  destruct path as [|c p]; cbn [head] in Hh; simplify_eq.
  by rewrite escape_cons, escape_char_slash by (by right).
Qed.

Lemma hier_net user password host port path query :
  ascii_field user -> ascii_field password -> Forall ascii_char host -> ascii_field port ->
  ascii_field path -> ascii_field query -> (user = None -> password = None) ->
  match port with
  | None => Forall (fun b => b <> ch ":") host \/ last host = Some (ch "]")
  | Some p => last p <> Some (ch "]")
  end ->
  (forall p, path = Some p -> head p = Some (ch "/")) ->
  spec_hier true
    (bytes_of_string "//" ++
     (userinfo user password ++ escape URI_HOST host ++ part (ch ":") URI_PORT port) ++
     path_text path ++ part (ch "?") URI_QUERY query) =
  [option_map (escape URI_USER) user; option_map (escape URI_PASSWORD) password;
   Some (escape URI_HOST host); option_map (escape URI_PORT) port;
   option_map (escape URI_PATH) path; option_map (escape URI_QUERY) query].
Proof.
  intros Hu Hpw Hh Hp Hpath Hq Hpu Hok Hslash. unfold spec_hier.
  set (auth := userinfo user password ++ escape URI_HOST host ++ part (ch ":") URI_PORT port).
  assert (forall x, x ∈ [ch "/"; ch "#"; ch "?"] -> Forall (fun b => b <> x) auth) as Hauth
    by (intros; by apply authority_avoids).
  replace (bytes_of_string "//" ++ auth ++ path_text path ++ part (ch "?") URI_QUERY query)
    with ((bytes_of_string "//" ++ auth ++ path_text path) ++ part (ch "?") URI_QUERY query)
    by (by rewrite <- !app_assoc).
  rewrite split_or_part.
  2:{ apply Forall_app; split; [|apply Forall_app; split].
      - repeat (constructor; [done|]); constructor.
      - apply Hauth. concrete_in.
      - apply path_text_avoids; [done|concrete_in]. }
  rewrite bool_decide_true by done. cbn [andb].
  change (drop 2 (bytes_of_string "//" ++ auth ++ path_text path)) with (auth ++ path_text path).
  assert (spec_authority auth = [option_map (escape URI_USER) user;
    option_map (escape URI_PASSWORD) password; Some (escape URI_HOST host);
    option_map (escape URI_PORT) port]) as Hsa by (by apply parse_authority_text).
  change (bytes_of_string "//" ++ auth ++ path_text path)
    with (ch "/" :: ch "/" :: auth ++ path_text path). cbv iota.
  destruct path as [p|]; cbn [path_text option_map].
  - specialize (Hslash p eq_refl). destruct p as [|c p]; cbn [head] in Hslash; simplify_eq.
    rewrite escape_cons, escape_char_slash by (by right). cbn [app].
    rewrite split_first_app by (apply Hauth; concrete_in). by rewrite Hsa.
  - rewrite app_nil_r, (proj2 (split_first_None _ _)) by (apply Hauth; concrete_in). by rewrite Hsa.
Qed.

Lemma scheme_main scheme rest :
  Forall ascii_char scheme ->
  spec_main (escape URI_SCHEME scheme ++ ch ":" :: rest) =
  if decide (head rest = Some (ch "/"))
  then [Some (escape URI_SCHEME scheme); None] ++ spec_hier true rest
  else [Some (escape URI_SCHEME scheme); Some rest] ++ no_authority ++ [None; None].
Proof.
  intros Hs. unfold spec_main. rewrite split_first_app; [done|].
  apply escape_avoids; [lia|done|left; concrete_in].
Qed.

Lemma escape_hash f s :
  (f < 9)%nat -> Forall ascii_char s -> Forall (fun b => b <> ch "#") (escape f s).
Proof.
  intros Hf Hs. apply escape_avoids; [done..|left].
  do 9 (destruct f as [|f]; [concrete_in|]). lia.
Qed.

Lemma part_hash c f x :
  (f < 9)%nat -> ascii_field x -> c <> ch "#" -> Forall (fun b => b <> ch "#") (part c f x).
Proof. intros. destruct x; [|constructor]. constructor; [done|]. by apply escape_hash. Qed.

Lemma userinfo_hash user password :
  ascii_field user -> ascii_field password ->
  Forall (fun b => b <> ch "#") (userinfo user password).
Proof.
  intros Hu Hp. destruct user; [|constructor]. cbn [userinfo].
  apply Forall_app; split; [by apply escape_hash; [lia|]|].
  apply Forall_app; split; [by apply part_hash; [lia| |]|]. by constructor.
Qed.

Lemma slashes_hash : Forall (fun b => b <> ch "#") (bytes_of_string "//").
Proof. repeat (constructor; [done|]). constructor. Qed.

Ltac avoid_hash :=
  repeat match goal with
  | |- Forall _ (bytes_of_string "//") => apply slashes_hash
  | |- Forall _ (userinfo _ _) => apply userinfo_hash; done
  | |- Forall _ (path_text _) => apply path_text_avoids; [done|concrete_in]
  | |- Forall _ (_ ++ _) => apply Forall_app; split
  | |- Forall _ (_ :: _) => constructor; [done|]
  | |- Forall _ [] => constructor
  | |- Forall _ (escape _ _) => apply escape_hash; [lia|done]
  | |- Forall _ (part _ _ _) => apply part_hash; [lia|done|done]
  end.

(** The text of a URI from its nine fields. *)
Lemma format_spec_text scheme opaque user password host port path query fragment :
  format_spec [scheme; opaque; user; password; host; port; path; query; fragment] =
  match scheme with
  | Some s => escape URI_SCHEME s ++ ch ":" :: (if is_present host then bytes_of_string "//" else [])
  | None => []
  end ++
  match opaque with Some s => escape URI_OPAQUE s | None => [] end ++
  match user with Some s => escape URI_USER s | None => [] end ++
  part (ch ":") URI_PASSWORD password ++
  match host with
  | Some s => (if is_present user then [ch "@"] else []) ++ escape URI_HOST s | None => [] end ++
  part (ch ":") URI_PORT port ++ path_text path ++ part (ch "?") URI_QUERY query ++
  part (ch "#") URI_FRAGMENT fragment.
Proof.
  unfold format_spec. set (u := [scheme; _; _; _; _; _; _; _; _]).
  change (flat_map (field_text u) (seq 0 URI_FIELDS)) with
    (field_text u 0 ++ field_text u 1 ++ field_text u 2 ++ field_text u 3 ++ field_text u 4 ++
     field_text u 5 ++ field_text u 6 ++ field_text u 7 ++ field_text u 8 ++ []).
  assert (forall c f x, uri_field u f = x -> field_prefix u f = Some c ->
            (f =? URI_SCHEME)%nat = false -> field_text u f = part c f x) as Hpart.
  { intros c f x Hx Hc Hf. unfold field_text. rewrite Hx, Hc, Hf. destruct x; [|done].
    cbn. by rewrite app_nil_r. }
  assert (forall f x, uri_field u f = x -> field_prefix u f = None ->
            (f =? URI_SCHEME)%nat = false ->
            field_text u f = match x with Some s => escape f s | None => [] end) as Hplain.
  { intros f x Hx Hc Hf. unfold field_text. rewrite Hx, Hc, Hf. destruct x; [|done].
    cbn. by rewrite app_nil_r. }
  rewrite app_nil_r, (Hplain 1%nat opaque), (Hplain 2%nat user), (Hpart (ch ":") 3%nat password),
    (Hpart (ch ":") 5%nat port), (Hplain 6%nat path), (Hpart (ch "?") 7%nat query),
    (Hpart (ch "#") 8%nat fragment) by done.
  assert (field_text u 4 = match host with
    | Some s => (if is_present user then [ch "@"] else []) ++ escape URI_HOST s
    | None => [] end) as ->; [|done].
  destruct host as [h|]; [|done]. destruct user as [us|].
  - exact (f_equal (cons _) (app_nil_r _)).
  - exact (app_nil_r _).
Qed.

(** Parsing the text of a canonical URI splits it into its escaped fields. *)
Lemma parse_format_spec u :
  canonical u -> Forall ascii_field u -> parse_spec (format_spec u) = escape_fields u.
Proof.
  destruct 1 as [scheme opaque fragment Hop|scheme user password host port path query fragment
                 Hpu Hok Hsl|scheme path query fragment Hh Hne|path query fragment Hne];
    rewrite !Forall_cons; intros Hall; decompose [and] Hall; clear Hall; cbn [ascii_field] in *;
    rewrite format_spec_text; cbn [is_present part path_text app].
  - rewrite app_assoc, parse_spec_text by (avoid_hash || done).
    rewrite <- app_assoc. cbn [app]. rewrite scheme_main by done.
    rewrite decide_False; [done|]. intros Hd. apply Hop.
    by apply (escape_head URI_OPAQUE opaque (ch "/")); [lia|done|concrete_in|].
  - replace ((escape URI_SCHEME scheme ++ ch ":" :: bytes_of_string "//") ++ _) with
      ((escape URI_SCHEME scheme ++ ch ":" :: bytes_of_string "//" ++
        (userinfo user password ++ escape URI_HOST host ++ part (ch ":") URI_PORT port) ++
        path_text path ++ part (ch "?") URI_QUERY query) ++ part (ch "#") URI_FRAGMENT fragment).
    2:{ destruct user as [us|]; cbn [userinfo is_present]; [|rewrite (Hpu eq_refl)];
          cbn [part]; by app_norm. }
    rewrite parse_spec_text; [|avoid_hash|done].
    rewrite scheme_main by done. rewrite decide_True by done. by rewrite hier_net.
  - rewrite !app_assoc, parse_spec_text by (avoid_hash || done).
    rewrite <- !app_assoc. cbn [app]. rewrite scheme_main, hier_path by done.
    rewrite decide_True; [done|]. destruct path; cbn in Hh; simplify_eq.
    by rewrite escape_cons, escape_char_slash by (by right).
  - rewrite app_assoc, parse_spec_text.
    2:{ destruct path; avoid_hash. } 2:{ done. }
    unfold spec_main. rewrite (proj2 (split_first_None _ _)).
    + by rewrite hier_relative.
    + apply Forall_app; split; [apply path_text_avoids; [done|concrete_in]|].
      apply part_avoids; [lia|done|concrete_in|done].
Qed.

Lemma canonical_length u : canonical u -> length u = 9%nat.
Proof. by destruct 1. Qed.

(** No formatted text names a parameter list. *)
Lemma format_spec_params u :
  length u = 9%nat -> Forall ascii_field u ->
  split_sub (bytes_of_string "##params") (format_spec u) = None.
Proof.
  intros Hlen. do 9 (destruct u as [|? u]; [done|]). destruct u; [|done].
  rewrite !Forall_cons. intros Hall; decompose [and] Hall; clear Hall.
  rewrite format_spec_text, !app_assoc. apply no_params; [lia| |done|concrete_in].
  repeat case_match; cbn [ascii_field] in *; avoid_hash.
Qed.

(** Decoding undoes the escaping of every field. *)
Lemma decode_escape_fields lb u :
  8 <= lb -> length u = 9%nat -> Forall ascii_field u ->
  option_map (fun f => upto_nul (unescape lb f)) <$> escape_fields u = u.
Proof.
  intros Hlb Hlen Hu. apply list_eq. intros i. unfold escape_fields.
  rewrite list_lookup_fmap, list_lookup_imap.
  destruct (u !! i) as [x|] eqn:E; [|done]. cbn. f_equal.
  destruct x as [s|]; [|done]. cbn. f_equal. apply lookup_lt_Some in E as Hi.
  rewrite Forall_lookup in Hu. specialize (Hu _ _ E). cbn in Hu.
  by rewrite unescape_escape, upto_nul_id by (done || lia).
Qed.

(** ** Path resolution *)

(** An absolute path from its elements. *)
Definition join (segs : list bytes) : bytes := flat_map (cons (ch "/")) segs.
Definition dir_text (segs : list bytes) : bytes :=
  match segs with [] => [ch "/"] | _ => join segs end.

Lemma join_take_length n segs segs' : zlen (join (take n segs)) <= zlen (join (segs ++ segs')).
Proof.
  unfold join. rewrite <- (take_drop n segs) at 2. rewrite !flat_map_app, !length_app. lia.
Qed.

Definition no_slash (s : bytes) : Prop := Forall (fun b => b <> ch "/") s.

Lemma join_snoc segs s : join (segs ++ [s]) = join segs ++ ch "/" :: s.
Proof. unfold join. rewrite flat_map_app. cbn. by rewrite app_nil_r. Qed.

Lemma dirname_join segs s : no_slash s -> dirname (join (segs ++ [s])) = dir_text segs.
Proof.
  intros Hs. unfold dirname. rewrite join_snoc.
  rewrite (proj2 (split_last_Some _ _ (join segs) s)) by done. by destruct segs.
Qed.

Lemma dirname_root : dirname (dir_text []) = dir_text [].
Proof. done. Qed.

(** Leading ["./"] ([false]) and ["../"] ([true]) elements. *)
Definition dots (ds : list bool) : bytes :=
  flat_map (fun up : bool => if up then bytes_of_string "../" else bytes_of_string "./") ds.

Lemma dots_length ds : (length ds <= length (dots ds))%nat.
Proof.
  induction ds as [|up ds IH]; [done|]. unfold dots in *. cbn [flat_map length].
  rewrite length_app. destruct up;
    [change (length (bytes_of_string "../")) with 3%nat
    |change (length (bytes_of_string "./")) with 2%nat]; lia.
Qed.

Definition ups (ds : list bool) : nat := length (filter (fun up => up = true) ds).

Lemma resolve_dots_ok ds fuel segs rest :
  Forall no_slash segs -> head rest <> Some (ch ".") ->
  (length ds < fuel)%nat ->
  resolve_dots fuel (dir_text segs) (dots ds ++ rest) =
  Ok (dir_text (take (length segs - ups ds) segs), rest).
Proof.
  intros Hsegs Hrest. revert fuel segs Hsegs. induction ds as [|up ds IH]; intros fuel segs Hsegs Hf.
  - destruct fuel as [|fuel]; [cbn in Hf; lia|]. cbn [dots flat_map app ups].
    change (length segs - length (filter (fun up => up = true) []))%nat with (length segs - 0)%nat.
    rewrite Nat.sub_0_r, firstn_all. destruct rest as [|c rest]; [done|]. cbn [resolve_dots].
    rewrite (proj2 (Z.eqb_neq c _)); [done|]. cbn [head] in Hrest. congruence.
  - destruct fuel as [|fuel]; [cbn in Hf; lia|]. cbn [length] in Hf. destruct up.
    + change (dots (true :: ds) ++ rest) with (ch "." :: ch "." :: ch "/" :: dots ds ++ rest).
      cbn [resolve_dots]. rewrite !Z.eqb_refl. change (ch "." =? ch "/") with false. cbv iota.
      change (ups (true :: ds)) with (S (ups ds)).
      destruct segs as [|x segs _] using rev_ind.
      { rewrite dirname_root, IH by (done || lia). by rewrite !take_nil. }
      apply Forall_app in Hsegs as [Hsegs Hx]. inv Hx as [|? ? Hx' _].
      replace (dirname (dir_text (segs ++ [x]))) with (dir_text segs).
      2:{ symmetry. replace (dir_text (segs ++ [x])) with (join (segs ++ [x])) by (by destruct segs).
          by apply dirname_join. }
      rewrite IH by (done || lia). rewrite length_app. cbn [length].
      rewrite take_app_le by lia. do 4 f_equal. lia.
    + change (dots (false :: ds) ++ rest) with (ch "." :: ch "/" :: dots ds ++ rest).
      cbn [resolve_dots]. rewrite !Z.eqb_refl.
      change (ups (false :: ds)) with (ups ds). rewrite IH by (done || lia). done.
Qed.

Lemma join_last segs s :
  no_slash s -> s <> [] -> exists x, last (join (segs ++ [s])) = Some x /\ x <> ch "/".
Proof.
  intros Hs Hne. destruct s as [|x s _] using rev_ind; [done|]. exists x.
  rewrite join_snoc, app_comm_cons, app_assoc, last_snoc. split; [done|].
  apply Forall_app in Hs as [_ Hs]. by inv Hs.
Qed.

Lemma rd_last s x : last s = Some x -> rd s (zlen s - 1) = Ok x.
Proof.
  intros [s' ->]%last_Some. rewrite length_app. cbn [length].
  rewrite rd_app_r by (done || lia). done.
Qed.

(** ** Properties *)

(** C8. Parsing in place is exact: for every string, the parser, which cuts one
    copy of the string with terminators, shuffles the authority over a slash and
    decodes every field in place, stays inside its memory and yields exactly the
    decoded fields of the reference split, and claims the named parameter list
    (the only way it can go wrong is the name comparison of [find_parameters]). *)
Theorem parse_uri_correct lb alloc ps s :
  Forall (fun c => c <> 0) s -> alloc (sizeof_uri lb + (zlen s + 1)) = true ->
  parse_uri lb alloc ps s =
  pp ← spec_params ps s; Ok (Some {| u_fields := decoded_fields lb s; u_params := pp.1 |}, pp.2).
Proof. apply parse_uri_spec. Qed.

(** Formatting into a bounded buffer: whatever the size of the buffer,
    [format_uri] returns the length of the whole text, and stores exactly its first
    [len - 1] characters followed by a terminator. *)
Theorem format_uri_bounded lb u mem len :
  32 <= lb -> 0 <= len <= zlen mem ->
  (forall field s, uri_field (u_fields u) field = Some s -> Forall is_byte s) ->
  exists mem', format_uri lb (Some u) mem len = Ok (mem', zlen (format_spec (u_fields u))) /\
  length mem' = length mem /\
  (0 < len -> exists R, mem' = take (Z.to_nat (len - 1)) (format_spec (u_fields u)) ++ 0 :: R).
Proof.
  intros Hlb Hlen Hb. destruct (format_uri_ok lb Hlb u mem len Hlen Hb) as (mem' & E & [_ Hbuf] & Hl).
  by exists mem'.
Qed.

Lemma ascii_field_byte u :
  Forall ascii_field u -> forall field s, uri_field u field = Some s -> Forall is_byte s.
Proof.
  intros Hu field s Hs. unfold uri_field in Hs. destruct (u !! field) as [x|] eqn:E; [|done].
  cbn in Hs. subst x. rewrite Forall_lookup in Hu. specialize (Hu _ _ E). cbn in Hu.
  eapply Forall_impl; [exact Hu|]. unfold ascii_char, in_range. intros c Hc. lia.
Qed.

(** C23. Round trip: the text that [format_uri_alloc] produces for a canonical URI
    of 7-bit characters is parsed by [parse_uri] back to the same nine fields,
    whatever characters (percent signs, separators, control characters) the fields
    contain. *)
Theorem uri_roundtrip lb alloc ps u :
  32 <= lb -> (forall n, alloc n = true) ->
  canonical (u_fields u) -> Forall ascii_field (u_fields u) ->
  exists s, format_uri_alloc lb alloc (Some u) = Ok (Some s) /\
  parse_uri lb alloc ps s = Ok (Some {| u_fields := u_fields u; u_params := None |}, ps).
Proof.
  intros Hlb Hal Hcan Hasc. set (s := format_spec (u_fields u)).
  pose proof (format_spec_nonzero (u_fields u)) as Hnz. fold s in Hnz.
  pose proof (ascii_field_byte _ Hasc) as Hb. exists s. split.
  - unfold format_uri_alloc.
    destruct (format_uri_ok lb Hlb u [] 0) as (m0 & -> & _); [cbn; lia|done|].
    cbn [mbind res_bind]. fold s. rewrite Hal.
    destruct (format_uri_ok lb Hlb u (replicate (Z.to_nat (zlen s + 1)) 0) (zlen s + 1))
      as (mem & -> & Hbuf & _); [rewrite length_replicate; lia|done|]. cbn [mbind res_bind].
    by rewrite (buffer_string _ _ s Hbuf) by (done || lia).
  - rewrite parse_uri_spec by done. pose proof (parse_format_spec _ Hcan Hasc) as Hparse.
    fold s in Hparse.
    pose proof (format_spec_params _ (canonical_length _ Hcan) Hasc) as Hno. fold s in Hno.
    unfold spec_params. rewrite Hno.
    cbn [mbind res_bind fst snd]. do 3 f_equal. unfold decoded_fields. rewrite Hparse.
    f_equal. by apply decode_escape_fields; [lia|apply canonical_length|].
Qed.

(** Path resolution: for a base path given by its elements and a relative path
    that starts with any sequence of ["./"] and ["../"] elements, [resolve_path]
    drops the last element of the base and one more for each ["../"] (never above
    the root) and appends the rest (the whole path being shorter than 2^31 - 1
    characters, the most that [asprintf] can allocate). *)
Theorem resolve_path_dots lb alloc segs file ds rest :
  32 <= lb -> zlen (join (segs ++ [file])) + zlen rest + 1 < 2 ^ 31 - 1 -> (forall n, alloc n = true) ->
  Forall (fun s => no_slash s /\ s <> [] /\ Forall (fun c => c <> 0) s) segs -> no_slash file ->
  head rest <> Some (ch ".") -> (ds = [] -> head rest <> Some (ch "/")) ->
  Forall (fun c => c <> 0) rest ->
  resolve_path lb alloc (join (segs ++ [file])) (dots ds ++ rest) =
  Ok (Some (join (take (length segs - ups ds) segs) ++ ch "/" :: rest)).
Proof.
  intros Hlb Hlong Hal Hsegs Hfile Hdot Habs Hrest. unfold resolve_path.
  replace (match dots ds ++ rest with c :: _ => c =? ch "/" | [] => false end) with false.
  2:{ symmetry. destruct ds as [|[] ds]; [|done|done]. specialize (Habs eq_refl).
      destruct rest as [|c rest]; [done|]. cbn [dots flat_map app head] in *. apply Z.eqb_neq. congruence. }
  rewrite Hal. cbn [negb]. rewrite dirname_join by done.
  assert (length ds <= length (dots ds ++ rest))%nat as Hfuel.
  { rewrite length_app. pose proof (dots_length ds). lia. }
  rewrite resolve_dots_ok; [|eapply Forall_impl; [exact Hsegs|by intros s []]|done|lia].
  cbn [mbind res_bind]. set (ss := take (length segs - ups ds) segs).
  assert (Forall (fun s => no_slash s /\ s <> [] /\ Forall (fun c => c <> 0) s) ss) as Hss
    by (by apply Forall_take).
  assert (exists x, last (dir_text ss) = Some x /\
    dir_text ss ++ (if x =? ch "/" then [] else bytes_of_string "/") = join ss ++ [ch "/"])
    as (x & Hx & Htxt).
  { destruct ss as [|z zs _] using rev_ind; [by exists (ch "/")|].
    apply Forall_app in Hss as [_ Hz]. inv Hz as [|? ? (Hz1 & Hz2 & _) _].
    destruct (join_last zs z Hz1 Hz2) as (x & Hl & Hne). exists x.
    replace (dir_text (zs ++ [z])) with (join (zs ++ [z])) by (by destruct zs).
    split; [done|]. by rewrite (proj2 (Z.eqb_neq _ _)). }
  rewrite (rd_last _ _ Hx). cbn [mbind res_bind].
  rewrite (vasprintf_text _ _ _ _ _ Hlb (vcprintf_sss lb _ _ _)).
  - rewrite Hal, app_assoc, Htxt, <- app_assoc. done.
  - rewrite app_assoc, Htxt, <- app_assoc. apply Forall_app; split; [|by constructor].
    clear -Hss. induction Hss as [|s ss (_ & _ & Hs) _ IH]; [constructor|].
    constructor; [done|]. by apply Forall_app.
  - rewrite app_assoc, Htxt, <- app_assoc, length_app. cbn [app length].
    pose proof (join_take_length (length segs - ups ds) segs [file]). fold ss in H. lia.
Qed.

(** ** Copying and resolution of URIs *)

Definition nonzero_field (x : option bytes) : Prop :=
  match x with Some s => Forall (fun c => c <> 0) s | None => True end.

(** The copy's area extends the previous one, and its fields read back. *)
Lemma uri_copy_fields_ok src out :
  Forall nonzero_field src ->
  exists ext, (uri_copy_fields src out).1 = out ++ ext /\
  forall R, read_fields (out ++ ext ++ R) (uri_copy_fields src out).2 = Ok src.
Proof.
  intros Hsrc. revert out. induction Hsrc as [|x src Hx _ IH]; intros out.
  { exists []. cbn. by rewrite app_nil_r. }
  destruct x as [s|]; cbn [uri_copy_fields].
  - destruct (IH (out ++ s ++ [0])) as (ext & E & Hread).
    destruct (uri_copy_fields src (out ++ s ++ [0])) as [area dest]. cbn [fst snd] in *.
    exists (s ++ [0] ++ ext). split; [rewrite E; by app_norm|]. intros R. cbn [read_fields].
    rewrite (string_at_str _ _ s).
    2:{ replace (out ++ (s ++ [0] ++ ext) ++ R) with (out ++ s ++ 0 :: ext ++ R) by (by app_norm).
        by apply str_at_intro. }
    cbn [mbind res_bind fmap res_fmap]. specialize (Hread R).
    replace (out ++ (s ++ [0] ++ ext) ++ R) with ((out ++ s ++ [0]) ++ ext ++ R) by (by app_norm).
    by rewrite Hread.
  - destruct (IH out) as (ext & E & Hread).
    destruct (uri_copy_fields src out) as [area dest]. cbn [fst snd] in *.
    exists ext. split; [done|]. intros R. cbn [read_fields mbind res_bind]. by rewrite Hread.
Qed.

Lemma uri_dup_ok lb alloc u :
  (forall n, alloc n = true) -> Forall nonzero_field (u_fields u) ->
  uri_dup lb alloc u = Ok (Some u).
Proof.
  intros Hal Hnz. unfold uri_dup.
  destruct (uri_copy_fields_ok (u_fields u) [] Hnz) as (ext & E & Hread).
  destruct (uri_copy_fields (u_fields u) []) as [area dest]. cbn [fst snd app] in *. subst area.
  rewrite Hal. specialize (Hread []). rewrite app_nil_r in Hread. rewrite Hread. by destruct u.
Qed.

(** Resolution of a relative URI that has a path: the result has the scheme,
    opaque part and authority of the base, the path resolved against the base's
    path (or the root), and the query, fragment and parameters of the relative
    URI; an absolute URI is returned unchanged. *)
Theorem resolve_uri_path lb alloc base rel path resolved :
  (forall n, alloc n = true) -> length (u_fields base) = 9%nat ->
  Forall nonzero_field (u_fields base) -> Forall nonzero_field (u_fields rel) ->
  Forall (fun c => c <> 0) resolved ->
  uri_field (u_fields rel) URI_PATH = Some path ->
  resolve_path lb alloc (default (bytes_of_string "/") (uri_field (u_fields base) URI_PATH)) path
  = Ok (Some resolved) ->
  resolve_uri lb alloc (Some base) rel =
  Ok (Some (if uri_is_absolute rel then rel else
            {| u_fields := take 6 (u_fields base) ++
                 [Some resolved; uri_field (u_fields rel) URI_QUERY;
                  uri_field (u_fields rel) URI_FRAGMENT];
               u_params := u_params rel |})).
Proof.
  intros Hal Hlen Hbase Hrel Hres Hpath Hresolved. unfold resolve_uri.
  destruct (uri_is_absolute rel); [done|]. rewrite Hpath, Hresolved. cbn [mbind res_bind].
  assert (forall f, nonzero_field (uri_field (u_fields rel) f)) as Hf.
  { intros f. unfold uri_field. destruct (u_fields rel !! f) as [x|] eqn:E; [|done].
    rewrite Forall_lookup in Hrel. exact (Hrel _ _ E). }
  rewrite uri_dup_ok; [|done|].
  - do 3 f_equal. destruct base as [fs ps]. cbn [u_fields] in *.
    do 9 (destruct fs as [|? fs]; [done|]). by destruct fs.
  - cbn [u_fields]. unfold put_field. repeat apply Forall_insert; [done|apply Hf|apply Hf|done].
Qed.

(** Bytes above 127 are not round-tripped: as [char] is signed, the escape
    sequence of such a byte is a percent sign and eight digits, nine characters
    that decode to seven bytes. *)
Theorem uri_encode_high_byte lb field c :
  lb = 32 \/ lb = 64 -> (field < 9)%nat -> 128 <= c < 256 ->
  exists mem mem', uri_encode lb (replicate 16 0) field [c] 0 16 = Ok (mem, 9) /\
  uri_decode lb mem 0 0 16 = Ok (mem', 7).
Proof.
  intros Hlb Hf Hc.
  assert (forall lb, lb ∈ [32; 64] -> forallb (fun f => forallb (fun c =>
    match uri_encode lb (replicate 16 0) f [c] 0 16 with
    | Ok (mem, n) => (n =? 9) && match uri_decode lb mem 0 0 16 with
                                 | Ok (_, m) => m =? 7 | _ => false end
    | _ => false end) (seqZ 128 128)) (seq 0 9) = true) as Hcheck.
  { apply Forall_forall. repeat (constructor; [by vm_compute|]). constructor. }
  specialize (Hcheck lb). assert (lb ∈ [32; 64]) as Hin
    by (destruct Hlb as [-> | ->]; [left|right; left]).
  specialize (Hcheck Hin).
  apply (forallb_elem _ _ field) in Hcheck; [|apply elem_of_seq; lia].
  apply (forallb_elem _ _ c) in Hcheck; [|apply elem_of_seqZ; lia]. cbv beta in Hcheck.
  destruct (uri_encode lb (replicate 16 0) field [c] 0 16) as [[mem n]| |]; [|done|done].
  apply andb_true_iff in Hcheck as [Hn Hm].
  destruct (uri_decode lb mem 0 0 16) as [[mem' m]| |] eqn:Ed; [|done|done].
  exists mem, mem'. apply Z.eqb_eq in Hn, Hm. by subst.
Qed.

(** ** Concrete instances *)

Section Examples.

Lemma parse_uri_correct_witness :
  parse_uri 32 (fun _ => true) [] (bytes_of_string "http://h/a%20b") =
  pp ← spec_params [] (bytes_of_string "http://h/a%20b");
  Ok (Some {| u_fields := decoded_fields 32 (bytes_of_string "http://h/a%20b");
              u_params := pp.1 |}, pp.2).
Proof.
  apply (parse_uri_correct 32 (fun _ => true) [] (bytes_of_string "http://h/a%20b"));
    [|reflexivity]. repeat (constructor; [discriminate|]). constructor.
Defined.

Definition ex_uri : uri :=
  {| u_fields := [Some (bytes_of_string "http"); None; Some (bytes_of_string "me@x"); None;
                  Some (bytes_of_string "h"); Some (bytes_of_string "80");
                  Some (bytes_of_string "/a b"); None; Some (bytes_of_string "f#g")];
     u_params := None |}.

Lemma ex_uri_ascii : Forall ascii_field (u_fields ex_uri).
Proof.
  repeat (constructor; [first [exact I | cbn [ascii_field];
    repeat (constructor; [unfold ascii_char; vm_compute; split; reflexivity|]); constructor]|]).
  constructor.
Defined.

Lemma format_uri_bounded_witness :
  exists mem', format_uri 32 (Some ex_uri) (replicate 10 0) 10
    = Ok (mem', zlen (format_spec (u_fields ex_uri))) /\ length mem' = 10%nat /\
  (0 < 10 -> exists R, mem' = take (Z.to_nat (10 - 1)) (format_spec (u_fields ex_uri)) ++ 0 :: R).
Proof.
  apply (format_uri_bounded 32 ex_uri (replicate 10 0) 10); [lia|cbn; lia|].
  apply ascii_field_byte, ex_uri_ascii.
Defined.

Lemma uri_roundtrip_witness :
  exists s, format_uri_alloc 32 (fun _ => true) (Some ex_uri) = Ok (Some s) /\
  parse_uri 32 (fun _ => true) [] s
  = Ok (Some {| u_fields := u_fields ex_uri; u_params := None |}, []).
Proof.
  apply (uri_roundtrip 32 (fun _ => true) [] ex_uri); [lia|reflexivity| |apply ex_uri_ascii].
  apply can_net; [discriminate|discriminate|]. intros p [= <-]. reflexivity.
Defined.

Lemma resolve_path_dots_witness :
  resolve_path 32 (fun _ => true) (bytes_of_string "/kernels/vmlinuz")
    (bytes_of_string "../initrds/initrd.gz")
  = Ok (Some (bytes_of_string "/initrds/initrd.gz")).
Proof.
  apply (resolve_path_dots 32 (fun _ => true) [bytes_of_string "kernels"]
           (bytes_of_string "vmlinuz") [true] (bytes_of_string "initrds/initrd.gz"));
    [lia|vm_compute; reflexivity|reflexivity| | |discriminate|discriminate|];
    unfold no_slash; repeat first [constructor; [first [discriminate|split; [|split]]|]
                                  |constructor|discriminate].
Defined.

Lemma resolve_uri_path_witness :
  resolve_uri 32 (fun _ => true) (Some ex_uri)
    {| u_fields := put_field URI_PATH (Some (bytes_of_string "c")) no_fields; u_params := None |}
  = Ok (Some {| u_fields := take 6 (u_fields ex_uri) ++ [Some (bytes_of_string "/c"); None; None];
                u_params := None |}).
Proof.
  apply (resolve_uri_path 32 (fun _ => true) ex_uri
    {| u_fields := put_field URI_PATH (Some (bytes_of_string "c")) no_fields; u_params := None |}
    (bytes_of_string "c") (bytes_of_string "/c"));
    [reflexivity|reflexivity| | | |reflexivity|reflexivity].
  - repeat (constructor; [first [exact I | cbn [nonzero_field];
      repeat (constructor; [discriminate|]); constructor]|]). constructor.
  - repeat (constructor; [first [exact I | cbn [nonzero_field];
      repeat (constructor; [discriminate|]); constructor]|]). constructor.
  - repeat (constructor; [discriminate|]). constructor.
Defined.

Lemma uri_encode_high_byte_witness :
  exists mem mem', uri_encode 32 (replicate 16 0) URI_PATH [200] 0 16 = Ok (mem, 9) /\
  uri_decode 32 mem 0 0 16 = Ok (mem', 7).
Proof. apply (uri_encode_high_byte 32 URI_PATH 200); [by left|lia|lia]. Defined.
End Examples.
