(* ===== verification/Tcpip.v ===== *)
(** * TCP/IP checksums and ports ([net/tcpip.c])

    The portable checksum loop [generic_tcpip_continue_chksum], the x86
    routine of [arch/x86/core/x86_tcpip.c] instruction by instruction, and the
    allocation of local ports.  Byte order is that of the little-endian builds (x86, ARM). *)

From Stdlib Require Import ZArith Zpow_facts Lia Bool ZifyBool.
From stdpp Require Import base numbers list.
From S2P Require Import Prelude Heap.

Local Open Scope Z_scope.

(** ** The portable checksum *)

Abbreviation TCPIP_EMPTY_CSUM := (0x0000).

(** One iteration for the byte [b] at index [i]: odd bytes are swapped. *)
Definition chksum_step (i : Z) (cksum b : Z) : Z :=
  let value := if Z.odd i then Z.shiftl b 8 else b in
  let cksum := cksum + value in
  if 0xffff <? cksum then cksum - 0xffff else cksum.

Fixpoint chksum_loop (i : Z) (data : bytes) (cksum : Z) : Z :=
  match data with
  | [] => cksum
  | b :: data' => chksum_loop (i + 1) data' (chksum_step i cksum b)
  end.

Definition generic_tcpip_continue_chksum (partial : Z) (data : bytes) : Z :=
  u16 (Z.lnot (chksum_loop 0 data (Z.land (Z.lnot partial) 0xffff))).

Definition tcpip_chksum (data : bytes) : Z :=
  generic_tcpip_continue_chksum TCPIP_EMPTY_CSUM data.

(** ** The x86 checksum

    The machine state is the accumulator (operand 0), the carry flag, and the
    bytes from the source pointer (operand 1) to the end of the object. *)

Definition le_value (l : bytes) : Z := foldr (fun b acc => b + 256 * acc) 0 l.

Definition adc_state : Type := Z * Z.

(** [adcw]/[adc] on the low [k] bits of the accumulator. *)
Definition adc (k : Z) (s : adc_state) (x : Z) : adc_state :=
  let '(sum, cf) := s in
  let low := sum mod 2 ^ k in
  let t := low + x + cf in
  (sum - low + t mod 2 ^ k, t / 2 ^ k).

(** [adcb (%1), %b0; adcb $0, %h0] *)
Definition adcb_final (s : adc_state) (b : Z) : adc_state :=
  let '(sum, cf) := adc 8 s b in
  let h := Z.shiftr sum 8 mod 2 ^ 8 in
  let t := h + cf in
  (sum - Z.shiftl h 8 + Z.shiftl (t mod 2 ^ 8) 8, t / 2 ^ 8).

(** [lods] of [k] bits: the value read and the advanced pointer. *)
Definition lods (k : Z) (data : bytes) : res (Z * bytes) :=
  if zlen data <? k / 8 then Trap
  else Ok (le_value (take (Z.to_nat (k / 8)) data), drop (Z.to_nat (k / 8)) data).

(** [count] consecutive [lods; adc] pairs. *)
Fixpoint lods_adc (k : Z) (count : nat) (data : bytes) (s : adc_state)
    : res (bytes * adc_state) :=
  match count with
  | O => Ok (data, s)
  | S count' =>
      '(x, data) ← lods k data;
      lods_adc k count' data (adc k s x)
  end.

(** The body of the main loop, unrolled sixteen times. *)
Fixpoint lods_adc_x16 (k : Z) (count : nat) (data : bytes) (s : adc_state)
    : res (bytes * adc_state) :=
  match count with
  | O => Ok (data, s)
  | S count' =>
      '(data, s) ← lods_adc k 16 data s;
      lods_adc_x16 k count' data s
  end.

(** The successive [popw; adcw] of the 16-bit words of the pushed
    accumulator, then the two [adcw $0]. *)
Definition fold_words (W : Z) (s : adc_state) : Z :=
  let '(sum, cf) := s in
  let word i := Z.shiftr sum (16 * i) mod 2 ^ 16 in
  let s := adc 16 (word 0, cf) (word 1) in
  let s := if 32 <? W then adc 16 (adc 16 s (word 2)) (word 3) else s in
  let s := adc 16 (adc 16 s 0) 0 in
  s.1.

Section x86.
Context {P : Platform}.

Definition sizeof_sum : Z := word_bits / 8.

Definition x86_tcpip_continue_chksum (partial addr : Z) (data : bytes) : res Z :=
  let sum := Z.land (Z.lnot partial) 0xffff in
  let len := zlen data in
  let initial_word_count :=
    if sizeof_sum <=? len
    then Z.shiftr (Z.land (wrap word_bits (- addr)) (sizeof_sum - 1)) 1 else 0 in
  let len := len - initial_word_count * 2 in
  let loop_count := len / (sizeof_sum * 16) in
  let loop_partial_count := (len mod (sizeof_sum * 16)) / sizeof_sum in
  let final_word_count := (len mod sizeof_sum) / 2 in
  let final_byte := Z.land len 1 in
  '(data, s) ← lods_adc 16 (Z.to_nat initial_word_count) data (sum, 0);
  '(data, s) ← lods_adc word_bits (Z.to_nat loop_partial_count) data s;
  '(data, s) ← lods_adc_x16 word_bits (Z.to_nat loop_count) data s;
  '(data, s) ← lods_adc 16 (Z.to_nat final_word_count) data s;
  s ← (if final_byte =? 0 then Ok s else b ← rd data 0; Ok (adcb_final s b));
  Ok (Z.land (Z.lnot (fold_words word_bits s)) 0xffff).

End x86.

(** ** Local ports *)

Abbreviation TCPIP_BIND_PRIVILEGED := (0x0400).

Record sockaddr_tcpip := SockaddrTcpip {
  st_family : Z;
  st_flags : Z;
  st_port : Z    (* in host byte order *)
}.

(** The search loop; [n] iterations remain. *)
Fixpoint bind_loop (available : Z -> res Z) (offset min_port max_port : Z)
    (i : Z) (n : nat) : res Z :=
  match n with
  | O => Err EADDRINUSE
  | S n' =>
      let try_port := u16 (Z.land (u32 (i + offset)) max_port) in
      if try_port <? min_port
      then bind_loop available offset min_port max_port (i + 1) n'
      else
        match available try_port with
        | Err _ => bind_loop available offset min_port max_port (i + 1) n'
        | Ok _ => Ok try_port
        | Trap => Trap
        end
  end.

(** [random] is the value the generator returns at this call. *)
Definition tcpip_bind (random : Z) (st_local : option sockaddr_tcpip)
    (available : Z -> res Z) : res Z :=
  let flags := from_option st_flags 0 st_local in
  let try_port := from_option st_port 0 st_local in
  if negb (try_port =? 0) then available try_port
  else
    let min_port := u16 (Z.land (Z.lnot flags) TCPIP_BIND_PRIVILEGED + 1) in
    let max_port := u16 (Z.land flags TCPIP_BIND_PRIVILEGED - 1) in
    bind_loop available (u32 random) min_port max_port 0 (Z.to_nat (max_port + 1)).

(** ** One's-complement sums

    [a] and [b] are equivalent when they agree modulo 0xffff and are zero
    together: such sums have the same 16-bit one's-complement representation. *)

Definition oc_eq (a b : Z) : Prop := a mod 0xffff = b mod 0xffff /\ (a = 0 <-> b = 0).

#[global] Instance oc_eq_equivalence : Equivalence oc_eq.
Proof.
  split.
  - by intros a.
  - intros a b [Hm Hz]. split; [done | tauto].
  - intros a b c [Hm Hz] [Hm' Hz']. split; [congruence | tauto].
Qed.

Lemma oc_eq_range a b : 0 <= a <= 0xffff -> 0 <= b <= 0xffff -> oc_eq a b -> a = b.
Proof.
  intros Ha Hb [Hm Hz].
  destruct (decide (a = 0xffff)), (decide (b = 0xffff)); [lia | | |].
  - subst a. rewrite Z_mod_same_full, Z.mod_small in Hm by lia. lia.
  - subst b. rewrite Z_mod_same_full, Z.mod_small in Hm by lia. lia.
  - rewrite !Z.mod_small in Hm by lia. done.
Qed.

Lemma oc_eq_plus a b c : 0 <= a -> 0 <= b -> 0 <= c -> oc_eq a b -> oc_eq (a + c) (b + c).
Proof.
  intros Ha Hb Hc [Hm Hz]. split; [by rewrite <- Zplus_mod_idemp_l, Hm, Zplus_mod_idemp_l | lia].
Qed.

(** Moving a carry out of bit [16 k] down to bit 0. *)
Lemma oc_eq_carry a c k :
  0 <= a -> 0 <= c -> 0 <= k -> oc_eq (a + c * 2 ^ (16 * k)) (a + c).
Proof.
  intros Ha Hc Hk. assert (H1 : (2 ^ (16 * k)) mod 0xffff = 1).
  { rewrite Z.pow_mul_r by lia. change (2 ^ 16) with (1 + 1 * 0xffff).
    rewrite Zpower_mod, Z_mod_plus_full by lia.
    change (1 mod 0xffff) with 1. by rewrite Z.pow_1_l by lia. }
  assert (0 < 2 ^ (16 * k)) by (apply pow2_pos; lia).
  split; [| nia]. rewrite <- Zplus_mod_idemp_r, <- Zmult_mod_idemp_r, H1, Z.mul_1_r.
  apply Zplus_mod_idemp_r.
Qed.

(** The sum of the 16-bit little-endian words of a block, an odd final byte
    being padded with a zero. *)
Fixpoint word_sum (data : bytes) : Z :=
  match data with
  | [] => 0
  | [a] => a
  | a :: b :: data' => a + 256 * b + word_sum data'
  end.

Lemma byte_list_ind (Q : bytes -> Prop) :
  Q [] -> (forall a, Q [a]) -> (forall a b l, Q l -> Q (a :: b :: l)) -> forall l, Q l.
Proof.
  intros H0 H1 H2. fix IH 1. intros [|a [|b l]]; [done | done |]. apply H2, IH.
Qed.

Lemma word_sum_nonneg data : Forall is_byte data -> 0 <= word_sum data.
Proof.
  induction data as [| a | a b l IH] using byte_list_ind; intros H; cbn; [lia | |].
  - apply Forall_inv in H. unfold in_range in H. lia.
  - rewrite !Forall_cons in H. destruct H as (Ha & Hb & Hl).
    specialize (IH Hl). unfold in_range in *. lia.
Qed.

Lemma word_sum_app l1 l2 :
  Nat.Even (length l1) -> word_sum (l1 ++ l2) = word_sum l1 + word_sum l2.
Proof.
  induction l1 as [| a | a b l IH] using byte_list_ind; intros H; cbn [app word_sum].
  - lia.
  - destruct H as [k H]. cbn in H. lia.
  - rewrite IH; [lia |]. destruct H as [k H]. cbn in H. exists (pred k). lia.
Qed.

(** ** The portable loop computes the one's-complement sum *)

Lemma chksum_step_ok i cksum b :
  0 <= cksum <= 0xffff -> is_byte b ->
  let v := if Z.odd i then 256 * b else b in
  0 <= chksum_step i cksum b <= 0xffff /\ oc_eq (chksum_step i cksum b) (cksum + v).
Proof.
  intros Hc Hb v. unfold chksum_step, in_range in *. rewrite Z.shiftl_mul_pow2 by lia.
  replace (if Z.odd i then b * 2 ^ 8 else b) with v by (subst v; case_if; lia).
  assert (0 <= v <= 0xff00) by (subst v; case_if; lia). case_if.
  - split; [lia |]. split; [| lia].
    symmetry. rewrite <- (Z_mod_plus_full (cksum + v - 0xffff) 1). f_equal; lia.
  - split; [lia | reflexivity].
Qed.

Lemma chksum_loop_ok i data cksum :
  0 <= cksum <= 0xffff -> Forall is_byte data -> Z.even i = true ->
  0 <= chksum_loop i data cksum <= 0xffff /\
  oc_eq (chksum_loop i data cksum) (cksum + word_sum data).
Proof.
  revert i cksum. induction data as [| a | a b l IH] using byte_list_ind;
    intros i cksum Hc Hd Hi; cbn [chksum_loop word_sum].
  - rewrite Z.add_0_r. split; [lia | reflexivity].
  - apply Forall_inv in Hd. pose proof (chksum_step_ok i cksum a Hc Hd) as H.
    by rewrite <- Z.negb_even, Hi in H.
  - rewrite !Forall_cons in Hd. destruct Hd as (Ha & Hb & Hl).
    destruct (chksum_step_ok i cksum a Hc Ha) as [R1 E1].
    destruct (chksum_step_ok (i + 1) _ b R1 Hb) as [R2 E2].
    rewrite <- Z.negb_even, Hi in E1. cbn in E1.
    rewrite Z.odd_add, <- Z.negb_even, Hi in E2. cbn in E2.
    destruct (IH (i + 1 + 1) _ R2 Hl) as [R3 E3].
    { rewrite !Z.even_add, Hi. done. }
    split; [done |]. rewrite E3. pose proof (word_sum_nonneg l Hl).
    unfold in_range in *. rewrite Z.add_assoc. apply oc_eq_plus; [lia.. |].
    rewrite E2, Z.add_assoc. apply oc_eq_plus; [lia.. | done].
Qed.

(** The sum a checksum value stands for. *)
Definition csum_sum (partial : Z) : Z := 0xffff - partial.

Lemma not_mask16 x : in_range 16 x -> Z.land (Z.lnot x) 0xffff = 0xffff - x.
Proof.
  intros Hx. change 0xffff with (2 ^ 16 - 1). rewrite land_mask by lia.
  unfold Z.lnot. wrap_lia.
Qed.

Lemma not_u16 x : 0 <= x <= 0xffff -> u16 (Z.lnot x) = 0xffff - x.
Proof. intros Hx. unfold Z.lnot. wrap_lia. Qed.

Lemma generic_chksum_ok partial data :
  in_range 16 partial -> Forall is_byte data ->
  in_range 16 (generic_tcpip_continue_chksum partial data) /\
  oc_eq (csum_sum (generic_tcpip_continue_chksum partial data))
        (csum_sum partial + word_sum data).
Proof.
  intros Hp Hd. unfold generic_tcpip_continue_chksum, csum_sum.
  rewrite not_mask16 by done. unfold in_range in Hp.
  destruct (chksum_loop_ok 0 data (0xffff - partial)) as [R E]; [lia | done | done |].
  rewrite not_u16 by done. split; [unfold in_range; lia |].
  by replace (0xffff - (0xffff - _)) with (chksum_loop 0 data (0xffff - partial)) by lia.
Qed.

(** A 16-bit value is the checksum exactly when it stands for the right sum. *)
Lemma generic_chksum_unique partial data c :
  in_range 16 partial -> Forall is_byte data -> in_range 16 c ->
  oc_eq (csum_sum c) (csum_sum partial + word_sum data) ->
  generic_tcpip_continue_chksum partial data = c.
Proof.
  intros Hp Hd Hc E. destruct (generic_chksum_ok partial data Hp Hd) as [R E'].
  assert (csum_sum (generic_tcpip_continue_chksum partial data) = csum_sum c).
  { apply oc_eq_range; [unfold csum_sum, in_range in *; lia.. |]. by rewrite E', E. }
  unfold csum_sum in *. lia.
Qed.

(** Checksums can be computed piecewise: continuing the checksum of an
    even-length block over further data gives the checksum of the
    concatenation, as the comment of [generic_tcpip_continue_chksum] promises
    for blocks that start at even offsets. *)
Theorem chksum_continue_app partial l1 l2 :
  in_range 16 partial -> Forall is_byte l1 -> Forall is_byte l2 -> Nat.Even (length l1) ->
  generic_tcpip_continue_chksum (generic_tcpip_continue_chksum partial l1) l2 =
  generic_tcpip_continue_chksum partial (l1 ++ l2).
Proof.
  intros Hp H1 H2 He.
  destruct (generic_chksum_ok partial l1 Hp H1) as [R1 E1].
  destruct (generic_chksum_ok partial (l1 ++ l2) Hp) as [R2 E2]; [by apply Forall_app |].
  apply generic_chksum_unique; [done.. |]. rewrite E2, word_sum_app, Z.add_assoc by done.
  pose proof (word_sum_nonneg l1 H1). pose proof (word_sum_nonneg l2 H2).
  symmetry. apply oc_eq_plus; [unfold csum_sum, in_range in *; lia.. | done].
Qed.

Lemma chksum_continue_app_witness :
  generic_tcpip_continue_chksum (generic_tcpip_continue_chksum 0x1234 [0x45; 0xff]) [0xff; 0x07; 0x80] =
  generic_tcpip_continue_chksum 0x1234 [0x45; 0xff; 0xff; 0x07; 0x80].
Proof.
  apply (chksum_continue_app 0x1234 [0x45; 0xff] [0xff; 0x07; 0x80]).
  - by apply (bool_decide_unpack _).
  - by apply (bool_decide_unpack _).
  - by apply (bool_decide_unpack _).
  - by exists 1%nat.
Defined.

(** A 16-bit field in memory order, as the checksum functions return it. *)
Definition csum_field (c : Z) : bytes := [c mod 256; c / 256].

Lemma csum_field_bytes c : in_range 16 c -> Forall is_byte (csum_field c).
Proof. intros H. repeat constructor; unfold in_range in *; wrap_lia. Qed.

Lemma word_sum_field c : word_sum (csum_field c) = c.
Proof. cbn. rewrite (Z.div_mod c 256) at 3 by lia. lia. Qed.

Lemma chksum_verified (pshdr head tail : bytes) :
  Forall is_byte pshdr -> Forall is_byte head -> Forall is_byte tail ->
  Nat.Even (length pshdr) -> Nat.Even (length head) ->
  let c := generic_tcpip_continue_chksum (tcpip_chksum (head ++ [0; 0] ++ tail)) pshdr in
  generic_tcpip_continue_chksum (tcpip_chksum pshdr) (head ++ csum_field c ++ tail) = 0.
Proof.
  intros Hps Hh Ht Eps Eh c.
  pose proof (word_sum_nonneg _ Hps). pose proof (word_sum_nonneg _ Hh).
  pose proof (word_sum_nonneg _ Ht).
  assert (R0 : in_range 16 TCPIP_EMPTY_CSUM) by done.
  assert (Hz : Forall is_byte (head ++ [0; 0] ++ tail)).
  { apply Forall_app; split; [done |]. by repeat (constructor; [done |]). }
  destruct (generic_chksum_ok TCPIP_EMPTY_CSUM _ R0 Hz) as [R1 E1].
  destruct (generic_chksum_ok _ pshdr R1 Hps) as [Rc Ec].
  fold (tcpip_chksum (head ++ [0; 0] ++ tail)) in *. fold c in Rc, Ec.
  destruct (generic_chksum_ok TCPIP_EMPTY_CSUM pshdr R0 Hps) as [R2 E2].
  fold (tcpip_chksum pshdr) in *.
  assert (Hc : Forall is_byte (csum_field c)) by by apply csum_field_bytes.
  apply generic_chksum_unique; [done | | done |].
  { apply Forall_app; split; [done |]. by apply Forall_app. }
  rewrite word_sum_app in E1 by done. rewrite word_sum_app by done.
  rewrite word_sum_app in * by by exists 1%nat. rewrite word_sum_field.
  cbn [word_sum] in E1. destruct E1 as [M1 _], Ec as [Mc _], E2 as [M2 Z2].
  unfold csum_sum, in_range in *.
  split; [| lia]. Z.div_mod_to_equations. lia.
Qed.

(** A transmitted packet passes the receiver's check.  The sender takes
    the checksum of the packet with a zeroed checksum field (at an even
    offset), completes it over the pseudo-header and stores it in the field;
    the receiver's checksum over the pseudo-header and the packet is then the
    zero that [tcp_rx] demands. *)
Theorem chksum_verifies (pshdr head tail : bytes) :
  Forall is_byte pshdr -> Forall is_byte head -> Forall is_byte tail ->
  Nat.Even (length pshdr) -> Nat.Even (length head) ->
  let c := generic_tcpip_continue_chksum (tcpip_chksum (head ++ [0; 0] ++ tail)) pshdr in
  generic_tcpip_continue_chksum (tcpip_chksum pshdr) (head ++ csum_field c ++ tail) = 0.
Proof. apply chksum_verified. Qed.

Lemma chksum_verifies_witness :
  let c := generic_tcpip_continue_chksum (tcpip_chksum ([1; 2] ++ [0; 0] ++ [3])) [10; 0; 0; 1] in
  generic_tcpip_continue_chksum (tcpip_chksum [10; 0; 0; 1]) ([1; 2] ++ csum_field c ++ [3]) = 0.
Proof.
  apply (chksum_verifies [10; 0; 0; 1] [1; 2] [3]); try (by apply (bool_decide_unpack _)).
  - by exists 2%nat.
  - by exists 1%nat.
Defined.

(** ** The x86 routine *)

Definition adc_ok (W : Z) (s : adc_state) : Prop := 0 <= s.1 < 2 ^ W /\ 0 <= s.2 <= 1.
Definition acc (s : adc_state) : Z := s.1 + s.2.

Lemma adc_spec W j s x :
  0 < j -> 16 * j <= W -> adc_ok W s -> 0 <= x < 2 ^ (16 * j) ->
  adc_ok W (adc (16 * j) s x) /\ oc_eq (acc (adc (16 * j) s x)) (acc s + x).
Proof.
  destruct s as [sum cf]. intros Hj HW [Hs Hc] Hx. unfold adc, adc_ok, acc in *.
  cbn [fst snd] in *. set (B := 2 ^ (16 * j)) in *.
  assert (0 < B) by (apply pow2_pos; lia).
  assert (EW : 2 ^ W = B * 2 ^ (W - 16 * j)) by (subst B; rewrite <- Z.pow_add_r by lia; f_equal; lia).
  pose proof (Z.div_mod sum B ltac:(lia)) as Es. pose proof (Z.mod_pos_bound sum B ltac:(lia)).
  assert (0 <= sum / B < 2 ^ (W - 16 * j)).
  { split; [apply Z.div_pos; lia | apply Z.div_lt_upper_bound; lia]. }
  set (t := sum mod B + x + cf). pose proof (Z.div_mod t B ltac:(lia)) as Et.
  pose proof (Z.mod_pos_bound t B ltac:(lia)).
  assert (Hq : 0 <= t / B <= 1).
  { split; [apply Z.div_pos; lia |]. apply Zlt_succ_le, Z.div_lt_upper_bound; lia. }
  split; [split; [nia | done] |].
  transitivity (sum - sum mod B + t mod B + t / B * 2 ^ (16 * j)).
  - symmetry. apply oc_eq_carry; nia.
  - fold B. replace (sum + cf + x) with (sum - sum mod B + t mod B + t / B * B) by lia.
    reflexivity.
Qed.

Lemma adcb_final_adcw s b : is_byte b -> adcb_final s b = adc 16 s b.
Proof.
  destruct s as [sum cf]. intros Hb. unfold adcb_final, adc, in_range in *.
  rewrite Z.shiftr_div_pow2, !Z.shiftl_mul_pow2 by lia. pow2_consts.
  f_equal; Z.div_mod_to_equations; lia.
Qed.

Lemma le_value_range l : Forall is_byte l -> 0 <= le_value l < 2 ^ (8 * zlen l).
Proof.
  induction 1 as [| b l Hb Hl IH]; [done |]. cbn [le_value foldr length].
  fold (le_value l). replace (8 * Z.of_nat (S (length l))) with (8 + 8 * zlen l) by lia.
  rewrite Z.pow_add_r by lia. unfold in_range in Hb. lia.
Qed.

Lemma le_value_word_sum l :
  Forall is_byte l -> Nat.Even (length l) -> oc_eq (le_value l) (word_sum l).
Proof.
  induction l as [| a | a b l IH] using byte_list_ind; intros Hl He; [reflexivity | |].
  { destruct He as [k He]. cbn in He. lia. }
  rewrite !Forall_cons in Hl. destruct Hl as (Ha & Hb & Hl). unfold in_range in *.
  pose proof (le_value_range l Hl). pose proof (word_sum_nonneg l Hl).
  cbn [le_value foldr word_sum]. fold (le_value l).
  replace (a + 256 * (b + 256 * le_value l)) with (a + 256 * b + le_value l * 2 ^ (16 * 1)) by lia.
  rewrite oc_eq_carry by lia. rewrite !(Z.add_comm (a + 256 * b)).
  apply oc_eq_plus; [lia.. |]. apply IH; [done |].
  destruct He as [k He]. cbn in He. exists (pred k). lia.
Qed.

Lemma lods_adc_spec W j count data s :
  0 < j -> 16 * j <= W -> adc_ok W s -> Forall is_byte data ->
  (count * (2 * Z.to_nat j) <= length data)%nat ->
  exists s', lods_adc (16 * j) count data s = Ok (drop (count * (2 * Z.to_nat j)) data, s') /\
    adc_ok W s' /\ oc_eq (acc s') (acc s + word_sum (take (count * (2 * Z.to_nat j)) data)).
Proof.
  intros Hj HW. set (n := (2 * Z.to_nat j)%nat).
  assert (En : Z.to_nat (16 * j / 8) = n) by (subst n; Z.div_mod_to_equations; lia).
  revert data s. induction count as [| count IH]; intros data s Hs Hd Hn.
  { exists s. cbn. rewrite Z.add_0_r. by split_and!. }
  cbn [lods_adc]. unfold lods. rewrite En.
  rewrite (proj2 (Z.ltb_ge _ _)) by (Z.div_mod_to_equations; lia).
  cbn [mbind res_bind]. pose proof (Forall_take _ n _ Hd) as Ht.
  assert (Hlen : length (take n data) = n) by (rewrite length_take; lia).
  pose proof (le_value_range _ Ht) as Hr. rewrite Hlen in Hr.
  destruct (adc_spec W j s (le_value (take n data))) as [Ok1 E1]; [done.. | |].
  { replace (16 * j) with (8 * Z.of_nat n) by lia. done. }
  destruct (IH (drop n data) (adc (16 * j) s (le_value (take n data)))) as (s' & -> & Ok' & E');
    [done | by apply Forall_drop | rewrite length_drop; lia |].
  exists s'. split_and!; [by rewrite drop_drop | done |].
  assert (Eev : Nat.Even (length (take n data))) by (rewrite Hlen; by exists (Z.to_nat j)).
  rewrite Nat.mul_succ_l, Nat.add_comm, <- take_take_drop, word_sum_app by done.
  pose proof (word_sum_nonneg _ Ht).
  pose proof (word_sum_nonneg _ (Forall_take _ (count * n) _ (Forall_drop _ n _ Hd))).
  destruct Hs, Ok1. unfold acc in *.
  rewrite E', Z.add_assoc. apply oc_eq_plus; [lia.. |]. rewrite E1.
  rewrite !(Z.add_comm (s.1 + s.2)). apply oc_eq_plus; [lia.. |]. by apply le_value_word_sum.
Qed.

Lemma lods_adc_plus k a b data s :
  lods_adc k (a + b) data s =
  ('(data, s) ← lods_adc k a data s; lods_adc k b data s).
Proof.
  revert data s. induction a as [| a IH]; intros data s; [done |].
  cbn [Nat.add lods_adc]. destruct (lods k data) as [[x data'] | |]; [| done | done].
  cbn [mbind res_bind]. apply IH.
Qed.

Lemma lods_adc_x16_eq k count data s :
  lods_adc_x16 k count data s = lods_adc k (count * 16) data s.
Proof.
  revert data s. induction count as [| count IH]; intros data s; [done |].
  rewrite Nat.mul_succ_l, Nat.add_comm, lods_adc_plus. cbn [lods_adc_x16].
  destruct (lods_adc k 16 data s) as [[d' s'] | |]; [| done | done]. apply IH.
Qed.

(** The two final [adcw $0] absorb the carry. *)
Lemma adcw_zero_twice s :
  adc_ok 16 s -> (adc 16 (adc 16 s 0) 0).2 = 0.
Proof.
  destruct s as [x c]. unfold adc_ok, adc. cbn [fst snd]. pow2_consts. intros [Hx Hc].
  Z.div_mod_to_equations. lia.
Qed.

Lemma adcw_spec s x :
  adc_ok 16 s -> 0 <= x < 2 ^ 16 ->
  adc_ok 16 (adc 16 s x) /\ oc_eq (acc (adc 16 s x)) (acc s + x).
Proof. intros. by apply (adc_spec 16 1). Qed.

(** Adding the 16-bit words of an accumulator of [16 m] bits. *)
Lemma word_split sum i :
  0 <= sum -> 0 <= i ->
  oc_eq (Z.shiftr sum (16 * i)) (Z.shiftr sum (16 * i) mod 2 ^ 16 + Z.shiftr sum (16 * (i + 1))).
Proof.
  intros Hs Hi. set (x := Z.shiftr sum (16 * i)).
  assert (0 <= x) by (apply Z.shiftr_nonneg; lia).
  replace (Z.shiftr sum (16 * (i + 1))) with (x / 2 ^ 16).
  2: { subst x. rewrite <- Z.shiftr_div_pow2, Z.shiftr_shiftr by lia. f_equal; lia. }
  rewrite (Z.div_mod x (2 ^ 16)) at 1 by lia. rewrite Z.add_comm, Z.mul_comm.
  apply (oc_eq_carry _ _ 1); [| | lia].
  - apply Z.mod_pos_bound. lia.
  - apply Z.div_pos; lia.
Qed.

Definition word16 (sum i : Z) : Z := Z.shiftr sum (16 * i) mod 2 ^ 16.

Lemma word16_range sum i : 0 <= word16 sum i < 2 ^ 16.
Proof. apply Z.mod_pos_bound. lia. Qed.

Lemma words_low sum :
  0 <= sum -> oc_eq sum (word16 sum 0 + word16 sum 1 + Z.shiftr sum 32).
Proof.
  intros Hs. pose proof (word16_range sum 0). pose proof (word16_range sum 1).
  assert (forall i, 0 <= Z.shiftr sum (16 * i)) as Hn by (intros; apply Z.shiftr_nonneg; lia).
  pose proof (Hn 1). pose proof (Hn 2 : 0 <= Z.shiftr sum 32). rewrite <- Z.add_assoc, Z.add_comm.
  transitivity (Z.shiftr sum (16 * 1) + word16 sum 0).
  - rewrite Z.add_comm. apply (word_split sum 0); lia.
  - apply oc_eq_plus; [lia.. |]. apply (word_split sum 1); lia.
Qed.

Lemma words_32 sum : 0 <= sum < 2 ^ 32 -> oc_eq sum (word16 sum 0 + word16 sum 1).
Proof.
  intros Hs. rewrite words_low at 1 by lia.
  by rewrite (Z.shiftr_div_pow2 sum 32), Z.div_small, Z.add_0_r by lia.
Qed.

Lemma words_64 sum :
  0 <= sum < 2 ^ 64 ->
  oc_eq sum (word16 sum 0 + word16 sum 1 + word16 sum 2 + word16 sum 3).
Proof.
  intros Hs. rewrite words_low at 1 by lia.
  assert (E : oc_eq (Z.shiftr sum 32) (word16 sum 2 + word16 sum 3)).
  { assert (Hr : 0 <= Z.shiftr sum 32 < 2 ^ 32).
    { rewrite Z.shiftr_div_pow2 by lia. split; [apply Z.div_pos; lia |].
      apply Z.div_lt_upper_bound; lia. }
    rewrite (words_32 _ Hr) at 1. unfold word16.
    rewrite !Z.shiftr_shiftr by lia. reflexivity. }
  pose proof (word16_range sum 0). pose proof (word16_range sum 1).
  pose proof (word16_range sum 2). pose proof (word16_range sum 3).
  assert (0 <= Z.shiftr sum 32) by (apply Z.shiftr_nonneg; lia).
  rewrite <- (Z.add_assoc (word16 sum 0 + word16 sum 1)), !(Z.add_comm (word16 sum 0 + word16 sum 1)).
  apply oc_eq_plus; [lia.. | done].
Qed.

(** Adding one more word with carry to a partial sum. *)
Lemma adcw_acc s x v :
  adc_ok 16 s -> 0 <= x < 2 ^ 16 -> oc_eq (acc s) v -> 0 <= v ->
  adc_ok 16 (adc 16 s x) /\ oc_eq (acc (adc 16 s x)) (v + x).
Proof.
  intros Hs Hx E Hv. destruct (adcw_spec s x Hs Hx) as [O E1]. split; [done |].
  rewrite E1. destruct Hs. unfold acc in *. apply oc_eq_plus; [lia.. | done].
Qed.

Lemma fold_words_spec W s :
  W = 32 \/ W = 64 -> adc_ok W s ->
  0 <= fold_words W s <= 0xffff /\ oc_eq (fold_words W s) (acc s).
Proof.
  intros HW [Hs Hc]. destruct s as [sum cf]. cbn [fst snd] in *. unfold fold_words.
  pose proof (word16_range sum) as Hw. fold (word16 sum 0) (word16 sum 1) (word16 sum 2) (word16 sum 3).
  set (s := if 32 <? W then _ else _).
  assert (Hs' : adc_ok 16 s /\ oc_eq (acc s) (sum + cf)).
  { pose proof (Hw 0). pose proof (Hw 1). pose proof (Hw 2).
    destruct (adcw_acc (word16 sum 0, cf) (word16 sum 1) (word16 sum 0 + cf)) as [O1 E1];
      [by split | apply Hw | reflexivity | lia |].
    destruct (adcw_acc _ (word16 sum 2) _ O1 (Hw 2) E1) as [O2 E2]; [lia |].
    destruct (adcw_acc _ (word16 sum 3) _ O2 (Hw 3) E2) as [O3 E3]; [lia |].
    pose proof (Hw 3). subst s.
    destruct HW as [-> | ->]; cbn [Z.ltb Z.compare Pos.compare Pos.compare_cont]; (split; [done |]).
    - rewrite E1. replace (_ + cf + _) with (word16 sum 0 + word16 sum 1 + cf) by lia.
      apply oc_eq_plus; [lia.. |]. symmetry. by apply words_32.
    - rewrite E3. replace (_ + cf + _ + _ + _) with
        (word16 sum 0 + word16 sum 1 + word16 sum 2 + word16 sum 3 + cf) by lia.
      apply oc_eq_plus; [lia.. |]. symmetry. by apply words_64. }
  destruct Hs' as [O E].
  destruct (adcw_spec s 0 O) as [O1 E1]; [lia |].
  destruct (adcw_spec _ 0 O1) as [O2 E2]; [lia |].
  pose proof (adcw_zero_twice s O) as Hz. unfold acc in E2 at 1. rewrite Hz, !Z.add_0_r in E2.
  rewrite Z.add_0_r in E1. destruct O2 as [? _].
  split; [lia |]. rewrite E2, E1, E. reflexivity.
Qed.

(** Progress of the routine: from [data0] with accumulator [s0] it has consumed
    an even number of bytes, has [data] left, and holds their sum. *)
Definition consumed (W : Z) (data0 : bytes) (s0 : adc_state) (data : bytes) (s : adc_state) : Prop :=
  exists pre, data0 = pre ++ data /\ Nat.Even (length pre) /\ Forall is_byte data0 /\
    adc_ok W s0 /\ adc_ok W s /\ oc_eq (acc s) (acc s0 + word_sum pre).

Lemma consumed_refl W data s :
  Forall is_byte data -> adc_ok W s -> consumed W data s data s.
Proof.
  exists []. cbn [word_sum]. rewrite Z.add_0_r. split_and!; [done | by exists 0%nat | done..].
Qed.

Lemma consumed_lods W j count data0 s0 data s :
  0 < j -> 16 * j <= W -> consumed W data0 s0 data s ->
  Z.of_nat count * (2 * j) <= zlen data ->
  exists data' s', lods_adc (16 * j) count data s = Ok (data', s') /\
    zlen data' = zlen data - Z.of_nat count * (2 * j) /\ consumed W data0 s0 data' s'.
Proof.
  intros Hj HW (pre & -> & He & Hb & Hs0 & Hs & E) Hc.
  apply Forall_app in Hb as Hb'. destruct Hb' as [Hpre Hd].
  set (n := (count * (2 * Z.to_nat j))%nat). assert (Hn : (n <= length data)%nat) by lia.
  destruct (lods_adc_spec W j count data s) as (s' & -> & Hs' & E'); [done.. |].
  exists (drop n data), s'. split_and!; [done | rewrite length_drop; lia |].
  exists (pre ++ take n data). rewrite <- app_assoc, take_drop, word_sum_app by done.
  split_and!; [done | | done.. |].
  - rewrite length_app, length_take. destruct He as [k ->]. exists (k + count * Z.to_nat j)%nat. lia.
  - rewrite E', Z.add_assoc. destruct Hs0, Hs. unfold acc in *.
    pose proof (word_sum_nonneg _ Hpre). pose proof (word_sum_nonneg _ (Forall_take _ n _ Hd)).
    apply oc_eq_plus; [lia.. | done].
Qed.

(** Consuming the last byte, if there is one. *)
Lemma consumed_final W data0 s0 data s :
  16 <= W -> consumed W data0 s0 data s -> zlen data <= 1 ->
  exists s', (if zlen data =? 0 then Ok s else b ← rd data 0; Ok (adcb_final s b)) = Ok s' /\
    adc_ok W s' /\ oc_eq (acc s') (acc s0 + word_sum data0).
Proof.
  intros HW (pre & -> & He & Hb & Hs0 & Hs & E) Hl.
  apply Forall_app in Hb as [Hpre Hd]. rewrite word_sum_app by done.
  destruct data as [| b [| ? ?]]; cbn [length] in Hl; [| | lia].
  - exists s. cbn [word_sum]. by rewrite Z.add_0_r.
  - apply Forall_inv in Hd. exists (adcb_final s b). split; [done |].
    rewrite adcb_final_adcw by done. unfold in_range in Hd.
    destruct (adc_spec W 1 s b) as [O E1]; [lia | lia | done | lia |].
    split; [done |]. rewrite E1. cbn [word_sum]. rewrite Z.add_assoc.
    pose proof (word_sum_nonneg _ Hpre). destruct Hs0, Hs. unfold acc in *.
    apply oc_eq_plus; [lia.. | done].
Qed.

(** The split of the length into the routine's phases, [S] being the word size
    in bytes. *)
Lemma phases S len :
  S = 4 \/ S = 8 -> 0 <= len ->
  len = len mod (S * 16) / S * S + len / (S * 16) * 16 * S + len mod S / 2 * 2 + Z.land len 1
  /\ 0 <= len mod (S * 16) / S /\ 0 <= len / (S * 16) /\ 0 <= len mod S / 2 /\ 0 <= Z.land len 1 <= 1.
Proof.
  intros HS Hlen. change 1 with (2 ^ 1 - 1). rewrite !(land_mask len 1) by lia.
  destruct HS as [-> | ->]; pow2_consts; cbn [Z.mul Pos.mul]; Z.div_mod_to_equations; lia.
Qed.

Lemma initial_words S x len :
  S = 4 \/ S = 8 -> S <= len ->
  0 <= Z.shiftr (Z.land x (S - 1)) 1 /\ Z.shiftr (Z.land x (S - 1)) 1 * 2 <= len.
Proof.
  intros [-> | ->] Hl; rewrite Z.shiftr_div_pow2 by lia;
    [change (4 - 1) with (2 ^ 2 - 1) | change (8 - 1) with (2 ^ 3 - 1)];
    rewrite land_mask by lia; pow2_consts; Z.div_mod_to_equations; lia.
Qed.

(** C16. The x86 assembly routine computes the same checksum as the portable
    loop, for data at any address and of any length, on 32-bit and 64-bit
    builds, and reads no byte outside the data. *)
Theorem x86_chksum_generic {P : Platform} partial addr data :
  in_range 16 partial -> Forall is_byte data ->
  x86_tcpip_continue_chksum partial addr data =
  Ok (generic_tcpip_continue_chksum partial data).
Proof.
  intros Hp Hd. unfold x86_tcpip_continue_chksum. rewrite not_mask16 by done.
  assert (HS : sizeof_sum = 4 /\ word_bits = 32 \/ sizeof_sum = 8 /\ word_bits = 64).
  { unfold sizeof_sum. destruct word_bits_ok as [-> | ->]; auto. }
  assert (HW : 2 ^ 32 <= 2 ^ word_bits) by (destruct HS as [[_ ->] | [_ ->]]; lia).
  assert (Hc : consumed word_bits data (0xffff - partial, 0) data (0xffff - partial, 0)).
  { apply consumed_refl; [done |]. unfold in_range in Hp. split; cbn [fst snd]; lia. }
  set (iwc := if _ <=? _ then _ else _).
  assert (Hi : 0 <= iwc /\ iwc * 2 <= zlen data).
  { subst iwc. case_if; [apply initial_words; lia | lia]. }
  set (len := zlen data - iwc * 2).
  destruct (phases sizeof_sum len) as (Elen & ? & ? & ? & ?); [tauto | lia |].
  assert (Hj : exists j, 0 < j /\ word_bits = 16 * j /\ sizeof_sum = 2 * j).
  { destruct HS as [[-> ->] | [-> ->]]; [by exists 2 | by exists 4]. }
  destruct Hj as (j & Hj & Ej & ES). change 16 with (16 * 1) at 1.
  edestruct (consumed_lods word_bits 1) as (d1 & s1 & -> & L1 & C1);
    [lia | lia | apply Hc | lia |]. cbn [mbind res_bind].
  replace word_bits with (16 * j) at 1 by done.
  edestruct (consumed_lods word_bits j) as (d2 & s2 & -> & L2 & C2);
    [lia | lia | apply C1 | nia |]. cbn [mbind res_bind].
  rewrite lods_adc_x16_eq. replace word_bits with (16 * j) at 1 by done.
  edestruct (consumed_lods word_bits j) as (d3 & s3 & -> & L3 & C3);
    [lia | lia | apply C2 | nia |]. cbn [mbind res_bind].
  change 16 with (16 * 1) at 1.
  edestruct (consumed_lods word_bits 1) as (d4 & s4 & -> & L4 & C4);
    [lia | lia | apply C3 | nia |]. cbn [mbind res_bind].
  replace (Z.land len 1) with (zlen d4) by nia.
  edestruct (consumed_final word_bits) as (s5 & -> & O5 & E5); [lia | apply C4 | nia |].
  cbn [mbind res_bind]. f_equal.
  destruct (fold_words_spec word_bits s5) as [Rf Ef]; [tauto | done |].
  rewrite not_mask16 by (unfold in_range; lia).
  symmetry. apply generic_chksum_unique; [done | done | unfold in_range; lia |].
  unfold csum_sum at 1. replace (0xffff - (0xffff - fold_words word_bits s5)) with
    (fold_words word_bits s5) by lia.
  rewrite Ef, E5. unfold acc, csum_sum. cbn [fst snd]. by rewrite Z.add_0_r.
Qed.

#[local] Existing Instance x86_64_efi.

Lemma x86_chksum_generic_witness :
  x86_tcpip_continue_chksum 0 0x1003 (Z.of_nat <$> seq 0 250) =
  Ok (generic_tcpip_continue_chksum 0 (Z.of_nat <$> seq 0 250)).
Proof.
  apply (x86_chksum_generic 0 0x1003); [done |]. by apply (bool_decide_unpack _).
Defined.

(** ** Port allocation *)

Section bind.
Context (available : Z -> res Z).
(** The callback returns a port number or a negative error. *)
Hypothesis available_total : forall port, available port <> Trap.
#[local] Set Default Proof Using "available_total".

Lemma bind_loop_spec offset min_port k n i :
  0 <= k <= 16 ->
  match bind_loop available offset min_port (2 ^ k - 1) i n with
  | Ok port => min_port <= port <= 2 ^ k - 1 /\ exists p, available port = Ok p
  | Err e => e = EADDRINUSE /\ forall i', i <= i' < i + Z.of_nat n ->
      min_port <= (i' + offset) mod 2 ^ k ->
      exists e', available ((i' + offset) mod 2 ^ k) = Err e'
  | Trap => False
  end.
Proof.
  intros Hk. assert (Hk2 : 2 ^ k <= 2 ^ 16) by (apply Z.pow_le_mono_r; lia).
  assert (Hp : forall x, u16 (Z.land (u32 x) (2 ^ k - 1)) = x mod 2 ^ k).
  { intros x. rewrite land_mask by lia. unfold wrap.
    rewrite (mod_pow2_le x k 32) by lia. apply Z.mod_small.
    pose proof (Z.mod_pos_bound x (2 ^ k) ltac:(lia)). lia. }
  revert i. induction n as [| n IH]; intros i; cbn [bind_loop].
  { split; [done | lia]. }
  rewrite Hp. specialize (IH (i + 1)).
  set (R i' := min_port <= (i' + offset) mod 2 ^ k ->
    exists e', available ((i' + offset) mod 2 ^ k) = Err e').
  assert (Hstep : forall Q : Z -> Prop, Q i -> (forall i', i + 1 <= i' < i + 1 + Z.of_nat n -> Q i') ->
    forall i', i <= i' < i + Z.of_nat (S n) -> Q i').
  { intros Q Hi Hr i' Hi'. destruct (decide (i' = i)) as [-> |]; [done | apply Hr; lia]. }
  destruct (Z.ltb_spec ((i + offset) mod 2 ^ k) min_port) as [Hlt | Hge].
  - destruct (bind_loop _ _ _ _ _ n); [done | | done]. destruct IH as [-> IH]. split; [done |].
    apply (Hstep R); [unfold R; lia | done].
  - specialize (available_total ((i + offset) mod 2 ^ k)).
    destruct (available _) as [p | e |] eqn:Ea; [| | done].
    + pose proof (Z.mod_pos_bound (i + offset) (2 ^ k) ltac:(lia)).
      split; [lia | by exists p].
    + destruct (bind_loop _ _ _ _ _ n); [done | | done]. destruct IH as [-> IH]. split; [done |].
      apply (Hstep R); [by exists e | done].
Qed.

(** The range searched when no port is requested. *)
Definition bind_range (flags : Z) : Z * Z :=
  if Z.testbit flags 10 then (1, 1023) else (1025, 65535).

Lemma land_bit10 x : Z.land x TCPIP_BIND_PRIVILEGED = if Z.testbit x 10 then 1024 else 0.
Proof.
  change 1024 with (2 ^ 10). apply Z.bits_inj'. intros n Hn.
  rewrite Z.land_spec, Z.pow2_bits_eqb by lia. destruct (Z.eqb_spec 10 n) as [<- | Hne].
  - rewrite andb_true_r. by destruct (Z.testbit x 10).
  - rewrite andb_false_r. destruct (Z.testbit x 10); [| by rewrite Z.bits_0].
    rewrite Z.pow2_bits_eqb by lia. lia.
Qed.

(** With no port requested, [tcpip_bind] returns an available port of the
    privileged range 1-1023 or of the range 1025-65535, as the flag asks, for
    every value of the random offset; it fails, with [EADDRINUSE], only when
    every port of the range is taken.  A requested port is returned or refused
    as the availability callback says. *)
Theorem tcpip_bind_correct (random : Z) (st_local : option sockaddr_tcpip) :
  let flags := from_option st_flags 0 st_local in
  let '(min_port, max_port) := bind_range flags in
  (from_option st_port 0 st_local <> 0 ->
   tcpip_bind random st_local available = available (from_option st_port 0 st_local)) /\
  (from_option st_port 0 st_local = 0 ->
   match tcpip_bind random st_local available with
   | Ok port => min_port <= port <= max_port /\ exists p, available port = Ok p
   | Err e => e = EADDRINUSE /\
       forall port, min_port <= port <= max_port -> exists e', available port = Err e'
   | Trap => False
   end).
Proof.
  cbn zeta. set (flags := from_option st_flags 0 st_local).
  set (try_port := from_option st_port 0 st_local). unfold tcpip_bind. fold flags try_port.
  destruct (bind_range flags) as [min_port max_port] eqn:Er. split; intros Ht.
  { by rewrite (proj2 (Z.eqb_neq _ _) Ht). }
  rewrite Ht. cbn [Z.eqb negb]. rewrite !land_bit10, Z.lnot_spec by lia.
  assert (exists k, (k = 10 \/ k = 16) /\
    u16 ((if negb (Z.testbit flags 10) then 1024 else 0) + 1) = min_port /\
    u16 ((if Z.testbit flags 10 then 1024 else 0) - 1) = 2 ^ k - 1 /\ max_port = 2 ^ k - 1)
    as (k & Hk & -> & -> & ->).
  { unfold bind_range in Er. destruct (Z.testbit flags 10); injection Er as <- <-;
      [exists 10 | exists 16]; auto. }
  pose proof (bind_loop_spec (u32 random) min_port k (Z.to_nat (2 ^ k - 1 + 1)) 0 ltac:(lia)) as H.
  destruct (bind_loop _ _ _ _ _ _) as [port | e |]; [done | | done]. destruct H as [-> H].
  split; [done |]. intros port Hport.
  assert (1 <= min_port).
  { unfold bind_range in Er. destruct (Z.testbit flags 10); injection Er; lia. }
  assert (0 < 2 ^ k) by (apply pow2_pos; lia).
  pose proof (Z.mod_pos_bound (port - u32 random) (2 ^ k) ltac:(lia)).
  assert (Em : ((port - u32 random) mod 2 ^ k + u32 random) mod 2 ^ k = port).
  { rewrite Zplus_mod_idemp_l. replace (_ - _ + _) with port by lia. apply Z.mod_small. lia. }
  rewrite <- Em. apply H; [lia |]. rewrite Em. lia.
Qed.

End bind.

Lemma tcpip_bind_correct_witness :
  let available port := if port =? 80 then Err EADDRINUSE else Ok port in
  exists port, tcpip_bind 80 (Some (SockaddrTcpip 2 0x0400 0)) available = Ok port /\ 1 <= port <= 1023.
Proof.
  intros available. exists 81.
  destruct (tcpip_bind_correct available ltac:(intros port; unfold available; by case_if)
    80 (Some (SockaddrTcpip 2 0x0400 0))) as [_ H].
  specialize (H eq_refl).
  replace (tcpip_bind 80 _ available) with (@Ok Z 81) in * by (by vm_compute).
  split; [done | apply H].
Defined.
