(* ===== verification/Retry.v ===== *)
(** * Retry timers ([net/retry.c])

    A retry timer estimates a round-trip time while it is stopped in time, and
    doubles its timeout each time it expires.  Times are [unsigned long] tick
    counts of the machine word size.  The list of running timers is a list of
    timer identities into a table of timer records; it is searched in order by
    [retry_poll]. *)

From Stdlib Require Import ZArith Lia Bool ZifyBool.
From stdpp Require Import base numbers list gmap.
From S2P Require Import Prelude Heap.

Local Open Scope Z_scope.

Abbreviation TICKS_PER_SEC := (1024).
Abbreviation DEFAULT_MIN_TIMEOUT := (TICKS_PER_SEC / 4).
Abbreviation DEFAULT_MAX_TIMEOUT := (10 * TICKS_PER_SEC).
Abbreviation MIN_TIMEOUT := (7).

Record retry_timer := RetryTimer {
  running : bool;
  timeout : Z;
  timer_min : Z;
  timer_max : Z;
  start : Z;
  count : Z
}.

#[global] Instance retry_timer_eq_dec : EqDecision retry_timer.
Proof. solve_decision. Defined.

(** [timer_init] on zeroed memory. *)
Definition timer_init : retry_timer := RetryTimer false 0 0 0 0 0.

Section timers.
Context {P : Platform}.
Abbreviation ulong := (wrap word_bits).

(** ** Operations on one timer

    [now] is the value of [currticks()] at the call. *)

Definition start_timer_fixed (now new_timeout : Z) (t : retry_timer) : retry_timer :=
  RetryTimer true new_timeout (timer_min t) (timer_max t) now (count t).

Definition start_timer_nodelay (now : Z) (t : retry_timer) : retry_timer :=
  start_timer_fixed now 0 t.

Definition start_timer (now : Z) (t : retry_timer) : retry_timer :=
  let min := if negb (timer_min t =? 0) then timer_min t else DEFAULT_MIN_TIMEOUT in
  let min := if min <? MIN_TIMEOUT then MIN_TIMEOUT else min in
  let new_timeout := if timeout t <? min then min else timeout t in
  start_timer_fixed now new_timeout t.

Definition stop_timer (now : Z) (t : retry_timer) : retry_timer :=
  if negb (running t) then t
  else
    let runtime := ulong (now - start t) in
    if negb (count t =? 0)
    then RetryTimer false (timeout t) (timer_min t) (timer_max t) (start t) (u32 (count t - 1))
    else
      let new_timeout := ulong (timeout t - Z.shiftr (timeout t) 3) in
      let new_timeout := ulong (new_timeout + Z.shiftr runtime 1) in
      RetryTimer false new_timeout (timer_min t) (timer_max t) (start t) (count t).

(** The part of [timer_expired] before the callback: the failure indicator and
    the stopped timer. *)
Definition timer_backoff (t : retry_timer) : bool * retry_timer :=
  let max := if negb (timer_max t =? 0) then timer_max t else DEFAULT_MAX_TIMEOUT in
  let new_timeout := ulong (Z.shiftl (timeout t) 1) in
  let fail := max <? new_timeout in
  let new_timeout := if fail then max else new_timeout in
  (fail, RetryTimer false new_timeout (timer_min t) (timer_max t) (start t) (u32 (count t + 1))).

(** ** The list of running timers *)

Record timer_table := TimerTable {
  timers : list nat;
  timer_of : gmap nat retry_timer
}.

(** Apply an operation of one timer and keep the list in step with its
    [running] flag: [list_add] at the head when it starts, [list_del] when it
    stops. *)
Definition update_timer (id : nat) (f : retry_timer -> retry_timer) (st : timer_table)
    : timer_table :=
  match timer_of st !! id with
  | None => st
  | Some t =>
      let t' := f t in
      let l :=
        match running t, running t' with
        | false, true => id :: timers st
        | true, false => filter (fun i => i <> id) (timers st)
        | _, _ => timers st
        end in
      TimerTable l (<[id := t']> (timer_of st))
  end.

(** A timer's callback, by its identity and the failure indicator. *)
Context (expired : nat -> bool -> timer_table -> timer_table).

Definition timer_expired (id : nat) (st : timer_table) : timer_table :=
  match timer_of st !! id with
  | None => st
  | Some t =>
      let fail := (timer_backoff t).1 in
      expired id fail (update_timer id (fun t => (timer_backoff t).2) st)
  end.

Definition timer_due (now : Z) (t : retry_timer) : bool :=
  timeout t <=? ulong (now - start t).

(** At most one expiry per poll. *)
Fixpoint retry_poll_list (now : Z) (l : list nat) (st : timer_table) : timer_table :=
  match l with
  | [] => st
  | id :: l' =>
      match timer_of st !! id with
      | None => retry_poll_list now l' st
      | Some t => if timer_due now t then timer_expired id st else retry_poll_list now l' st
      end
  end.

Definition retry_poll (now : Z) (st : timer_table) : timer_table :=
  retry_poll_list now (timers st) st.

End timers.

(** ** The timer list invariant *)

Section proofs.
Context {P : Platform}.

Definition table_ok (st : timer_table) : Prop :=
  NoDup (timers st) /\
  forall id, id ∈ timers st <-> exists t, timer_of st !! id = Some t /\ running t = true.

Lemma update_timer_ok id f st : table_ok st -> table_ok (update_timer id f st).
Proof.
  intros [Hnd Hin]. unfold update_timer. destruct (timer_of st !! id) as [t |] eqn:Et; [| done].
  assert (Hid : id ∈ timers st <-> running t = true).
  { rewrite Hin, Et. split; [by intros (? & [= <-] & ?) | by exists t]. }
  split; cbn [timers timer_of].
  - destruct (running t), (running (f t)); [done | by apply NoDup_filter | | done].
    constructor; [rewrite Hid; discriminate | done].
  - intros id'. destruct (decide (id' = id)) as [-> | Hne].
    + rewrite lookup_insert_eq. transitivity (running (f t) = true).
      2: { split; [by exists (f t) | by intros (? & [= <-] & ?)]. }
      destruct (running t) eqn:Er, (running (f t)) eqn:Ef.
      * tauto.
      * rewrite list_elem_of_filter. split; [tauto | discriminate].
      * rewrite elem_of_cons. tauto.
      * rewrite Hid. done.
    + rewrite lookup_insert_ne, <- Hin by done.
      destruct (running t), (running (f t)); [done | | | done].
      * rewrite list_elem_of_filter. tauto.
      * rewrite elem_of_cons. tauto.
Qed.

Lemma update_timer_lookup id f st id' :
  timer_of (update_timer id f st) !! id' =
  if decide (id' = id) then f <$> timer_of st !! id else timer_of st !! id'.
Proof.
  unfold update_timer. destruct (timer_of st !! id) as [t |] eqn:Et.
  - cbn [timer_of]. case_decide; subst; [by rewrite lookup_insert_eq | by rewrite lookup_insert_ne].
  - case_decide; subst; done.
Qed.

(** A poll expires at most one timer.  When the first timer of the list
    that has run for its whole timeout is [id], its callback is entered exactly
    once, with that timer stopped and backed off, every other timer untouched
    and the list still containing exactly the running timers, so the callback
    may restart it; when none is due nothing happens. *)
Theorem retry_poll_correct expired now st :
  table_ok st ->
  ((forall id t, id ∈ timers st -> timer_of st !! id = Some t -> timer_due now t = false) /\
    retry_poll expired now st = st)
  \/
  exists l1 id l2 t st',
    timers st = l1 ++ id :: l2 /\ timer_of st !! id = Some t /\ timer_due now t = true /\
    (forall id' t', id' ∈ l1 -> timer_of st !! id' = Some t' -> timer_due now t' = false) /\
    retry_poll expired now st = expired id (timer_backoff t).1 st' /\
    table_ok st' /\ (id ∉ timers st') /\
    timer_of st' = <[id := (timer_backoff t).2]> (timer_of st).
Proof.
  intros Hok. unfold retry_poll.
  assert (Hgen : forall l1 l2, timers st = l1 ++ l2 ->
    (forall id t, id ∈ l1 -> timer_of st !! id = Some t -> timer_due now t = false) ->
    ((forall id t, id ∈ timers st -> timer_of st !! id = Some t -> timer_due now t = false) /\
      retry_poll_list expired now l2 st = st) \/
    exists l1 id l2' t, timers st = l1 ++ id :: l2' /\ timer_of st !! id = Some t /\
      timer_due now t = true /\
      (forall id' t', id' ∈ l1 -> timer_of st !! id' = Some t' -> timer_due now t' = false) /\
      retry_poll_list expired now l2 st = timer_expired expired id st).
  { intros l1 l2. revert l1. induction l2 as [| id l2 IH]; intros l1 El H1.
    - left. split; [| done]. rewrite El, app_nil_r. done.
    - assert (Hid : exists t, timer_of st !! id = Some t /\ running t = true).
      { apply Hok. rewrite El. set_solver. }
      destruct Hid as (t & Et & _). cbn [retry_poll_list]. rewrite Et.
      destruct (timer_due now t) eqn:Ed.
      + right. by exists l1, id, l2, t.
      + apply (IH (l1 ++ [id])); [by rewrite <- app_assoc |].
        intros id' t'. rewrite elem_of_app, list_elem_of_singleton.
        intros [Hin | ->]; [by apply H1 | congruence]. }
  destruct (Hgen [] (timers st)) as [[Hn ->] | (l1 & id & l2 & t & El & Et & Ed & Hb & ->)];
    [done | by intros id t ?%elem_of_nil | by left |].
  right. exists l1, id, l2, t, (update_timer id (fun t => (timer_backoff t).2) st).
  unfold timer_expired. rewrite Et. pose proof (update_timer_ok id (fun t => (timer_backoff t).2) st Hok) as Hok'.
  split_and!; try done.
  - destruct Hok' as [_ Hin]. rewrite Hin, update_timer_lookup, decide_True, Et by done.
    intros (? & [= <-] & ?). done.
  - unfold update_timer. by rewrite Et.
Qed.

(** ** Back-off and round-trip estimation *)

Definition effective_min (t : retry_timer) : Z :=
  Z.max MIN_TIMEOUT (if timer_min t =? 0 then DEFAULT_MIN_TIMEOUT else timer_min t).
Definition effective_max (t : retry_timer) : Z :=
  if timer_max t =? 0 then DEFAULT_MAX_TIMEOUT else timer_max t.

(** The timer is restarted at each of the given times and expires. *)
Fixpoint expire_all (nows : list Z) (t : retry_timer) : list bool * retry_timer :=
  match nows with
  | [] => ([], t)
  | now :: nows' =>
      let '(fail, t) := timer_backoff (start_timer now t) in
      let '(fails, t) := expire_all nows' t in (fail :: fails, t)
  end.

Lemma start_timer_timeout now t :
  timeout (start_timer now t) = Z.max (timeout t) (effective_min t).
Proof.
  unfold start_timer, effective_min, start_timer_fixed. cbn [timeout].
  destruct (timer_min t =? 0); cbn [negb];
    repeat case_if; lia.
Qed.

Lemma timer_backoff_spec t :
  0 <= timeout t <= effective_max t -> 2 * effective_max t < 2 ^ word_bits ->
  (timer_backoff t).1 = (effective_max t <? 2 * timeout t) /\
  timeout (timer_backoff t).2 = Z.min (effective_max t) (2 * timeout t).
Proof.
  intros Ht Hm. unfold timer_backoff. rewrite Z.shiftl_mul_pow2 by lia.
  replace (timeout t * 2 ^ 1) with (2 * timeout t) by lia.
  rewrite wrap_small by (unfold in_range; lia). unfold effective_max in *.
  destruct (timer_max t =? 0); cbn [negb fst snd timeout]; (split; [done |]; case_if; lia).
Qed.

(** Every expiry doubles the timeout until the maximum is passed. *)
Lemma expire_all_spec nows t :
  let base := Z.max (timeout t) (effective_min t) in
  0 <= timeout t -> base * 2 ^ zlen nows <= effective_max t ->
  2 * effective_max t < 2 ^ word_bits ->
  (expire_all nows t).1 = replicate (length nows) false /\
  effective_min (expire_all nows t).2 = effective_min t /\
  effective_max (expire_all nows t).2 = effective_max t /\
  0 <= timeout (expire_all nows t).2 /\
  Z.max (timeout (expire_all nows t).2) (effective_min t) = base * 2 ^ zlen nows.
Proof.
  revert t. induction nows as [| now nows IH]; intros t base Ht Hb Hm.
  { cbn. split_and!; [done.. | unfold base; lia]. }
  assert (0 < effective_min t) by (unfold effective_min; lia).
  replace (zlen (now :: nows)) with (1 + zlen nows) in * by (cbn [length]; lia).
  rewrite Z.pow_add_r, Z.mul_assoc in * by lia. change (2 ^ 1) with 2 in *.
  pose proof (pow2_pos (zlen nows) ltac:(lia)).
  pose proof (start_timer_timeout now t) as Es. set (t1 := start_timer now t) in *.
  assert (E1 : effective_max t1 = effective_max t /\ effective_min t1 = effective_min t) by done.
  destruct E1 as [E1 E1'].
  destruct (timer_backoff_spec t1) as [Ef Et]; [rewrite Es, E1; fold base; nia | lia |].
  assert (E2 : effective_max (timer_backoff t1).2 = effective_max t /\
               effective_min (timer_backoff t1).2 = effective_min t) by done.
  destruct E2 as [E2 E2'].
  rewrite Es, E1 in Ef, Et. fold base in Ef, Et.
  rewrite (proj2 (Z.ltb_ge _ _)) in Ef by nia. rewrite Z.min_r in Et by nia.
  destruct (IH (timer_backoff t1).2) as (Hf & Hmin & Hmax & Hpos & Ht');
    [lia | rewrite E2, E2'; nia | by rewrite E2 |].
  cbn [expire_all]. fold t1. destruct (timer_backoff t1) as [fail t2]. cbn [fst snd] in *. subst fail.
  destruct (expire_all nows t2) as [fails t3]. cbn [fst snd length replicate] in *.
  rewrite E2' in Hmin, Ht'. split_and!; [by rewrite Hf | done | congruence | done |]. nia.
Qed.

(** C25. Retries end.  A timer that is restarted after each expiry reports
    failure at the first expiry whose doubled timeout exceeds its maximum, and
    at none before it: at the expiry number [n + 1] where
    [base * 2^n <= max < base * 2^(n+1)] and [base] is its initial timeout
    raised to the minimum (with the default limits, at the sixth). *)
Theorem retry_gives_up nows now t :
  let base := Z.max (timeout t) (effective_min t) in
  0 <= timeout t -> 2 * effective_max t < 2 ^ word_bits ->
  base * 2 ^ zlen nows <= effective_max t < base * 2 ^ (zlen nows + 1) ->
  let '(fails, t') := expire_all nows t in
  fails = replicate (length nows) false /\
  (timer_backoff (start_timer now t')).1 = true /\
  timeout (timer_backoff (start_timer now t')).2 = effective_max t.
Proof.
  intros base Ht Hm [Hlo Hhi]. rewrite Z.pow_add_r, Z.mul_assoc in Hhi by lia.
  destruct (expire_all_spec nows t) as (Hf & Hmin & Hmax & Hpos & Hb); [done.. |].
  destruct (expire_all nows t) as [fails t']. cbn [fst snd] in *. fold base in Hb.
  pose proof (start_timer_timeout now t') as Es. rewrite Hmin, Hb in Es.
  set (t1 := start_timer now t') in *.
  assert (E1 : effective_max t1 = effective_max t) by done.
  assert (0 <= base * 2 ^ zlen nows).
  { pose proof (pow2_pos (zlen nows) ltac:(lia)). subst base. nia. }
  destruct (timer_backoff_spec t1) as [-> ->]; [rewrite E1, Es; lia | lia |].
  rewrite E1, Es. split_and!; [done | lia | lia].
Qed.

(** Stopping a timer that has not been retransmitted smooths its timeout to
    7/8 of the old value plus half of the measured time, and never takes it
    below the seven ticks of [MIN_TIMEOUT]; a timer that has been retransmitted
    keeps its timeout and only forgets one retransmission, and a stopped timer
    is left alone. *)
Theorem stop_timer_estimate now t :
  MIN_TIMEOUT <= timeout t -> 0 <= count t < 2 ^ 32 ->
  timeout t + wrap word_bits (now - start t) / 2 < 2 ^ word_bits ->
  let t' := stop_timer now t in
  running t' = false /\
  (running t = false -> t' = t) /\
  (running t = true -> count t <> 0 -> timeout t' = timeout t /\ count t' = count t - 1) /\
  (running t = true -> count t = 0 ->
   timeout t' = timeout t - timeout t / 8 + wrap word_bits (now - start t) / 2 /\
   MIN_TIMEOUT <= timeout t').
Proof.
  intros Ht Hc Hover t'. unfold t', stop_timer in *. clear t'.
  destruct (running t) eqn:Er; cbn [negb]; [| by rewrite Er].
  assert (0 <= wrap word_bits (now - start t)).
  { destruct (wrap_range word_bits (now - start t)); [destruct word_bits_ok; lia | done]. }
  rewrite !Z.shiftr_div_pow2 by lia. change (2 ^ 3) with 8. change (2 ^ 1) with 2.
  destruct (Z.eqb_spec (count t) 0) as [E0 | E0]; cbn [negb running timeout count].
  - split_and!; [done | done | lia |]. intros _ _.
    rewrite wrap_add_idemp_l. rewrite wrap_small; [| unfold in_range]; Z.div_mod_to_equations; lia.
  - split_and!; [done | done | | lia]. intros _ _. split; [done |].
    apply wrap_small. unfold in_range. lia.
Qed.

End proofs.

#[local] Existing Instance x86_64_efi.

Lemma retry_poll_correct_witness :
  let t := RetryTimer true 256 0 0 1000 0 in
  let st := TimerTable [0%nat] {[0%nat := t]} in
  table_ok st /\ retry_poll (fun _ _ st => st) 1300 st <> st.
Proof.
  intros t st.
  assert (Hok : table_ok st).
  { split; [by apply (bool_decide_unpack _) |]. intros id. cbn [timers timer_of st].
    rewrite list_elem_of_singleton. split; [intros ->; by exists t |].
    intros (t' & H & _). by apply lookup_singleton_Some in H as [<- _]. }
  split; [done |].
  destruct (retry_poll_correct (fun _ _ st => st) 1300 st Hok)
    as [[Hn _] | (l1 & id & l2 & t' & st' & _ & _ & _ & _ & -> & _ & _ & Ht)].
  - exfalso. enough (timer_due 1300 t = false) by done. by apply (Hn 0%nat); [apply list_elem_of_here |].
  - intros ->. apply (f_equal (lookup id)) in Ht. rewrite lookup_insert_eq in Ht.
    cbn [timer_of st] in Ht. by apply lookup_singleton_Some in Ht as [_ Ht].
Defined.

Lemma retry_gives_up_witness :
  let '(fails, t') := expire_all [0; 0; 0; 0; 0] timer_init in
  fails = replicate 5 false /\ (timer_backoff (start_timer 0 t')).1 = true /\
  timeout (timer_backoff (start_timer 0 t')).2 = effective_max timer_init.
Proof. apply (retry_gives_up [0; 0; 0; 0; 0] 0 timer_init); by vm_compute. Defined.

Lemma stop_timer_estimate_witness :
  let t := RetryTimer true 256 0 0 1000 0 in
  timeout (stop_timer 1100 t) = 256 - 256 / 8 + wrap word_bits (1100 - 1000) / 2 /\
  MIN_TIMEOUT <= timeout (stop_timer 1100 t).
Proof.
  intros t. by apply (stop_timer_estimate 1100 t).
Defined.
