(* ===== verification/Tcp.v ===== *)
(** * TCP ([net/tcp.c], [include/ipxe/tcp.h])

    One TCP connection and the operations on it: opening and closing, the
    transmit and receive data paths with selective acknowledgement, the three
    timers and the data-transfer interface.  Packets are byte lists in wire
    format.  What lies outside the connection (the clock, the application
    behind the data-transfer interface, the buffer allocator and the network
    layer) is an environment whose answers are numbered by interaction.

    This file holds the model and the theorems on the wire format; the
    invariants of the state machine and the sent stream are in [TcpStream], the
    received stream in [TcpRecv]. *)

From Stdlib Require Import ZArith Lia Bool ZifyBool.
From stdpp Require Import base numbers list strings.
From S2P Require Import Prelude Heap Tcpip Retry.

Local Open Scope Z_scope.

(** ** Constants *)

Abbreviation TCP_ACK := (0x10).
Abbreviation TCP_PSH := (0x08).
Abbreviation TCP_RST := (0x04).
Abbreviation TCP_SYN := (0x02).
Abbreviation TCP_FIN := (0x01).

Abbreviation TCP_OPTION_END := (0).
Abbreviation TCP_OPTION_NOP := (1).
Abbreviation TCP_OPTION_MSS := (2).
Abbreviation TCP_OPTION_WS := (3).
Abbreviation TCP_OPTION_SACK_PERMITTED := (4).
Abbreviation TCP_OPTION_SACK := (5).
Abbreviation TCP_OPTION_TS := (8).

Abbreviation TCP_RX_WINDOW_SCALE := (9).
Abbreviation TCP_SACK_MAX := (3%nat).
Abbreviation TCP_MASK_HLEN := (0xf0).
Abbreviation TCP_MAX_WINDOW_SIZE := (256 * 1024).
Abbreviation TCP_PATH_MTU := (1280 - 40 - 20 - 12).
Abbreviation TCP_MSL := (2 * 60 * TICKS_PER_SEC).
Abbreviation TCP_KEEPALIVE_DELAY := (15 * TICKS_PER_SEC).

Abbreviation MAX_LL_NET_HEADER_LEN := (64 + 40).
Abbreviation sizeof_tcp_header := (20).
Abbreviation TCP_MAX_HEADER_LEN := (MAX_LL_NET_HEADER_LEN + sizeof_tcp_header + 4 + 4 + 12).

(** [enum tcp_flags] *)
Abbreviation TCP_XFER_CLOSED := (0x0001).
Abbreviation TCP_TS_ENABLED := (0x0002).
Abbreviation TCP_ACK_PENDING := (0x0004).
Abbreviation TCP_SACK_ENABLED := (0x0008).

(** ** Connection states *)

Abbreviation TCP_STATE_SENT flags := (Z.shiftl flags 0).
Abbreviation TCP_FLAGS_SENT state := (Z.land (Z.shiftr state 0) 0xff).
Abbreviation TCP_STATE_ACKED flags := (Z.shiftl flags 8).
Abbreviation TCP_FLAGS_ACKED state := (Z.land (Z.shiftr state 8) 0xff).
Abbreviation TCP_STATE_RCVD flags := (Z.shiftl flags 16).
Abbreviation TCP_FLAGS_RCVD state := (Z.land (Z.shiftr state 16) 0xff).
Abbreviation TCP_FLAGS_SENDING state := (Z.land (TCP_FLAGS_SENT state) (Z.lnot (TCP_FLAGS_ACKED state))).

Infix "|||" := Z.lor (at level 50, left associativity) : ipxe_scope.
Local Open Scope ipxe_scope.

Abbreviation TCP_CLOSED := (TCP_RST).
Abbreviation TCP_SYN_SENT := (TCP_STATE_SENT TCP_SYN).
Abbreviation TCP_SYN_RCVD :=
(  TCP_STATE_SENT (TCP_SYN ||| TCP_ACK) ||| TCP_STATE_RCVD TCP_SYN).
Abbreviation TCP_ESTABLISHED :=
(  TCP_STATE_SENT (TCP_SYN ||| TCP_ACK) ||| TCP_STATE_ACKED TCP_SYN ||| TCP_STATE_RCVD TCP_SYN).
Abbreviation TCP_FIN_WAIT_1 :=
(  TCP_STATE_SENT (TCP_SYN ||| TCP_ACK ||| TCP_FIN) ||| TCP_STATE_ACKED TCP_SYN |||
  TCP_STATE_RCVD TCP_SYN).
Abbreviation TCP_FIN_WAIT_2 :=
(  TCP_STATE_SENT (TCP_SYN ||| TCP_ACK ||| TCP_FIN) ||| TCP_STATE_ACKED (TCP_SYN ||| TCP_FIN) |||
  TCP_STATE_RCVD TCP_SYN).
Abbreviation TCP_CLOSING_OR_LAST_ACK :=
(  TCP_STATE_SENT (TCP_SYN ||| TCP_ACK ||| TCP_FIN) ||| TCP_STATE_ACKED TCP_SYN |||
  TCP_STATE_RCVD (TCP_SYN ||| TCP_FIN)).
Abbreviation TCP_TIME_WAIT :=
(  TCP_STATE_SENT (TCP_SYN ||| TCP_ACK ||| TCP_FIN) ||| TCP_STATE_ACKED (TCP_SYN ||| TCP_FIN) |||
  TCP_STATE_RCVD (TCP_SYN ||| TCP_FIN)).
Abbreviation TCP_CLOSE_WAIT :=
(  TCP_STATE_SENT (TCP_SYN ||| TCP_ACK) ||| TCP_STATE_ACKED TCP_SYN |||
  TCP_STATE_RCVD (TCP_SYN ||| TCP_FIN)).

(** Test of a bit mask, as in [if ( x & mask )]. *)
Definition has (x mask : Z) : bool := negb (Z.land x mask =? 0).

Abbreviation TCP_CAN_SEND_DATA state :=
  (Z.land state (TCP_STATE_ACKED TCP_SYN ||| TCP_STATE_SENT TCP_FIN) =? TCP_STATE_ACKED TCP_SYN).
Abbreviation TCP_HAS_BEEN_ESTABLISHED state :=
  (Z.land state (TCP_STATE_ACKED TCP_SYN ||| TCP_STATE_RCVD TCP_SYN) =?
  (TCP_STATE_ACKED TCP_SYN ||| TCP_STATE_RCVD TCP_SYN)).
Abbreviation TCP_CLOSED_GRACEFULLY state :=
  (Z.land state (TCP_STATE_ACKED TCP_FIN ||| TCP_STATE_RCVD TCP_FIN) =?
  (TCP_STATE_ACKED TCP_FIN ||| TCP_STATE_RCVD TCP_FIN)).

(** ** Sequence numbers *)

Definition tcp_cmp (seq1 seq2 : Z) : Z := to_signed 32 (seq1 - seq2).
Definition tcp_in_window (seq start len : Z) : bool := u32 (seq - start) <? len.

(** ** Connections *)

Record tcp_sack_block := SackBlock { left : Z; right : Z }.

(** A received buffer with its internal header ([struct
    tcp_rx_queued_header]) and the data that follows it. *)
Record tcp_rx_queued := RxQueued {
  q_seq : Z;
  q_nxt : Z;
  q_flags : Z;
  q_data : bytes
}.

Record tcp_connection := TcpConnection {
  tcp_flags : Z;    (* Flags ([enum tcp_flags]) *)
  peer_port : Z;
  local_port : Z;
  mss : Z;
  tcp_state : Z;
  snd_seq : Z;    (* SND.UNA *)
  snd_sent : Z;    (* SND.NXT - SND.UNA *)
  snd_win : Z;
  rcv_ack : Z;    (* RCV.NXT *)
  rcv_win : Z;
  ts_val : Z;
  ts_recent : Z;
  snd_win_scale : Z;
  rcv_win_scale : Z;
  sack : list tcp_sack_block;
  tx_queue : list bytes;
  rx_queue : list tcp_rx_queued;
  process_running : bool;    (* the transmission process is scheduled *)
  timer : retry_timer;
  keepalive : retry_timer;
  wait : retry_timer;
  pending_flags : Z;
  pending_data : Z;
  listed : bool;    (* on the list [tcp_conns] *)
  rcv_total : Z    (* history: [rcv_ack] without wrap-around *)
}.

(** Field updates. *)
Definition with_tcp_flags (v : Z) (c : tcp_connection) : tcp_connection :=
  TcpConnection v (peer_port c) (local_port c) (mss c) (tcp_state c) (snd_seq c) (snd_sent
    c) (snd_win c) (rcv_ack c) (rcv_win c) (ts_val c) (ts_recent c) (snd_win_scale c)
    (rcv_win_scale c) (sack c) (tx_queue c) (rx_queue c) (process_running c) (timer c)
    (keepalive c) (wait c) (pending_flags c) (pending_data c) (listed c) (rcv_total c).
Definition with_peer_port (v : Z) (c : tcp_connection) : tcp_connection :=
  TcpConnection (tcp_flags c) v (local_port c) (mss c) (tcp_state c) (snd_seq c) (snd_sent
    c) (snd_win c) (rcv_ack c) (rcv_win c) (ts_val c) (ts_recent c) (snd_win_scale c)
    (rcv_win_scale c) (sack c) (tx_queue c) (rx_queue c) (process_running c) (timer c)
    (keepalive c) (wait c) (pending_flags c) (pending_data c) (listed c) (rcv_total c).
Definition with_local_port (v : Z) (c : tcp_connection) : tcp_connection :=
  TcpConnection (tcp_flags c) (peer_port c) v (mss c) (tcp_state c) (snd_seq c) (snd_sent c)
    (snd_win c) (rcv_ack c) (rcv_win c) (ts_val c) (ts_recent c) (snd_win_scale c)
    (rcv_win_scale c) (sack c) (tx_queue c) (rx_queue c) (process_running c) (timer c)
    (keepalive c) (wait c) (pending_flags c) (pending_data c) (listed c) (rcv_total c).
Definition with_mss (v : Z) (c : tcp_connection) : tcp_connection :=
  TcpConnection (tcp_flags c) (peer_port c) (local_port c) v (tcp_state c) (snd_seq c)
    (snd_sent c) (snd_win c) (rcv_ack c) (rcv_win c) (ts_val c) (ts_recent c) (snd_win_scale
    c) (rcv_win_scale c) (sack c) (tx_queue c) (rx_queue c) (process_running c) (timer c)
    (keepalive c) (wait c) (pending_flags c) (pending_data c) (listed c) (rcv_total c).
Definition with_tcp_state (v : Z) (c : tcp_connection) : tcp_connection :=
  TcpConnection (tcp_flags c) (peer_port c) (local_port c) (mss c) v (snd_seq c) (snd_sent
    c) (snd_win c) (rcv_ack c) (rcv_win c) (ts_val c) (ts_recent c) (snd_win_scale c)
    (rcv_win_scale c) (sack c) (tx_queue c) (rx_queue c) (process_running c) (timer c)
    (keepalive c) (wait c) (pending_flags c) (pending_data c) (listed c) (rcv_total c).
Definition with_snd_seq (v : Z) (c : tcp_connection) : tcp_connection :=
  TcpConnection (tcp_flags c) (peer_port c) (local_port c) (mss c) (tcp_state c) v (snd_sent
    c) (snd_win c) (rcv_ack c) (rcv_win c) (ts_val c) (ts_recent c) (snd_win_scale c)
    (rcv_win_scale c) (sack c) (tx_queue c) (rx_queue c) (process_running c) (timer c)
    (keepalive c) (wait c) (pending_flags c) (pending_data c) (listed c) (rcv_total c).
Definition with_snd_sent (v : Z) (c : tcp_connection) : tcp_connection :=
  TcpConnection (tcp_flags c) (peer_port c) (local_port c) (mss c) (tcp_state c) (snd_seq c)
    v (snd_win c) (rcv_ack c) (rcv_win c) (ts_val c) (ts_recent c) (snd_win_scale c)
    (rcv_win_scale c) (sack c) (tx_queue c) (rx_queue c) (process_running c) (timer c)
    (keepalive c) (wait c) (pending_flags c) (pending_data c) (listed c) (rcv_total c).
Definition with_snd_win (v : Z) (c : tcp_connection) : tcp_connection :=
  TcpConnection (tcp_flags c) (peer_port c) (local_port c) (mss c) (tcp_state c) (snd_seq c)
    (snd_sent c) v (rcv_ack c) (rcv_win c) (ts_val c) (ts_recent c) (snd_win_scale c)
    (rcv_win_scale c) (sack c) (tx_queue c) (rx_queue c) (process_running c) (timer c)
    (keepalive c) (wait c) (pending_flags c) (pending_data c) (listed c) (rcv_total c).
Definition with_rcv_ack (v : Z) (c : tcp_connection) : tcp_connection :=
  TcpConnection (tcp_flags c) (peer_port c) (local_port c) (mss c) (tcp_state c) (snd_seq c)
    (snd_sent c) (snd_win c) v (rcv_win c) (ts_val c) (ts_recent c) (snd_win_scale c)
    (rcv_win_scale c) (sack c) (tx_queue c) (rx_queue c) (process_running c) (timer c)
    (keepalive c) (wait c) (pending_flags c) (pending_data c) (listed c) (rcv_total c).
Definition with_rcv_win (v : Z) (c : tcp_connection) : tcp_connection :=
  TcpConnection (tcp_flags c) (peer_port c) (local_port c) (mss c) (tcp_state c) (snd_seq c)
    (snd_sent c) (snd_win c) (rcv_ack c) v (ts_val c) (ts_recent c) (snd_win_scale c)
    (rcv_win_scale c) (sack c) (tx_queue c) (rx_queue c) (process_running c) (timer c)
    (keepalive c) (wait c) (pending_flags c) (pending_data c) (listed c) (rcv_total c).
Definition with_ts_val (v : Z) (c : tcp_connection) : tcp_connection :=
  TcpConnection (tcp_flags c) (peer_port c) (local_port c) (mss c) (tcp_state c) (snd_seq c)
    (snd_sent c) (snd_win c) (rcv_ack c) (rcv_win c) v (ts_recent c) (snd_win_scale c)
    (rcv_win_scale c) (sack c) (tx_queue c) (rx_queue c) (process_running c) (timer c)
    (keepalive c) (wait c) (pending_flags c) (pending_data c) (listed c) (rcv_total c).
Definition with_ts_recent (v : Z) (c : tcp_connection) : tcp_connection :=
  TcpConnection (tcp_flags c) (peer_port c) (local_port c) (mss c) (tcp_state c) (snd_seq c)
    (snd_sent c) (snd_win c) (rcv_ack c) (rcv_win c) (ts_val c) v (snd_win_scale c)
    (rcv_win_scale c) (sack c) (tx_queue c) (rx_queue c) (process_running c) (timer c)
    (keepalive c) (wait c) (pending_flags c) (pending_data c) (listed c) (rcv_total c).
Definition with_snd_win_scale (v : Z) (c : tcp_connection) : tcp_connection :=
  TcpConnection (tcp_flags c) (peer_port c) (local_port c) (mss c) (tcp_state c) (snd_seq c)
    (snd_sent c) (snd_win c) (rcv_ack c) (rcv_win c) (ts_val c) (ts_recent c) v
    (rcv_win_scale c) (sack c) (tx_queue c) (rx_queue c) (process_running c) (timer c)
    (keepalive c) (wait c) (pending_flags c) (pending_data c) (listed c) (rcv_total c).
Definition with_rcv_win_scale (v : Z) (c : tcp_connection) : tcp_connection :=
  TcpConnection (tcp_flags c) (peer_port c) (local_port c) (mss c) (tcp_state c) (snd_seq c)
    (snd_sent c) (snd_win c) (rcv_ack c) (rcv_win c) (ts_val c) (ts_recent c) (snd_win_scale
    c) v (sack c) (tx_queue c) (rx_queue c) (process_running c) (timer c) (keepalive c)
    (wait c) (pending_flags c) (pending_data c) (listed c) (rcv_total c).
Definition with_sack (v : list tcp_sack_block) (c : tcp_connection) : tcp_connection :=
  TcpConnection (tcp_flags c) (peer_port c) (local_port c) (mss c) (tcp_state c) (snd_seq c)
    (snd_sent c) (snd_win c) (rcv_ack c) (rcv_win c) (ts_val c) (ts_recent c) (snd_win_scale
    c) (rcv_win_scale c) v (tx_queue c) (rx_queue c) (process_running c) (timer c)
    (keepalive c) (wait c) (pending_flags c) (pending_data c) (listed c) (rcv_total c).
Definition with_tx_queue (v : list bytes) (c : tcp_connection) : tcp_connection :=
  TcpConnection (tcp_flags c) (peer_port c) (local_port c) (mss c) (tcp_state c) (snd_seq c)
    (snd_sent c) (snd_win c) (rcv_ack c) (rcv_win c) (ts_val c) (ts_recent c) (snd_win_scale
    c) (rcv_win_scale c) (sack c) v (rx_queue c) (process_running c) (timer c) (keepalive c)
    (wait c) (pending_flags c) (pending_data c) (listed c) (rcv_total c).
Definition with_rx_queue (v : list tcp_rx_queued) (c : tcp_connection) : tcp_connection :=
  TcpConnection (tcp_flags c) (peer_port c) (local_port c) (mss c) (tcp_state c) (snd_seq c)
    (snd_sent c) (snd_win c) (rcv_ack c) (rcv_win c) (ts_val c) (ts_recent c) (snd_win_scale
    c) (rcv_win_scale c) (sack c) (tx_queue c) v (process_running c) (timer c) (keepalive c)
    (wait c) (pending_flags c) (pending_data c) (listed c) (rcv_total c).
Definition with_process_running (v : bool) (c : tcp_connection) : tcp_connection :=
  TcpConnection (tcp_flags c) (peer_port c) (local_port c) (mss c) (tcp_state c) (snd_seq c)
    (snd_sent c) (snd_win c) (rcv_ack c) (rcv_win c) (ts_val c) (ts_recent c) (snd_win_scale
    c) (rcv_win_scale c) (sack c) (tx_queue c) (rx_queue c) v (timer c) (keepalive c) (wait
    c) (pending_flags c) (pending_data c) (listed c) (rcv_total c).
Definition with_timer (v : retry_timer) (c : tcp_connection) : tcp_connection :=
  TcpConnection (tcp_flags c) (peer_port c) (local_port c) (mss c) (tcp_state c) (snd_seq c)
    (snd_sent c) (snd_win c) (rcv_ack c) (rcv_win c) (ts_val c) (ts_recent c) (snd_win_scale
    c) (rcv_win_scale c) (sack c) (tx_queue c) (rx_queue c) (process_running c) v (keepalive
    c) (wait c) (pending_flags c) (pending_data c) (listed c) (rcv_total c).
Definition with_keepalive (v : retry_timer) (c : tcp_connection) : tcp_connection :=
  TcpConnection (tcp_flags c) (peer_port c) (local_port c) (mss c) (tcp_state c) (snd_seq c)
    (snd_sent c) (snd_win c) (rcv_ack c) (rcv_win c) (ts_val c) (ts_recent c) (snd_win_scale
    c) (rcv_win_scale c) (sack c) (tx_queue c) (rx_queue c) (process_running c) (timer c) v
    (wait c) (pending_flags c) (pending_data c) (listed c) (rcv_total c).
Definition with_wait (v : retry_timer) (c : tcp_connection) : tcp_connection :=
  TcpConnection (tcp_flags c) (peer_port c) (local_port c) (mss c) (tcp_state c) (snd_seq c)
    (snd_sent c) (snd_win c) (rcv_ack c) (rcv_win c) (ts_val c) (ts_recent c) (snd_win_scale
    c) (rcv_win_scale c) (sack c) (tx_queue c) (rx_queue c) (process_running c) (timer c)
    (keepalive c) v (pending_flags c) (pending_data c) (listed c) (rcv_total c).
Definition with_pending_flags (v : Z) (c : tcp_connection) : tcp_connection :=
  TcpConnection (tcp_flags c) (peer_port c) (local_port c) (mss c) (tcp_state c) (snd_seq c)
    (snd_sent c) (snd_win c) (rcv_ack c) (rcv_win c) (ts_val c) (ts_recent c) (snd_win_scale
    c) (rcv_win_scale c) (sack c) (tx_queue c) (rx_queue c) (process_running c) (timer c)
    (keepalive c) (wait c) v (pending_data c) (listed c) (rcv_total c).
Definition with_pending_data (v : Z) (c : tcp_connection) : tcp_connection :=
  TcpConnection (tcp_flags c) (peer_port c) (local_port c) (mss c) (tcp_state c) (snd_seq c)
    (snd_sent c) (snd_win c) (rcv_ack c) (rcv_win c) (ts_val c) (ts_recent c) (snd_win_scale
    c) (rcv_win_scale c) (sack c) (tx_queue c) (rx_queue c) (process_running c) (timer c)
    (keepalive c) (wait c) (pending_flags c) v (listed c) (rcv_total c).
Definition with_listed (v : bool) (c : tcp_connection) : tcp_connection :=
  TcpConnection (tcp_flags c) (peer_port c) (local_port c) (mss c) (tcp_state c) (snd_seq c)
    (snd_sent c) (snd_win c) (rcv_ack c) (rcv_win c) (ts_val c) (ts_recent c) (snd_win_scale
    c) (rcv_win_scale c) (sack c) (tx_queue c) (rx_queue c) (process_running c) (timer c)
    (keepalive c) (wait c) (pending_flags c) (pending_data c) v (rcv_total c).
Definition with_rcv_total (v : Z) (c : tcp_connection) : tcp_connection :=
  TcpConnection (tcp_flags c) (peer_port c) (local_port c) (mss c) (tcp_state c) (snd_seq c)
    (snd_sent c) (snd_win c) (rcv_ack c) (rcv_win c) (ts_val c) (ts_recent c) (snd_win_scale
    c) (rcv_win_scale c) (sack c) (tx_queue c) (rx_queue c) (process_running c) (timer c)
    (keepalive c) (wait c) (pending_flags c) (pending_data c) (listed c) v.

(** Projections of updated connections compute. *)
Ltac tcp_simpl :=
  cbn [tcp_flags peer_port local_port mss tcp_state snd_seq snd_sent snd_win rcv_ack rcv_win
    ts_val ts_recent snd_win_scale rcv_win_scale sack tx_queue rx_queue process_running
    timer keepalive wait pending_flags pending_data listed rcv_total with_tcp_flags
    with_peer_port with_local_port with_mss with_tcp_state with_snd_seq with_snd_sent
    with_snd_win with_rcv_ack with_rcv_win with_ts_val with_ts_recent with_snd_win_scale
    with_rcv_win_scale with_sack with_tx_queue with_rx_queue with_process_running with_timer
    with_keepalive with_wait with_pending_flags with_pending_data with_listed
    with_rcv_total] in *.

(** ** The environment

    [None] is the return code 0. *)
Definition rc_t : Type := option errno.

(** What the application may do when it is called back: send data or close its
    end of the data-transfer interface. *)
Inductive app_call :=
| AppDeliver (data : bytes)
| AppClose (rc : rc_t).

(** The answers of everything outside the connection, at interaction [n]. *)
Class TcpEnv := {
  env_ticks : nat -> Z;                    (* [currticks] *)
  env_window : nat -> Z;                   (* [xfer_window] of the application *)
  env_alloc : nat -> Z -> bool * nat;      (* [alloc_iob]: success, and the calls of
                                              [tcp_discard] the allocator made *)
  env_tx : nat -> bytes -> bool;           (* [tcpip_tx] returned zero *)
  env_deliver : nat -> bytes -> list app_call;   (* [xfer_deliver_iob] *)
  env_window_changed : nat -> list app_call      (* [xfer_window_changed] *)
}.

Record world := World {
  tcp : tcp_connection;
  clock : nat;                  (* interactions so far *)
  sent : list bytes;            (* packets passed to [tcpip_tx], in order *)
  delivered : list bytes;       (* data passed to the application, in order *)
  app_sent : bytes;             (* data accepted from the application *)
  close_rc : option rc_t;       (* reason with which the interface was shut down *)
  assertion_failures : nat      (* assertions that have failed ([include/assert.h]) *)
}.

Definition on_tcp (f : tcp_connection -> tcp_connection) (w : world) : world :=
  World (f (tcp w)) (clock w) (sent w) (delivered w) (app_sent w) (close_rc w)
    (assertion_failures w).
Definition tick (w : world) : world :=
  World (tcp w) (S (clock w)) (sent w) (delivered w) (app_sent w) (close_rc w)
    (assertion_failures w).
Definition log_sent (pkt : bytes) (w : world) : world :=
  World (tcp w) (clock w) (sent w ++ [pkt]) (delivered w) (app_sent w) (close_rc w)
    (assertion_failures w).
Definition log_delivered (data : bytes) (w : world) : world :=
  World (tcp w) (clock w) (sent w) (delivered w ++ [data]) (app_sent w) (close_rc w)
    (assertion_failures w).
Definition log_app_sent (data : bytes) (w : world) : world :=
  World (tcp w) (clock w) (sent w) (delivered w) (app_sent w ++ data) (close_rc w)
    (assertion_failures w).
Definition log_close (rc : rc_t) (w : world) : world :=
  World (tcp w) (clock w) (sent w) (delivered w) (app_sent w)
    (match close_rc w with None => Some rc | Some _ => close_rc w end) (assertion_failures w).

(** A failed assertion is counted and reported; execution goes on.  The assertions
    that their own callers guarantee are left out: a header at least as long as
    the fixed part in [tcp_rx_opts] ([tcp_parse] has checked it), a positive length in
    [tcp_rx_seq] (one, or what is left of a buffer that is not all old), and no
    pending data once [tcp_close] has emptied the queue, which is part of the theorem on
    the state machine. *)
Definition tcp_assert (ok : bool) (w : world) : world :=
  World (tcp w) (clock w) (sent w) (delivered w) (app_sent w) (close_rc w)
    (if ok then assertion_failures w else S (assertion_failures w)).

Definition set_flag (flag : Z) (c : tcp_connection) : tcp_connection :=
  with_tcp_flags (tcp_flags c ||| flag) c.
Definition set_state (bits : Z) (c : tcp_connection) : tcp_connection :=
  with_tcp_state (tcp_state c ||| bits) c.

(** [pending_get] and [pending_put] ([core/pending.c]). *)
Definition pending_get (n : Z) : Z := n + 1.
Definition pending_put (n : Z) : Z := if n =? 0 then n else n - 1.

(** ** The transmit queue *)

Record tx_result := TxResult {
  txr_len : Z;             (* length processed *)
  txr_data : bytes;        (* data copied to the destination *)
  txr_queue : list bytes;  (* the queue afterwards *)
  txr_freed : nat          (* buffers removed *)
}.

Fixpoint tcp_process_tx_queue (queue : list bytes) (max_len : Z) (remove : bool) : tx_result :=
  match queue with
  | [] => TxResult 0 [] [] 0
  | iobuf :: queue' =>
      let frag_len := if max_len <? zlen iobuf then max_len else zlen iobuf in
      let iobuf' := if remove then drop (Z.to_nat frag_len) iobuf else iobuf in
      let freed := remove && (zlen iobuf' =? 0) in
      let r := tcp_process_tx_queue queue' (max_len - frag_len) remove in
      TxResult (frag_len + txr_len r) (take (Z.to_nat frag_len) iobuf ++ txr_data r)
        (if freed then txr_queue r else iobuf' :: txr_queue r)
        (if freed then S (txr_freed r) else txr_freed r)
  end.

Definition tcp_xmit_win (c : tcp_connection) : Z :=
  if negb (TCP_CAN_SEND_DATA (tcp_state c)) then 0
  else if TCP_PATH_MTU <? snd_win c then TCP_PATH_MTU else snd_win c.

Definition tcp_xfer_window (c : tcp_connection) : Z :=
  match tx_queue c with
  | _ :: _ => 0
  | [] => tcp_xmit_win c
  end.

(** ** Acknowledgements *)

Section operations.
Context {P : Platform}.

(** Start sending FIN once all possible data has been acknowledged. *)
Definition start_fin (c : tcp_connection) : tcp_connection :=
  match tx_queue c with
  | [] =>
      if has (tcp_flags c) TCP_XFER_CLOSED && negb (has (tcp_state c) (TCP_STATE_SENT TCP_FIN))
      then with_pending_flags (pending_get (pending_flags c)) (set_state (TCP_STATE_SENT TCP_FIN) c)
      else c
  | _ :: _ => c
  end.

Definition tcp_rx_ack (now ack win : Z) (c : tcp_connection) : rc_t * tcp_connection :=
  let ack_len := u32 (ack - snd_seq c) in
  if snd_sent c <? ack_len then
    (if TCP_HAS_BEEN_ESTABLISHED (tcp_state c) then (None, c) else (Some EINVAL, c))
  else
    let c := with_snd_win win c in
    let c :=
      if has (tcp_state c) (TCP_STATE_SENT TCP_FIN) then c
      else with_keepalive (start_timer_fixed now TCP_KEEPALIVE_DELAY (keepalive c)) c in
    if ack_len =? 0 then (None, c)
    else
      let c := with_timer (stop_timer now (timer c)) c in
      let acked_flags := Z.land (TCP_FLAGS_SENDING (tcp_state c)) (TCP_SYN ||| TCP_FIN) in
      let len := if acked_flags =? 0 then ack_len else ack_len - 1 in
      let c :=
        if acked_flags =? 0 then c
        else with_pending_flags (pending_put (pending_flags c)) c in
      let c := with_snd_sent 0 (with_snd_seq ack c) in
      let r := tcp_process_tx_queue (tx_queue c) len true in
      let c := with_pending_data (Nat.iter (txr_freed r) pending_put (pending_data c))
                 (with_tx_queue (txr_queue r) c) in
      let c := if acked_flags =? 0 then c else set_state (TCP_STATE_ACKED acked_flags) c in
      (None, start_fin c).

(** ** Closing *)

(** The deletion branch of [tcp_close]. *)
Definition tcp_delete (now : Z) (c : tcp_connection) : tcp_connection :=
  let c := with_tcp_state TCP_CLOSED c in
  let c := with_rx_queue [] c in
  let c := with_pending_data (Nat.iter (length (tx_queue c)) pending_put (pending_data c)) c in
  let c := with_tx_queue [] c in
  let c := with_pending_flags (pending_put (pending_put (pending_flags c))) c in
  let c := with_process_running false c in
  let c := with_timer (stop_timer now (timer c)) c in
  let c := with_keepalive (stop_timer now (keepalive c)) c in
  let c := with_wait (stop_timer now (wait c)) c in
  with_listed false c.

Definition tcp_close_conn (now : Z) (c : tcp_connection) : tcp_connection :=
  let c := set_flag TCP_XFER_CLOSED c in
  if negb (has (tcp_state c) (TCP_STATE_RCVD TCP_SYN)) then tcp_delete now c
  else
    let c :=
      if has (tcp_state c) (TCP_STATE_ACKED TCP_SYN) then c
      else (tcp_rx_ack now (u32 (snd_seq c + 1)) 0 c).2 in
    let c := with_keepalive (stop_timer now (keepalive c)) c in
    match tx_queue c with
    | [] =>
        if has (tcp_state c) (TCP_STATE_SENT TCP_FIN) then c
        else with_pending_flags (pending_get (pending_flags c))
               (with_process_running true (set_state (TCP_STATE_SENT TCP_FIN) c))
    | _ :: _ => c
    end.

(** ** Selective acknowledgement *)

(** The search of [tcp_sack_block] for the highest block that does not start
    after [seq]. *)
Fixpoint sack_scan (queue : list tcp_rx_queued) (seq l r : Z) : Z * Z :=
  match queue with
  | [] => (l, r)
  | e :: queue' =>
      let extend l := sack_scan queue' seq l (if 0 <? tcp_cmp (q_nxt e) r then q_nxt e else r) in
      if 0 <? tcp_cmp (q_seq e) r then
        (if 0 <? tcp_cmp (q_seq e) seq then (l, r) else extend (q_seq e))
      else extend l
  end.

(** The length of the block found (zero on failure) and the block. *)
Definition tcp_sack_block_of (c : tcp_connection) (seq : Z) : Z * tcp_sack_block :=
  let '(l, r) := sack_scan (rx_queue c) seq (rcv_ack c) (rcv_ack c) in
  if tcp_cmp r seq <? 0 then (0, SackBlock 0 0) else (u32 (r - l), SackBlock l r).

(** Populating the new list from the old blocks. *)
Fixpoint sack_loop (c : tcp_connection) (old new : list tcp_sack_block) : list tcp_sack_block :=
  match old with
  | [] => new
  | b :: old' =>
      if (length new =? TCP_SACK_MAX)%nat then new
      else if left b =? right b then sack_loop c old' new
      else
        let '(len, blk) := tcp_sack_block_of c (left b) in
        if len =? 0 then sack_loop c old' new
        else if existsb (fun n => left n =? left blk) new then sack_loop c old' new
        else sack_loop c old' (new ++ [blk])
  end.

(** The new blocks, and the connection with its list replaced. *)
Definition tcp_sack (seq : Z) (c : tcp_connection) : list tcp_sack_block * tcp_connection :=
  let '(len, blk) := tcp_sack_block_of c seq in
  let new := sack_loop c (sack c) (if len =? 0 then [] else [blk]) in
  (new, with_sack (new ++ replicate (TCP_SACK_MAX - length new) (SackBlock 0 0)) c).

(** ** Packets *)

Definition tcp_packet (src dest seq ack flags win : Z) (options payload : bytes) : bytes :=
  let head := be16 src ++ be16 dest ++ be32 seq ++ be32 ack ++
              [u8 (Z.shiftl (sizeof_tcp_header + zlen options) 2); u8 flags] ++ be16 win in
  let tail := [0; 0] ++ options ++ payload in    (* urgent pointer, options, data *)
  head ++ csum_field (tcpip_chksum (head ++ [0; 0] ++ tail)) ++ tail.

Definition syn_options (c : tcp_connection) : bytes :=
  [TCP_OPTION_NOP; TCP_OPTION_NOP; TCP_OPTION_SACK_PERMITTED; 2] ++
  [TCP_OPTION_NOP; TCP_OPTION_WS; 3; TCP_RX_WINDOW_SCALE] ++
  [TCP_OPTION_MSS; 4] ++ be16 (mss c).

Definition ts_option (now : Z) (c : tcp_connection) : bytes :=
  [TCP_OPTION_NOP; TCP_OPTION_NOP; TCP_OPTION_TS; 10] ++ be32 now ++ be32 (ts_recent c).

Definition sack_option (blocks : list tcp_sack_block) : bytes :=
  [TCP_OPTION_NOP; TCP_OPTION_NOP; TCP_OPTION_SACK; u8 (2 + 8 * zlen blocks)] ++
  flat_map (fun b => be32 (left b) ++ be32 (right b)) blocks.

(** The options of an outgoing packet, in the order they end up in memory. *)
Definition xmit_options (now flags : Z) (sack_blocks : list tcp_sack_block) (c : tcp_connection)
    : bytes :=
  (if (length sack_blocks =? 0)%nat then [] else sack_option sack_blocks) ++
  (if has flags TCP_SYN || has (tcp_flags c) TCP_TS_ENABLED then ts_option now c else []) ++
  (if has flags TCP_SYN then syn_options c else []).

(** The receive window, expanded to what the application accepts. *)
Definition expand_rcv_win (xfer_window : Z) (c : tcp_connection) : tcp_connection :=
  let max_rcv_win := u32 xfer_window in
  let max_rcv_win := if TCP_MAX_WINDOW_SIZE <? max_rcv_win then TCP_MAX_WINDOW_SIZE else max_rcv_win in
  let max_representable_win := u32 (Z.shiftl 0xffff (rcv_win_scale c)) in
  let max_rcv_win :=
    if max_representable_win <? max_rcv_win then max_representable_win else max_rcv_win in
  let max_rcv_win := Z.land max_rcv_win (Z.lnot 0x03) in
  if rcv_win c <? max_rcv_win then with_rcv_win max_rcv_win c else c.

(** Dropping the last buffer of a connection's receive queue. *)
Definition discard_rx (c : tcp_connection) : tcp_connection :=
  with_rx_queue (removelast (rx_queue c)) c.

(** [tcp_discard] over the list of connections. *)
Fixpoint tcp_discard (conns : list tcp_connection) : Z * list tcp_connection :=
  match conns with
  | [] => (0, [])
  | c :: conns' =>
      let '(discarded, cs) := tcp_discard conns' in
      match rx_queue c with
      | [] => (discarded, c :: cs)
      | _ :: _ => (discarded + 1, discard_rx c :: cs)
      end
  end.

(** The effect on this connection of one call of [tcp_discard]. *)
Definition discarded (c : tcp_connection) : tcp_connection :=
  if listed c then discard_rx c else c.

Context {E : TcpEnv}.

Definition now_of (w : world) : Z := env_ticks (clock w).

(** [alloc_iob], which may discard cached packets of this connection. *)
Definition alloc_iob (len : Z) (w : world) : bool * world :=
  let '(ok, discards) := env_alloc (clock w) len in
  (ok, tick (on_tcp (Nat.iter discards discarded) w)).

(** [tcpip_tx] *)
Definition transmit (pkt : bytes) (w : world) : bool * world :=
  (env_tx (clock w) pkt, tick (log_sent pkt w)).

(** ** Transmission *)

(** The part of [tcp_xmit_sack] after the buffer has been allocated: expand the
    window, build the packet and send it. *)
Definition tcp_send (sack_seq len flags : Z) (w : world) : world :=
  let payload := txr_data (tcp_process_tx_queue (tx_queue (tcp w)) len false) in
  let w := on_tcp (expand_rcv_win (env_window (clock w))) w in
  let '(blocks, c) :=
    match rx_queue (tcp w) with
    | _ :: _ => if has (tcp_flags (tcp w)) TCP_SACK_ENABLED then tcp_sack sack_seq (tcp w)
                else ([], tcp w)
    | [] => ([], tcp w)
    end in
  let w := on_tcp (fun _ => c) w in
  let options := xmit_options (now_of w) flags blocks c in
  let flags := if len =? 0 then flags else flags ||| TCP_PSH in
  let pkt := tcp_packet (local_port c) (peer_port c) (snd_seq c) (rcv_ack c) flags
               (Z.shiftr (rcv_win c) (rcv_win_scale c)) options payload in
  let '(ok, w) := transmit pkt w in
  if ok then on_tcp (fun c => with_tcp_flags (Z.land (tcp_flags c) (Z.lnot TCP_ACK_PENDING)) c) w
  else w.

Definition tcp_xmit_sack (sack_seq : Z) (w : world) : world :=
  let c := tcp w in
  if running (timer c) then w
  else
    let len :=
      if TCP_CAN_SEND_DATA (tcp_state c)
      then txr_len (tcp_process_tx_queue (tx_queue c) (tcp_xmit_win c) false) else 0 in
    let flags := TCP_FLAGS_SENDING (tcp_state c) in
    let w := tcp_assert (negb (has flags TCP_SYN && has flags TCP_FIN)) w in
    let seq_len := u32 (if has flags (TCP_SYN ||| TCP_FIN) then len + 1 else len) in
    let w := on_tcp (with_snd_sent seq_len) w in
    if (seq_len =? 0) && negb (has (tcp_flags c) TCP_ACK_PENDING) then w
    else
      let w :=
        if seq_len =? 0 then w
        else on_tcp (fun c => with_timer (start_timer (now_of w) (timer c)) c) w in
      let '(ok, w) := alloc_iob (len + TCP_MAX_HEADER_LEN) w in
      if ok then tcp_send sack_seq len flags w else w.

Definition tcp_xmit (w : world) : world := tcp_xmit_sack (rcv_ack (tcp w)) w.

(** ** Closing the connection, with its reason *)

Definition tcp_close (rc : rc_t) (w : world) : world :=
  on_tcp (tcp_close_conn (now_of w)) (log_close rc w).

(** ** The data-transfer interface *)

Definition tcp_xfer_close (rc : rc_t) (w : world) : world := tcp_xmit (tcp_close rc w).

Definition tcp_xfer_deliver (data : bytes) (w : world) : world :=
  let w := log_app_sent data w in
  let w := on_tcp (fun c => with_pending_data (pending_get (pending_data c))
                              (with_tx_queue (tx_queue c ++ [data]) c)) w in
  tcp_xmit w.

(** A call of the application; the interface is nullified once it is closed. *)
Definition app_step (w : world) (call : app_call) : world :=
  if has (tcp_flags (tcp w)) TCP_XFER_CLOSED then w
  else
    match call with
    | AppDeliver data => tcp_xfer_deliver data w
    | AppClose rc => tcp_xfer_close rc w
    end.

Definition app_run (calls : list app_call) (w : world) : world := foldl app_step w calls.

Definition tcp_progress (c : tcp_connection) : option string :=
  if TCP_HAS_BEEN_ESTABLISHED (tcp_state c) then None else Some "connecting"%string.

(** ** Timers and the transmission process *)

(** The retransmission timer has been stopped and backed off by the timer
    code, which passes the failure indicator [over]. *)
Definition tcp_expired (over : bool) (w : world) : world :=
  let w := tcp_assert (bool_decide (tcp_state (tcp w) ∈
             [TCP_SYN_SENT; TCP_SYN_RCVD; TCP_ESTABLISHED; TCP_FIN_WAIT_1; TCP_CLOSE_WAIT;
              TCP_CLOSING_OR_LAST_ACK])) w in
  if over then tcp_close (Some ETIMEDOUT) (on_tcp (with_tcp_state TCP_CLOSED) w)
  else tcp_xmit w.

Definition tcp_keepalive_expired (w : world) : world :=
  let w := on_tcp (fun c => with_keepalive
             (start_timer_fixed (now_of w) TCP_KEEPALIVE_DELAY (keepalive c)) c) w in
  tcp_xmit (on_tcp (set_flag TCP_ACK_PENDING) w).

Definition tcp_wait_expired (w : world) : world :=
  let w := tcp_assert (tcp_state (tcp w) =? TCP_TIME_WAIT) w in
  tcp_close None (on_tcp (with_tcp_state TCP_CLOSED) w).

(** ** Opening *)

Definition tcp_demux (ports : list Z) (port : Z) : bool := bool_decide (port ∈ ports).

Definition tcp_port_available (ports : list Z) (port : Z) : res Z :=
  if tcp_demux ports port then Err EADDRINUSE else Ok port.

(** [alloc_ok] says whether [zalloc] succeeds; [ports] are the local ports of
    the connections on [tcp_conns], [rnd] and [rnd'] the values of the two calls
    of [random], [mtu] that of [tcpip_mtu]. *)
Definition tcp_open (alloc_ok : bool) (rnd rnd' mtu port : Z) (st_local : option sockaddr_tcpip)
    (ports : list Z) (n : nat) : res world :=
  if negb alloc_ok then Err ENOMEM
  else if mtu =? 0 then Err ENETUNREACH
  else
    local ← tcpip_bind rnd' st_local (tcp_port_available ports);
    let t := start_timer_nodelay (env_ticks n) timer_init in
    Ok (World
      (TcpConnection 0 port local (wrap word_bits (mtu - sizeof_tcp_header))
         (TCP_STATE_SENT TCP_SYN) (u32 rnd) 0 0 0 0 0 0 0 0
         (replicate TCP_SACK_MAX (SackBlock 0 0)) [] [] false t timer_init timer_init
         (pending_get 0) 0 true 0)
      n [] [] [] None O).

(** ** Reception *)

(** A parsed packet. *)
Record segment := Segment {
  seg_src : Z;
  seg_dest : Z;
  seg_seq : Z;
  seg_ack : Z;
  seg_flags : Z;
  seg_win : Z;
  seg_ws : option Z;      (* window scale option *)
  seg_sp : bool;          (* SACK permitted option *)
  seg_ts : option Z;      (* timestamp option: the sender's clock *)
  seg_data : bytes
}.

(** [struct tcp_options]: offsets of the options within the header. *)
Record tcp_options := TcpOptions {
  wsopt : option Z;
  spopt : option Z;
  tsopt : option Z
}.

(** The option and the least length for each kind. *)
Definition tcp_rx_opt (kind data : Z) (o : tcp_options) : tcp_options * Z :=
  if kind =? TCP_OPTION_WS then (TcpOptions (Some data) (spopt o) (tsopt o), 3)
  else if kind =? TCP_OPTION_SACK_PERMITTED then (TcpOptions (wsopt o) (Some data) (tsopt o), 2)
  else if kind =? TCP_OPTION_TS then (TcpOptions (wsopt o) (spopt o) (Some data), 10)
  else (o, 2).

(** The loop, from offset [data] to [hlen]. *)
Fixpoint tcp_rx_opts_loop (fuel : nat) (pkt : bytes) (hlen data : Z) (o : tcp_options)
    : res tcp_options :=
  match fuel with
  | O => Trap
  | S fuel' =>
      let remaining := hlen - data in
      if remaining =? 0 then Ok o
      else
        kind ← rd pkt data;
        if kind =? TCP_OPTION_END then Ok o
        else if kind =? TCP_OPTION_NOP then tcp_rx_opts_loop fuel' pkt hlen (data + 1) o
        else
          let '(o, min) := tcp_rx_opt kind data o in
          if remaining <? min then Err EINVAL
          else
            length ← rd pkt (data + 1);
            if length <? min then Err EINVAL
            else if remaining <? length then Err EINVAL
            else tcp_rx_opts_loop fuel' pkt hlen (data + length) o
  end.

Definition tcp_rx_opts (pkt : bytes) (hlen : Z) : res tcp_options :=
  tcp_rx_opts_loop (S (Z.to_nat hlen)) pkt hlen sizeof_tcp_header (TcpOptions None None None).

(** Reading a field through an option pointer, if it is set. *)
Definition opt_field {A} (f : Z -> res A) (o : option Z) : res (option A) :=
  match o with None => Ok None | Some off => v ← f off; Ok (Some v) end.

(** The checks and the parsing at the start of [tcp_rx]. *)
Definition tcp_parse (pkt : bytes) (pshdr_csum : Z) : res segment :=
  if zlen pkt <? sizeof_tcp_header then Err EINVAL
  else
    h ← rd pkt 12;
    let hlen := Z.land h TCP_MASK_HLEN / 16 * 4 in
    if hlen <? sizeof_tcp_header then Err EINVAL
    else if zlen pkt <? hlen then Err EINVAL
    else
      let csum := generic_tcpip_continue_chksum pshdr_csum pkt in
      if negb (csum =? 0) then Err EINVAL
      else
        src ← rd_be16 pkt 0;
        dest ← rd_be16 pkt 2;
        seq ← rd_be32 pkt 4;
        ack ← rd_be32 pkt 8;
        flags ← rd pkt 13;
        win ← rd_be16 pkt 14;
        o ← tcp_rx_opts pkt hlen;
        ws ← opt_field (fun off => rd pkt (off + 2)) (wsopt o);
        ts ← opt_field (fun off => rd_be32 pkt (off + 2)) (tsopt o);
        Ok (Segment src dest seq ack flags win ws (bool_decide (is_Some (spopt o))) ts
              (drop (Z.to_nat hlen) pkt)).
(** Clamping a SACK block to the acknowledgement number. *)
Definition sack_advance (ack : Z) (b : tcp_sack_block) : tcp_sack_block :=
  if left b =? right b then b
  else SackBlock (if tcp_cmp (left b) ack <? 0 then ack else left b)
                 (if tcp_cmp (right b) ack <? 0 then ack else right b).

Definition tcp_rx_seq (seq_len : Z) (c : tcp_connection) : tcp_connection :=
  let c := with_rcv_total (rcv_total c + seq_len) (with_rcv_ack (u32 (rcv_ack c + seq_len)) c) in
  let c := with_rcv_win (if seq_len <? rcv_win c then rcv_win c - seq_len else 0) c in
  let c := with_ts_recent (ts_val c) c in
  let c := with_sack (sack_advance (rcv_ack c) <$> sack c) c in
  set_flag TCP_ACK_PENDING c.

(** Synchronise sequence numbers on the first SYN. *)
Definition syn_sync (seq : Z) (seg : segment) (c : tcp_connection) : tcp_connection :=
  if has (tcp_state c) (TCP_STATE_RCVD TCP_SYN) then c
  else
    let c := with_rcv_total seq (with_rcv_ack seq c) in
    let c := match seg_ts seg with Some _ => set_flag TCP_TS_ENABLED c | None => c end in
    let c := if seg_sp seg then set_flag TCP_SACK_ENABLED c else c in
    match seg_ws seg with
    | Some scale => with_rcv_win_scale TCP_RX_WINDOW_SCALE (with_snd_win_scale scale c)
    | None => c
    end.

Definition tcp_rx_syn (seq : Z) (seg : segment) (c : tcp_connection) : tcp_connection :=
  let c := syn_sync seq seg c in
  if negb (seq =? rcv_ack c) then c
  else set_state (TCP_STATE_SENT TCP_ACK ||| TCP_STATE_RCVD TCP_SYN) (tcp_rx_seq 1 c).

(** [xfer_deliver_iob]: the data reaches the application unless the interface
    has been closed, and the application may react. *)
Definition xfer_deliver_iob (data : bytes) (w : world) : world :=
  if has (tcp_flags (tcp w)) TCP_XFER_CLOSED then w
  else app_run (env_deliver (clock w) data) (tick (log_delivered data w)).

Definition tcp_rx_data (seq : Z) (data : bytes) (w : world) : world :=
  let already_rcvd := u32 (rcv_ack (tcp w) - seq) in
  let len := zlen data in
  if len <=? already_rcvd then w
  else
    let data := drop (Z.to_nat already_rcvd) data in
    let len := len - already_rcvd in
    xfer_deliver_iob data (on_tcp (tcp_rx_seq len) w).

Definition tcp_rx_fin (seq : Z) (w : world) : world :=
  if negb (seq =? rcv_ack (tcp w)) then w
  else tcp_close None (on_tcp (fun c => set_state (TCP_STATE_RCVD TCP_FIN) (tcp_rx_seq 1 c)) w).

Definition tcp_rx_rst (seq : Z) (w : world) : rc_t * world :=
  let c := tcp w in
  if (if has (tcp_state c) (TCP_STATE_RCVD TCP_SYN)
      then negb (tcp_in_window seq (rcv_ack c) (rcv_win c))
      else negb (has (tcp_state c) (TCP_STATE_ACKED TCP_SYN)))
  then (None, w)
  else (Some ECONNRESET, tcp_close (Some ECONNRESET) (on_tcp (with_tcp_state TCP_CLOSED) w)).

(** Insertion before the first buffer that starts later. *)
Fixpoint rx_insert (e : tcp_rx_queued) (queue : list tcp_rx_queued) : list tcp_rx_queued :=
  match queue with
  | [] => [e]
  | q :: queue' => if tcp_cmp (q_seq e) (q_seq q) <? 0 then e :: queue else q :: rx_insert e queue'
  end.

Definition tcp_rx_enqueue (seq flags : Z) (data : bytes) (c : tcp_connection) : tcp_connection :=
  let flags := Z.land flags TCP_FIN in
  let seq_len := u32 (zlen data + (if flags =? 0 then 0 else 1)) in
  let nxt := u32 (seq + seq_len) in
  if negb (has (tcp_state c) (TCP_STATE_RCVD TCP_SYN)) ||
     (0 <=? tcp_cmp seq (u32 (rcv_ack c + rcv_win c))) ||
     (tcp_cmp nxt (rcv_ack c) <? 0) ||
     (seq_len =? 0)
  then c
  else with_rx_queue (rx_insert (RxQueued seq nxt flags data) (rx_queue c)) c.

(** The loop of [tcp_process_rx_queue]; every iteration removes a buffer, so
    the length of the queue is enough fuel. *)
Fixpoint rx_loop (fuel : nat) (w : world) : world :=
  match fuel with
  | O => w
  | S fuel' =>
      match rx_queue (tcp w) with
      | [] => w
      | e :: queue =>
          if 0 <? tcp_cmp (q_seq e) (rcv_ack (tcp w)) then w
          else
            let w := on_tcp (with_rx_queue queue) w in
            let w := tcp_rx_data (q_seq e) (q_data e) w in
            let seq := u32 (q_seq e + zlen (q_data e)) in
            let w := if has (q_flags e) TCP_FIN then tcp_rx_fin seq w else w in
            rx_loop fuel' w
      end
  end.

Definition tcp_process_rx_queue (w : world) : world := rx_loop (length (rx_queue (tcp w))) w.

(** A reset in answer to a packet. *)
Definition tcp_xmit_reset (seg : segment) (w : world) : world :=
  let '(ok, w) := alloc_iob TCP_MAX_HEADER_LEN w in
  if negb ok then w
  else
    (transmit (tcp_packet (seg_dest seg) (seg_src seg) (seg_ack seg) (seg_seq seg)
                 (TCP_RST ||| TCP_ACK) 0 [] []) w).2.

(** The acknowledgement part of [tcp_rx].  The window scale is the peer's, up to
    255; the code shifts by it as it is, which is undefined from 32 on and here
    gives a window of zero. *)
Definition rx_handle_ack (seg : segment) (w : world) : rc_t * world :=
  if negb (has (seg_flags seg) TCP_ACK) then (None, w)
  else
    let win := u32 (Z.shiftl (seg_win seg) (snd_win_scale (tcp w))) in
    let '(rc, c) := tcp_rx_ack (now_of w) (seg_ack seg) win (tcp w) in
    (rc, on_tcp (fun _ => c) w).

(** The end of [tcp_rx]: process the queue, answer, arm the TIME_WAIT timer and
    notify the application. *)
Definition rx_finish (seq old_xfer_window : Z) (w : world) : world :=
  let w := tcp_process_rx_queue w in
  let w :=
    match rx_queue (tcp w) with
    | [] => on_tcp (with_process_running true) w
    | _ :: _ => tcp_xmit_sack seq w
    end in
  let w :=
    if TCP_CLOSED_GRACEFULLY (tcp_state (tcp w))
    then on_tcp (fun c => with_wait (start_timer_fixed (now_of w) (2 * TCP_MSL)
                                       (stop_timer (now_of w) (wait c))) c) w
    else w in
  if tcp_xfer_window (tcp w) =? old_xfer_window then w
  else if has (tcp_flags (tcp w)) TCP_XFER_CLOSED then w
  else app_run (env_window_changed (clock w)) (tick w).

(** The processing of a segment for this connection. *)
Definition tcp_rx_segment (seg : segment) (w : world) : rc_t * world :=
  let w :=
    match seg_ts seg with
    | Some tsval => on_tcp (with_ts_val tsval) w
    | None => w
    end in
  let old_xfer_window := tcp_xfer_window (tcp w) in
  match rx_handle_ack seg w with
  | (Some rc, w) => (Some rc, tcp_xmit_reset seg w)
  | (None, w) =>
      let seq := seg_seq seg in
      let w :=
        if has (tcp_state (tcp w)) (TCP_STATE_RCVD TCP_SYN) && negb (seq =? rcv_ack (tcp w))
        then on_tcp (set_flag TCP_ACK_PENDING) w else w in
      let '(seq, w) :=
        if has (seg_flags seg) TCP_SYN
        then (u32 (seq + 1), on_tcp (tcp_rx_syn seq seg) w) else (seq, w) in
      let '(rc, w) := if has (seg_flags seg) TCP_RST then tcp_rx_rst seq w else (None, w) in
      match rc with
      | Some rc => (Some rc, w)
      | None =>
          let w := on_tcp (tcp_rx_enqueue seq (seg_flags seg) (seg_data seg)) w in
          (None, rx_finish seq old_xfer_window w)
      end
  end.

(** [tcp_rx] for a world in which this is the only connection with its port. *)
Definition tcp_rx (pkt : bytes) (pshdr_csum : Z) (w : world) : res (rc_t * world) :=
  match tcp_parse pkt pshdr_csum with
  | Ok seg =>
      if listed (tcp w) && (local_port (tcp w) =? seg_dest seg)
      then Ok (tcp_rx_segment seg w)
      else Ok (Some ENOTCONN, w)
  | Err e => Ok (Some e, w)
  | Trap => Trap
  end.

(** ** Events

    What can happen to a connection, in any order: packets, expiry of its
    timers (only while they run), the scheduled transmission, calls of the
    application, and cache discards. *)

Inductive event :=
| EvRx (pkt : bytes) (pshdr_csum : Z)
| EvTimer
| EvKeepalive
| EvWait
| EvProcess
| EvApp (call : app_call)
| EvDiscard.

Definition tcp_step (ev : event) (w : world) : world :=
  match ev with
  | EvRx pkt pshdr_csum =>
      match tcp_rx pkt pshdr_csum w with Ok (_, w') => w' | _ => w end
  | EvTimer =>
      if running (timer (tcp w)) then
        let '(over, t) := timer_backoff (timer (tcp w)) in
        tcp_expired over (on_tcp (with_timer t) w)
      else w
  | EvKeepalive =>
      if running (keepalive (tcp w)) then
        tcp_keepalive_expired (on_tcp (with_keepalive (timer_backoff (keepalive (tcp w))).2) w)
      else w
  | EvWait =>
      if running (wait (tcp w)) then
        tcp_wait_expired (on_tcp (with_wait (timer_backoff (wait (tcp w))).2) w)
      else w
  | EvProcess =>
      if process_running (tcp w) then tcp_xmit (on_tcp (with_process_running false) w) else w
  | EvApp call => app_step w call
  | EvDiscard => on_tcp discarded w
  end.

Definition tcp_run (evs : list event) (w : world) : world := foldl (fun w ev => tcp_step ev w) w evs.

End operations.

(** ** Parsing received packets *)

Definition opt_within (hlen n : Z) (o : option Z) : Prop :=
  match o with None => True | Some off => 0 <= off /\ off + n <= hlen end.

Definition opts_ok (hlen : Z) (o : tcp_options) : Prop :=
  opt_within hlen 3 (wsopt o) /\ opt_within hlen 2 (spopt o) /\ opt_within hlen 10 (tsopt o).

Lemma tcp_rx_opt_spec hlen kind data o :
  0 <= data -> opts_ok hlen o ->
  let '(o', min) := tcp_rx_opt kind data o in
  2 <= min /\ (data + min <= hlen -> opts_ok hlen o').
Proof.
  intros Hd (Hw & Hs & Ht). unfold tcp_rx_opt.
  repeat case_if; (split; [lia |]); intros Hm; unfold opts_ok; cbn; auto.
Qed.

(** The loop stays inside the header and ends within one iteration per byte. *)
Lemma tcp_rx_opts_loop_safe fuel pkt hlen data o :
  Forall is_byte pkt -> 0 <= data <= hlen -> hlen <= zlen pkt -> hlen - data < Z.of_nat fuel ->
  opts_ok hlen o ->
  match tcp_rx_opts_loop fuel pkt hlen data o with
  | Ok o' => opts_ok hlen o'
  | Err e => e = EINVAL
  | Trap => False
  end.
Proof.
  intros Hb. revert data o. induction fuel as [| fuel IH]; intros data o Hd Hl Hf Ho; [lia |].
  cbn [tcp_rx_opts_loop]. destruct (Z.eqb_spec (hlen - data) 0) as [| Hne]; [done |].
  destruct (rd_ok pkt data) as [kind ->]; [lia |]. cbn [mbind res_bind].
  destruct (kind =? TCP_OPTION_END); [done |].
  destruct (kind =? TCP_OPTION_NOP); [apply IH; auto; lia |].
  pose proof (tcp_rx_opt_spec hlen kind data o ltac:(lia) Ho) as Hspec.
  destruct (tcp_rx_opt kind data o) as [o' min]. destruct Hspec as [Hmin Ho'].
  destruct (Z.ltb_spec (hlen - data) min); [done |].
  destruct (rd_ok pkt (data + 1)) as [len ->]; [lia |]. cbn [mbind res_bind].
  destruct (Z.ltb_spec len min); [done |]. destruct (Z.ltb_spec (hlen - data) len); [done |].
  apply IH; auto; try lia. apply Ho'. lia.
Qed.

Lemma opt_field_ok {A} (f : Z -> res A) hlen n o :
  opt_within hlen n o -> (forall off, 0 <= off -> off + n <= hlen -> exists v, f off = Ok v) ->
  exists v, opt_field f o = Ok v.
Proof.
  intros Ho Hf. destruct o as [off |]; [| by exists None].
  destruct (Hf off) as [v Hv]; [apply Ho.. |]. cbn. rewrite Hv. by exists (Some v).
Qed.

Lemma hlen_range h : 0 <= Z.land h TCP_MASK_HLEN / 16 * 4 <= 60.
Proof.
  assert (0 <= Z.land h TCP_MASK_HLEN <= 240).
  { split; [apply Z.land_nonneg; right; done |].
    assert (Z.land h TCP_MASK_HLEN = Z.land (Z.land h TCP_MASK_HLEN) (2 ^ 8 - 1)) as ->.
    { by rewrite <- Z.land_assoc. }
    rewrite land_mask by lia.
    replace (Z.land h TCP_MASK_HLEN) with (Z.shiftl (Z.land (Z.shiftr h 4) 0xf) 4).
    2: { rewrite Z.shiftl_land, <- Z.ldiff_ones_r, Z.ldiff_land, <- Z.land_assoc by lia. done. }
    change 0xf with (2 ^ 4 - 1). rewrite land_mask, Z.shiftl_mul_pow2 by lia.
    wrap_lia. }
  Z.div_mod_to_equations. lia.
Qed.

(** C26. Parsing any packet, however malformed, reads only bytes inside it: the
    header checks and the option loop end with a segment or with [EINVAL],
    within one loop iteration per header byte. *)
Theorem tcp_parse_safe pkt pshdr_csum :
  Forall is_byte pkt ->
  tcp_parse pkt pshdr_csum = Err EINVAL \/
  exists seg hlen, tcp_parse pkt pshdr_csum = Ok seg /\
    20 <= hlen <= 60 /\ hlen <= zlen pkt /\ seg_data seg = drop (Z.to_nat hlen) pkt.
Proof.
  intros Hb. unfold tcp_parse.
  destruct (Z.ltb_spec (zlen pkt) 20); [by left |].
  destruct (rd_ok pkt 12) as [h ->]; [lia |]. cbn [mbind res_bind].
  pose proof (hlen_range h). set (hlen := Z.land h TCP_MASK_HLEN / 16 * 4) in *.
  destruct (Z.ltb_spec hlen 20); [by left |]. destruct (Z.ltb_spec (zlen pkt) hlen); [by left |].
  case_if; [by left |].
  destruct (rd_be16_ok pkt 0) as [src ->]; [lia.. |].
  destruct (rd_be16_ok pkt 2) as [dest ->]; [lia.. |].
  destruct (rd_be32_ok pkt 4) as [seq ->]; [lia.. |].
  destruct (rd_be32_ok pkt 8) as [ack ->]; [lia.. |].
  destruct (rd_ok pkt 13) as [flags ->]; [lia |].
  destruct (rd_be16_ok pkt 14) as [win ->]; [lia.. |]. cbn [mbind res_bind].
  pose proof (tcp_rx_opts_loop_safe (S (Z.to_nat hlen)) pkt hlen 20 (TcpOptions None None None)
    Hb ltac:(lia) ltac:(lia) ltac:(lia) ltac:(done)) as Ho.
  unfold tcp_rx_opts.
  destruct (tcp_rx_opts_loop _ _ _ _ _) as [o | e |]; [| by left; rewrite Ho | done].
  destruct Ho as (Hw & _ & Ht). cbn [mbind res_bind].
  destruct (opt_field_ok (fun off => rd pkt (off + 2)) hlen 3 (wsopt o) Hw) as [ws ->].
  { intros. apply rd_ok. lia. }
  destruct (opt_field_ok (fun off => rd_be32 pkt (off + 2)) hlen 10 (tsopt o) Ht) as [ts ->].
  { intros. apply rd_be32_ok; lia. }
  cbn [mbind res_bind]. right. eexists _, hlen. split; [done |]. split; [lia |]. by split.
Qed.

Lemma tcp_parse_safe_witness :
  tcp_parse (replicate 60 0xff) 0xffff = Err EINVAL \/
  exists seg hlen, tcp_parse (replicate 60 0xff) 0xffff = Ok seg /\
    20 <= hlen <= 60 /\ hlen <= zlen (replicate 60 0xff) /\
    seg_data seg = drop (Z.to_nat hlen) (replicate 60 0xff).
Proof. apply (tcp_parse_safe (replicate 60 0xff) 0xffff). by apply (bool_decide_unpack _). Defined.

(** ** Packets we send can be parsed

    The step of the option loop over one option, and over each group of
    options [tcp_xmit_sack] writes. *)

Lemma opts_nop fuel pre rest hlen o :
  zlen pre < hlen ->
  tcp_rx_opts_loop (S fuel) (pre ++ TCP_OPTION_NOP :: rest) hlen (zlen pre) o =
  tcp_rx_opts_loop fuel ((pre ++ [TCP_OPTION_NOP]) ++ rest) hlen (zlen (pre ++ [TCP_OPTION_NOP])) o.
Proof.
  intros H. cbn [tcp_rx_opts_loop]. rewrite (proj2 (Z.eqb_neq _ _)) by lia.
  rewrite (rd_app_r pre _ (zlen pre)) by done. cbn [mbind res_bind hd].
  rewrite <- app_assoc, length_app, Nat2Z.inj_add. done.
Qed.

Lemma opts_opt fuel pre kind len body rest hlen o :
  kind <> TCP_OPTION_END -> kind <> TCP_OPTION_NOP -> len = 2 + zlen body ->
  zlen pre + len <= hlen -> (tcp_rx_opt kind (zlen pre) o).2 <= len ->
  tcp_rx_opts_loop (S fuel) (pre ++ kind :: len :: body ++ rest) hlen (zlen pre) o =
  tcp_rx_opts_loop fuel ((pre ++ kind :: len :: body) ++ rest) hlen
    (zlen (pre ++ kind :: len :: body)) (tcp_rx_opt kind (zlen pre) o).1.
Proof.
  intros H0 H1 Hlen Hh Hmin. cbn [tcp_rx_opts_loop]. rewrite (proj2 (Z.eqb_neq _ _)) by lia.
  rewrite (rd_app_r pre _ (zlen pre)) by done. cbn [mbind res_bind hd].
  rewrite !(proj2 (Z.eqb_neq kind _)) by done.
  destruct (tcp_rx_opt kind (zlen pre) o) as [o' min]. cbn [fst snd] in *.
  rewrite (proj2 (Z.ltb_ge _ _)) by lia.
  rewrite rd_app_shift by lia. replace (zlen pre + 1 - zlen pre) with 1 by lia.
  change (rd (kind :: len :: body ++ rest) 1) with (@Ok Z len). cbn [mbind res_bind].
  rewrite !(proj2 (Z.ltb_ge _ _)) by lia.
  rewrite <- app_assoc, length_app. cbn [length app]. f_equal. lia.
Qed.

(** [blk] is consumed in [k] iterations, turning options [o] into [f off o]. *)
Definition opts_consume (blk : bytes) (k : nat) (f : Z -> tcp_options -> tcp_options) : Prop :=
  forall fuel pre rest hlen o, zlen pre + zlen blk <= hlen ->
  tcp_rx_opts_loop (k + fuel) (pre ++ blk ++ rest) hlen (zlen pre) o =
  tcp_rx_opts_loop fuel ((pre ++ blk) ++ rest) hlen (zlen (pre ++ blk)) (f (zlen pre) o).

Lemma opts_consume_app b1 b2 k1 k2 f1 f2 :
  opts_consume b1 k1 f1 -> opts_consume b2 k2 f2 ->
  opts_consume (b1 ++ b2) (k1 + k2) (fun off o => f2 (off + zlen b1) (f1 off o)).
Proof.
  intros H1 H2 fuel pre rest hlen o Hh. rewrite length_app in Hh.
  rewrite <- !app_assoc, <- Nat.add_assoc, H1 by lia.
  rewrite H2 by (rewrite length_app; lia). rewrite !app_assoc, !length_app, !Nat2Z.inj_add. done.
Qed.

Lemma opts_consume_ext blk k f g :
  (forall off o, f off o = g off o) -> opts_consume blk k f -> opts_consume blk k g.
Proof. intros Hfg H fuel pre rest hlen o Hh. rewrite <- Hfg. by apply H. Qed.

Lemma opts_consume_nil : opts_consume [] 0 (fun _ o => o).
Proof. intros fuel pre rest hlen o _. by rewrite app_nil_r. Qed.

Lemma opts_consume_nop : opts_consume [TCP_OPTION_NOP] 1 (fun _ o => o).
Proof. intros fuel pre rest hlen o H. apply opts_nop. cbn in H. lia. Qed.

Lemma opts_consume_opt kind len body :
  kind <> TCP_OPTION_END -> kind <> TCP_OPTION_NOP -> len = 2 + zlen body ->
  (forall off o, (tcp_rx_opt kind off o).2 <= len) ->
  opts_consume (kind :: len :: body) 1 (fun off o => (tcp_rx_opt kind off o).1).
Proof.
  intros H0 H1 Hl Hm fuel pre rest hlen o H. cbn [length] in H. apply opts_opt; [done.. | lia | done].
Qed.

Lemma opts_consume_ts now c :
  opts_consume (ts_option now c) 3 (fun off o => TcpOptions (wsopt o) (spopt o) (Some (off + 2))).
Proof.
  pose proof (opts_consume_app _ _ _ _ _ _ opts_consume_nop
    (opts_consume_app _ _ _ _ _ _ opts_consume_nop
      (opts_consume_opt TCP_OPTION_TS 10 (be32 now ++ be32 (ts_recent c)) ltac:(done) ltac:(done)
        ltac:(done) ltac:(by intros)))) as H.
  eapply opts_consume_ext; [| exact H]. intros off o. unfold tcp_rx_opt.
  cbn [Z.eqb Pos.eqb fst wsopt spopt tsopt length]. f_equal; f_equal; lia.
Qed.

Lemma opts_consume_syn c :
  opts_consume (syn_options c) 6
    (fun off o => TcpOptions (Some (off + 5)) (Some (off + 2)) (tsopt o)).
Proof.
  pose proof (opts_consume_app _ _ _ _ _ _ opts_consume_nop
    (opts_consume_app _ _ _ _ _ _ opts_consume_nop
    (opts_consume_app _ _ _ _ _ _
      (opts_consume_opt TCP_OPTION_SACK_PERMITTED 2 [] ltac:(done) ltac:(done) ltac:(done) ltac:(by intros))
    (opts_consume_app _ _ _ _ _ _ opts_consume_nop
    (opts_consume_app _ _ _ _ _ _
      (opts_consume_opt TCP_OPTION_WS 3 [TCP_RX_WINDOW_SCALE] ltac:(done) ltac:(done) ltac:(done) ltac:(by intros))
      (opts_consume_opt TCP_OPTION_MSS 4 (be16 (mss c)) ltac:(done) ltac:(done) ltac:(done) ltac:(by intros))))))) as H.
  eapply opts_consume_ext; [| exact H]. intros off o. unfold tcp_rx_opt.
  cbn [Z.eqb Pos.eqb fst wsopt spopt tsopt length]. f_equal; f_equal; lia.
Qed.

Lemma length_sack_blocks blocks :
  zlen (flat_map (fun b => be32 (left b) ++ be32 (right b)) blocks) = 8 * zlen blocks.
Proof.
  induction blocks as [| b blocks IH]; [done |]. cbn [flat_map length].
  rewrite length_app, Nat2Z.inj_add, IH. cbn. lia.
Qed.

Lemma opts_consume_sack blocks :
  (length blocks <= TCP_SACK_MAX)%nat -> opts_consume (sack_option blocks) 3 (fun _ o => o).
Proof.
  intros Hn. pose proof (length_sack_blocks blocks) as Hl.
  pose proof (opts_consume_app _ _ _ _ _ _ opts_consume_nop
    (opts_consume_app _ _ _ _ _ _ opts_consume_nop
      (opts_consume_opt TCP_OPTION_SACK (u8 (2 + 8 * zlen blocks))
        (flat_map (fun b => be32 (left b) ++ be32 (right b)) blocks)
        ltac:(done) ltac:(done) ltac:(rewrite Hl; apply wrap_small; unfold in_range; lia)
        ltac:(intros; cbn; rewrite wrap_small by (unfold in_range; lia); lia)))) as H.
  exact H.
Qed.

Definition sends_ts (flags : Z) (c : tcp_connection) : bool :=
  has flags TCP_SYN || has (tcp_flags c) TCP_TS_ENABLED.

Definition sack_part (blocks : list tcp_sack_block) : bytes :=
  if (length blocks =? 0)%nat then [] else sack_option blocks.
Definition ts_part (now flags : Z) (c : tcp_connection) : bytes :=
  if sends_ts flags c then ts_option now c else [].

Lemma sack_part_length blocks : zlen (sack_part blocks) = if (length blocks =? 0)%nat then 0 else 4 + 8 * zlen blocks.
Proof.
  unfold sack_part, sack_option. case_if; [done |].
  rewrite length_app, Nat2Z.inj_add, length_sack_blocks. done.
Qed.

Lemma ts_part_length now flags c : zlen (ts_part now flags c) = if sends_ts flags c then 12 else 0.
Proof. unfold ts_part. by case_if. Qed.

Lemma xmit_options_length now flags blocks c :
  zlen (xmit_options now flags blocks c) =
  (if (length blocks =? 0)%nat then 0 else 4 + 8 * zlen blocks) +
  (if sends_ts flags c then 12 else 0) + (if has flags TCP_SYN then 12 else 0).
Proof.
  unfold xmit_options. fold (sack_part blocks) (sends_ts flags c). fold (ts_part now flags c).
  rewrite !length_app, !Nat2Z.inj_add, sack_part_length, ts_part_length.
  destruct (has flags TCP_SYN); cbn; lia.
Qed.

Lemma xmit_options_consume now flags blocks c :
  (length blocks <= TCP_SACK_MAX)%nat ->
  exists k, (k <= 12)%nat /\ opts_consume (xmit_options now flags blocks c) k (fun off o =>
    let off1 := off + zlen (sack_part blocks) in
    let off2 := off1 + zlen (ts_part now flags c) in
    TcpOptions (if has flags TCP_SYN then Some (off2 + 5) else wsopt o)
               (if has flags TCP_SYN then Some (off2 + 2) else spopt o)
               (if sends_ts flags c then Some (off1 + 2) else tsopt o)).
Proof.
  intros Hn.
  assert (H1 : exists k1, (k1 <= 3)%nat /\ opts_consume (sack_part blocks) k1 (fun _ o => o)).
  { unfold sack_part. case_if; [exists 0%nat | exists 3%nat]; (split; [lia |]).
    - apply opts_consume_nil.
    - by apply opts_consume_sack. }
  assert (H2 : exists k2, (k2 <= 3)%nat /\ opts_consume (ts_part now flags c) k2 (fun off o =>
    TcpOptions (wsopt o) (spopt o) (if sends_ts flags c then Some (off + 2) else tsopt o))).
  { unfold ts_part. case_if; [exists 3%nat | exists 0%nat]; (split; [lia |]).
    - apply opts_consume_ts.
    - eapply opts_consume_ext; [| apply opts_consume_nil]. by intros off []. }
  assert (H3 : exists k3, (k3 <= 6)%nat /\
    opts_consume (if has flags TCP_SYN then syn_options c else []) k3 (fun off o =>
      TcpOptions (if has flags TCP_SYN then Some (off + 5) else wsopt o)
                 (if has flags TCP_SYN then Some (off + 2) else spopt o) (tsopt o))).
  { case_if; [exists 6%nat | exists 0%nat]; (split; [lia |]).
    - apply opts_consume_syn.
    - eapply opts_consume_ext; [| apply opts_consume_nil]. by intros off []. }
  destruct H1 as (k1 & ? & H1), H2 as (k2 & ? & H2), H3 as (k3 & ? & H3).
  exists (k1 + (k2 + k3))%nat. split; [lia |].
  exact (opts_consume_app _ _ _ _ _ _ H1 (opts_consume_app _ _ _ _ _ _ H2 H3)).
Qed.

(** What the peer finds in the options we send. *)
Lemma xmit_options_parse pre now flags blocks c payload :
  let options := xmit_options now flags blocks c in
  let pkt := pre ++ options ++ payload in
  zlen pre = sizeof_tcp_header -> (length blocks <= TCP_SACK_MAX)%nat ->
  exists o, tcp_rx_opts pkt (sizeof_tcp_header + zlen options) = Ok o /\
    opt_field (fun off => rd pkt (off + 2)) (wsopt o) =
      Ok (if has flags TCP_SYN then Some TCP_RX_WINDOW_SCALE else None) /\
    bool_decide (is_Some (spopt o)) = has flags TCP_SYN /\
    opt_field (fun off => rd_be32 pkt (off + 2)) (tsopt o) =
      Ok (if sends_ts flags c then Some (u32 now) else None).
Proof.
  intros options pkt Hpre Hn.
  destruct (xmit_options_consume now flags blocks c Hn) as (k & Hk & Hc).
  unfold tcp_rx_opts. rewrite <- Hpre. set (hlen := zlen pre + zlen options).
  assert (Hfuel : exists fuel, S (Z.to_nat hlen) = (k + S fuel)%nat).
  { exists (Z.to_nat hlen - k)%nat. lia. }
  destruct Hfuel as [fuel ->]. unfold pkt. rewrite Hc by (unfold hlen, options; lia). fold options.
  replace (zlen (pre ++ options)) with hlen by (rewrite length_app; lia).
  cbn [tcp_rx_opts_loop]. rewrite (proj2 (Z.eqb_eq _ 0)) by lia.
  eexists. split; [done |]. cbn [wsopt spopt tsopt].
  subst options. unfold xmit_options. fold (sack_part blocks) (sends_ts flags c).
  fold (ts_part now flags c). split_and!.
  - destruct (has flags TCP_SYN); [| done]. cbn [opt_field]. rewrite <- !app_assoc.
    rewrite !rd_app_shift by (rewrite ?length_app; lia).
    match goal with |- context [rd _ ?i] => replace i with 7 by lia end. done.
  - by destruct (has flags TCP_SYN).
  - unfold ts_part. destruct (sends_ts flags c); [| done]. cbn [opt_field]. rewrite <- !app_assoc.
    unfold ts_option. rewrite <- !app_assoc. rewrite (app_assoc pre), (app_assoc _ [_; _; _; _]).
    rewrite rd_be32_app by (rewrite !length_app; cbn [length]; lia). done.
Qed.

(** The network layer's completion of the checksum field over the
    pseudo-header ([*trans_csum = ipv4_pshdr_chksum ( iobuf, *trans_csum )]). *)
Definition complete_csum (pshdr pkt : bytes) : bytes :=
  let csum := nth 16 pkt 0 + 256 * nth 17 pkt 0 in
  take 16 pkt ++ csum_field (generic_tcpip_continue_chksum csum pshdr) ++ drop 18 pkt.

Definition tcp_head (src dest seq ack flags win : Z) (options : bytes) : bytes :=
  be16 src ++ be16 dest ++ be32 seq ++ be32 ack ++
  [u8 (Z.shiftl (sizeof_tcp_header + zlen options) 2); u8 flags] ++ be16 win.

(** Literal and reduced bytes are bytes. *)
Ltac byte_lits :=
  repeat (apply Forall_cons_2; [first [done | by apply (wrap_range 8)] |]); apply Forall_nil_2.

Lemma tcp_head_bytes src dest seq ack flags win options :
  Forall is_byte (tcp_head src dest seq ack flags win options).
Proof.
  unfold tcp_head. rewrite !Forall_app. split_and!; auto with ipxe; byte_lits.
Qed.

Lemma xmit_options_bytes now flags blocks c : Forall is_byte (xmit_options now flags blocks c).
Proof.
  unfold xmit_options. rewrite !Forall_app. split_and!.
  - case_if; [done |]. unfold sack_option. rewrite Forall_app. split.
    + byte_lits.
    + apply Forall_flat_map, Forall_forall. intros b _. rewrite Forall_app. auto with ipxe.
  - case_if; [| done]. unfold ts_option. rewrite !Forall_app. split_and!; auto with ipxe; byte_lits.
  - case_if; [| done]. unfold syn_options. rewrite !Forall_app. split_and!; auto with ipxe; byte_lits.
Qed.

Lemma complete_csum_packet pshdr src dest seq ack flags win options payload :
  let head := tcp_head src dest seq ack flags win options in
  let tail := [0; 0] ++ options ++ payload in
  in_range 16 (tcpip_chksum (head ++ [0; 0] ++ tail)) ->
  complete_csum pshdr (tcp_packet src dest seq ack flags win options payload) =
  head ++ csum_field (generic_tcpip_continue_chksum (tcpip_chksum (head ++ [0; 0] ++ tail)) pshdr)
    ++ tail.
Proof.
  intros head tail Hr. unfold tcp_packet, complete_csum.
  fold (tcp_head src dest seq ack flags win options). fold head. fold tail.
  set (c := tcpip_chksum (head ++ [0; 0] ++ tail)) in *.
  assert (Hl : length head = 16%nat) by done.
  assert (Hd : drop 18 (head ++ csum_field c ++ tail) = tail).
  { by rewrite app_assoc, drop_app_length' by (rewrite length_app, Hl; done). }
  rewrite Hd, (take_app_length' head) by done.
  change (nth 16 (head ++ csum_field c ++ tail) 0) with (c mod 256).
  change (nth 17 (head ++ csum_field c ++ tail) 0) with (c / 256).
  by replace (c mod 256 + 256 * (c / 256)) with c by (Z.div_mod_to_equations; lia).
Qed.

Lemma hlen_decode n :
  0 <= n <= 40 -> n mod 4 = 0 ->
  Z.land (u8 (Z.shiftl (sizeof_tcp_header + n) 2)) TCP_MASK_HLEN / 16 * 4 = sizeof_tcp_header + n.
Proof.
  intros Hn Hm.
  assert (Hi : exists m, n = 4 * m /\ 0 <= m <= 10).
  { exists (n / 4). Z.div_mod_to_equations. lia. }
  destruct Hi as (m & -> & Hm').
  assert (Hin : In m (Z.of_nat <$> seq 0 11)).
  { apply list_elem_of_In, list_elem_of_fmap. exists (Z.to_nat m). rewrite elem_of_seq. lia. }
  cbn in Hin. repeat destruct Hin as [<- | Hin]; done.
Qed.

Lemma xmit_options_bound now flags blocks c :
  (length blocks <= TCP_SACK_MAX)%nat -> (has flags TCP_SYN = true -> (length blocks <= 1)%nat) ->
  0 <= zlen (xmit_options now flags blocks c) <= 40 /\ zlen (xmit_options now flags blocks c) mod 4 = 0.
Proof.
  intros Hn Hsyn. rewrite xmit_options_length. unfold sends_ts in *.
  destruct (has flags TCP_SYN), (has (tcp_flags c) TCP_TS_ENABLED); cbn [orb];
    case_if; try specialize (Hsyn eq_refl); Z.div_mod_to_equations; lia.
Qed.

Lemma tcp_head_length src dest seq ack flags win options :
  length (tcp_head src dest seq ack flags win options) = 16%nat.
Proof. done. Qed.

(** Parsing a well-formed header whose options parse. *)
Lemma tcp_parse_head pshdr_csum src dest seq ack flags win options payload cs o ws ts :
  in_range 16 src -> in_range 16 dest -> in_range 32 seq -> in_range 32 ack ->
  in_range 8 flags -> in_range 16 win ->
  let pkt := tcp_head src dest seq ack flags win options ++ csum_field cs ++
             [0; 0] ++ options ++ payload in
  0 <= zlen options <= 40 -> zlen options mod 4 = 0 ->
  generic_tcpip_continue_chksum pshdr_csum pkt = 0 ->
  tcp_rx_opts pkt (sizeof_tcp_header + zlen options) = Ok o ->
  opt_field (fun off => rd pkt (off + 2)) (wsopt o) = Ok ws ->
  opt_field (fun off => rd_be32 pkt (off + 2)) (tsopt o) = Ok ts ->
  tcp_parse pkt pshdr_csum =
  Ok (Segment src dest seq ack flags win ws (bool_decide (is_Some (spopt o))) ts payload).
Proof.
  intros Hsrc Hdest Hseq Hack Hfl Hwin pkt Hol Ho4 Hcs Ho Hws Hts.
  assert (Hlen : zlen pkt = sizeof_tcp_header + zlen options + zlen payload).
  { unfold pkt. rewrite !length_app, tcp_head_length. cbn [length csum_field]. lia. }
  unfold tcp_parse. rewrite Hlen, (proj2 (Z.ltb_ge _ _)) by lia.
  change (rd pkt 12) with (@Ok Z (u8 (Z.shiftl (sizeof_tcp_header + zlen options) 2))).
  cbn [mbind res_bind]. rewrite hlen_decode by lia. rewrite !(proj2 (Z.ltb_ge _ _)) by lia.
  rewrite Hcs. cbn [Z.eqb negb].
  assert (E0 : rd_be16 pkt 0 = Ok src) by (etransitivity; [by apply (rd_be16_app []) | by rewrite wrap_small]).
  assert (E2 : rd_be16 pkt 2 = Ok dest).
  { etransitivity; [by apply (rd_be16_app (be16 src)) | by rewrite wrap_small]. }
  assert (E4 : rd_be32 pkt 4 = Ok seq).
  { etransitivity; [by apply (rd_be32_app (be16 src ++ be16 dest)) | by rewrite wrap_small]. }
  assert (E8 : rd_be32 pkt 8 = Ok ack).
  { etransitivity; [by apply (rd_be32_app (be16 src ++ be16 dest ++ be32 seq)) | by rewrite wrap_small]. }
  assert (E14 : rd_be16 pkt 14 = Ok win).
  { rewrite <- (wrap_small 16 win Hwin) at 1.
    by apply (rd_be16_app (be16 src ++ be16 dest ++ be32 seq ++ be32 ack ++
      [u8 (Z.shiftl (sizeof_tcp_header + zlen options) 2); u8 flags])). }
  rewrite E0, E2, E4, E8, E14. change (rd pkt 13) with (@Ok Z (u8 flags)).
  cbn [mbind res_bind]. rewrite Ho. cbn [mbind res_bind]. rewrite Hws. cbn [mbind res_bind].
  rewrite Hts. cbn [mbind res_bind]. rewrite wrap_small by done. do 2 f_equal.
  unfold pkt. rewrite !app_assoc. apply drop_app_length'.
  rewrite !length_app, tcp_head_length. cbn [length csum_field]. lia.
Qed.

(** C27. A packet built by [tcp_xmit_sack], completed by the network layer over
    the pseudo-header, is accepted by [tcp_rx]'s parser, which recovers every
    field, the window scale, SACK-permitted and timestamp options, and the
    payload; this holds for up to three SACK blocks, or one in a SYN. *)
Theorem tcp_packet_parses pshdr now src dest seq ack flags flags' win blocks c payload :
  in_range 16 src -> in_range 16 dest -> in_range 32 seq -> in_range 32 ack ->
  in_range 8 flags' -> in_range 16 win -> Forall is_byte payload -> Forall is_byte pshdr ->
  Nat.Even (length pshdr) -> (length blocks <= TCP_SACK_MAX)%nat ->
  (has flags TCP_SYN = true -> (length blocks <= 1)%nat) ->
  let options := xmit_options now flags blocks c in
  tcp_parse (complete_csum pshdr (tcp_packet src dest seq ack flags' win options payload))
    (tcpip_chksum pshdr) =
  Ok (Segment src dest seq ack flags' win
        (if has flags TCP_SYN then Some TCP_RX_WINDOW_SCALE else None) (has flags TCP_SYN)
        (if sends_ts flags c then Some (u32 now) else None) payload).
Proof.
  intros Hsrc Hdest Hseq Hack Hfl Hwin Hpay Hps Eps Hn Hsyn options.
  set (head := tcp_head src dest seq ack flags' win options).
  set (tail := [0; 0] ++ options ++ payload).
  pose proof (tcp_head_bytes src dest seq ack flags' win options : Forall is_byte head) as Hhead.
  assert (Htail : Forall is_byte tail).
  { unfold tail. rewrite !Forall_app. split_and!; [byte_lits | apply xmit_options_bytes | done]. }
  assert (R : in_range 16 (tcpip_chksum (head ++ [0; 0] ++ tail))).
  { apply generic_chksum_ok; [done |]. rewrite !Forall_app. split_and!; [done | byte_lits | done]. }
  rewrite complete_csum_packet by done. fold head tail.
  set (c' := generic_tcpip_continue_chksum _ pshdr).
  pose proof (chksum_verified pshdr head tail Hps Hhead Htail Eps ltac:(by exists 8%nat)) as Hv.
  cbn zeta in Hv. fold c' in Hv.
  assert (Hl : zlen (head ++ csum_field c' ++ [0; 0]) = sizeof_tcp_header) by done.
  destruct (xmit_options_parse (head ++ csum_field c' ++ [0; 0]) now flags blocks c payload Hl Hn)
    as (o & Ho & Hw & Hsp & Hts).
  fold options in Ho, Hw, Hts. rewrite <- !app_assoc in Ho, Hw, Hts.
  destruct (xmit_options_bound now flags blocks c Hn Hsyn).
  etransitivity; [by eapply tcp_parse_head |]. by rewrite Hsp.
Qed.

Lemma tcp_packet_parses_witness :
  let c := TcpConnection 2 80 1025 1460 TCP_ESTABLISHED 7 0 0 9 0 0 5 0 9
             [] [] [] false timer_init timer_init timer_init 0 0 true 9 in
  let blocks := [SackBlock 20 30; SackBlock 40 41; SackBlock 50 60] in
  tcp_parse (complete_csum [10; 0; 0; 1]
     (tcp_packet 1025 80 7 9 0x18 128 (xmit_options 1000 TCP_ACK blocks c) [1; 2; 3])) (tcpip_chksum [10; 0; 0; 1]) =
  Ok (Segment 1025 80 7 9 0x18 128 None false (Some 1000) [1; 2; 3]).
Proof.
  intros c blocks.
  apply (tcp_packet_parses [10; 0; 0; 1] 1000 1025 80 7 9 TCP_ACK 0x18 128 blocks c [1; 2; 3]);
    try by apply (bool_decide_unpack _).
  by exists 2%nat.
Defined.
