(* ===== verification/TcpStream.v ===== *)
(** * TCP: the state machine and the byte streams

    Invariants of the connection model of [Tcp] over every sequence of events,
    with an arbitrary environment: the connection states that can occur, the
    retransmission timer, and the consistency of everything sent with the bytes
    the application supplied.  The delivery of the peer's stream is in
    [TcpRecv]. *)

From Stdlib Require Import ZArith Lia Bool ZifyBool.
From stdpp Require Import base numbers list strings sorting.
From S2P Require Import Prelude Heap Tcpip Retry Tcp.

Local Open Scope Z_scope.
Local Open Scope ipxe_scope.

(** Projections of updated worlds compute. *)
Ltac world_simpl :=
  cbn [tcp clock sent delivered app_sent close_rc on_tcp tick log_sent log_delivered log_app_sent
       log_close tcp_assert] in *.

(** ** Sequence number arithmetic *)

Lemma tcp_cmp_abs a b : Z.abs (a - b) < 2 ^ 31 -> tcp_cmp (u32 a) (u32 b) = a - b.
Proof. unfold tcp_cmp. wrap_lia. Qed.

Lemma u32_sub_abs a b : 0 <= a - b < 2 ^ 32 -> u32 (u32 a - u32 b) = a - b.
Proof. wrap_simpl. intros. by apply wrap_small. Qed.

Lemma u32_inj_near a b : Z.abs (a - b) < 2 ^ 32 -> u32 a = u32 b -> a = b.
Proof. wrap_lia. Qed.

(** ** The transmit queue *)

Lemma tx_queue_len queue max_len remove :
  0 <= max_len ->
  txr_len (tcp_process_tx_queue queue max_len remove) = Z.min max_len (zlen (concat queue)).
Proof.
  revert max_len. induction queue as [| b queue IH]; intros m Hm; cbn [tcp_process_tx_queue txr_len concat].
  - cbn. lia.
  - rewrite length_app, Nat2Z.inj_add. case_if; rewrite IH by lia; lia.
Qed.

Lemma tx_queue_data queue max_len remove :
  0 <= max_len ->
  txr_data (tcp_process_tx_queue queue max_len remove) = take (Z.to_nat max_len) (concat queue).
Proof.
  revert max_len. induction queue as [| b queue IH]; intros m Hm; cbn [tcp_process_tx_queue txr_data concat].
  - by rewrite take_nil.
  - case_if; rewrite IH by lia.
    + rewrite Z.sub_diag, take_0, app_nil_r, take_app_le by lia. done.
    + rewrite (firstn_all2 b) by lia. rewrite take_app_ge by lia. do 3 f_equal. lia.
Qed.

Lemma tx_queue_rest queue max_len :
  0 <= max_len ->
  concat (txr_queue (tcp_process_tx_queue queue max_len true)) =
  drop (Z.to_nat max_len) (concat queue).
Proof.
  revert max_len. induction queue as [| b queue IH]; intros m Hm; cbn [tcp_process_tx_queue txr_queue concat].
  - by rewrite drop_nil.
  - cbn [andb]. set (f := if m <? zlen b then m else zlen b).
    assert (Hf : 0 <= f <= m /\ f <= zlen b /\ (f < m -> f = zlen b)) by (subst f; case_if; lia).
    assert (E : drop (Z.to_nat f) b ++ drop (Z.to_nat (m - f)) (concat queue) =
                drop (Z.to_nat m) (b ++ concat queue)).
    { destruct (decide (f = zlen b)) as [-> | Hne].
      - rewrite drop_ge, drop_app_ge by lia. cbn [app]. f_equal. lia.
      - replace (m - f) with 0 by lia. replace m with f by lia. rewrite drop_app_le by lia. done. }
    destruct (Z.eqb_spec (zlen (drop (Z.to_nat f) b)) 0) as [H0 | H0]; cbn [concat]; rewrite IH by lia.
    + rewrite <- E. destruct (drop (Z.to_nat f) b); [done | cbn in H0; lia].
    + done.
Qed.

Lemma tx_queue_freed queue max_len :
  (length (txr_queue (tcp_process_tx_queue queue max_len true)) +
   txr_freed (tcp_process_tx_queue queue max_len true))%nat = length queue.
Proof.
  revert max_len. induction queue as [| b queue IH]; intros m; [done |].
  cbn [tcp_process_tx_queue txr_queue txr_freed andb]. set (f := if m <? zlen b then m else zlen b).
  specialize (IH (m - f)). case_if; cbn [length]; lia.
Qed.

Lemma pending_put_iter k n : Z.of_nat k <= n -> Nat.iter k pending_put n = n - Z.of_nat k.
Proof.
  induction k as [| k IH]; intros Hk; cbn [Nat.iter nat_rect]; [lia |].
  change (nat_rect _ n _ k) with (Nat.iter k pending_put n). rewrite IH by lia.
  unfold pending_put. case_if; lia.
Qed.

(** ** Connection states *)

(** The states a connection on the list can be in; the second one (our SYN
    acknowledged, the peer's not yet received) has no name in [tcp.h]. *)
Definition TCP_SYN_ACKED : Z := TCP_STATE_SENT TCP_SYN ||| TCP_STATE_ACKED TCP_SYN.

Definition live_states : list Z :=
  [TCP_SYN_SENT; TCP_SYN_ACKED; TCP_SYN_RCVD; TCP_ESTABLISHED; TCP_FIN_WAIT_1; TCP_FIN_WAIT_2;
   TCP_CLOSING_OR_LAST_ACK; TCP_TIME_WAIT; TCP_CLOSE_WAIT].

(** The state between the receipt of a FIN in SYN_RCVD and the close that
    follows it at once. *)
Definition TCP_SYN_RCVD_FIN : Z := TCP_SYN_RCVD ||| TCP_STATE_RCVD TCP_FIN.
Definition ext_states : list Z := TCP_SYN_RCVD_FIN :: live_states.

Inductive tx_phase := TxSyn | TxData | TxFin | TxDone.
#[global] Instance tx_phase_eq_dec : EqDecision tx_phase.
Proof. solve_decision. Defined.

(** How far our side of the connection has got. *)
Definition phase (state : Z) : tx_phase :=
  if has state (TCP_STATE_ACKED TCP_FIN) then TxDone
  else if has state (TCP_STATE_SENT TCP_FIN) then TxFin
  else if has state (TCP_STATE_ACKED TCP_SYN) then TxData
  else TxSyn.

Definition rcvd_syn (state : Z) : bool := has state (TCP_STATE_RCVD TCP_SYN).

Ltac live_destruct H :=
  unfold ext_states, live_states in H; rewrite !elem_of_cons, elem_of_nil in H;
  repeat destruct H as [-> | H]; [.. | destruct H].

(** Membership of a computed state in the list. *)
Ltac live_elem := by apply (bool_decide_unpack _); vm_compute.

Lemma live_sending st :
  st ∈ ext_states ->
  Z.land (TCP_FLAGS_SENDING st) (TCP_SYN ||| TCP_FIN) =
  match phase st with TxSyn => TCP_SYN | TxFin => TCP_FIN | _ => 0 end.
Proof. intros H. live_destruct H; done. Qed.

Lemma live_can_send st :
  st ∈ ext_states -> TCP_CAN_SEND_DATA st = bool_decide (phase st = TxData).
Proof. intros H. live_destruct H; done. Qed.

Lemma live_sent_fin st :
  st ∈ ext_states ->
  has st (TCP_STATE_SENT TCP_FIN) = match phase st with TxFin | TxDone => true | _ => false end.
Proof. intros H. live_destruct H; done. Qed.

Lemma live_unacked st :
  st ∈ ext_states -> has st (TCP_STATE_ACKED TCP_SYN) = false -> phase st = TxSyn.
Proof. intros H. live_destruct H; done. Qed.

Lemma live_ack_syn st :
  st ∈ ext_states -> phase st = TxSyn ->
  (st ||| TCP_STATE_ACKED TCP_SYN) ∈ live_states /\
  phase (st ||| TCP_STATE_ACKED TCP_SYN) = TxData /\
  rcvd_syn (st ||| TCP_STATE_ACKED TCP_SYN) = rcvd_syn st.
Proof. intros H Hp. live_destruct H; try done; (split_and!; [live_elem | done | done]). Qed.

Lemma live_ack_fin st :
  st ∈ ext_states -> phase st = TxFin ->
  (st ||| TCP_STATE_ACKED TCP_FIN) ∈ live_states /\
  phase (st ||| TCP_STATE_ACKED TCP_FIN) = TxDone /\
  rcvd_syn (st ||| TCP_STATE_ACKED TCP_FIN) = rcvd_syn st.
Proof. intros H Hp. live_destruct H; try done; (split_and!; [live_elem | done | done]). Qed.

Lemma live_send_fin st :
  st ∈ live_states -> phase st = TxData -> rcvd_syn st = true ->
  (st ||| TCP_STATE_SENT TCP_FIN) ∈ live_states /\
  phase (st ||| TCP_STATE_SENT TCP_FIN) = TxFin /\
  rcvd_syn (st ||| TCP_STATE_SENT TCP_FIN) = true.
Proof. intros H Hp Hs. live_destruct H; try done; (split_and!; [live_elem | done | done]). Qed.

Lemma live_rcvd_syn st :
  st ∈ live_states ->
  let st' := st ||| (TCP_STATE_SENT TCP_ACK ||| TCP_STATE_RCVD TCP_SYN) in
  st' ∈ live_states /\ phase st' = phase st /\ rcvd_syn st' = true.
Proof. intros H. live_destruct H; (split_and!; [live_elem | done | done]). Qed.

Lemma live_rcvd_fin st :
  st ∈ live_states -> rcvd_syn st = true ->
  let st' := st ||| TCP_STATE_RCVD TCP_FIN in
  st' ∈ ext_states /\ phase st' = phase st /\ rcvd_syn st' = true.
Proof. intros H Hs. live_destruct H; try done; (split_and!; [live_elem | done | done]). Qed.

(** ** The invariant of the transmit side

    [iss] is our initial sequence number and [s] everything the application has
    supplied: a prefix of it has been acknowledged, the rest is queued. *)
Definition tx_ok (iss : Z) (s : bytes) (c : tcp_connection) : Prop :=
  exists acked, s = acked ++ concat (tx_queue c) /\
  match phase (tcp_state c) with
  | TxSyn => acked = [] /\ snd_seq c = u32 iss /\ snd_sent c = 1
  | TxData => snd_seq c = u32 (iss + 1 + zlen acked) /\ 0 <= snd_sent c <= zlen (concat (tx_queue c))
  | TxFin => snd_seq c = u32 (iss + 1 + zlen acked) /\ 0 <= snd_sent c <= 1 /\ tx_queue c = []
  | TxDone => snd_seq c = u32 (iss + 2 + zlen acked) /\ snd_sent c = 0 /\ tx_queue c = []
  end.

(** Outstanding flags, each of which is a pending operation. *)
Definition flags_pending (p : tx_phase) : Z :=
  match p with TxSyn | TxFin => 1 | _ => 0 end.

Record core (iss : Z) (s : bytes) (c : tcp_connection) : Prop := Core {
  core_listed : listed c = true;
  core_stream : tx_ok iss s c;
  core_closed : has (tcp_flags c) TCP_XFER_CLOSED = true -> rcvd_syn (tcp_state c) = true;
  core_fin : has (tcp_state c) (TCP_STATE_SENT TCP_FIN) = true ->
             has (tcp_flags c) TCP_XFER_CLOSED = true;
  core_rx : rcvd_syn (tcp_state c) = false -> rx_queue c = [];
  core_pending_data : pending_data c = zlen (tx_queue c);
  core_pending_flags : pending_flags c = flags_pending (phase (tcp_state c));
  core_win : 0 <= snd_win c;
  core_wait : running (wait c) = true -> tcp_state c = TCP_TIME_WAIT
}.

Definition live (c : tcp_connection) : Prop := tcp_state c ∈ live_states.

(** The retransmission timer runs exactly while sequence space is unacknowledged. *)
Definition armed (c : tcp_connection) : Prop := running (timer c) = negb (snd_sent c =? 0).

(** A deleted connection. *)
Record dead (c : tcp_connection) : Prop := Dead {
  dead_listed : listed c = false;
  dead_state : tcp_state c = TCP_CLOSED;
  dead_tx : tx_queue c = [];
  dead_rx : rx_queue c = [];
  dead_closed : has (tcp_flags c) TCP_XFER_CLOSED = true;
  dead_pending_data : pending_data c = 0;
  dead_pending_flags : pending_flags c = 0;
  dead_timer : running (timer c) = false;
  dead_keepalive : running (keepalive c) = false;
  dead_wait : running (wait c) = false
}.

(** ** Frame conditions *)

(** Nothing the transmit invariant mentions has changed. *)
Record same_tx (c c' : tcp_connection) : Prop := SameTx {
  same_listed : listed c' = listed c;
  same_state : tcp_state c' = tcp_state c;
  same_tx_queue : tx_queue c' = tx_queue c;
  same_snd_seq : snd_seq c' = snd_seq c;
  same_snd_sent : snd_sent c' = snd_sent c;
  same_xfer : has (tcp_flags c') TCP_XFER_CLOSED = has (tcp_flags c) TCP_XFER_CLOSED;
  same_pending_data : pending_data c' = pending_data c;
  same_pending_flags : pending_flags c' = pending_flags c;
  same_rx : rcvd_syn (tcp_state c) = false -> rx_queue c = [] -> rx_queue c' = [];
  same_win : 0 <= snd_win c -> 0 <= snd_win c';
  same_wait : running (wait c') = running (wait c)
}.

Lemma core_same iss s c c' : same_tx c c' -> core iss s c -> core iss s c'.
Proof.
  intros [? Hst Hq Hs Hn Hx Hpd Hpf Hr Hw Hwt] [? Hstream ? ? ? ? ? ? ?].
  unfold tx_ok in *. split; unfold tx_ok; rewrite ?Hst, ?Hq, ?Hs, ?Hn, ?Hx, ?Hpd, ?Hpf, ?Hwt; auto.
  congruence.
Qed.

Lemma armed_same c c' :
  snd_sent c' = snd_sent c -> running (timer c') = running (timer c) -> armed c -> armed c'.
Proof. unfold armed. by intros -> ->. Qed.

(** Frame goals about updated connections hold by computation. *)
Ltac same_tx := solve [split; tcp_simpl; auto].

Lemma has_lor x f m : has (x ||| f) m = has x m || has f m.
Proof.
  unfold has. rewrite Z.land_lor_distr_l.
  destruct (Z.eqb_spec (Z.land x m ||| Z.land f m) 0) as [E | E].
  - apply Z.lor_eq_0_iff in E as [-> ->]. done.
  - destruct (Z.eqb_spec (Z.land x m) 0) as [E1 | E1], (Z.eqb_spec (Z.land f m) 0) as [E2 | E2];
      try done. by rewrite E1, E2 in E.
Qed.

(** Nothing has been received or delivered; cached packets may have been
    discarded from the end of the receive queue, the window may have been
    expanded and the interface closed. *)
Record rx_frame (c c' : tcp_connection) : Prop := RxFrame {
  frame_ack : rcv_ack c' = rcv_ack c;
  frame_total : rcv_total c' = rcv_total c;
  frame_queue : rx_queue c' `prefix_of` rx_queue c;
  frame_win : 0 <= rcv_win c <= TCP_MAX_WINDOW_SIZE -> 0 <= rcv_win c' <= TCP_MAX_WINDOW_SIZE;
  frame_rcvd : TCP_FLAGS_RCVD (tcp_state c') = TCP_FLAGS_RCVD (tcp_state c);
  frame_listed : listed c' = listed c;
  frame_closed : has (tcp_flags c) TCP_XFER_CLOSED = true -> has (tcp_flags c') TCP_XFER_CLOSED = true
}.

#[global] Instance rx_frame_preorder : PreOrder rx_frame.
Proof.
  split.
  - intros c. by split.
  - intros c1 c2 c3 [? ? ? ? ? ? ?] [? ? ? ? ? ? ?]. split; try congruence; auto.
    by etransitivity.
Qed.

(** Frame goals about updated connections hold by computation. *)
Ltac rx_frame := solve [split; tcp_simpl; auto].

(** The flags received determine the tests on them. *)
Lemma rcvd_flag st f :
  has st (TCP_STATE_RCVD f) = has (Z.shiftr st 16) f.
Proof.
  unfold has. f_equal. apply eq_true_iff_eq. rewrite !Z.eqb_eq.
  assert (E : Z.land st (Z.shiftl f 16) = Z.shiftl (Z.land (Z.shiftr st 16) f) 16).
  { rewrite Z.shiftl_land, <- Z.ldiff_ones_r by lia. apply Z.bits_inj'. intros i Hi.
    rewrite !Z.land_spec, Z.ldiff_spec, Z.testbit_ones_nonneg by lia.
    destruct (Z.ltb_spec i 16); [| by rewrite andb_true_r].
    rewrite Z.shiftl_spec_low by lia. by rewrite !andb_false_r. }
  rewrite E, Z.shiftl_eq_0_iff by lia. done.
Qed.

Lemma rcvd_flag_byte st f : Z.land f 0xff = f -> has st (TCP_STATE_RCVD f) = has (TCP_FLAGS_RCVD st) f.
Proof.
  intros Hf. rewrite rcvd_flag. unfold has.
  by rewrite <- Z.land_assoc, (Z.land_comm 0xff f), Hf.
Qed.

Lemma frame_rcvd_syn c c' : rx_frame c c' -> rcvd_syn (tcp_state c') = rcvd_syn (tcp_state c).
Proof. intros H. unfold rcvd_syn. rewrite !rcvd_flag_byte by done. by rewrite (frame_rcvd _ _ H). Qed.

Lemma rcvd_lor st bits : TCP_FLAGS_RCVD bits = 0 -> TCP_FLAGS_RCVD (st ||| bits) = TCP_FLAGS_RCVD st.
Proof.
  intros H. by rewrite Z.shiftr_lor, Z.land_lor_distr_l, H, Z.lor_0_r.
Qed.

Lemma rcvd_acked x : TCP_FLAGS_RCVD (TCP_STATE_ACKED (Z.land x (TCP_SYN ||| TCP_FIN))) = 0.
Proof.
  change (TCP_SYN ||| TCP_FIN) with (2 ^ 2 - 1). rewrite land_mask by lia.
  rewrite Z.shiftr_shiftl_r by lia.
  rewrite Z.shiftr_div_pow2, Z.div_small; [done | | lia].
  pose proof (Z.mod_pos_bound x (2 ^ 2)). lia.
Qed.

(** ** Acknowledgements *)

Lemma live_ext c : live c -> tcp_state c ∈ ext_states.
Proof. intros H. by right. Qed.
#[local] Hint Resolve live_ext : core.

Lemma send_fin_ok iss s c c' :
  core iss s c -> live c -> phase (tcp_state c) = TxData -> tx_queue c = [] ->
  has (tcp_flags c) TCP_XFER_CLOSED = true ->
  same_tx (with_pending_flags (pending_get (pending_flags c)) (set_state (TCP_STATE_SENT TCP_FIN) c)) c' ->
  core iss s c' /\ live c' /\ phase (tcp_state c') <> TxSyn.
Proof.
  intros Hc Hl Ep Eq Ex Hs.
  destruct (live_send_fin _ Hl Ep) as (Hl' & Ep' & Hr'); [by apply (core_closed _ _ _ Hc) |].
  set (c1 := with_pending_flags _ _) in Hs.
  assert (Hc1 : core iss s c1).
  { destruct Hc as [? (acked & -> & Hst) ? ? ? ? Hpf ? Hwt].
    split; unfold c1, set_state; tcp_simpl; auto; try congruence.
    - exists acked. tcp_simpl. rewrite Ep in Hst. rewrite Ep', Eq in *. cbn in *.
      split; [done |]. split_and!; [tauto | lia | lia | done].
    - rewrite Hpf, Ep, Ep'. done.
    - intros Hw. by rewrite (Hwt Hw) in Ep. }
  split; [by apply (core_same _ _ c1) |]. unfold live. rewrite (same_state _ _ Hs).
  split; [done |]. unfold c1, set_state. tcp_simpl. by rewrite Ep'.
Qed.

Lemma start_fin_ok iss s c :
  core iss s c -> live c -> phase (tcp_state c) <> TxSyn ->
  core iss s (start_fin c) /\ live (start_fin c) /\ phase (tcp_state (start_fin c)) <> TxSyn.
Proof.
  intros Hc Hl Hp. unfold start_fin. destruct (tx_queue c) as [| b q] eqn:Eq; [| done].
  destruct (has (tcp_flags c) TCP_XFER_CLOSED) eqn:Ex; [| done].
  rewrite live_sent_fin by auto. destruct (phase (tcp_state c)) eqn:Ep; cbn [andb negb];
    rewrite ?Ep; try done.
  eapply send_fin_ok; [done.. | same_tx].
Qed.

(** The timer and the sent counter are not touched. *)
Lemma start_fin_frame c :
  snd_sent (start_fin c) = snd_sent c /\ timer (start_fin c) = timer c.
Proof. unfold start_fin. by repeat case_match. Qed.

(** Acknowledging [n] bytes of queued data. *)
Lemma drop_stream (acked q : bytes) n :
  0 <= n <= zlen q -> acked ++ q = (acked ++ take (Z.to_nat n) q) ++ drop (Z.to_nat n) q /\
  zlen (acked ++ take (Z.to_nat n) q) = zlen acked + n.
Proof.
  intros Hn. split; [by rewrite <- app_assoc, take_drop |].
  rewrite length_app, length_take. lia.
Qed.

Lemma ext_live c : tcp_state c ∈ ext_states -> phase (tcp_state c) <> TxSyn -> live c.
Proof. unfold ext_states. rewrite elem_of_cons. by intros [-> |]. Qed.

(** The connection after [ack_len] units of sequence space, of which [len] are
    queued data, have been acknowledged. *)
Definition ack_advance (ack len acked_flags : Z) (c : tcp_connection) : tcp_connection :=
  let c :=
    if acked_flags =? 0 then c else with_pending_flags (pending_put (pending_flags c)) c in
  let c := with_snd_sent 0 (with_snd_seq ack c) in
  let r := tcp_process_tx_queue (tx_queue c) len true in
  let c := with_pending_data (Nat.iter (txr_freed r) pending_put (pending_data c))
             (with_tx_queue (txr_queue r) c) in
  if acked_flags =? 0 then c else set_state (TCP_STATE_ACKED acked_flags) c.

Lemma ack_pending queue n :
  Nat.iter (txr_freed (tcp_process_tx_queue queue n true)) pending_put (zlen queue) =
  zlen (txr_queue (tcp_process_tx_queue queue n true)).
Proof. pose proof (tx_queue_freed queue n). rewrite pending_put_iter; lia. Qed.

Lemma ack_advance_data iss s c ack :
  core iss s c -> live c -> phase (tcp_state c) = TxData -> in_range 32 ack ->
  u32 (ack - snd_seq c) <= snd_sent c ->
  core iss s (ack_advance ack (u32 (ack - snd_seq c)) 0 c).
Proof.
  intros Hc Hl Ep Hack Hle. pose proof (wrap_range 32 (ack - snd_seq c) ltac:(lia)) as Hn.
  destruct Hc as [? (acked & -> & Hst) ? ? ? Hpd Hpf ? ?]. rewrite Ep in Hst. destruct Hst as [Hs Hsent].
  set (n := u32 (ack - snd_seq c)) in *. unfold in_range in Hn.
  destruct (drop_stream acked (concat (tx_queue c)) n) as [Estr Elen]; [lia |].
  unfold ack_advance. cbn [Z.eqb]. split; tcp_simpl; auto.
  - exists (acked ++ take (Z.to_nat n) (concat (tx_queue c))). tcp_simpl.
    rewrite tx_queue_rest, Ep by lia. split; [done |]. rewrite Elen. split; [| lia].
    rewrite Z.add_assoc, <- (wrap_add_idemp_l 32 (iss + 1 + zlen acked)), <- Hs. subst n.
    rewrite wrap_add_idemp_r. rewrite <- (wrap_small 32 ack Hack) at 1. f_equal. lia.
  - rewrite Hpd. apply ack_pending.
Qed.

Lemma ack_advance_flag iss s c ack flag :
  core iss s c -> tcp_state c ∈ ext_states -> in_range 32 ack ->
  flag = match phase (tcp_state c) with TxSyn => TCP_SYN | TxFin => TCP_FIN | _ => 0 end -> flag <> 0 ->
  u32 (ack - snd_seq c) = 1 ->
  core iss s (ack_advance ack 0 flag c) /\ live (ack_advance ack 0 flag c) /\
  phase (tcp_state (ack_advance ack 0 flag c)) <> TxSyn.
Proof.
  intros Hc He Hack Hf Hf0 H1.
  assert (Eack : ack = u32 (snd_seq c + 1)) by (unfold in_range in Hack; wrap_lia).
  unfold ack_advance. rewrite (proj2 (Z.eqb_neq _ _) Hf0).
  destruct Hc as [? (acked & -> & Hst) ? Hfin ? Hpd Hpf ? Hwt].
  destruct (phase (tcp_state c)) eqn:Ep; subst flag; try done.
  - destruct (live_ack_syn _ He Ep) as (Hl' & Ep' & Hr'). unfold live, set_state; tcp_simpl.
    rewrite Ep'. split_and!; [| done | done]. split; tcp_simpl; rewrite ?Hr'; auto.
    + exists acked. tcp_simpl. rewrite Ep', tx_queue_rest by lia. split; [done |].
      destruct Hst as (-> & Hs & _). split; [| lia]. cbn [length].
      by rewrite Eack, Hs, wrap_add_idemp_l, Z.add_0_r.
    + rewrite has_lor, live_sent_fin, Ep by done. done.
    + rewrite Hpd. apply ack_pending.
    + rewrite Ep', Hpf. done.
    + intros Hw. by rewrite (Hwt Hw) in Ep.
  - destruct (live_ack_fin _ He Ep) as (Hl' & Ep' & Hr'). unfold live, set_state; tcp_simpl.
    rewrite Ep'. split_and!; [| done | done]. destruct Hst as (Hs & Hn & Hq).
    rewrite Hq in *. split; tcp_simpl; rewrite ?Hr'; auto.
    + exists acked. tcp_simpl. rewrite Ep'. split; [done |]. split_and!; [| done | done].
      rewrite Eack, Hs, wrap_add_idemp_l. f_equal. lia.
    + intros _. apply Hfin. by rewrite live_sent_fin, Ep.
    + rewrite Ep', Hpf. done.
    + intros Hw. by rewrite (Hwt Hw) in Ep.
Qed.

Section with_env.
Context {P : Platform}.

Lemma stop_timer_stopped now t : running (stop_timer now t) = false.
Proof. unfold stop_timer. destruct (running t) eqn:E; cbn [negb]; [| done]. by case_if. Qed.

Lemma rx_ack_ok iss s now ack win c :
  core iss s c -> tcp_state c ∈ ext_states -> in_range 32 ack -> 0 <= win ->
  let c' := (tcp_rx_ack now ack win c).2 in
  core iss s c' /\ (armed c -> armed c') /\ (tcp_state c' = tcp_state c \/ live c') /\
  (0 < u32 (ack - snd_seq c) <= snd_sent c -> live c' /\ phase (tcp_state c') <> TxSyn).
Proof.
  intros Hc He Hack Hwin. unfold tcp_rx_ack. set (ack_len := u32 (ack - snd_seq c)).
  destruct (Z.ltb_spec (snd_sent c) ack_len) as [Hgt | Hle].
  { case_if; cbn [snd]; (split_and!; [done | done | by left | lia]). }
  set (c1 := if has _ _ then _ else _).
  assert (H1 : same_tx c c1 /\ timer c1 = timer c) by (subst c1; case_if; split; [same_tx | done | same_tx | done]).
  destruct H1 as [H1 Ht1]. pose proof (core_same _ _ _ _ H1 Hc) as Hc1.
  destruct (Z.eqb_spec ack_len 0) as [E0 | E0]; cbn [snd].
  { split_and!; [done | | by left; apply (same_state _ _ H1) | lia].
    apply armed_same; [apply (same_snd_sent _ _ H1) | by rewrite Ht1]. }
  set (c2 := with_timer _ c1). assert (H2 : same_tx c c2) by (destruct H1; same_tx).
  pose proof (core_same _ _ _ _ H2 Hc) as Hc2.
  pose proof (same_state _ _ H2) as Es2. pose proof (same_snd_seq _ _ H2) as Eq2.
  pose proof (same_snd_sent _ _ H2) as En2.
  set (f := Z.land _ _). assert (Ef : f = match phase (tcp_state c2) with TxSyn => TCP_SYN | TxFin => TCP_FIN | _ => 0 end).
  { apply live_sending. by rewrite Es2. }
  set (len := if f =? 0 then ack_len else ack_len - 1).
  change (let c' := start_fin (ack_advance ack len f c2) in
    core iss s c' /\ (armed c -> armed c') /\ (tcp_state c' = tcp_state c \/ live c') /\
    (0 < ack_len <= snd_sent c -> live c' /\ phase (tcp_state c') <> TxSyn)).
  cbn zeta. assert (Harm : armed (start_fin (ack_advance ack len f c2))).
  { destruct (start_fin_frame (ack_advance ack len f c2)) as [En Et]. unfold armed. rewrite En, Et.
    assert (snd_sent (ack_advance ack len f c2) = 0 /\ timer (ack_advance ack len f c2) = timer c2) as [-> ->]
      by (unfold ack_advance; by destruct (f =? 0)).
    apply stop_timer_stopped. }
  enough (core iss s (ack_advance ack len f c2) /\ live (ack_advance ack len f c2) /\
    phase (tcp_state (ack_advance ack len f c2)) <> TxSyn) as (Ha & Hb & Hd).
  { destruct (start_fin_ok iss s _ Ha Hb Hd) as (? & ? & ?). auto. }
  subst len. fold ack_len in Hle. replace ack_len with (u32 (ack - snd_seq c2)) in * by (by rewrite Eq2).
  pose proof (wrap_range 32 (ack - snd_seq c2) ltac:(lia)) as Hr. unfold in_range in Hr.
  pose proof (core_stream _ _ _ Hc2) as (acked & _ & Hst). rewrite <- En2 in Hle.
  rewrite <- Es2 in He.
  destruct (phase (tcp_state c2)) eqn:Ep; rewrite Ef; cbn [Z.eqb].
  - replace (u32 (ack - snd_seq c2)) with 1 by lia. apply ack_advance_flag; rewrite ?Ep; done || lia.
  - assert (Hl2 : live c2) by (apply ext_live; [done | by rewrite Ep]).
    split; [by apply ack_advance_data |]. unfold ack_advance, live. cbn [Z.eqb]. tcp_simpl.
    by rewrite Ep.
  - replace (u32 (ack - snd_seq c2)) with 1 by lia. apply ack_advance_flag; rewrite ?Ep; done || lia.
  - lia.
Qed.

Lemma rx_ack_frame now ack win c :
  rx_frame c (tcp_rx_ack now ack win c).2 /\
  tcp_flags (tcp_rx_ack now ack win c).2 = tcp_flags c.
Proof.
  assert (Hfin : forall c, rx_frame c (start_fin c) /\ tcp_flags (start_fin c) = tcp_flags c).
  { intros c0. unfold start_fin, set_state. repeat case_match; try done. split; [| done].
    split; tcp_simpl; auto. by apply rcvd_lor. }
  unfold tcp_rx_ack. case_if; [case_if; done |].
  set (c1 := if has _ _ then _ else _).
  assert (H1 : rx_frame c c1 /\ tcp_flags c1 = tcp_flags c) by (subst c1; case_if; (split; [rx_frame | done])).
  destruct H1 as [H1 E1]. case_if; [done |]. cbn [snd].
  set (f := Z.land _ _). set (len := if f =? 0 then _ else _).
  match goal with |- rx_frame c (start_fin ?x) /\ _ => set (c2 := x) end.
  assert (H2 : rx_frame c1 c2 /\ tcp_flags c2 = tcp_flags c1).
  { subst c2. destruct (f =? 0); (split; [| done]); [rx_frame |]. unfold set_state.
    split; tcp_simpl; auto. by apply rcvd_lor, rcvd_acked. }
  destruct H2 as [H2 E2], (Hfin c2) as [H3 E3]. split; [| congruence].
  by rewrite H1, H2.
Qed.

(** ** Closing *)

Lemma close_dead now c :
  rcvd_syn (tcp_state c) = false -> pending_data c = zlen (tx_queue c) ->
  0 <= pending_flags c <= 2 -> dead (tcp_close_conn now c).
Proof.
  intros Hr Hpd Hpf. unfold tcp_close_conn, set_flag. tcp_simpl. fold (rcvd_syn (tcp_state c)).
  rewrite Hr. cbn [negb]. unfold tcp_delete. split; tcp_simpl; auto using stop_timer_stopped.
  - rewrite has_lor. apply orb_true_r.
  - rewrite Hpd, pending_put_iter; lia.
  - unfold pending_put. repeat case_if; lia.
Qed.

Lemma has_closed_flag flags : has (flags ||| TCP_XFER_CLOSED) TCP_XFER_CLOSED = true.
Proof. rewrite has_lor. apply orb_true_r. Qed.

(** Marking the interface as closed. *)
Lemma closed_core iss s c :
  core iss s c -> rcvd_syn (tcp_state c) = true -> core iss s (set_flag TCP_XFER_CLOSED c).
Proof.
  intros [? ? ? ? ? ? ? ? ?] Hr. unfold set_flag. split; tcp_simpl; auto.
  intros. apply has_closed_flag.
Qed.

Lemma close_live iss s now c :
  core iss s c -> tcp_state c ∈ ext_states -> rcvd_syn (tcp_state c) = true -> armed c ->
  core iss s (tcp_close_conn now c) /\ live (tcp_close_conn now c) /\ armed (tcp_close_conn now c).
Proof.
  intros Hc He Hr Ha. unfold tcp_close_conn. set (c1 := set_flag TCP_XFER_CLOSED c).
  pose proof (closed_core _ _ _ Hc Hr : core iss s c1) as Hc1.
  change (has (tcp_state c1) (TCP_STATE_RCVD TCP_SYN)) with (rcvd_syn (tcp_state c)). rewrite Hr.
  cbn [negb]. change (tcp_state c1) with (tcp_state c).
  set (c2 := if has (tcp_state c) _ then _ else _).
  assert (H2 : core iss s c2 /\ live c2 /\ armed c2 /\ phase (tcp_state c2) <> TxSyn /\
    has (tcp_flags c2) TCP_XFER_CLOSED = true).
  { assert (Hx1 : has (tcp_flags c1) TCP_XFER_CLOSED = true) by apply has_closed_flag.
    assert (Ha1 : armed c1) by done.
    subst c2. destruct (has (tcp_state c) (TCP_STATE_ACKED TCP_SYN)) eqn:Eack.
    - assert (Hp : phase (tcp_state c) <> TxSyn).
      { unfold phase. rewrite Eack. by repeat case_if. }
      split_and!; [done | | done | done | done]. apply (ext_live c1 He Hp).
    - assert (Hp : phase (tcp_state c) = TxSyn).
      { by apply live_unacked. }
      pose proof (core_stream _ _ _ Hc1) as (acked & _ & Hst).
      change (tcp_state c1) with (tcp_state c) in Hst. rewrite Hp in Hst.
      destruct (rx_ack_ok iss s now (u32 (snd_seq c1 + 1)) 0 c1 Hc1 He) as (? & ? & _ & Hlp);
        [by apply wrap_range | done |].
      destruct Hlp as [? ?].
      { destruct Hst as (_ & _ & ->). wrap_simpl.
        replace (snd_seq c1 + 1 - snd_seq c1) with 1 by lia. done. }
      split_and!; auto. by rewrite (proj2 (rx_ack_frame _ _ _ _)). }
  destruct H2 as (Hc2 & Hl2 & Ha2 & Hp2 & Hx2). set (c3 := with_keepalive _ c2).
  assert (H3 : same_tx c2 c3) by same_tx. pose proof (core_same _ _ _ _ H3 Hc2) as Hc3.
  destruct (tx_queue c3) as [| b q] eqn:Eq; [| by split_and!].
  rewrite live_sent_fin by (by apply live_ext).
  destruct (phase (tcp_state c3)) eqn:Ep; [done | | by split_and!..].
  match goal with |- core iss s ?x /\ _ => destruct (send_fin_ok iss s c3 x) as (? & ? & _) end;
    [done.. | unfold set_state; same_tx |]. by split_and!.
Qed.

(** ** Transmission *)

Context {E : TcpEnv}.

(** A step that only talks to the environment. *)
Record quiet (w w' : world) : Prop := Quiet {
  quiet_tx : same_tx (tcp w) (tcp w');
  quiet_rx : rx_frame (tcp w) (tcp w');
  quiet_timer : timer (tcp w') = timer (tcp w);
  quiet_keepalive : keepalive (tcp w') = keepalive (tcp w);
  quiet_wait : wait (tcp w') = wait (tcp w);
  quiet_app : app_sent w' = app_sent w;
  quiet_delivered : delivered w' = delivered w
}.

Lemma same_tx_trans c1 c2 c3 : same_tx c1 c2 -> same_tx c2 c3 -> same_tx c1 c3.
Proof.
  intros [? Hst ? ? ? ? ? ? Hr ?] [? ? ? ? ? ? ? ? Hr' ?]. split; try congruence; auto.
  intros Hs Hq. apply Hr'; [by rewrite Hst | auto].
Qed.

#[global] Instance quiet_preorder : PreOrder quiet.
Proof.
  split.
  - intros w. by split.
  - intros w1 w2 w3 [? ? ? ? ? ? ?] [? ? ? ? ? ? ?].
    split; try congruence; [by eapply same_tx_trans | by etransitivity].
Qed.

Lemma removelast_prefix {A} (l : list A) : removelast l `prefix_of` l.
Proof.
  induction l as [| a [| b l] IH]; [done | apply prefix_nil |]. cbn [removelast].
  by apply prefix_cons.
Qed.

Lemma discard_rx_frame c : same_tx c (discard_rx c) /\ rx_frame c (discard_rx c).
Proof.
  unfold discard_rx. split; split; tcp_simpl; auto using removelast_prefix.
  by intros _ ->.
Qed.

Lemma discarded_quiet w k : quiet w (tick (on_tcp (Nat.iter k discarded) w)).
Proof.
  assert (H : forall c, let c' := Nat.iter k discarded c in
    same_tx c c' /\ rx_frame c c' /\ timer c' = timer c /\ keepalive c' = keepalive c /\ wait c' = wait c).
  { intros c. induction k as [| k IH]; [by split_and! |]. cbn [Nat.iter nat_rect].
    change (nat_rect _ c _ k) with (Nat.iter k discarded c). cbn zeta in *.
    destruct IH as (Ht & Hr & <- & <- & <-). unfold discarded. case_if; [| by split_and!].
    destruct (discard_rx_frame (Nat.iter k discarded c)).
    split_and!; [by eapply same_tx_trans | by etransitivity | done..]. }
  destruct (H (tcp w)) as (? & ? & ? & ? & ?). by split.
Qed.

Lemma alloc_iob_quiet len w :
  quiet w (alloc_iob len w).2 /\ sent (alloc_iob len w).2 = sent w.
Proof.
  unfold alloc_iob. destruct (env_alloc (clock w) len) as [ok k]. split; [apply discarded_quiet | done].
Qed.

Lemma expand_rcv_win_frame x c :
  same_tx c (expand_rcv_win x c) /\ rx_frame c (expand_rcv_win x c) /\
  timer (expand_rcv_win x c) = timer c /\ keepalive (expand_rcv_win x c) = keepalive c /\
  wait (expand_rcv_win x c) = wait c /\ tx_queue (expand_rcv_win x c) = tx_queue c.
Proof.
  unfold expand_rcv_win. set (m := Z.land _ _).
  assert (Hm : m <= TCP_MAX_WINDOW_SIZE).
  { subst m. change 0x03 with (2 ^ 2 - 1). rewrite land_not_mask by lia.
    repeat case_if; wrap_lia. }
  case_if; (split_and!; [same_tx | | done..]); [| rx_frame].
  split; tcp_simpl; auto. lia.
Qed.

Lemma has_clear flags : has (Z.land flags (Z.lnot TCP_ACK_PENDING)) TCP_XFER_CLOSED = has flags TCP_XFER_CLOSED.
Proof. unfold has. by rewrite <- Z.land_assoc. Qed.

(** Sending a packet is quiet; the packet carries the sequence number of the
    connection and the first [len] bytes of the transmit queue. *)
Lemma tcp_send_quiet sack_seq len flags w :
  0 <= len ->
  quiet w (tcp_send sack_seq len flags w) /\
  exists src dest ack flags' win options,
    sent (tcp_send sack_seq len flags w) = sent w ++
      [tcp_packet src dest (snd_seq (tcp w)) ack flags' win options
         (take (Z.to_nat len) (concat (tx_queue (tcp w))))].
Proof.
  intros Hlen. unfold tcp_send. rewrite tx_queue_data by done.
  set (w1 := on_tcp (expand_rcv_win _) w).
  assert (H1 : quiet w w1).
  { destruct (expand_rcv_win_frame (env_window (clock w)) (tcp w)) as (? & ? & ? & ? & ? & ?). by split. }
  set (bc := match rx_queue (tcp w1) with [] => _ | _ :: _ => _ end).
  assert (H2 : exists v, bc.2 = with_sack v (tcp w1)).
  { subst bc. destruct (rx_queue (tcp w1)); [by exists (sack (tcp w1)); destruct (tcp w1) |].
    case_if; [| by exists (sack (tcp w1)); destruct (tcp w1)]. unfold tcp_sack.
    destruct (tcp_sack_block_of _ _). cbn [snd]. by eexists. }
  destruct bc as [blocks c]. cbn [snd] in H2. destruct H2 as [v ->].
  unfold transmit, log_sent. cbn [tcp clock sent on_tcp tick].
  assert (Hs : snd_seq (with_sack v (tcp w1)) = snd_seq (tcp w)) by apply (same_snd_seq _ _ (quiet_tx _ _ H1)).
  rewrite Hs. split; [| case_if; by repeat eexists].
  etransitivity; [exact H1 |].
  destruct (env_tx _ _); split; world_simpl; try done; try rx_frame; try same_tx;
    split; tcp_simpl; auto; rewrite ?has_clear; auto.
Qed.

(** A packet whose payload is the part of the stream its sequence number says. *)
Definition pkt_ok (iss : Z) (s : bytes) (pkt : bytes) : Prop :=
  exists src dest seq ack flags win options payload off,
    pkt = tcp_packet src dest seq ack flags win options payload /\
    0 <= off /\ off + zlen payload <= zlen s /\ zlen payload <= TCP_PATH_MTU /\
    payload = slice s off (zlen payload) /\ (payload <> [] -> seq = u32 (iss + 1 + off)).

Lemma pkt_ok_empty iss s src dest seq ack flags win options :
  pkt_ok iss s (tcp_packet src dest seq ack flags win options []).
Proof.
  exists src, dest, seq, ack, flags, win, options, [], 0. split_and!; try done. cbn. lia.
Qed.

Lemma pkt_ok_app iss s d pkt : pkt_ok iss s pkt -> pkt_ok iss (s ++ d) pkt.
Proof.
  intros (src & dest & seq & ack & flags & win & options & payload & off & -> & ? & ? & ? & E1 & ?).
  exists src, dest, seq, ack, flags, win, options, payload, off.
  split_and!; try done; [rewrite length_app; lia |]. rewrite E1 at 1. unfold slice.
  rewrite drop_app_le, take_app_le by (rewrite ?length_drop; lia). done.
Qed.

(** The invariant of the world, with an armed timer and when the timer may have
    just expired. *)
Definition good0 (iss : Z) (w : world) : Prop :=
  ((core iss (app_sent w) (tcp w) /\ live (tcp w) /\ (running (timer (tcp w)) = true -> armed (tcp w)))
   \/ dead (tcp w)) /\
  Forall (pkt_ok iss (app_sent w)) (sent w).

Definition good (iss : Z) (w : world) : Prop :=
  ((core iss (app_sent w) (tcp w) /\ live (tcp w) /\ armed (tcp w)) \/ dead (tcp w)) /\
  Forall (pkt_ok iss (app_sent w)) (sent w).

Lemma good_good0 iss w : good iss w -> good0 iss w.
Proof. unfold good, good0. tauto. Qed.

Lemma dead_quiet w w' : quiet w w' -> dead (tcp w) -> dead (tcp w').
Proof.
  intros [[? ? ? ? ? ? ? ? ? ? ?] [? ? Hq ? ? ? ?] ? ? ? ? ?] [? ? ? Hr ? ? ? ? ? ?].
  split; try congruence. rewrite Hr in Hq. by apply prefix_nil_inv in Hq.
Qed.

(** Quiet steps keep the invariant when the packets they send are right. *)
Lemma good_quiet iss w w' :
  quiet w w' -> good iss w -> Forall (pkt_ok iss (app_sent w')) (sent w') -> good iss w'.
Proof.
  intros Hq [Hc _] Hp. split; [| done]. rewrite (quiet_app _ _ Hq).
  destruct Hc as [(Hc & Hl & Ha) | Hd]; [left | right; by apply (dead_quiet w)].
  destruct (quiet_tx _ _ Hq) as [? Hst ? ? Hn ? ? ? ? ? ?] eqn:Et. clear Et.
  split_and!; [by apply (core_same _ _ _ _ (quiet_tx _ _ Hq)) | unfold live; by rewrite Hst |].
  apply (armed_same (tcp w)); [done | by rewrite (quiet_timer _ _ Hq) | done].
Qed.

(** The length of data [tcp_xmit_sack] sends, and the sequence space it uses. *)
Definition xmit_len (c : tcp_connection) : Z :=
  if TCP_CAN_SEND_DATA (tcp_state c)
  then txr_len (tcp_process_tx_queue (tx_queue c) (tcp_xmit_win c) false) else 0.
Definition xmit_seq_len (c : tcp_connection) : Z :=
  u32 (if has (TCP_FLAGS_SENDING (tcp_state c)) (TCP_SYN ||| TCP_FIN) then xmit_len c + 1 else xmit_len c).

Lemma xmit_len_bound c :
  0 <= snd_win c ->
  0 <= xmit_len c <= TCP_PATH_MTU /\ xmit_len c <= zlen (concat (tx_queue c)) /\
  (TCP_CAN_SEND_DATA (tcp_state c) = false -> xmit_len c = 0).
Proof.
  intros Hw. unfold xmit_len, tcp_xmit_win. destruct (TCP_CAN_SEND_DATA (tcp_state c)); cbn [negb].
  - rewrite tx_queue_len by (case_if; lia). case_if; lia.
  - lia.
Qed.

(** Recording the sequence space about to be sent. *)
Lemma xmit_seq_len_ok iss s c :
  core iss s c -> live c -> core iss s (with_snd_sent (xmit_seq_len c) c).
Proof.
  intros Hc Hl. destruct (xmit_len_bound c) as (Hb & Hq & H0); [apply Hc |].
  unfold xmit_seq_len, has.
  rewrite live_sending by auto. rewrite live_can_send in H0 by auto.
  destruct Hc as [? (acked & -> & Hst) ? ? ? ? ? ? ?]. split; tcp_simpl; auto.
  exists acked. tcp_simpl. split; [done |].
  destruct (phase (tcp_state c)); cbn [Z.eqb negb];
    rewrite ?(wrap_small 32 (xmit_len c)), ?(wrap_small 32 (xmit_len c + 1)) by (unfold in_range; lia);
    try rewrite H0 by done; intuition lia.
Qed.

(** The packet sent by a live connection. *)
Lemma xmit_pkt_ok iss s c src dest ack flags win options :
  core iss s c -> live c ->
  pkt_ok iss s (tcp_packet src dest (snd_seq c) ack flags win options
                  (take (Z.to_nat (xmit_len c)) (concat (tx_queue c)))).
Proof.
  intros Hc Hl. destruct (xmit_len_bound c) as (Hb & Hq & H0); [apply Hc |].
  rewrite live_can_send in H0 by auto.
  destruct (decide (phase (tcp_state c) = TxData)) as [Ep | Ep].
  - destruct (core_stream _ _ _ Hc) as (acked & -> & Hst). rewrite Ep in Hst.
    eexists _, _, _, _, _, _, _, _, (zlen acked). split; [done |].
    rewrite length_take, length_app. split_and!; [lia.. | | intros _; apply Hst].
    unfold slice. rewrite !Nat2Z.id, drop_app_length. f_equal. lia.
  - rewrite H0 by (by apply bool_decide_eq_false). apply pkt_ok_empty.
Qed.

(** What every transmission preserves. *)
Definition xmit_post (iss : Z) (w w' : world) : Prop :=
  good iss w' /\ rx_frame (tcp w) (tcp w') /\ delivered w' = delivered w /\
  app_sent w' = app_sent w /\
  has (tcp_flags (tcp w')) TCP_XFER_CLOSED = has (tcp_flags (tcp w)) TCP_XFER_CLOSED.

(** From a state whose sent counter is settled, allocating and sending. *)
Lemma alloc_send_ok iss sack_seq len flags w :
  good iss w -> len = xmit_len (tcp w) ->
  let '(ok, w1) := alloc_iob (len + TCP_MAX_HEADER_LEN) w in
  xmit_post iss w (if ok then tcp_send sack_seq len flags w1 else w1).
Proof.
  intros Hg Hlen. destruct (alloc_iob_quiet (len + TCP_MAX_HEADER_LEN) w) as [Hq Hs].
  destruct (alloc_iob _ w) as [ok w1]. cbn [snd] in Hq, Hs.
  assert (Hg1 : good iss w1).
  { apply (good_quiet _ w); [done.. |]. rewrite Hs, (quiet_app _ _ Hq). apply Hg. }
  assert (Hpost : forall w2, quiet w w2 -> good iss w2 -> xmit_post iss w w2).
  { intros w2 H2 Hg2. destruct H2 as [Ht ? ? ? ? ? ?]. split_and!; try done. apply Ht. }
  destruct ok; [| by apply Hpost].
  assert (Hnn : 0 <= len).
  { destruct Hg as [[(Hc & _) | Hd] _]; subst len.
    - destruct (xmit_len_bound (tcp w)); [apply Hc | lia].
    - unfold xmit_len. by rewrite (dead_state _ Hd). }
  destruct (tcp_send_quiet sack_seq len flags w1 Hnn) as [Hq2 (? & ? & ? & ? & ? & ? & Hs2)].
  assert (Hq3 : quiet w (tcp_send sack_seq len flags w1)) by (by etransitivity).
  apply Hpost; [done |]. apply (good_quiet _ w1); [done | done |].
  rewrite Hs2, (quiet_app _ _ Hq2). apply Forall_app. split; [apply Hg1 |]. constructor; [| done].
  destruct (quiet_tx _ _ Hq) as [? Est Eq Esq ? ? ? ? ? ? ?]. rewrite Eq, Esq, (quiet_app _ _ Hq). subst len.
  destruct Hg as [[(Hc & Hl & _) | Hd] _]; [by apply xmit_pkt_ok |].
  rewrite (dead_tx _ Hd). cbn [concat]. rewrite take_nil. apply pkt_ok_empty.
Qed.

Lemma xmit_ok iss sack_seq w : good0 iss w -> xmit_post iss w (tcp_xmit_sack sack_seq w).
Proof.
  intros [Hc Hp]. unfold tcp_xmit_sack. destruct (running (timer (tcp w))) eqn:Er.
  { split_and!; try done. split; [| done]. destruct Hc as [(? & ? & Ha) | Hd]; [left | by right].
    split_and!; [done.. |]. by apply Ha. }
  fold (xmit_len (tcp w)). fold (xmit_seq_len (tcp w)). set (n := xmit_seq_len (tcp w)).
  set (w1 := on_tcp (with_snd_sent n) _).
  assert (Hn : dead (tcp w) -> n = 0).
  { intros Hd. subst n. unfold xmit_seq_len, xmit_len. by rewrite (dead_state _ Hd). }
  assert (H1 : ((core iss (app_sent w1) (tcp w1) /\ live (tcp w1)) \/ dead (tcp w1)) /\
    Forall (pkt_ok iss (app_sent w1)) (sent w1)).
  { split; [| done]. destruct Hc as [(Hc & Hl & _) | Hd]; [left | right].
    - split; [by apply xmit_seq_len_ok | done].
    - destruct Hd. by split. }
  assert (Hf1 : rx_frame (tcp w) (tcp w1)) by rx_frame.
  destruct (Z.eqb_spec n 0) as [E0 | E0]; cbn [andb].
  - assert (Hg1 : good iss w1).
    { destruct H1 as [[[? ?] | ?] ?]; (split; [| done]); [left | by right].
      split_and!; [done.. |]. unfold armed, w1. world_simpl. tcp_simpl. by rewrite Er, E0. }
    destruct (negb (has (tcp_flags (tcp w)) TCP_ACK_PENDING)); [by split_and! |].
    pose proof (alloc_send_ok iss sack_seq (xmit_len (tcp w)) (TCP_FLAGS_SENDING (tcp_state (tcp w)))
      w1 Hg1 eq_refl) as Hs.
    destruct (alloc_iob _ w1) as [ok w2]. destruct Hs as (? & ? & ? & ? & ?).
    split_and!; try done. by etransitivity.
  - set (w2 := on_tcp (fun c => with_timer _ c) w1).
    assert (Hg2 : good iss w2).
    { destruct H1 as [[[? ?] | Hd] ?].
      - split; [left | done]. split_and!; [| done |].
        + apply (core_same _ _ (tcp w1)); [same_tx | done].
        + unfold armed, w2, w1. world_simpl. tcp_simpl. by rewrite (proj2 (Z.eqb_neq _ _) E0).
      - destruct E0. apply Hn. destruct Hc as [(? & Hl & _) | ?]; [| done].
        exfalso. destruct Hd as [_ Hs _ _ _ _ _ _ _ _]. unfold w1 in Hs. world_simpl. tcp_simpl.
        unfold live in Hl. rewrite Hs in Hl. by apply (bool_decide_pack _) in Hl. }
    pose proof (alloc_send_ok iss sack_seq (xmit_len (tcp w)) (TCP_FLAGS_SENDING (tcp_state (tcp w)))
      w2 Hg2 eq_refl) as Hs.
    destruct (alloc_iob _ w2) as [ok w3]. destruct Hs as (? & Hf & ? & ? & ?).
    split_and!; try done. transitivity (tcp w2); [rx_frame | done].
Qed.

(** ** The application *)

Lemma close_frame now c :
  rcvd_syn (tcp_state c) = true ->
  rx_frame c (tcp_close_conn now c) /\
  has (tcp_flags (tcp_close_conn now c)) TCP_XFER_CLOSED = true.
Proof.
  intros Hr. unfold tcp_close_conn. set (c1 := set_flag TCP_XFER_CLOSED c).
  change (has (tcp_state c1) (TCP_STATE_RCVD TCP_SYN)) with (rcvd_syn (tcp_state c)). rewrite Hr.
  cbn [negb]. set (c2 := if has (tcp_state c1) _ then _ else _).
  assert (H2 : rx_frame c c2 /\ has (tcp_flags c2) TCP_XFER_CLOSED = true).
  { assert (H1 : rx_frame c c1).
    { unfold c1, set_flag. split; tcp_simpl; auto. intros _. apply has_closed_flag. }
    assert (Hx : has (tcp_flags c1) TCP_XFER_CLOSED = true) by apply has_closed_flag.
    subst c2. case_if; [done |].
    destruct (rx_ack_frame now (u32 (snd_seq c1 + 1)) 0 c1) as [Hf ->]. split; [by etransitivity | done]. }
  destruct H2 as [H2 Hx]. set (c3 := with_keepalive _ c2). assert (H3 : rx_frame c2 c3) by rx_frame.
  assert (H4 : rx_frame c c3) by (by etransitivity).
  destruct (tx_queue c3); [| by split]. case_if; [by split |]. split; [| done].
  etransitivity; [exact H4 |]. unfold set_state. split; tcp_simpl; auto. by apply rcvd_lor.
Qed.

Lemma close_rcvd iss rc w :
  core iss (app_sent w) (tcp w) -> tcp_state (tcp w) ∈ ext_states ->
  rcvd_syn (tcp_state (tcp w)) = true -> armed (tcp w) -> Forall (pkt_ok iss (app_sent w)) (sent w) ->
  good iss (tcp_close rc w) /\ rx_frame (tcp w) (tcp (tcp_close rc w)) /\
  delivered (tcp_close rc w) = delivered w /\
  has (tcp_flags (tcp (tcp_close rc w))) TCP_XFER_CLOSED = true.
Proof.
  intros Hc He Hr Ha Hp. unfold tcp_close.
  destruct (close_live iss (app_sent w) (now_of w) (tcp w)) as (? & ? & ?); [done.. |].
  destruct (close_frame (now_of w) (tcp w) Hr). split_and!; try done.
  split; [left; by split_and! | done].
Qed.

Lemma close_unrcvd iss rc w :
  rcvd_syn (tcp_state (tcp w)) = false -> pending_data (tcp w) = zlen (tx_queue (tcp w)) ->
  0 <= pending_flags (tcp w) <= 2 -> Forall (pkt_ok iss (app_sent w)) (sent w) ->
  good iss (tcp_close rc w) /\ dead (tcp (tcp_close rc w)) /\ delivered (tcp_close rc w) = delivered w.
Proof.
  intros Hr Hpd Hpf Hp. assert (Hd : dead (tcp (tcp_close rc w))) by (by apply close_dead).
  split_and!; [split; [by right | done] | done | done].
Qed.

(** What calls of the application preserve: the receive side, unless the
    connection is deleted, which only happens before a SYN has been received. *)
Definition app_post (iss : Z) (w w' : world) : Prop :=
  good iss w' /\ delivered w' = delivered w /\
  (rx_frame (tcp w) (tcp w') \/ rcvd_syn (tcp_state (tcp w)) = false /\ listed (tcp w') = false).

Lemma app_post_trans iss w1 w2 w3 : app_post iss w1 w2 -> app_post iss w2 w3 -> app_post iss w1 w3.
Proof.
  intros (_ & Hd1 & H1) (Hg & Hd2 & H2). split_and!; [done | congruence |].
  destruct H1 as [H1 | [? H1]], H2 as [H2 | [? ?]].
  - left. by etransitivity.
  - right. split; [| done]. by rewrite <- (frame_rcvd_syn _ _ H1).
  - right. split; [done |]. by rewrite (frame_listed _ _ H2).
  - by right.
Qed.

Lemma xmit_app_post iss sack_seq w w1 :
  app_post iss w w1 -> app_post iss w (tcp_xmit_sack sack_seq w1).
Proof.
  intros H. apply (app_post_trans _ _ w1); [done |].
  destruct (xmit_ok iss sack_seq w1) as (? & ? & ? & ? & ?); [apply good_good0, H |].
  split_and!; auto.
Qed.

(** Data from the application joins the stream and the queue. *)
Lemma enqueue_ok iss s c data :
  core iss s c -> live c -> has (tcp_flags c) TCP_XFER_CLOSED = false ->
  core iss (s ++ data)
    (with_pending_data (pending_get (pending_data c)) (with_tx_queue (tx_queue c ++ [data]) c)).
Proof.
  intros Hc Hl Hx. assert (Hp : phase (tcp_state c) = TxSyn \/ phase (tcp_state c) = TxData).
  { pose proof (core_fin _ _ _ Hc) as Hf. rewrite live_sent_fin, Hx in Hf by auto.
    destruct (phase (tcp_state c)); auto; by specialize (Hf eq_refl). }
  destruct Hc as [? (acked & -> & Hst) ? ? ? Hpd ? ? ?]. split; tcp_simpl; auto.
  - exists acked. tcp_simpl. rewrite concat_app. cbn [concat]. rewrite app_nil_r, <- app_assoc.
    split; [done |]. destruct Hp as [Ep | Ep]; rewrite Ep in *; [done |].
    rewrite length_app. intuition lia.
  - unfold pending_get. rewrite Hpd, length_app. cbn [length]. lia.
Qed.

Lemma app_step_ok iss w call : good iss w -> app_post iss w (app_step w call).
Proof.
  intros Hg. unfold app_step. destruct (has (tcp_flags (tcp w)) TCP_XFER_CLOSED) eqn:Ex.
  { split_and!; [done | done | by left]. }
  destruct Hg as [[(Hc & Hl & Ha) | Hd] Hp]; [| by rewrite (dead_closed _ Hd) in Ex].
  destruct call as [data | rc].
  - unfold tcp_xfer_deliver, tcp_xmit. set (w1 := on_tcp _ (log_app_sent data w)).
    apply (xmit_app_post iss _ w w1). split_and!; [| done | left; rx_frame].
    split; [left | unfold w1; world_simpl; eapply Forall_impl; [done | apply pkt_ok_app]].
    split_and!; [by apply enqueue_ok | done | done].
  - unfold tcp_xfer_close, tcp_xmit. apply xmit_app_post.
    destruct (rcvd_syn (tcp_state (tcp w))) eqn:Er.
    + destruct (close_rcvd iss rc w) as (? & ? & ? & ?); [by auto.. |]. split_and!; auto.
    + destruct (close_unrcvd iss rc w) as (? & Hd & ?); [done | apply Hc | | done |].
      { rewrite (core_pending_flags _ _ _ Hc). destruct (phase _); cbn; lia. }
      split_and!; [done | done |]. right. split; [done | apply Hd].
Qed.

Lemma app_run_ok iss calls w : good iss w -> app_post iss w (app_run calls w).
Proof.
  revert w. induction calls as [| call calls IH]; intros w Hg.
  { split_and!; [done | done | by left]. }
  apply (app_post_trans _ _ (app_step w call)); [by apply app_step_ok |].
  apply IH. by apply app_step_ok.
Qed.

(** ** Reception and the transmit invariant *)

Lemma good_on_tcp iss w f :
  same_tx (tcp w) (f (tcp w)) -> timer (f (tcp w)) = timer (tcp w) ->
  keepalive (f (tcp w)) = keepalive (tcp w) -> wait (f (tcp w)) = wait (tcp w) ->
  good iss w -> good iss (on_tcp f w).
Proof.
  intros Hs Ht Hk Hw [Hc Hp]. split; [| done]. destruct Hc as [(Hc & Hl & Ha) | Hd]; [left | right].
  - split_and!; [by apply (core_same _ _ (tcp w)) | |].
    + unfold live. world_simpl. by rewrite (same_state _ _ Hs).
    + apply (armed_same (tcp w)); [apply Hs | world_simpl; by rewrite Ht | done].
  - destruct Hd as [? Hst ? Hr ? ? ? ? ? ?], Hs as [? ? ? ? ? ? ? ? Hr' ? ?].
    split; world_simpl; try congruence. apply Hr'; [by rewrite Hst | done].
Qed.

(** A listed connection that has received a SYN. *)
Definition est (iss : Z) (w : world) : Prop :=
  good iss w /\ listed (tcp w) = true /\ rcvd_syn (tcp_state (tcp w)) = true.

Lemma est_core iss w :
  est iss w -> core iss (app_sent w) (tcp w) /\ live (tcp w) /\ armed (tcp w) /\
    Forall (pkt_ok iss (app_sent w)) (sent w).
Proof.
  intros ([[(? & ? & ?) | Hd] ?] & Hl & _); [done |]. by rewrite (dead_listed _ Hd) in Hl.
Qed.

Lemma est_app_post iss w w' : est iss w -> app_post iss w w' -> est iss w' /\ rx_frame (tcp w) (tcp w').
Proof.
  intros (_ & Hl & Hr) (Hg & _ & [Hf | [Hr' _]]); [| congruence].
  split; [| done]. split_and!; [done | by rewrite (frame_listed _ _ Hf) | by rewrite (frame_rcvd_syn _ _ Hf)].
Qed.

Lemma est_on_tcp iss w f :
  same_tx (tcp w) (f (tcp w)) -> timer (f (tcp w)) = timer (tcp w) ->
  keepalive (f (tcp w)) = keepalive (tcp w) -> wait (f (tcp w)) = wait (tcp w) ->
  est iss w -> est iss (on_tcp f w).
Proof.
  intros Hs Ht Hk Hw (Hg & Hl & Hr). split_and!; [by apply good_on_tcp | |].
  - world_simpl. by rewrite (same_listed _ _ Hs).
  - world_simpl. by rewrite (same_state _ _ Hs).
Qed.

Lemma rx_seq_same n c :
  same_tx c (tcp_rx_seq n c) /\ timer (tcp_rx_seq n c) = timer c /\
  keepalive (tcp_rx_seq n c) = keepalive c /\ wait (tcp_rx_seq n c) = wait c.
Proof.
  unfold tcp_rx_seq, set_flag. split_and!; [| done..]. split; tcp_simpl; auto.
  by rewrite has_lor, orb_false_r.
Qed.

(** Delivery to the application, which may send or close in return. *)
Lemma deliver_ok iss data w :
  est iss w ->
  est iss (xfer_deliver_iob data w) /\ rx_frame (tcp w) (tcp (xfer_deliver_iob data w)) /\
  delivered (xfer_deliver_iob data w) =
    if has (tcp_flags (tcp w)) TCP_XFER_CLOSED then delivered w else delivered w ++ [data].
Proof.
  intros He. unfold xfer_deliver_iob. destruct (has (tcp_flags (tcp w)) TCP_XFER_CLOSED); [done |].
  set (w1 := tick (log_delivered data w)). assert (He1 : est iss w1) by done.
  pose proof (app_run_ok iss (env_deliver (clock w) data) w1 (proj1 He1)) as Hp.
  destruct (est_app_post iss _ _ He1 Hp) as [? ?]. split_and!; [done | done |]. apply Hp.
Qed.

Lemma rx_data_est iss seq data w : est iss w -> est iss (tcp_rx_data seq data w).
Proof.
  intros He. unfold tcp_rx_data. case_if; [done |]. apply deliver_ok.
  set (n := zlen data - _). destruct (rx_seq_same n (tcp w)) as (? & ? & ? & ?). by apply est_on_tcp.
Qed.

Lemma rcvd_fin_ok iss s c :
  core iss s c -> live c -> rcvd_syn (tcp_state c) = true ->
  let c' := set_state (TCP_STATE_RCVD TCP_FIN) c in
  core iss s c' /\ tcp_state c' ∈ ext_states /\ rcvd_syn (tcp_state c') = true.
Proof.
  intros Hc Hl Hr. destruct (live_rcvd_fin _ Hl Hr) as (He & Ep & Hr').
  unfold set_state. split_and!; tcp_simpl; try done.
  destruct Hc as [? (acked & -> & Hst) ? Hf ? ? Hpf ? Hwt].
  split; tcp_simpl; rewrite ?Ep; auto; try congruence.
  - exists acked. tcp_simpl. by rewrite Ep.
  - by rewrite has_lor, orb_false_r.
  - intros Hw. by rewrite (Hwt Hw).
Qed.

Lemma rx_fin_est iss seq w : est iss w -> est iss (tcp_rx_fin seq w).
Proof.
  intros He. unfold tcp_rx_fin. case_if; [done |]. destruct (rx_seq_same 1 (tcp w)) as (? & ? & ? & ?).
  assert (He1 : est iss (on_tcp (tcp_rx_seq 1) w)) by (by apply est_on_tcp).
  change (on_tcp (fun c => set_state (TCP_STATE_RCVD TCP_FIN) (tcp_rx_seq 1 c)) w)
    with (on_tcp (set_state (TCP_STATE_RCVD TCP_FIN)) (on_tcp (tcp_rx_seq 1) w)).
  revert He1. generalize (on_tcp (tcp_rx_seq 1) w) as w1. intros w1 He1.
  destruct (est_core iss _ He1) as (Hc & Hl & Ha & Hp).
  destruct (rcvd_fin_ok iss _ _ Hc Hl) as (Hc' & He' & Hr'); [apply He1 |].
  destruct (close_rcvd iss None (on_tcp (set_state (TCP_STATE_RCVD TCP_FIN)) w1))
    as (? & Hf & ? & ?); [done.. |].
  split_and!; [done | |].
  - rewrite (frame_listed _ _ Hf). apply He1.
  - by rewrite (frame_rcvd_syn _ _ Hf).
Qed.

Lemma rx_loop_est iss fuel w : est iss w -> est iss (rx_loop fuel w).
Proof.
  revert w. induction fuel as [| fuel IH]; intros w He; [done |]. cbn [rx_loop].
  destruct (rx_queue (tcp w)) as [| e q] eqn:Eq; [done |]. case_if; [done |]. apply IH.
  assert (He1 : est iss (on_tcp (with_rx_queue q) w)).
  { apply est_on_tcp; [| done..]. split; tcp_simpl; auto. destruct He as (_ & _ & ->). done. }
  pose proof (rx_data_est iss (q_seq e) (q_data e) _ He1). case_if; [by apply rx_fin_est | done].
Qed.

Lemma syn_sync_same seq seg c :
  same_tx c (syn_sync seq seg c) /\ timer (syn_sync seq seg c) = timer c /\
  keepalive (syn_sync seq seg c) = keepalive c /\ wait (syn_sync seq seg c) = wait c.
Proof.
  unfold syn_sync, set_flag. repeat case_match; (split_and!; [| done..]); split; tcp_simpl;
    rewrite ?has_lor, ?orb_false_r; auto.
Qed.

Lemma rx_syn_good iss seq seg w :
  good iss w -> listed (tcp w) = true -> good iss (on_tcp (tcp_rx_syn seq seg) w).
Proof.
  intros Hg Hl. destruct (syn_sync_same seq seg (tcp w)) as (Hs1 & ? & ? & ?).
  set (c1 := syn_sync seq seg) in *.
  assert (Hg1 : good iss (on_tcp c1 w)) by (by apply good_on_tcp).
  destruct (seq =? rcv_ack (c1 (tcp w))) eqn:Es.
  2: { unfold tcp_rx_syn, on_tcp in *. fold c1. by rewrite Es. }
  destruct (rx_seq_same 1 (c1 (tcp w))) as (Hs2 & ? & ? & ?).
  assert (Hg2 : good iss (on_tcp (tcp_rx_seq 1) (on_tcp c1 w))) by (by apply good_on_tcp).
  replace (on_tcp (tcp_rx_syn seq seg) w) with
    (on_tcp (set_state (TCP_STATE_SENT TCP_ACK ||| TCP_STATE_RCVD TCP_SYN)) (on_tcp (tcp_rx_seq 1) (on_tcp c1 w))).
  2: { unfold tcp_rx_syn, on_tcp. fold c1. by rewrite Es. }
  assert (Hl2 : listed (tcp (on_tcp (tcp_rx_seq 1) (on_tcp c1 w))) = true).
  { world_simpl. by rewrite (same_listed _ _ Hs2), (same_listed _ _ Hs1). }
  revert Hg2 Hl2. generalize (on_tcp (tcp_rx_seq 1) (on_tcp c1 w)) as w2. clear. intros w2 Hg2 Hl2.
  destruct Hg2 as [[(Hc & Hlv & Ha) | Hd] Hp]; [| by rewrite (dead_listed _ Hd) in Hl2].
  destruct (live_rcvd_syn _ Hlv) as (Hl' & Ep & Hr').
  split; [left | done]. split_and!; [| done | done].
  destruct Hc as [? (acked & Eacked & Hst) ? Hf ? ? Hpf ? Hwt]. unfold set_state. world_simpl.
  split; tcp_simpl; rewrite ?Ep; auto; try congruence.
  - exists acked. tcp_simpl. by rewrite Ep.
  - by rewrite has_lor, orb_false_r.
  - intros Hw. by rewrite (Hwt Hw).
Qed.

Lemma rx_syn_listed seq seg w : listed (tcp w) = true -> listed (tcp (on_tcp (tcp_rx_syn seq seg) w)) = true.
Proof.
  intros Hl. world_simpl. destruct (syn_sync_same seq seg (tcp w)) as (Hs1 & _).
  unfold tcp_rx_syn. case_if; [by rewrite (same_listed _ _ Hs1) |].
  unfold set_state, tcp_rx_seq, set_flag. tcp_simpl. by rewrite (same_listed _ _ Hs1).
Qed.

Lemma rx_enqueue_good iss seq flags data w :
  good iss w -> good iss (on_tcp (tcp_rx_enqueue seq flags data) w).
Proof.
  intros Hg. unfold tcp_rx_enqueue. apply good_on_tcp; try done; case_if; try done.
  split; tcp_simpl; auto. intros Hr. fold (rcvd_syn (tcp_state (tcp w))) in Heqb.
  rewrite Hr in Heqb. done.
Qed.

(** A step after which the invariant holds and nothing has been received. *)
Definition keeps (iss : Z) (w w' : world) : Prop :=
  good iss w' /\ rx_frame (tcp w) (tcp w') /\ delivered w' = delivered w.

Lemma keeps_trans iss w1 w2 w3 : keeps iss w1 w2 -> keeps iss w2 w3 -> keeps iss w1 w3.
Proof. intros (_ & ? & ?) (? & ? & ?). split_and!; [done | by etransitivity | congruence]. Qed.

Lemma keeps_listed iss w w' : keeps iss w w' -> listed (tcp w') = listed (tcp w).
Proof. intros (_ & Hf & _). apply Hf. Qed.

Lemma keeps_app_post iss w w' : keeps iss w w' -> app_post iss w w'.
Proof. intros (? & ? & ?). split_and!; auto. Qed.

Lemma keeps_xmit iss sack_seq w : good iss w -> keeps iss w (tcp_xmit_sack sack_seq w).
Proof. intros Hg. by destruct (xmit_ok iss sack_seq w) as (? & ? & ? & _); [apply good_good0 |]. Qed.

Lemma keeps_ack_pending iss w : good iss w -> keeps iss w (on_tcp (set_flag TCP_ACK_PENDING) w).
Proof.
  intros Hg. split_and!; [| unfold set_flag | done].
  - apply good_on_tcp; try done. unfold set_flag. split; tcp_simpl; auto. by rewrite has_lor, orb_false_r.
  - split; world_simpl; tcp_simpl; auto. by rewrite has_lor, orb_false_r.
Qed.

Lemma process_rx_good iss w : good iss w -> good iss (tcp_process_rx_queue w).
Proof.
  intros Hg. unfold tcp_process_rx_queue. destruct (rx_queue (tcp w)) as [| e q] eqn:Eq; [done |].
  apply rx_loop_est. destruct Hg as [[(Hc & Hl & Ha) | Hd] Hp].
  - split_and!; [split; [left; by split_and! | done] | apply Hc |].
    destruct (rcvd_syn _) eqn:Er; [done |]. by rewrite (core_rx _ _ _ Hc Er) in Eq.
  - by rewrite (dead_rx _ Hd) in Eq.
Qed.

(** After the queue has been processed nothing more is received. *)
Lemma rx_finish_post iss seq win w :
  good iss w -> app_post iss (tcp_process_rx_queue w) (rx_finish seq win w).
Proof.
  intros Hg. unfold rx_finish. pose proof (process_rx_good iss w Hg) as H1.
  revert H1. generalize (tcp_process_rx_queue w) as w1. intros w1 H1.
  set (w2 := match rx_queue (tcp w1) with [] => _ | _ :: _ => _ end).
  assert (H2 : keeps iss w1 w2).
  { subst w2. destruct (rx_queue (tcp w1)); [| by apply keeps_xmit].
    split_and!; [apply good_on_tcp; [same_tx | done..] | rx_frame | done]. }
  set (w3 := if TCP_CLOSED_GRACEFULLY _ then _ else _).
  assert (H3 : keeps iss w1 w3).
  { subst w3. destruct (TCP_CLOSED_GRACEFULLY (tcp_state (tcp w2))) eqn:Eg; [| done].
    eapply keeps_trans; [exact H2 |]. split_and!; [| rx_frame | done].
    destruct (proj1 H2) as [[(Hc & Hl & Ha) | Hd] Hp]; [| by rewrite (dead_state _ Hd) in Eg].
    split; [left | done]. split_and!; [| done | done]. destruct Hc. split; world_simpl; tcp_simpl; auto.
    intros _. clear -Hl Eg. unfold live in Hl. revert Hl Eg. generalize (tcp_state (tcp w2)).
    intros st Hl. by live_destruct Hl. }
  apply (app_post_trans _ _ w3); [by apply keeps_app_post |]. destruct H3 as [H3 _].
  repeat case_if; [by apply keeps_app_post.. |]. apply (app_run_ok iss _ (tick w3) H3).
Qed.

Lemma rx_finish_good iss seq win w : good iss w -> good iss (rx_finish seq win w).
Proof. intros Hg. by apply rx_finish_post. Qed.

(** Deletion from any state: the state is set to CLOSED first. *)
Lemma abort_good iss rc w :
  good0 iss w -> listed (tcp w) = true ->
  good iss (tcp_close rc (on_tcp (with_tcp_state TCP_CLOSED) w)) /\
  dead (tcp (tcp_close rc (on_tcp (with_tcp_state TCP_CLOSED) w))) /\
  delivered (tcp_close rc (on_tcp (with_tcp_state TCP_CLOSED) w)) = delivered w.
Proof.
  intros [[(Hc & _) | Hd] Hp] Hl; [| by rewrite (dead_listed _ Hd) in Hl].
  refine (close_unrcvd iss rc (on_tcp (with_tcp_state TCP_CLOSED) w) eq_refl _ _ Hp); [apply Hc |].
  world_simpl. tcp_simpl.
  rewrite (core_pending_flags _ _ _ Hc). destruct (phase _); cbn; lia.
Qed.

Lemma rx_rst_good iss seq w :
  good iss w -> listed (tcp w) = true -> good iss (tcp_rx_rst seq w).2.
Proof.
  intros Hg Hl. unfold tcp_rx_rst. case_if; [done |]. by apply abort_good; [apply good_good0 |].
Qed.

(** The steps of [tcp_rx] before sequence numbers are looked at. *)
Lemma keeps_ts iss seg w :
  good iss w ->
  keeps iss w (match seg_ts seg with Some tsval => on_tcp (with_ts_val tsval) w | None => w end).
Proof.
  intros Hg. destruct (seg_ts seg); [| by split_and!].
  split_and!; [apply good_on_tcp; [same_tx | done..] | rx_frame | done].
Qed.

(** The acknowledgement number is a 32-bit value. *)
Lemma keeps_handle_ack iss seg w :
  good iss w -> listed (tcp w) = true -> in_range 32 (seg_ack seg) -> keeps iss w (rx_handle_ack seg w).2.
Proof.
  intros Hg Hl Hack. unfold rx_handle_ack. case_if; [by split_and! |]. set (win := u32 _).
  destruct Hg as [[(Hc & Hlv & Ha) | Hd] Hp]; [| by rewrite (dead_listed _ Hd) in Hl].
  pose proof (rx_ack_ok iss (app_sent w) (now_of w) (seg_ack seg) win (tcp w) Hc
    ltac:(by right) Hack ltac:(by apply (wrap_range 32))) as (Hc' & Ha' & Hl' & _).
  destruct (rx_ack_frame (now_of w) (seg_ack seg) win (tcp w)) as [Hf _].
  destruct (tcp_rx_ack _ _ _ _) as [rc c']. cbn [snd] in *. split_and!; [| done | done].
  split; [left | done]. split_and!; [done | | by apply Ha'].
  destruct Hl' as [Hl' | Hl']; [unfold live; world_simpl; by rewrite Hl' | done].
Qed.

Lemma keeps_reset iss seg w : good iss w -> keeps iss w (tcp_xmit_reset seg w).
Proof.
  intros Hg. unfold tcp_xmit_reset. destruct (alloc_iob_quiet TCP_MAX_HEADER_LEN w) as [Hq Hs].
  destruct (alloc_iob _ w) as [ok w2]. cbn [snd] in *.
  assert (Hg2 : good iss w2).
  { apply (good_quiet _ w); [done.. |]. rewrite Hs, (quiet_app _ _ Hq). apply Hg. }
  destruct ok; cbn [negb]; [| split_and!; [done | apply Hq..]].
  split_and!; [| apply Hq..]. destruct Hg2 as [? ?]. split; [done |].
  apply Forall_app. split; [done |]. constructor; [apply pkt_ok_empty | done].
Qed.

Lemma rx_segment_good iss seg w :
  good iss w -> listed (tcp w) = true -> in_range 32 (seg_ack seg) ->
  good iss (tcp_rx_segment seg w).2.
Proof.
  intros Hg Hl Hack. unfold tcp_rx_segment. pose proof (keeps_ts iss seg w Hg) as H0.
  set (w0 := match seg_ts seg with Some _ => _ | None => _ end) in *.
  assert (Hl0 : listed (tcp w0) = true) by (by rewrite (keeps_listed _ _ _ H0)).
  pose proof (keeps_handle_ack iss seg w0 (proj1 H0) Hl0 Hack) as H1.
  destruct (rx_handle_ack seg w0) as [[rc |] w1]; cbn [snd] in H1; [by apply keeps_reset, H1 |].
  assert (Hl1 : listed (tcp w1) = true) by (by rewrite (keeps_listed _ _ _ H1)).
  set (w2 := if _ && _ then _ else _).
  assert (H2 : good iss w2 /\ listed (tcp w2) = true).
  { subst w2. case_if; [| by split; [apply H1 |]]. split; [by apply keeps_ack_pending, H1 | done]. }
  destruct H2 as [Hg2 Hl2]. set (seqw := if has (seg_flags seg) TCP_SYN then _ else _).
  assert (H3 : good iss seqw.2 /\ listed (tcp seqw.2) = true).
  { subst seqw. case_if; [| done]. split; [by apply rx_syn_good |]. by apply rx_syn_listed. }
  destruct seqw as [seq w3]. cbn [snd] in H3. destruct H3 as [Hg3 Hl3].
  assert (H4 : good iss (if has (seg_flags seg) TCP_RST then tcp_rx_rst seq w3 else (None, w3)).2).
  { case_if; [| done]. by apply rx_rst_good. }
  destruct (if has (seg_flags seg) TCP_RST then _ else _) as [[rc |] w4]; [done |].
  by apply rx_finish_good, rx_enqueue_good.
Qed.

(** ** Every event keeps the transmit invariant *)

Definition event_bytes (ev : event) : Prop :=
  match ev with EvRx pkt _ => Forall is_byte pkt | _ => True end.

Lemma parse_ranges pkt cs seg :
  Forall is_byte pkt -> tcp_parse pkt cs = Ok seg ->
  in_range 32 (seg_seq seg) /\ in_range 32 (seg_ack seg) /\ Forall is_byte (seg_data seg).
Proof.
  intros Hb H. unfold tcp_parse in H. ok_inv H. injection H as <-. cbn [seg_seq seg_ack seg_data].
  split_and!; [by eapply rd_be32_range.. | by apply Forall_drop].
Qed.

Lemma backoff_stopped t : running (timer_backoff t).2 = false.
Proof. done. Qed.

(** Events other than packets receive nothing; they may delete the connection. *)
Definition local_post (iss : Z) (w w' : world) : Prop :=
  good iss w' /\ delivered w' = delivered w /\ (rx_frame (tcp w) (tcp w') \/ listed (tcp w') = false).

Lemma app_local_post iss w w' : app_post iss w w' -> local_post iss w w'.
Proof. intros (? & ? & [? | [? ?]]); split_and!; auto. Qed.

Lemma abort_local iss rc w w1 :
  good0 iss w1 -> listed (tcp w1) = true -> delivered w1 = delivered w ->
  local_post iss w (tcp_close rc (on_tcp (with_tcp_state TCP_CLOSED) w1)).
Proof.
  intros Hg Hl Hd. destruct (abort_good iss rc w1 Hg Hl) as (? & Hdead & Hdel).
  split_and!; [done | congruence | right; apply Hdead].
Qed.

Lemma xmit_local iss sack_seq w w1 :
  good0 iss w1 -> rx_frame (tcp w) (tcp w1) -> delivered w1 = delivered w ->
  local_post iss w (tcp_xmit_sack sack_seq w1).
Proof.
  intros Hg Hf Hd. destruct (xmit_ok iss sack_seq w1 Hg) as (? & ? & ? & _).
  split_and!; [done | congruence | left; by etransitivity].
Qed.

Lemma local_step iss ev w :
  match ev with EvRx _ _ => False | _ => True end -> good iss w -> local_post iss w (tcp_step ev w).
Proof.
  intros Hev Hg. assert (Hid : local_post iss w w) by (split_and!; auto; by left).
  destruct ev as [pkt cs | | | | | call |]; cbn [tcp_step]; [done | ..].
  - destruct (running (timer (tcp w))) eqn:Er; [| done].
    destruct (timer_backoff (timer (tcp w))) as [over t] eqn:Eb.
    destruct Hg as [[(Hc & Hl & Ha) | Hd] Hp]; [| by rewrite (dead_timer _ Hd) in Er].
    assert (H1 : good0 iss (on_tcp (with_timer t) w)).
    { split; [left | done]. split_and!; [| done |].
      - apply (core_same _ _ (tcp w)); [same_tx | done].
      - pose proof (backoff_stopped (timer (tcp w))) as Hb. rewrite Eb in Hb. intros Hr.
        world_simpl. tcp_simpl. cbn [snd] in Hb. congruence. }
    unfold tcp_expired. destruct over.
    + apply abort_local; [done | apply Hc | done].
    + apply xmit_local; [done | rx_frame | done].
  - destruct (running (keepalive (tcp w))) eqn:Er; [| done].
    destruct Hg as [[(Hc & Hl & Ha) | Hd] Hp]; [| by rewrite (dead_keepalive _ Hd) in Er].
    apply xmit_local; [| | done].
    + split; [left | done]. split_and!; [| done | done]. apply (core_same _ _ (tcp w)); [| done].
      unfold set_flag. world_simpl. split; tcp_simpl; auto. by rewrite has_lor, orb_false_r.
    + unfold set_flag. world_simpl. split; tcp_simpl; auto. by rewrite has_lor, orb_false_r.
  - destruct (running (wait (tcp w))) eqn:Er; [| done].
    destruct Hg as [[(Hc & Hl & Ha) | Hd] Hp]; [| by rewrite (dead_wait _ Hd) in Er].
    apply abort_local; [| apply Hc | done]. split; [left | done]. split_and!; [| done | done].
    destruct Hc. split; world_simpl; tcp_simpl; auto.
  - case_if; [| done]. apply xmit_local; [| rx_frame | done].
    apply good_good0, good_on_tcp; [same_tx | done..].
  - by apply app_local_post, app_step_ok.
  - unfold discarded. destruct (discard_rx_frame (tcp w)). split_and!; [| done | left; world_simpl; by case_if].
    apply good_on_tcp; try done; by case_if.
Qed.

Lemma step_good iss ev w : event_bytes ev -> good iss w -> good iss (tcp_step ev w).
Proof.
  intros Hev Hg. destruct ev as [pkt cs | | | | | call |]; [| by apply local_step..].
  cbn [tcp_step]. unfold tcp_rx. destruct (tcp_parse pkt cs) as [seg | |] eqn:Ep; [| done | done].
  destruct (listed (tcp w)) eqn:El; cbn [andb]; [| done]. case_if; [| done].
  pose proof (rx_segment_good iss seg w Hg El) as Hs.
  destruct (tcp_rx_segment seg w) as [rc w']. apply Hs. by eapply parse_ranges.
Qed.

Lemma run_good iss evs w : Forall event_bytes evs -> good iss w -> good iss (tcp_run evs w).
Proof.
  unfold tcp_run. revert w. induction evs as [| ev evs IH]; intros w Hev Hg; [done |].
  apply Forall_cons in Hev as [H1 H2]. cbn [foldl]. apply IH; [done |]. by apply step_good.
Qed.

(** A connection as [tcp_open] creates it, once its timer has first expired and
    the SYN has been sent. *)
Definition syn_sent (w0 : world) : world := tcp_step EvTimer w0.

(** Transmission recomputes the sent counter. *)
Lemma xmit_sent_irrelevant q n w :
  running (timer (tcp w)) = false ->
  tcp_xmit_sack q (on_tcp (with_snd_sent n) w) = tcp_xmit_sack q w.
Proof. intros Hr. unfold tcp_xmit_sack. world_simpl. tcp_simpl. by rewrite Hr. Qed.

Lemma open_post ok rnd rnd' mtu port local ports n w0 :
  tcp_open ok rnd rnd' mtu port local ports n = Ok w0 ->
  good (u32 rnd) (syn_sent w0) /\ rx_frame (tcp w0) (tcp (syn_sent w0)) /\
  delivered (syn_sent w0) = delivered w0.
Proof.
  intros H. unfold tcp_open in H. ok_inv H. injection H as <-.
  unfold syn_sent. cbn [tcp_step tcp timer start_timer_nodelay start_timer_fixed running].
  assert (Eb : exists t, timer_backoff (start_timer_nodelay (env_ticks n) timer_init) = (false, t) /\
    running t = false).
  { unfold timer_backoff. cbn [timer_max timeout start_timer_nodelay start_timer_fixed].
    rewrite Z.shiftl_0_l. unfold wrap. rewrite Z.mod_0_l by (destruct word_bits_ok as [-> | ->]; done).
    by eexists. }
  destruct Eb as (t & Eb & Er). rewrite Eb. cbn [tcp_expired]. unfold tcp_xmit.
  rewrite <- (xmit_sent_irrelevant _ 1) by done.
  set (w1 := on_tcp (with_snd_sent 1) _). set (q := rcv_ack _).
  assert (Hg : good0 (u32 rnd) w1).
  { split; [left | done]. split_and!; [| live_elem | unfold w1, tcp_assert; world_simpl; tcp_simpl; by rewrite Er].
    split; world_simpl; tcp_simpl; try done.
    exists []. tcp_simpl. split; [done |]. change (phase (TCP_STATE_SENT TCP_SYN)) with TxSyn.
    cbn iota. by rewrite wrap_idemp. }
  destruct (xmit_ok (u32 rnd) q w1 Hg) as (? & Hf & ? & _). split_and!; [done | | done].
  etransitivity; [| exact Hf]. rx_frame.
Qed.

Lemma open_good ok rnd rnd' mtu port local ports n w0 :
  tcp_open ok rnd rnd' mtu port local ports n = Ok w0 -> good (u32 rnd) (syn_sent w0).
Proof. intros H. by apply (open_post _ _ _ _ _ _ _ _ _ H). Qed.

(** C1. Transmitted data is the application's stream.  From the moment the SYN
    has been sent, for every sequence of events (packets of any content,
    timers, calls of the application, allocation failures, discards), every
    packet ever handed to the network layer carries at most [TCP_PATH_MTU]
    bytes of payload, and its payload is exactly the part of the stream the
    application supplied that its sequence number denotes: retransmissions,
    partial acknowledgements and sequence number wrap-around never duplicate,
    skip or reorder a byte. *)
Theorem tcp_sends_stream ok rnd rnd' mtu port local ports n w0 evs :
  tcp_open ok rnd rnd' mtu port local ports n = Ok w0 -> Forall event_bytes evs ->
  let w := tcp_run evs (syn_sent w0) in
  forall pkt, pkt ∈ sent w ->
  exists src dest seq ack flags win options payload off,
    pkt = tcp_packet src dest seq ack flags win options payload /\
    0 <= off /\ off + zlen payload <= zlen (app_sent w) /\ zlen payload <= TCP_PATH_MTU /\
    payload = slice (app_sent w) off (zlen payload) /\
    (payload <> [] -> seq = u32 (u32 rnd + 1 + off)).
Proof.
  intros Ho Hev w pkt Hin. pose proof (run_good _ evs _ Hev (open_good _ _ _ _ _ _ _ _ _ Ho)) as [_ Hp].
  rewrite Forall_forall in Hp. by apply Hp.
Qed.

(** C14. The connection state machine.  Under the same conditions a connection
    on the list is in one of the states of [tcp.h] or in the state that has no
    name there (its SYN acknowledged, the peer's not yet received); SYN and FIN are never
    outstanding together, so the assertion of [tcp_xmit_sack] holds; the
    pending operations count exactly the queued buffers and the outstanding
    flag; the retransmission timer runs exactly while something is
    unacknowledged, and the shutdown timer only in TIME_WAIT, so that the
    assertions of their handlers hold whenever they are called, except that of
    [tcp_expired] in the state that has no name in [tcp.h].  A connection off the
    list is closed, has freed its queues, holds no pending operation and no running
    timer. *)
Theorem tcp_state_machine ok rnd rnd' mtu port local ports n w0 evs :
  tcp_open ok rnd rnd' mtu port local ports n = Ok w0 -> Forall event_bytes evs ->
  let c := tcp (tcp_run evs (syn_sent w0)) in
  if listed c then
    tcp_state c ∈ live_states /\
    negb (has (TCP_FLAGS_SENDING (tcp_state c)) TCP_SYN && has (TCP_FLAGS_SENDING (tcp_state c)) TCP_FIN) = true /\
    pending_data c = zlen (tx_queue c) /\
    pending_flags c = (if has (TCP_FLAGS_SENDING (tcp_state c)) (TCP_SYN ||| TCP_FIN) then 1 else 0) /\
    running (timer c) = negb (snd_sent c =? 0) /\
    (running (timer c) = true -> tcp_state c <> TCP_SYN_ACKED ->
     tcp_state c ∈ [TCP_SYN_SENT; TCP_SYN_RCVD; TCP_ESTABLISHED; TCP_FIN_WAIT_1; TCP_CLOSE_WAIT;
                    TCP_CLOSING_OR_LAST_ACK]) /\
    (running (wait c) = true -> tcp_state c = TCP_TIME_WAIT)
  else
    tcp_state c = TCP_CLOSED /\ tx_queue c = [] /\ rx_queue c = [] /\
    pending_data c = 0 /\ pending_flags c = 0 /\
    running (timer c) = false /\ running (keepalive c) = false /\ running (wait c) = false.
Proof.
  intros Ho Hev c. pose proof (run_good _ evs _ Hev (open_good _ _ _ _ _ _ _ _ _ Ho)) as [Hg _].
  fold c in Hg. destruct Hg as [(Hc & Hl & Ha) | Hd].
  - rewrite (core_listed _ _ _ Hc). split_and!; [done | | apply Hc | | done | | apply Hc].
    + clear -Hl. unfold live in Hl. by live_destruct Hl.
    + rewrite (core_pending_flags _ _ _ Hc). unfold has. rewrite live_sending by auto.
      by destruct (phase (tcp_state c)).
    + rewrite Ha. destruct (core_stream _ _ _ Hc) as (acked & _ & Hst). clear -Hl Hst. intros Hr Hne.
      unfold live in Hl. revert Hl Hst Hne. generalize (tcp_state c). intros st Hl Hst Hne.
      live_destruct Hl; try live_elem; destruct Hst as (_ & En & _); by rewrite En in Hr.
  - rewrite (dead_listed _ Hd). by destruct Hd.
Qed.

End with_env.

(** ** A concrete connection

    An echo server's peer: memory is always available and the application sends
    back what it is given. *)

Definition echo_env : TcpEnv := {|
  env_ticks n := Z.of_nat n; env_window _ := 65536; env_alloc _ _ := (true, O); env_tx _ _ := true;
  env_deliver _ data := [AppDeliver data]; env_window_changed _ := [] |}.

#[local] Existing Instance x86_64_efi.
#[local] Existing Instance echo_env.

(** A connection from port 1025 to port 80 with initial sequence number 2^32-2. *)
Definition echo_w0 : world := Eval vm_compute in
  match tcp_open true 0xfffffffe 7 1480 80 None [] 0 with
  | Ok w => w
  | _ => World (TcpConnection 0 0 0 0 0 0 0 0 0 0 0 0 0 0 [] [] [] false timer_init timer_init timer_init
                  0 0 false 0) 0 [] [] [] None 0
  end.

Lemma echo_opens : tcp_open true 0xfffffffe 7 1480 80 None [] 0 = Ok echo_w0.
Proof. vm_compute. reflexivity. Qed.

(** Packets from the other side. *)
Definition from_peer (seq ack flags : Z) (data : bytes) : event :=
  EvRx (tcp_packet 80 1025 seq ack flags 1000 [] data) 0.

(** The handshake, two segments out of order, an acknowledgement of part of the
    echo, a retransmission, and the peer's FIN. *)
Definition echo_events : list event :=
  [from_peer 0xffffffff 0xffffffff 0x12 []; EvProcess;
   from_peer 3 0xffffffff 0x10 [4; 5];
   from_peer 0 0xffffffff 0x10 [1; 2; 3; 4];
   from_peer 5 1 0x10 []; EvTimer; EvProcess;
   from_peer 5 4 0x11 []; EvProcess].

Lemma echo_events_bytes : Forall event_bytes echo_events.
Proof. repeat (constructor; [cbn [event_bytes]; try done; by apply (bool_decide_unpack _); vm_compute |]). constructor. Qed.

Lemma tcp_sends_stream_witness :
  let w := tcp_run echo_events (syn_sent echo_w0) in
  app_sent w = [1; 2; 3; 4; 5] /\ length (sent w) = 6%nat /\
  forall pkt, pkt ∈ sent w ->
  exists src dest seq ack flags win options payload off,
    pkt = tcp_packet src dest seq ack flags win options payload /\
    0 <= off /\ off + zlen payload <= zlen (app_sent w) /\ zlen payload <= TCP_PATH_MTU /\
    payload = slice (app_sent w) off (zlen payload) /\
    (payload <> [] -> seq = u32 (u32 0xfffffffe + 1 + off)).
Proof.
  pose proof (tcp_sends_stream true 0xfffffffe 7 1480 80 None [] 0 echo_w0 echo_events echo_opens
    echo_events_bytes) as H.
  split; [vm_compute; reflexivity |]. split; [vm_compute; reflexivity | exact H].
Defined.

(** The assertion of [tcp_expired] can fail: the peer acknowledges our SYN with a
    pure ACK, the application sends, and the retransmission timer expires. *)
Example tcp_expired_assertion_fails :
  let w := tcp_run [from_peer 0 0xffffffff 0x10 []; EvApp (AppDeliver [1]); EvTimer] (syn_sent echo_w0) in
  tcp_state (tcp w) = TCP_SYN_ACKED /\ assertion_failures w = 1%nat.
Proof. vm_compute. split; reflexivity. Qed.

Lemma tcp_state_machine_witness :
  let c := tcp (tcp_run echo_events (syn_sent echo_w0)) in
  listed c = true /\ tcp_state c ∈ live_states /\ pending_data c = zlen (tx_queue c) /\
  running (timer c) = negb (snd_sent c =? 0).
Proof.
  pose proof (tcp_state_machine true 0xfffffffe 7 1480 80 None [] 0 echo_w0 echo_events echo_opens
    echo_events_bytes) as H.
  cbv zeta in H |- *. set (c := tcp _) in *. assert (Hl : listed c = true) by (vm_compute; reflexivity).
  rewrite Hl in H. split; [exact Hl |]. split; [apply H |]. split; apply H.
Defined.
