(* ===== verification/TcpRecv.v ===== *)
(** * TCP: the receive side, and what the application is given

    The peer's stream [p] starts after its initial sequence number [irs].  The
    receive queue holds pieces of the stream, sorted by offset; the invariant of
    the connection says how many bytes (and whether the FIN) have been received
    in order.  Every sequence of events whose packets carry pieces of the
    stream, in whatever order and however often, keeps the invariant. *)

From Stdlib Require Import ZArith Lia Bool ZifyBool.
From stdpp Require Import base numbers list strings sorting.
From S2P Require Import Prelude Heap Tcpip Retry Tcp TcpStream.

Local Open Scope Z_scope.
Local Open Scope ipxe_scope.

Section with_env.
Context {P : Platform} {E : TcpEnv}.

(** ** The receive queue

    [irs] is the peer's initial sequence number and [p] the stream it sends,
    which its FIN follows.  A buffer at offset [off] holds the bytes of the
    stream from there. *)

Record entry_at (irs : Z) (p : bytes) (off : Z) (e : tcp_rx_queued) : Prop := EntryAt {
  entry_seq : q_seq e = u32 (irs + 1 + off);
  entry_off : 0 <= off;
  entry_end : off + zlen (q_data e) <= zlen p;
  entry_data : q_data e = slice p off (zlen (q_data e));
  entry_len : zlen (q_data e) < 2 ^ 16;
  entry_fin : has (q_flags e) TCP_FIN = true -> off + zlen (q_data e) = zlen p
}.

(** A queue sorted by offset, with offsets between [lo] and [hi]. *)
Definition queue_in (irs : Z) (p : bytes) (lo hi : Z) (q : list tcp_rx_queued) : Prop :=
  exists offs, Forall2 (entry_at irs p) offs q /\ StronglySorted Z.le offs /\
    Forall (fun o => lo <= o <= hi) offs.

Lemma queue_in_nil irs p lo hi : queue_in irs p lo hi [].
Proof. exists []. split_and!; constructor. Qed.

Lemma queue_in_weaken irs p lo hi lo' hi' q :
  lo' <= lo -> hi <= hi' -> queue_in irs p lo hi q -> queue_in irs p lo' hi' q.
Proof.
  intros ? ? (offs & ? & ? & H). exists offs. split_and!; [done.. |].
  eapply Forall_impl; [done |]. cbn. lia.
Qed.

Lemma queue_in_prefix irs p lo hi q q' :
  q' `prefix_of` q -> queue_in irs p lo hi q -> queue_in irs p lo hi q'.
Proof.
  intros [k ->] (offs & H2 & Hs & Hb). apply Forall2_app_inv_r in H2 as (o1 & o2 & H1 & _ & ->).
  exists o1. apply StronglySorted_app in Hs. rewrite Forall_app in Hb. tauto.
Qed.

Lemma queue_in_cons irs p lo hi e q :
  queue_in irs p lo hi (e :: q) ->
  exists off, entry_at irs p off e /\ lo <= off <= hi /\ queue_in irs p off hi q /\
    queue_in irs p off hi (e :: q).
Proof.
  intros (offs & H2 & Hs & Hb). apply Forall2_cons_inv_r in H2 as (off & offs' & He & H2' & ->).
  apply StronglySorted_inv in Hs as [Hs Hle]. apply Forall_cons in Hb as [Hb Hb'].
  assert (Hb2 : Forall (fun o => off <= o <= hi) offs').
  { rewrite Forall_forall in *. intros o Ho. specialize (Hle o Ho). specialize (Hb' o Ho). lia. }
  exists off. split_and!; [done | lia | lia | by exists offs' |].
  exists (off :: offs'). split_and!; constructor; [done.. | lia | done].
Qed.

Lemma queue_in_insert irs p lo hi e off q :
  entry_at irs p off e -> lo <= off <= hi -> hi - lo < 2 ^ 31 ->
  queue_in irs p lo hi q -> queue_in irs p lo hi (rx_insert e q).
Proof.
  intros He Ho Hlh (offs & H2 & Hs & Hb).
  assert (H : exists offs', Forall2 (entry_at irs p) offs' (rx_insert e q) /\
    StronglySorted Z.le offs' /\ Forall (fun o => lo <= o <= hi) offs' /\
    forall x, Forall (Z.le x) offs -> x <= off -> Forall (Z.le x) offs').
  { revert offs H2 Hs Hb. induction q as [| e' q IH]; intros offs H2 Hs Hb.
    - apply Forall2_nil_inv_r in H2 as ->. exists [off]. split_and!.
      * constructor; [done | constructor].
      * constructor; constructor.
      * constructor; [done | constructor].
      * intros x _ Hx. constructor; [done | constructor].
    - apply Forall2_cons_inv_r in H2 as (o & offs' & He' & H2' & ->).
      apply StronglySorted_inv in Hs as [Hs' Hle]. apply Forall_cons in Hb as [Hb Hb']. cbn [rx_insert].
      rewrite (entry_seq _ _ _ _ He), (entry_seq _ _ _ _ He'), tcp_cmp_abs by lia.
      case_if.
      + exists (off :: o :: offs'). split_and!.
        * constructor; [done | by constructor].
        * constructor; [by constructor |]. constructor; [lia |].
          eapply Forall_impl; [exact Hle |]. cbn. lia.
        * constructor; [done | by constructor].
        * intros x Hx Hx'. by constructor.
      + destruct (IH offs' H2' Hs' Hb') as (offs2 & ? & ? & ? & Hx2). exists (o :: offs2). split_and!.
        * by constructor.
        * constructor; [done |]. apply Hx2; [done | lia].
        * by constructor.
        * intros x Hx Hx'. apply Forall_cons in Hx as [? ?]. constructor; [done |]. by apply Hx2. }
  destruct H as (offs' & ? & ? & ? & _). by exists offs'.
Qed.

(** ** The receive invariant

    [n] bytes of the stream have been received in order, and then the FIN if
    [fin]; what has been delivered is a prefix of them, and all of them while
    the interface is open. *)
Record rx_core (irs : Z) (p : bytes) (n : Z) (fin : bool) (c : tcp_connection) (dl : list bytes) : Prop := RxCore {
  rx_range : 0 <= n <= zlen p;
  rx_fin_end : fin = true -> n = zlen p;
  rx_total : rcv_total c = irs + 1 + n + Z.b2z fin;
  rx_ack : rcv_ack c = u32 (rcv_total c);
  rx_win : 0 <= rcv_win c <= TCP_MAX_WINDOW_SIZE;
  rx_delivered : exists m, 0 <= m <= n /\ concat dl = take (Z.to_nat m) p /\
    (has (tcp_flags c) TCP_XFER_CLOSED = false -> m = n)
}.

Lemma rx_core_frame irs p n fin c c' dl :
  rx_frame c c' -> rx_core irs p n fin c dl -> rx_core irs p n fin c' dl.
Proof.
  intros [Ha Ht _ Hw _ _ Hx] [? ? Htot Hack ? (m & ? & ? & Hm)].
  split; rewrite ?Ha, ?Ht; auto. exists m. split_and!; [lia.. | done |].
  intros Hx'. apply Hm. destruct (has (tcp_flags c) TCP_XFER_CLOSED); [| done].
  by rewrite Hx in Hx'.
Qed.

Lemma slice_take_drop (p : bytes) n len :
  0 <= n -> 0 <= len -> n + len <= zlen p ->
  take (Z.to_nat n) p ++ slice p n len = take (Z.to_nat (n + len)) p.
Proof.
  intros. unfold slice. rewrite Z2Nat.inj_add by lia. by rewrite take_take_drop.
Qed.

Lemma drop_slice (p : bytes) off len k :
  0 <= off -> 0 <= k <= len -> drop (Z.to_nat k) (slice p off len) = slice p (off + k) (len - k).
Proof.
  intros. unfold slice. rewrite skipn_firstn_comm, drop_drop. f_equal; [lia |]. f_equal. lia.
Qed.

(** Consuming [k] further bytes of the stream. *)
Lemma rx_seq_core irs p n c dl dl' k :
  rx_core irs p n false c dl -> 0 < k -> n + k <= zlen p ->
  (if has (tcp_flags c) TCP_XFER_CLOSED then dl' = dl else concat dl' = concat dl ++ slice p n k) ->
  rx_core irs p (n + k) false (tcp_rx_seq k c) dl'.
Proof.
  intros [? ? Ht Ha Hw (m & Hm & Hd & Hmn)] Hk Hn Hdl. unfold tcp_rx_seq, set_flag.
  split; tcp_simpl; try done; try lia.
  - rewrite Ha. wrap_simpl. done.
  - case_if; lia.
  - rewrite has_lor, orb_false_r. destruct (has (tcp_flags c) TCP_XFER_CLOSED).
    + exists m. subst dl'. split_and!; [lia | lia | done | done].
    + exists (n + k). rewrite Hmn in Hd by done. split_and!; [lia | lia | | done].
      rewrite Hdl, Hd. apply slice_take_drop; lia.
Qed.

Lemma rx_data_at iss irs p n fin off e w :
  est iss w -> rx_core irs p n fin (tcp w) (delivered w) -> entry_at irs p off e ->
  off <= n + Z.b2z fin -> n + Z.b2z fin - off < 2 ^ 32 ->
  let w' := tcp_rx_data (q_seq e) (q_data e) w in
  est iss w' /\ rx_queue (tcp w') `prefix_of` rx_queue (tcp w) /\
  exists n', rx_core irs p n' fin (tcp w') (delivered w') /\
    n' + Z.b2z fin = Z.max (n + Z.b2z fin) (off + zlen (q_data e)).
Proof.
  intros He Hr [Eseq Hoff Hend Hdata _ _] Hle Hnear w'. split; [by apply rx_data_est |].
  unfold w', tcp_rx_data. rewrite (rx_ack _ _ _ _ _ _ Hr), Eseq, (rx_total _ _ _ _ _ _ Hr).
  rewrite u32_sub_abs by lia. replace (irs + 1 + n + Z.b2z fin - (irs + 1 + off)) with (n + Z.b2z fin - off) by lia.
  destruct (Z.leb_spec (zlen (q_data e)) (n + Z.b2z fin - off)) as [Hold | Hnew].
  { split; [done |]. exists n. split; [done | lia]. }
  destruct fin; [pose proof (rx_fin_end _ _ _ _ _ _ Hr eq_refl); cbn in *; lia |].
  cbn [Z.b2z] in *. rewrite Z.add_0_r in *. set (len := zlen (q_data e)) in *.
  set (k := len - (n - off)). set (data := drop (Z.to_nat (n - off)) (q_data e)).
  set (w1 := on_tcp (tcp_rx_seq k) w).
  assert (He1 : est iss w1).
  { destruct (rx_seq_same k (tcp w)) as (? & ? & ? & ?). by apply est_on_tcp. }
  destruct (deliver_ok iss data w1 He1) as (_ & Hf & Hd).
  split; [apply (frame_queue _ _ Hf) |]. exists (n + k). split; [| lia].
  apply (rx_core_frame _ _ _ _ _ _ _ Hf). rewrite Hd. apply (rx_seq_core _ _ _ _ (delivered w)); [done | lia | lia |].
  unfold w1. world_simpl. destruct (rx_seq_same k (tcp w)) as (Hs & _). rewrite (same_xfer _ _ Hs).
  destruct (has (tcp_flags (tcp w)) TCP_XFER_CLOSED); [done |].
  rewrite concat_app. cbn [concat]. rewrite app_nil_r. f_equal. unfold data. rewrite Hdata, drop_slice by lia.
  f_equal; lia.
Qed.

Lemma rx_fin_at iss irs p n fin off e w :
  est iss w -> rx_core irs p n fin (tcp w) (delivered w) -> entry_at irs p off e ->
  has (q_flags e) TCP_FIN = true -> Z.abs (n + Z.b2z fin - (off + zlen (q_data e))) < 2 ^ 32 ->
  let w' := tcp_rx_fin (u32 (q_seq e + zlen (q_data e))) w in
  est iss w' /\ rx_queue (tcp w') `prefix_of` rx_queue (tcp w) /\
  (rx_core irs p n fin (tcp w') (delivered w') /\ n + Z.b2z fin <> off + zlen (q_data e) \/
   fin = false /\ n = off + zlen (q_data e) /\ rx_core irs p n true (tcp w') (delivered w')).
Proof.
  intros He Hr [Eseq Hoff Hend Hdata _ Hfin] Hf Hnear w'. split; [by apply rx_fin_est |].
  unfold w', tcp_rx_fin. rewrite (rx_ack _ _ _ _ _ _ Hr), Eseq, (rx_total _ _ _ _ _ _ Hr). wrap_simpl.
  destruct (Z.eqb_spec (u32 (irs + 1 + off + zlen (q_data e))) (u32 (irs + 1 + n + Z.b2z fin))) as [Eq | Eq];
    cbn [negb].
  2: { split; [done |]. left. split; [done |]. intros Heq. apply Eq. f_equal. lia. }
  apply u32_inj_near in Eq; [| lia]. specialize (Hfin Hf).
  destruct fin; [pose proof (rx_fin_end _ _ _ _ _ _ Hr eq_refl); cbn in *; lia |]. cbn [Z.b2z] in *.
  set (w1 := on_tcp _ w).
  assert (Hr1 : rcvd_syn (tcp_state (tcp w1)) = true).
  { destruct He as (_ & _ & He). unfold w1, set_state, tcp_rx_seq, set_flag, rcvd_syn in *. world_simpl.
    tcp_simpl. by rewrite has_lor, He. }
  destruct (close_frame (now_of w1) (tcp w1) Hr1) as [Hcf _].
  split; [apply (frame_queue _ _ Hcf) |]. right. split_and!; [done | lia |].
  apply (rx_core_frame _ _ _ _ _ _ _ Hcf). destruct Hr as [? ? Ht Ha Hw (m & Hm & Hd & Hmn)].
  unfold w1, set_state, tcp_rx_seq, set_flag. world_simpl. split; tcp_simpl; try done.
  - lia.
  - rewrite Ht. cbn. lia.
  - rewrite Ha. wrap_simpl. done.
  - case_if; lia.
  - exists m. rewrite has_lor, orb_false_r. done.
Qed.

(** One iteration of the loop of [tcp_process_rx_queue]. *)
Lemma rx_step_at iss irs p n fin off e w :
  est iss w -> rx_core irs p n fin (tcp w) (delivered w) -> entry_at irs p off e ->
  n + Z.b2z fin - 2 ^ 17 <= off <= n + Z.b2z fin ->
  let w1 := tcp_rx_data (q_seq e) (q_data e) w in
  let w2 := if has (q_flags e) TCP_FIN then tcp_rx_fin (u32 (q_seq e + zlen (q_data e))) w1 else w1 in
  est iss w2 /\ rx_queue (tcp w2) `prefix_of` rx_queue (tcp w) /\
  exists n' fin', rx_core irs p n' fin' (tcp w2) (delivered w2) /\
    n + Z.b2z fin <= n' + Z.b2z fin' <= Z.max (n + Z.b2z fin) (off + 2 ^ 17) /\
    off + zlen (q_data e) + Z.b2z (has (q_flags e) TCP_FIN) <= n' + Z.b2z fin'.
Proof.
  intros He Hr Hat Hoff w1 w2. pose proof (entry_len _ _ _ _ Hat).
  destruct (rx_data_at iss irs p n fin off e w) as (He1 & Hq1 & n1 & Hr1 & Hn1); [done.. | lia | lia |].
  fold w1 in He1, Hq1, Hr1. unfold w2. destruct (has (q_flags e) TCP_FIN) eqn:Ef.
  2: { split_and!; [done | done |]. exists n1, fin. split_and!; [done | lia | lia | cbn; lia]. }
  destruct (rx_fin_at iss irs p n1 fin off e w1) as (He2 & Hq2 & Hr2); [done.. | lia |].
  split_and!; [done | by etransitivity |]. destruct Hr2 as [[Hr2 Hne] | (-> & -> & Hr2)].
  - exists n1, fin. cbn [Z.b2z] in *. split_and!; [done | lia..].
  - exists (off + zlen (q_data e)), true. cbn [Z.b2z] in *. split_and!; [done | lia..].
Qed.

(** The loop: at its end every queued buffer starts after what has been
    received, and what was at the head of the queue and in order is received. *)
Lemma rx_loop_at iss irs p n fin fuel w :
  est iss w -> rx_core irs p n fin (tcp w) (delivered w) ->
  queue_in irs p (n + Z.b2z fin - 2 ^ 17) (n + Z.b2z fin + 2 ^ 19) (rx_queue (tcp w)) ->
  (length (rx_queue (tcp w)) <= fuel)%nat ->
  let w' := rx_loop fuel w in
  exists n' fin', rx_core irs p n' fin' (tcp w') (delivered w') /\
    n + Z.b2z fin <= n' + Z.b2z fin' /\
    queue_in irs p (n' + Z.b2z fin' + 1) (n' + Z.b2z fin' + 2 ^ 19) (rx_queue (tcp w')) /\
    forall e q off, rx_queue (tcp w) = e :: q -> entry_at irs p off e -> off <= n + Z.b2z fin ->
      n + Z.b2z fin - 2 ^ 17 <= off ->
      off + zlen (q_data e) + Z.b2z (has (q_flags e) TCP_FIN) <= n' + Z.b2z fin'.
Proof.
  revert n fin w. induction fuel as [| fuel IH]; intros n fin w He Hr Hq Hlen w'.
  { assert (Eq : rx_queue (tcp w) = []) by (destruct (rx_queue (tcp w)); [done | cbn in Hlen; lia]).
    exists n, fin. unfold w'. cbn [rx_loop]. rewrite Eq. split_and!; [done | done | apply queue_in_nil | done]. }
  unfold w'. cbn [rx_loop]. destruct (rx_queue (tcp w)) as [| e q] eqn:Eq.
  { exists n, fin. rewrite Eq. split_and!; [done | done | apply queue_in_nil | done]. }
  destruct (queue_in_cons _ _ _ _ _ _ Hq) as (off & Hat & Hoff & Hrest & Hall).
  assert (Ecmp : tcp_cmp (q_seq e) (rcv_ack (tcp w)) = off - (n + Z.b2z fin)).
  { rewrite (entry_seq _ _ _ _ Hat), (rx_ack _ _ _ _ _ _ Hr), (rx_total _ _ _ _ _ _ Hr).
    rewrite tcp_cmp_abs; lia. }
  rewrite Ecmp.
  assert (Hsame : forall off', entry_at irs p off' e -> off' <= n + Z.b2z fin ->
    n + Z.b2z fin - 2 ^ 17 <= off' -> off' = off).
  { intros off' Hat' ? ?. pose proof (entry_seq _ _ _ _ Hat') as Es. rewrite (entry_seq _ _ _ _ Hat) in Es.
    apply u32_inj_near in Es; lia. }
  case_if.
  { exists n, fin. rewrite Eq. split_and!; [done | done | |].
    - apply (queue_in_weaken _ _ off (n + Z.b2z fin + 2 ^ 19)); [lia | lia | done].
    - intros ? ? off' [= <- <-] Hat' ? ?. specialize (Hsame off' Hat'). lia. }
  set (w1 := on_tcp (with_rx_queue q) w).
  assert (He1 : est iss w1).
  { apply est_on_tcp; [| done..]. split; tcp_simpl; auto. destruct He as (_ & _ & ->). done. }
  assert (Hr1 : rx_core irs p n fin (tcp w1) (delivered w1)) by (destruct Hr; by split).
  destruct (rx_step_at iss irs p n fin off e w1) as (He2 & Hq2 & n2 & fin2 & Hr2 & Hn2 & Hend);
    [done.. | lia |]. revert He2 Hq2 Hr2. cbn zeta. set (w2 := if has _ _ then _ else _). intros He2 Hq2 Hr2.
  destruct (IH n2 fin2 w2 He2 Hr2) as (n' & fin' & Hr' & Hn' & Hq' & _).
  - apply (queue_in_weaken _ _ off (n + Z.b2z fin + 2 ^ 19)); [lia | lia |].
    by apply (queue_in_prefix _ _ _ _ q).
  - apply prefix_length in Hq2. cbn in Hlen, Hq2. lia.
  - exists n', fin'. split_and!; [done | lia | done |].
    intros ? ? off' [= <- <-] Hat' Ho1 Ho2. rewrite (Hsame off' Hat' Ho1 Ho2). lia.
Qed.

(** ** Enqueueing a segment *)

Lemma has_land_same x f : has (Z.land x f) f = has x f.
Proof. unfold has. by rewrite <- Z.land_assoc, Z.land_diag. Qed.

Lemma fin_bit flags : (if Z.land flags TCP_FIN =? 0 then 0 else 1) = Z.b2z (has flags TCP_FIN).
Proof. unfold has. by destruct (Z.land flags TCP_FIN =? 0). Qed.

(** The buffer [tcp_rx_enqueue] makes of a segment. *)
Definition enqueued (seq flags : Z) (data : bytes) : tcp_rx_queued :=
  RxQueued seq (u32 (seq + u32 (zlen data + Z.b2z (has flags TCP_FIN)))) (Z.land flags TCP_FIN) data.

Lemma rx_enqueue_eq seq flags data c :
  tcp_rx_enqueue seq flags data c =
  if negb (rcvd_syn (tcp_state c)) || (0 <=? tcp_cmp seq (u32 (rcv_ack c + rcv_win c))) ||
     (tcp_cmp (q_nxt (enqueued seq flags data)) (rcv_ack c) <? 0) ||
     (u32 (zlen data + Z.b2z (has flags TCP_FIN)) =? 0)
  then c else with_rx_queue (rx_insert (enqueued seq flags data) (rx_queue c)) c.
Proof. unfold tcp_rx_enqueue, enqueued. cbn [q_nxt]. by rewrite fin_bit. Qed.

(** The comparisons of [tcp_rx_enqueue], in terms of offsets. *)
Lemma rx_enqueue_tests irs p n fin off seq flags data c dl :
  rx_core irs p n fin c dl -> entry_at irs p off (enqueued seq flags data) ->
  Z.abs (off - (n + Z.b2z fin)) < 2 ^ 30 ->
  let len := zlen data + Z.b2z (has flags TCP_FIN) in
  tcp_cmp seq (u32 (rcv_ack c + rcv_win c)) = off - (n + Z.b2z fin) - rcv_win c /\
  tcp_cmp (q_nxt (enqueued seq flags data)) (rcv_ack c) = off + len - (n + Z.b2z fin) /\
  u32 len = len /\ 0 <= len <= 2 ^ 16.
Proof.
  intros Hr [Eseq _ _ _ Hlen _] Hnear len. unfold enqueued in *. cbn [q_seq q_nxt q_data q_flags] in *.
  assert (Hl : 0 <= len <= 2 ^ 16) by (unfold len; destruct (has flags TCP_FIN); cbn [Z.b2z]; lia).
  pose proof (rx_win _ _ _ _ _ _ Hr) as Hw.
  fold len. rewrite Eseq, (rx_ack _ _ _ _ _ _ Hr), (rx_total _ _ _ _ _ _ Hr).
  rewrite (wrap_small 32 len) by (unfold in_range; lia). wrap_simpl. rewrite !tcp_cmp_abs by lia. split_and!; [lia | lia | done | lia..].
Qed.

Lemma rx_enqueue_at irs p n fin off seq flags data c dl :
  rx_core irs p n fin c dl -> entry_at irs p off (enqueued seq flags data) ->
  Z.abs (off - (n + Z.b2z fin)) < 2 ^ 30 ->
  queue_in irs p (n + Z.b2z fin + 1) (n + Z.b2z fin + 2 ^ 19) (rx_queue c) ->
  queue_in irs p (n + Z.b2z fin - 2 ^ 17) (n + Z.b2z fin + 2 ^ 19)
    (rx_queue (tcp_rx_enqueue seq flags data c)).
Proof.
  intros Hr Hat Hnear Hq. pose proof (rx_win _ _ _ _ _ _ Hr) as Hw.
  apply (queue_in_weaken _ _ _ _ (n + Z.b2z fin - 2 ^ 17) (n + Z.b2z fin + 2 ^ 19)) in Hq; [| lia | lia].
  destruct (rx_enqueue_tests irs p n fin off seq flags data c dl) as (E1 & E2 & E3 & ?); [done.. |].
  rewrite rx_enqueue_eq, E1, E2, E3. case_if; [done |].
  tcp_simpl. apply (queue_in_insert _ _ _ _ _ off); [done | lia | lia | done].
Qed.

(** A segment that continues what has been received goes to the head. *)
Lemma rx_enqueue_head irs p n fin off seq flags data c dl :
  rx_core irs p n fin c dl -> entry_at irs p off (enqueued seq flags data) ->
  rcvd_syn (tcp_state c) = true -> 0 < rcv_win c ->
  n + Z.b2z fin - 2 ^ 17 <= off <= n + Z.b2z fin ->
  n + Z.b2z fin < off + zlen data + Z.b2z (has flags TCP_FIN) ->
  queue_in irs p (n + Z.b2z fin + 1) (n + Z.b2z fin + 2 ^ 19) (rx_queue c) ->
  rx_queue (tcp_rx_enqueue seq flags data c) = enqueued seq flags data :: rx_queue c.
Proof.
  intros Hr Hat Hs Hw Hoff Hend Hq.
  destruct (rx_enqueue_tests irs p n fin off seq flags data c dl) as (E1 & E2 & E3 & ?); [done.. | lia |].
  rewrite rx_enqueue_eq, E1, E2, E3, Hs. cbn [negb orb]. case_if; [lia |]. tcp_simpl.
  destruct (rx_queue c) as [| e q] eqn:Eq; [done |]. cbn [rx_insert].
  destruct (queue_in_cons _ _ _ _ _ _ Hq) as (off' & Hat' & ? & _).
  rewrite (entry_seq _ _ _ _ Hat), (entry_seq _ _ _ _ Hat'), tcp_cmp_abs by lia. by case_if; [| lia].
Qed.

Lemma rx_enqueue_core irs p n fin seq flags data c dl :
  rx_core irs p n fin c dl -> rx_core irs p n fin (tcp_rx_enqueue seq flags data c) dl.
Proof. intros Hr. rewrite rx_enqueue_eq. case_if; [done |]. destruct Hr. by split. Qed.

(** ** SYN *)

Lemma rx_syn_first irs p seg c :
  in_range 32 irs -> rcvd_syn (tcp_state c) = false -> 0 <= rcv_win c <= TCP_MAX_WINDOW_SIZE ->
  rx_queue c = [] ->
  rx_core irs p 0 false (tcp_rx_syn irs seg c) [] /\ rx_queue (tcp_rx_syn irs seg c) = [] /\
  rcvd_syn (tcp_state (tcp_rx_syn irs seg c)) = true.
Proof.
  intros Hi Hr Hw Hq. unfold tcp_rx_syn.
  assert (Hs : rcv_ack (syn_sync irs seg c) = irs /\ rcv_total (syn_sync irs seg c) = irs /\
    rcv_win (syn_sync irs seg c) = rcv_win c /\ rx_queue (syn_sync irs seg c) = []).
  { unfold syn_sync. change (has (tcp_state c) _) with (rcvd_syn (tcp_state c)). rewrite Hr.
    unfold set_flag. by repeat case_match. }
  destruct Hs as (Ha & Ht & Hw' & Hq'). rewrite Ha, Z.eqb_refl. cbn [negb].
  unfold set_state, tcp_rx_seq, set_flag. split_and!; [| done |].
  - split; tcp_simpl; try done.
    + lia.
    + rewrite Ht. cbn. lia.
    + by rewrite Ha, Ht.
    + rewrite Hw'. case_if; lia.
    + exists 0. split_and!; [lia | lia | done | done].
  - tcp_simpl. unfold rcvd_syn. rewrite has_lor. by rewrite orb_true_r.
Qed.

(** A repeated SYN within the lifetime of its sequence number is ignored. *)
Lemma rx_syn_again irs p n fin seg c dl :
  in_range 32 irs -> rx_core irs p n fin c dl -> rcvd_syn (tcp_state c) = true ->
  n + Z.b2z fin < 2 ^ 30 -> tcp_rx_syn irs seg c = c.
Proof.
  intros Hi Hr Hs Hn. unfold tcp_rx_syn, syn_sync.
  change (has (tcp_state c) _) with (rcvd_syn (tcp_state c)). rewrite Hs.
  pose proof (rx_range _ _ _ _ _ _ Hr). rewrite (rx_ack _ _ _ _ _ _ Hr), (rx_total _ _ _ _ _ _ Hr).
  destruct (Z.eqb_spec irs (u32 (irs + 1 + n + Z.b2z fin))) as [Eq |]; [| done].
  rewrite <- (wrap_small 32 irs Hi) in Eq at 1. apply u32_inj_near in Eq; destruct fin; cbn [Z.b2z] in *; lia.
Qed.

(** ** The receive invariant of the world *)

(** [n] bytes and the FIN, if [fin], have been received, and every queued
    buffer starts after them. *)
Definition rx_at (irs : Z) (p : bytes) (n : Z) (fin : bool) (w : world) : Prop :=
  rx_core irs p n fin (tcp w) (delivered w) /\
  queue_in irs p (n + Z.b2z fin + 1) (n + Z.b2z fin + 2 ^ 19) (rx_queue (tcp w)).

Definition rx_good (irs : Z) (p : bytes) (w : world) : Prop :=
  if listed (tcp w) then
    if rcvd_syn (tcp_state (tcp w)) then exists n fin, rx_at irs p n fin w
    else rx_queue (tcp w) = [] /\ delivered w = [] /\ 0 <= rcv_win (tcp w) <= TCP_MAX_WINDOW_SIZE
  else concat (delivered w) `prefix_of` p.

Lemma rx_at_frame irs p n fin w w' :
  rx_frame (tcp w) (tcp w') -> delivered w' = delivered w -> rx_at irs p n fin w -> rx_at irs p n fin w'.
Proof.
  intros Hf Hd [Hr Hq]. split.
  - rewrite Hd. by apply (rx_core_frame _ _ _ _ _ _ _ Hf).
  - by apply (queue_in_prefix _ _ _ _ _ _ (frame_queue _ _ Hf)).
Qed.

Lemma rx_good_frame irs p w w' :
  rx_frame (tcp w) (tcp w') -> delivered w' = delivered w -> rx_good irs p w -> rx_good irs p w'.
Proof.
  intros Hf Hd. unfold rx_good. rewrite (frame_listed _ _ Hf), (frame_rcvd_syn _ _ Hf).
  destruct (listed (tcp w)); [| by rewrite Hd]. destruct (rcvd_syn _).
  - intros (n & fin & H). exists n, fin. by apply (rx_at_frame _ _ _ _ w).
  - intros (Hq & ? & Hw). pose proof (frame_queue _ _ Hf) as Hp. rewrite Hq in Hp.
    split_and!; [by apply prefix_nil_inv in Hp | congruence | by apply (frame_win _ _ Hf)..].
Qed.

Lemma rx_good_prefix irs p w : rx_good irs p w -> concat (delivered w) `prefix_of` p.
Proof.
  unfold rx_good. destruct (listed (tcp w)); [| done]. destruct (rcvd_syn _).
  - intros (n & fin & [[_ _ _ _ _ (m & _ & -> & _)] _]). apply prefix_take.
  - intros (_ & -> & _). apply prefix_nil.
Qed.

Lemma rx_good_unlisted irs p w w' :
  listed (tcp w') = false -> delivered w' = delivered w -> rx_good irs p w -> rx_good irs p w'.
Proof.
  intros Hl Hd Hg. unfold rx_good. rewrite Hl, Hd. by apply (rx_good_prefix irs).
Qed.

Lemma rx_good_app_post iss irs p w w' : app_post iss w w' -> rx_good irs p w -> rx_good irs p w'.
Proof.
  intros (_ & Hd & [Hf | [_ Hl]]); [by apply rx_good_frame | by apply rx_good_unlisted].
Qed.

Lemma rx_good_keeps iss irs p w w' : keeps iss w w' -> rx_good irs p w -> rx_good irs p w'.
Proof. intros (_ & ? & ?). by apply rx_good_frame. Qed.

(** Processing the queue, when a buffer may have been put before those that
    are waiting. *)
Lemma process_rx_at iss irs p n fin w :
  est iss w -> rx_core irs p n fin (tcp w) (delivered w) ->
  queue_in irs p (n + Z.b2z fin - 2 ^ 17) (n + Z.b2z fin + 2 ^ 19) (rx_queue (tcp w)) ->
  rx_good irs p (tcp_process_rx_queue w).
Proof.
  intros He Hr Hq. unfold tcp_process_rx_queue.
  destruct (rx_loop_at iss irs p n fin (length (rx_queue (tcp w))) w)
    as (n' & fin' & Hr' & _ & Hq' & _); [done.. |].
  destruct (rx_loop_est iss (length (rx_queue (tcp w))) w He) as (_ & Hl & Hs).
  unfold rx_good. rewrite Hl, Hs. by exists n', fin'.
Qed.

(** ** Segments that carry pieces of the peer's stream *)

(** The segment holds the stream from [off] on, with its SYN before and its FIN
    after it if they are set; it is not so old or so far ahead that its sequence
    numbers have been used again. *)
Record piece (irs : Z) (p : bytes) (c : tcp_connection) (seg : segment) (off : Z) : Prop := Piece {
  piece_off : 0 <= off;
  piece_end : off + zlen (seg_data seg) <= zlen p;
  piece_data : seg_data seg = slice p off (zlen (seg_data seg));
  piece_len : zlen (seg_data seg) < 2 ^ 16;
  piece_fin : has (seg_flags seg) TCP_FIN = true -> off + zlen (seg_data seg) = zlen p;
  piece_seq : if has (seg_flags seg) TCP_SYN then off = 0 /\ seg_seq seg = irs
              else seg_seq seg = u32 (irs + 1 + off);
  piece_near : rcvd_syn (tcp_state c) = true -> Z.abs (irs + 1 + off - rcv_total c) < 2 ^ 30
}.

(** A segment of the peer: without data, SYN and FIN, or a piece of the stream. *)
Definition genuine (irs : Z) (p : bytes) (c : tcp_connection) (seg : segment) : Prop :=
  seg_data seg = [] /\ has (seg_flags seg) TCP_FIN = false /\ has (seg_flags seg) TCP_SYN = false \/
  exists off, piece irs p c seg off.

(** The sequence number of the data of a segment. *)
Definition data_seq (seg : segment) : Z :=
  if has (seg_flags seg) TCP_SYN then u32 (seg_seq seg + 1) else seg_seq seg.

Lemma piece_entry irs p c seg off :
  piece irs p c seg off ->
  entry_at irs p off (enqueued (data_seq seg) (seg_flags seg) (seg_data seg)).
Proof.
  intros [? ? ? ? ? Hs ?]. unfold data_seq. split; cbn [enqueued q_seq q_data q_flags]; auto.
  - destruct (has (seg_flags seg) TCP_SYN); [| done]. destruct Hs as [-> ->]. f_equal. lia.
  - by rewrite has_land_same.
Qed.

Lemma piece_frame irs p c c' seg off : rx_frame c c' -> piece irs p c seg off -> piece irs p c' seg off.
Proof.
  intros Hf [? ? ? ? ? ? ?]. split; auto. by rewrite (frame_rcvd_syn _ _ Hf), (frame_total _ _ Hf).
Qed.

Lemma genuine_frame irs p c c' seg : rx_frame c c' -> genuine irs p c seg -> genuine irs p c' seg.
Proof. intros Hf [H | [off H]]; [by left | right]. exists off. by apply (piece_frame _ _ c). Qed.

Lemma rx_good_at irs p w :
  rx_good irs p w -> listed (tcp w) = true -> rcvd_syn (tcp_state (tcp w)) = true ->
  exists n fin, rx_at irs p n fin w.
Proof. intros Hg Hl Hr. unfold rx_good in Hg. by rewrite Hl, Hr in Hg. Qed.

Lemma rx_good_unsynced irs p w :
  rx_good irs p w -> listed (tcp w) = true -> rcvd_syn (tcp_state (tcp w)) = false ->
  rx_queue (tcp w) = [] /\ delivered w = [] /\ 0 <= rcv_win (tcp w) <= TCP_MAX_WINDOW_SIZE.
Proof. intros Hg Hl Hr. unfold rx_good in Hg. by rewrite Hl, Hr in Hg. Qed.

(** The SYN part of [tcp_rx]. *)
Lemma rx_syn_rx irs p seg w :
  in_range 32 irs -> listed (tcp w) = true -> rx_good irs p w -> genuine irs p (tcp w) seg ->
  has (seg_flags seg) TCP_SYN = true ->
  let w' := on_tcp (tcp_rx_syn (seg_seq seg) seg) w in
  rx_good irs p w' /\ genuine irs p (tcp w') seg.
Proof.
  intros Hi Hl Hg Hgen Hs w'. destruct Hgen as [(_ & _ & Hn) | [off Hp]]; [congruence |].
  pose proof (piece_seq _ _ _ _ _ Hp) as Hseq. rewrite Hs in Hseq. destruct Hseq as [-> Hseq].
  destruct (rcvd_syn (tcp_state (tcp w))) eqn:Er.
  - destruct (rx_good_at _ _ _ Hg Hl Er) as (n & fin & Hr & Hq).
    pose proof (piece_near _ _ _ _ _ Hp Er) as Hnear. rewrite (rx_total _ _ _ _ _ _ Hr) in Hnear.
    assert (Ew : tcp w' = tcp w).
    { unfold w'. world_simpl. rewrite Hseq. apply (rx_syn_again irs p n fin _ _ (delivered w)); [done.. | lia]. }
    split; [| right; exists 0; by rewrite Ew].
    apply (rx_good_frame _ _ w); [by rewrite Ew | done | done].
  - destruct (rx_good_unsynced _ _ _ Hg Hl Er) as (Hq & Hd & Hw).
    destruct (rx_syn_first irs p seg (tcp w)) as (Hr' & Hq' & Hs'); [done.. |]. unfold w'. rewrite Hseq.
    split.
    + unfold rx_good. rewrite rx_syn_listed by done. world_simpl. rewrite Hs'. exists 0, false.
      split; world_simpl; [by rewrite Hd |]. rewrite Hq'. apply queue_in_nil.
    + right. exists 0. destruct Hp as [? ? ? ? ? Hp ?]. split; try done. intros _.
      world_simpl. rewrite (rx_total _ _ _ _ _ _ Hr'). cbn. lia.
Qed.

(** Enqueueing and processing. *)
Lemma rx_enqueue_rx iss irs p seg w :
  good iss w -> listed (tcp w) = true -> rx_good irs p w -> genuine irs p (tcp w) seg ->
  rx_good irs p (tcp_process_rx_queue
    (on_tcp (tcp_rx_enqueue (data_seq seg) (seg_flags seg) (seg_data seg)) w)).
Proof.
  intros Hgood Hl Hg Hgen. set (c' := tcp_rx_enqueue _ _ _).
  destruct (rcvd_syn (tcp_state (tcp w))) eqn:Er.
  - destruct (rx_good_at _ _ _ Hg Hl Er) as (n & fin & Hr & Hq).
    apply (process_rx_at iss irs p n fin); [| by apply rx_enqueue_core |].
    + split; [by apply rx_enqueue_good |]. world_simpl. unfold c'. rewrite rx_enqueue_eq. by case_if.
    + world_simpl. unfold c'. destruct Hgen as [(Ed & Ef & _) | [off Hp]].
      * rewrite rx_enqueue_eq, Ed, Ef. cbn [length Z.of_nat Z.b2z]. rewrite orb_true_r.
        eapply queue_in_weaken; [| | exact Hq]; lia.
      * pose proof (piece_near _ _ _ _ _ Hp Er) as Hnear. rewrite (rx_total _ _ _ _ _ _ Hr) in Hnear.
        apply (rx_enqueue_at irs p n fin off _ _ _ _ (delivered w)); [done | by eapply piece_entry | lia | done].
  - assert (Ec : c' (tcp w) = tcp w) by (unfold c'; by rewrite rx_enqueue_eq, Er).
    destruct (rx_good_unsynced _ _ _ Hg Hl Er) as (Hq & _).
    unfold tcp_process_rx_queue. world_simpl. rewrite Ec, Hq. cbn [length rx_loop].
    apply (rx_good_frame _ _ w); [world_simpl; by rewrite Ec | done | done].
Qed.

Lemma rx_rst_rx iss irs p seq w :
  good iss w -> listed (tcp w) = true -> rx_good irs p w ->
  match tcp_rx_rst seq w with
  | (None, w') => w' = w
  | (Some _, w') => rx_good irs p w'
  end.
Proof.
  intros Hgood Hl Hg. unfold tcp_rx_rst. case_if; [done |].
  destruct (abort_good iss (Some ECONNRESET) w) as (_ & Hd & Hdel); [by apply good_good0 | done |].
  apply (rx_good_unlisted _ _ w); [apply Hd | done | done].
Qed.

Lemma rx_segment_rx iss irs p seg w :
  good iss w -> listed (tcp w) = true -> in_range 32 (seg_ack seg) -> in_range 32 irs ->
  rx_good irs p w -> genuine irs p (tcp w) seg -> rx_good irs p (tcp_rx_segment seg w).2.
Proof.
  intros Hg Hl Hack Hi Hrx Hgen. unfold tcp_rx_segment. pose proof (keeps_ts iss seg w Hg) as H0.
  set (w0 := match seg_ts seg with Some _ => _ | None => _ end) in *.
  assert (Hl0 : listed (tcp w0) = true) by (by rewrite (keeps_listed _ _ _ H0)).
  pose proof (keeps_handle_ack iss seg w0 (proj1 H0) Hl0 Hack) as H1.
  apply (keeps_trans _ _ _ _ H0) in H1.
  destruct (rx_handle_ack seg w0) as [[rc |] w1]; cbn [snd] in H1.
  { apply (rx_good_keeps iss _ _ w); [| done]. eapply keeps_trans; [exact H1 |]. apply keeps_reset, H1. }
  set (w2 := if _ && _ then _ else _).
  assert (H2 : keeps iss w w2).
  { subst w2. case_if; [| done]. eapply keeps_trans; [exact H1 |]. apply keeps_ack_pending, H1. }
  assert (Hl2 : listed (tcp w2) = true) by (by rewrite (keeps_listed _ _ _ H2)).
  pose proof (rx_good_keeps _ _ _ _ _ H2 Hrx) as Hrx2.
  assert (Hgen2 : genuine irs p (tcp w2) seg) by (apply (genuine_frame _ _ (tcp w)); [apply H2 | done]).
  destruct H2 as [Hg2 _]. clearbody w2. set (seqw := if has (seg_flags seg) TCP_SYN then _ else _).
  assert (H3 : seqw.1 = data_seq seg /\ good iss seqw.2 /\ listed (tcp seqw.2) = true /\
    rx_good irs p seqw.2 /\ genuine irs p (tcp seqw.2) seg).
  { subst seqw. unfold data_seq. destruct (has (seg_flags seg) TCP_SYN) eqn:Es; [| by split_and!].
    destruct (rx_syn_rx irs p seg w2); [done.. |].
    split_and!; [done | by apply rx_syn_good | by apply rx_syn_listed | done | done]. }
  destruct seqw as [seq w3]. cbn [fst snd] in H3. destruct H3 as (-> & Hg3 & Hl3 & Hrx3 & Hgen3).
  pose proof (rx_rst_rx iss irs p (data_seq seg) w3 Hg3 Hl3 Hrx3) as H4.
  assert (H5 : match (if has (seg_flags seg) TCP_RST then tcp_rx_rst (data_seq seg) w3 else (None, w3)) with
    | (None, w') => w' = w3 | (Some _, w') => rx_good irs p w' end) by (by case_if).
  destruct (if has (seg_flags seg) TCP_RST then _ else _) as [[rc |] w4]; [done | subst w4]. cbn [snd].
  eapply rx_good_app_post; [apply rx_finish_post; by apply rx_enqueue_good |]. by apply (rx_enqueue_rx iss).
Qed.

(** ** Every event keeps the receive invariant *)

Definition event_genuine (irs : Z) (p : bytes) (ev : event) (w : world) : Prop :=
  match ev with
  | EvRx pkt cs =>
      Forall is_byte pkt /\
      forall seg, tcp_parse pkt cs = Ok seg -> seg_dest seg = local_port (tcp w) -> genuine irs p (tcp w) seg
  | _ => True
  end.

(** All packets of a run for this connection come from the peer. *)
Fixpoint run_genuine (irs : Z) (p : bytes) (evs : list event) (w : world) : Prop :=
  match evs with
  | [] => True
  | ev :: evs => event_genuine irs p ev w /\ run_genuine irs p evs (tcp_step ev w)
  end.

Lemma genuine_bytes irs p ev w : event_genuine irs p ev w -> event_bytes ev.
Proof. destruct ev; cbn; tauto. Qed.

Lemma step_rx iss irs p ev w :
  in_range 32 irs -> event_genuine irs p ev w -> good iss w -> rx_good irs p w ->
  rx_good irs p (tcp_step ev w).
Proof.
  intros Hi Hev Hg Hrx.
  assert (Hlocal : local_post iss w (tcp_step ev w) -> rx_good irs p (tcp_step ev w)).
  { intros (_ & Hd & [Hf | Hl]); [by apply (rx_good_frame _ _ w) | by apply (rx_good_unlisted _ _ w)]. }
  destruct ev as [pkt cs | | | | | call |]; [| by apply Hlocal, local_step..].
  destruct Hev as [Hb Hgen]. cbn [tcp_step]. unfold tcp_rx.
  destruct (tcp_parse pkt cs) as [seg | |] eqn:Ep; [| done | done].
  destruct (listed (tcp w)) eqn:El; cbn [andb]; [| done].
  destruct (Z.eqb_spec (local_port (tcp w)) (seg_dest seg)) as [Ed |]; [| done].
  destruct (parse_ranges _ _ _ Hb Ep) as (_ & Hack & _).
  pose proof (rx_segment_rx iss irs p seg w Hg El Hack Hi Hrx) as Hs.
  destruct (tcp_rx_segment seg w) as [rc w']. apply Hs. by apply Hgen.
Qed.

Lemma run_rx iss irs p evs w :
  in_range 32 irs -> run_genuine irs p evs w -> good iss w -> rx_good irs p w ->
  good iss (tcp_run evs w) /\ rx_good irs p (tcp_run evs w).
Proof.
  intros Hi. unfold tcp_run. revert w. induction evs as [| ev evs IH]; intros w Hev Hg Hrx; [done |].
  destruct Hev as [H1 H2]. cbn [foldl].
  apply IH; [done | apply step_good; [by eapply genuine_bytes | done] | by apply (step_rx iss)].
Qed.

Lemma open_rx ok rnd rnd' mtu port local ports n w0 irs p :
  tcp_open ok rnd rnd' mtu port local ports n = Ok w0 -> rx_good irs p (syn_sent w0).
Proof.
  intros H. destruct (open_post _ _ _ _ _ _ _ _ _ H) as (_ & Hf & Hd).
  apply (rx_good_frame _ _ w0); [done | done |].
  unfold tcp_open in H. ok_inv H. injection H as <-. unfold rx_good. done.
Qed.

(** C2. Delivered data is the peer's stream.  For every sequence of events in
    which the packets for the connection carry pieces of the peer's stream [p]
    (reordered, repeated, overlapping or lost in any way, with any timers,
    allocation failures, discards and calls of the application in between),
    what the application has been given is a prefix of [p].  While the
    connection is up and its interface open, the acknowledgement number says
    exactly how much has been delivered, plus one for the SYN and one for the
    FIN once everything has been delivered. *)
Theorem tcp_delivers_prefix ok rnd rnd' mtu port local ports n w0 irs p evs :
  tcp_open ok rnd rnd' mtu port local ports n = Ok w0 -> in_range 32 irs ->
  run_genuine irs p evs (syn_sent w0) ->
  let w := tcp_run evs (syn_sent w0) in
  concat (delivered w) `prefix_of` p /\
  (listed (tcp w) = true -> rcvd_syn (tcp_state (tcp w)) = true ->
   has (tcp_flags (tcp w)) TCP_XFER_CLOSED = false ->
   exists fin : bool, rcv_ack (tcp w) = u32 (irs + 1 + zlen (concat (delivered w)) + Z.b2z fin) /\
     (fin = true -> concat (delivered w) = p)).
Proof.
  intros Ho Hi Hev w. destruct (run_rx (u32 rnd) irs p evs (syn_sent w0)) as [_ Hrx];
    [done | done | by eapply open_good | by eapply open_rx |]. fold w in Hrx.
  split; [by apply (rx_good_prefix irs) |]. intros Hl Hs Hx.
  destruct (rx_good_at _ _ _ Hrx Hl Hs) as (m & fin & [Hn Hfin Ht Ha _ (k & Hk & Hd & Hkm)] & _).
  rewrite Hkm in Hd by done. exists fin. rewrite Ha, Ht, Hd, length_take. split.
  - f_equal. lia.
  - intros Hf. rewrite (Hfin Hf). apply take_ge. lia.
Qed.

(** ** Progress *)

Lemma rx_ack_win now ack win c : rcv_win (tcp_rx_ack now ack win c).2 = rcv_win c.
Proof. unfold tcp_rx_ack, start_fin, set_state. by repeat case_match. Qed.

(** An established connection never answers with a reset. *)
Lemma established_ack seg w :
  TCP_HAS_BEEN_ESTABLISHED (tcp_state (tcp w)) = true ->
  (rx_handle_ack seg w).1 = None /\ rcv_win (tcp (rx_handle_ack seg w).2) = rcv_win (tcp w).
Proof.
  intros He. unfold rx_handle_ack. case_if; [done |]. set (win := u32 _).
  pose proof (rx_ack_win (now_of w) (seg_ack seg) win (tcp w)) as Hw.
  assert (Hn : (tcp_rx_ack (now_of w) (seg_ack seg) win (tcp w)).1 = None).
  { unfold tcp_rx_ack. rewrite He. by repeat case_if. }
  by destruct (tcp_rx_ack _ _ _ _) as [rc c'].
Qed.

Lemma established_rcvd st : TCP_HAS_BEEN_ESTABLISHED st = true -> rcvd_syn st = true.
Proof.
  intros He. apply Z.eqb_eq in He. unfold rcvd_syn, has.
  destruct (Z.eqb_spec (Z.land st (TCP_STATE_RCVD TCP_SYN)) 0) as [H0 |]; [| done].
  rewrite Z.land_lor_distr_r, H0, Z.lor_0_r in He.
  apply (f_equal (fun x => Z.testbit x 17)) in He. rewrite Z.land_spec in He.
  change (Z.testbit (TCP_STATE_ACKED TCP_SYN) 17) with false in He. by rewrite andb_false_r in He.
Qed.

Lemma process_rx_progress iss irs p n fin off seg w :
  est iss w -> rx_at irs p n fin w -> piece irs p (tcp w) seg off -> 0 < rcv_win (tcp w) ->
  off <= n + Z.b2z fin < off + zlen (seg_data seg) + Z.b2z (has (seg_flags seg) TCP_FIN) ->
  let w' := tcp_process_rx_queue
    (on_tcp (tcp_rx_enqueue (data_seq seg) (seg_flags seg) (seg_data seg)) w) in
  est iss w' /\ exists n' fin', rx_at irs p n' fin' w' /\
    off + zlen (seg_data seg) + Z.b2z (has (seg_flags seg) TCP_FIN) <= n' + Z.b2z fin'.
Proof.
  intros (Hg & Hl & Hs) [Hr Hq] Hp Hw Hoff w'. set (w1 := on_tcp _ w) in w'.
  pose proof (piece_entry _ _ _ _ _ Hp) as Hat. pose proof (piece_len _ _ _ _ _ Hp) as Hlen.
  assert (Hlo : n + Z.b2z fin - 2 ^ 17 <= off) by (destruct (has (seg_flags seg) TCP_FIN); cbn [Z.b2z] in *; lia).
  assert (He1 : est iss w1).
  { split; [by apply rx_enqueue_good |]. unfold w1. world_simpl. rewrite rx_enqueue_eq. by case_if. }
  split; [by apply rx_loop_est |].
  destruct (rx_loop_at iss irs p n fin (length (rx_queue (tcp w1))) w1)
    as (n' & fin' & Hr' & _ & Hq' & Hprog); [done | by apply rx_enqueue_core | | done |].
  { apply (rx_enqueue_at irs p n fin off _ _ _ _ (delivered w)); [done | done | lia | done]. }
  exists n', fin'. split; [done |].
  specialize (Hprog (enqueued (data_seq seg) (seg_flags seg) (seg_data seg)) (rx_queue (tcp w)) off).
  cbn [enqueued q_data q_flags] in Hprog. rewrite has_land_same in Hprog. apply Hprog; [| done | lia | done].
  apply (rx_enqueue_head irs p n fin off _ _ _ _ (delivered w)); [done.. | lia | lia | done].
Qed.

Lemma rx_segment_progress iss irs p n fin off seg w :
  good iss w -> listed (tcp w) = true -> TCP_HAS_BEEN_ESTABLISHED (tcp_state (tcp w)) = true ->
  in_range 32 (seg_ack seg) -> rx_at irs p n fin w -> piece irs p (tcp w) seg off -> 0 < rcv_win (tcp w) ->
  has (seg_flags seg) TCP_SYN = false -> has (seg_flags seg) TCP_RST = false ->
  off <= n + Z.b2z fin < off + zlen (seg_data seg) + Z.b2z (has (seg_flags seg) TCP_FIN) ->
  let w' := (tcp_rx_segment seg w).2 in
  est iss w' /\ exists n' fin', rx_at irs p n' fin' w' /\
    off + zlen (seg_data seg) + Z.b2z (has (seg_flags seg) TCP_FIN) <= n' + Z.b2z fin'.
Proof.
  intros Hg Hl He Hack Hrx Hp Hw Hsyn Hrst Hoff. cbn zeta. unfold tcp_rx_segment.
  pose proof (keeps_ts iss seg w Hg) as H0.
  set (w0 := match seg_ts seg with Some _ => _ | None => _ end) in *.
  assert (He0 : TCP_HAS_BEEN_ESTABLISHED (tcp_state (tcp w0)) = true /\ rcv_win (tcp w0) = rcv_win (tcp w)).
  { subst w0. by destruct (seg_ts seg). }
  assert (Hl0 : listed (tcp w0) = true) by (by rewrite (keeps_listed _ _ _ H0)).
  pose proof (keeps_handle_ack iss seg w0 (proj1 H0) Hl0 Hack) as H1.
  apply (keeps_trans _ _ _ _ H0) in H1. destruct He0 as [He0 Hw0].
  destruct (established_ack seg w0 He0) as [Hn Hw1]. rewrite Hw0 in Hw1. clearbody w0.
  destruct (rx_handle_ack seg w0) as [rc w1]. cbn [fst snd] in *. subst rc.
  set (w2 := if _ && _ then _ else _).
  assert (H2 : keeps iss w w2 /\ rcv_win (tcp w2) = rcv_win (tcp w)).
  { subst w2. case_if; [| done]. split; [| done]. eapply keeps_trans; [exact H1 |]. apply keeps_ack_pending, H1. }
  destruct H2 as [H2 Hw2]. clearbody w2. rewrite Hsyn, Hrst. cbn [snd].
  pose proof (established_rcvd _ He) as Hs.
  assert (He2 : est iss w2).
  { destruct H2 as (? & Hf & _). split_and!; [done | by rewrite (frame_listed _ _ Hf) |].
    by rewrite (frame_rcvd_syn _ _ Hf). }
  destruct (process_rx_progress iss irs p n fin off seg w2) as (He3 & n' & fin' & Hrx3 & Hend).
  { done. }
  { by apply (rx_at_frame _ _ _ _ w); [apply H2.. |]. }
  { by apply (piece_frame _ _ (tcp w)); [apply H2 |]. }
  { by rewrite Hw2. }
  { done. }
  unfold data_seq in He3, Hrx3. rewrite Hsyn in He3, Hrx3.
  set (w3 := on_tcp _ w2) in *.
  assert (Hpost : app_post iss (tcp_process_rx_queue w3) (rx_finish (seg_seq seg) (tcp_xfer_window (tcp w0)) w3)).
  { apply rx_finish_post, rx_enqueue_good, He2. }
  destruct (est_app_post iss _ _ He3 Hpost) as [He4 Hf4]. split; [done |]. exists n', fin'. split; [| done].
  apply (rx_at_frame _ _ _ _ (tcp_process_rx_queue w3)); [done | apply Hpost | done].
Qed.

(** C15. Data in sequence is delivered at once.  After any run as above, a
    segment for an established connection with an open receive window that
    covers the next byte (or the FIN) of the peer's stream is received in full:
    the acknowledgement number moves past its end, and while the interface is
    open its data has been handed to the application, whatever is waiting in the
    receive queue and whatever the allocator discards. *)
Theorem tcp_in_order_progress ok rnd rnd' mtu port local ports n w0 irs p evs pkt cs seg off :
  tcp_open ok rnd rnd' mtu port local ports n = Ok w0 -> in_range 32 irs ->
  run_genuine irs p evs (syn_sent w0) ->
  let w := tcp_run evs (syn_sent w0) in
  listed (tcp w) = true -> TCP_HAS_BEEN_ESTABLISHED (tcp_state (tcp w)) = true -> 0 < rcv_win (tcp w) ->
  Forall is_byte pkt -> tcp_parse pkt cs = Ok seg -> seg_dest seg = local_port (tcp w) ->
  piece irs p (tcp w) seg off ->
  has (seg_flags seg) TCP_SYN = false -> has (seg_flags seg) TCP_RST = false ->
  let start := irs + 1 + off in
  let stop := start + zlen (seg_data seg) + Z.b2z (has (seg_flags seg) TCP_FIN) in
  start <= rcv_total (tcp w) < stop ->
  let w' := tcp_step (EvRx pkt cs) w in
  listed (tcp w') = true /\ stop <= rcv_total (tcp w') /\ rcv_ack (tcp w') = u32 (rcv_total (tcp w')) /\
  (has (tcp_flags (tcp w')) TCP_XFER_CLOSED = false ->
   off + zlen (seg_data seg) <= zlen (concat (delivered w'))).
Proof.
  intros Ho Hi Hev w Hl He Hw Hb Hparse Hd Hp Hsyn Hrst start stop Hin w'.
  destruct (run_rx (u32 rnd) irs p evs (syn_sent w0)) as [Hg Hrx];
    [done | done | by eapply open_good | by eapply open_rx |]. fold w in Hg, Hrx.
  destruct (rx_good_at _ _ _ Hrx Hl (established_rcvd _ He)) as (m & fin & Hat).
  pose proof (rx_total _ _ _ _ _ _ (proj1 Hat)) as Ht. destruct (parse_ranges _ _ _ Hb Hparse) as (_ & Hack & _).
  destruct (rx_segment_progress (u32 rnd) irs p m fin off seg w) as ((_ & Hl' & _) & m' & fin' & [Hr' _] & Hend);
    [done.. | lia |].
  assert (Ew : w' = (tcp_rx_segment seg w).2).
  { unfold w'. cbn [tcp_step]. unfold tcp_rx. rewrite Hparse, Hl, Hd, Z.eqb_refl. cbn [andb].
    by destruct (tcp_rx_segment seg w). }
  rewrite Ew. destruct Hr' as [Hn' Hfe Ht' Ha' _ (k & Hk & Hdel & Hkm)].
  split_and!; [done | lia | done |]. intros Hx. rewrite Hdel, (Hkm Hx), length_take.
  pose proof (piece_end _ _ _ _ _ Hp). pose proof (piece_fin _ _ _ _ _ Hp).
  destruct (has (seg_flags seg) TCP_FIN), fin'; try specialize (Hfe eq_refl); cbn [Z.b2z] in *; lia.
Qed.

End with_env.

(** ** The concrete connection of [TcpStream] *)

#[local] Existing Instance x86_64_efi.
#[local] Existing Instance echo_env.

Lemma run_genuine_cons irs p ev evs w w' :
  event_genuine irs p ev w -> tcp_step ev w = w' -> run_genuine irs p evs w' ->
  run_genuine irs p (ev :: evs) w.
Proof. intros H <- H'. by split. Qed.

(** A packet of the peer at a known offset, and an event without a packet. *)
Ltac genuine_at off :=
  eapply run_genuine_cons;
  [split; [by apply (bool_decide_unpack _); vm_compute |];
   intros seg Hseg _; vm_compute in Hseg; injection Hseg as <-;
   right; exists off; split; vm_compute; done
  | vm_compute; reflexivity |].
Ltac genuine_empty :=
  eapply run_genuine_cons;
  [split; [by apply (bool_decide_unpack _); vm_compute |];
   intros seg Hseg _; vm_compute in Hseg; injection Hseg as <-; by left
  | vm_compute; reflexivity |].
Ltac genuine_local := eapply run_genuine_cons; [exact I | vm_compute; reflexivity |].

Lemma echo_genuine : run_genuine 0xffffffff [1; 2; 3; 4; 5] echo_events (syn_sent echo_w0).
Proof.
  enough (H : exists w, syn_sent echo_w0 = w /\ run_genuine 0xffffffff [1; 2; 3; 4; 5] echo_events w)
    by (destruct H as (w & <- & H); exact H).
  eexists. split; [vm_compute; reflexivity |]. unfold echo_events, from_peer.
  genuine_at 0. genuine_local. genuine_at 3. genuine_at 0. genuine_empty. genuine_local. genuine_local.
  genuine_at 5. genuine_local. exact I.
Qed.

Lemma tcp_delivers_prefix_witness :
  let w := tcp_run echo_events (syn_sent echo_w0) in
  concat (delivered w) `prefix_of` [1; 2; 3; 4; 5] /\ delivered w = [[1; 2; 3; 4]; [5]].
Proof.
  assert (Hi : in_range 32 0xffffffff) by done.
  pose proof (tcp_delivers_prefix true 0xfffffffe 7 1480 80 None [] 0 echo_w0 0xffffffff [1; 2; 3; 4; 5]
    echo_events echo_opens Hi echo_genuine) as [H _].
  split; [exact H | vm_compute; reflexivity].
Defined.

(** The third segment fills the gap before the one that waits in the queue. *)
Lemma tcp_in_order_progress_witness :
  let w := tcp_run (take 3 echo_events) (syn_sent echo_w0) in
  let w' := tcp_step (from_peer 0 0xffffffff 0x10 [1; 2; 3; 4]) w in
  delivered w = [] /\ 4 <= zlen (concat (delivered w')).
Proof.
  intros w w'. split; [vm_compute; reflexivity |].
  assert (Hi : in_range 32 0xffffffff) by done.
  assert (Hgen : run_genuine 0xffffffff [1; 2; 3; 4; 5] (take 3 echo_events) (syn_sent echo_w0)).
  { destruct echo_genuine as (? & ? & ? & _). cbn [take echo_events run_genuine]. split_and!; [assumption.. | exact I]. }
  set (seg := Segment 80 1025 0 0xffffffff 0x10 1000 None false None [1; 2; 3; 4]).
  assert (Hp : piece 0xffffffff [1; 2; 3; 4; 5] (tcp w) seg 0) by (split; vm_compute; done).
  pose proof (tcp_in_order_progress true 0xfffffffe 7 1480 80 None [] 0 echo_w0 0xffffffff [1; 2; 3; 4; 5]
    (take 3 echo_events) (tcp_packet 80 1025 0 0xffffffff 0x10 1000 [] [1; 2; 3; 4]) 0 seg 0 echo_opens Hi Hgen) as H.
  cbv zeta in H. fold w in H.
  assert (Hb : Forall is_byte (tcp_packet 80 1025 0 0xffffffff 0x10 1000 [] [1; 2; 3; 4])).
  { by apply (bool_decide_unpack _); vm_compute. }
  refine (proj2 (proj2 (proj2 (H _ _ _ Hb _ _ Hp _ _ _))) _); vm_compute; (reflexivity || split; congruence).
Defined.
