(* ===== verification/Bigint.v ===== *)
(** * Big integers ([crypto/bigint.c], [include/ipxe/bigint.h],
      [arch/x86/include/bits/bigint.h], [arch/x86/core/x86_bigint.c])

    A big integer is an array of 32-bit elements, least significant first.  The
    primitive operations are assembly loops that propagate the carry flag; they
    are translated instruction by instruction.  Modular multiplication and
    exponentiation are the C code above them.  A read or write outside an array
    is a [Trap]. *)

From Stdlib Require Import ZArith Lia Bool ZifyBool.
From stdpp Require Import base numbers list.
From S2P Require Import Prelude Bits.

Local Open Scope Z_scope.

(** ** Carrying instructions on 32-bit elements

    Each returns the result and the carry flag. *)

Definition adcl (a b cf : Z) : Z * Z := (u32 (a + b + cf), (a + b + cf) / 2 ^ 32).

Definition sbbl (a b cf : Z) : Z * Z := (u32 (a - b - cf), if a - b - cf <? 0 then 1 else 0).

(** [rcll $1] and [rcrl $1] rotate through the carry flag. *)
Definition rcll (a cf : Z) : Z * Z := (u32 (Z.shiftl a 1 + cf), Z.shiftr a 31).

Definition rcrl (a cf : Z) : Z * Z := (Z.shiftr a 1 + Z.shiftl cf 31, Z.land a 1).

(** ** Primitive operations *)

Definition bigint_required_size (len : Z) : Z := (len + 4 - 1) / 4.

(** Elements from the bytes of their memory, and back. *)
Fixpoint elements_of (b : bytes) : list Z :=
  match b with
  | b0 :: b1 :: b2 :: b3 :: b' => (b0 + 2 ^ 8 * b1 + 2 ^ 16 * b2 + 2 ^ 24 * b3) :: elements_of b'
  | _ => []
  end.

Definition bytes_of_elements (l : list Z) : bytes := l ≫= le32.

(** [data] is copied in reverse order and padded; with no data at all the loop
    counter would wrap. *)
Definition bigint_init_raw (size : nat) (data : bytes) : res (list Z) :=
  let pad_len := 4 * Z.of_nat size - zlen data in
  if (zlen data =? 0) || (pad_len <? 0) then Trap
  else Ok (elements_of (reverse data ++ replicate (Z.to_nat pad_len) 0)).

Definition bigint_done_raw (value : list Z) (len : Z) : res bytes :=
  if (len =? 0) || (4 * zlen value <? len) then Trap
  else Ok (reverse (take (Z.to_nat len) (bytes_of_elements value))).

Fixpoint add_loop (cf : Z) (addend value : list Z) : res (list Z) :=
  match addend, value with
  | [], [] => Ok []
  | a :: addend, v :: value =>
      let '(v', cf) := adcl v a cf in
      value ← add_loop cf addend value; Ok (v' :: value)
  | _, _ => Trap
  end.

Definition bigint_add_raw (addend value : list Z) : res (list Z) := add_loop 0 addend value.

Fixpoint subtract_loop (cf : Z) (subtrahend value : list Z) : res (list Z) :=
  match subtrahend, value with
  | [], [] => Ok []
  | a :: subtrahend, v :: value =>
      let '(v', cf) := sbbl v a cf in
      value ← subtract_loop cf subtrahend value; Ok (v' :: value)
  | _, _ => Trap
  end.

Definition bigint_subtract_raw (subtrahend value : list Z) : res (list Z) :=
  subtract_loop 0 subtrahend value.

Fixpoint rol_loop (cf : Z) (value : list Z) : list Z :=
  match value with
  | [] => []
  | v :: value => let '(v', cf) := rcll v cf in v' :: rol_loop cf value
  end.

Definition bigint_rol_raw (value : list Z) : list Z := rol_loop 0 value.

(** From the most significant element down: the carry into the lower part comes
    back as the second component. *)
Fixpoint ror_loop (value : list Z) : list Z * Z :=
  match value with
  | [] => ([], 0)
  | v :: value =>
      let '(value', cf) := ror_loop value in
      let '(v', cf) := rcrl v cf in (v' :: value', cf)
  end.

Definition bigint_ror_raw (value : list Z) : list Z := (ror_loop value).1.

(** [repe scasl]: ends at the first element that is not zero. *)
Fixpoint bigint_is_zero_raw (value : list Z) : bool :=
  match value with
  | [] => true
  | v :: value => if v =? 0 then bigint_is_zero_raw value else false
  end.

(** From the most significant element down, until the elements differ. *)
Fixpoint geq_loop (value reference : list Z) : res bool :=
  match value, reference with
  | [v], [r] => Ok (r <=? v)
  | v :: value, r :: reference => if v =? r then geq_loop value reference else Ok (r <=? v)
  | _, _ => Trap
  end.

Definition bigint_is_geq_raw (value reference : list Z) : res bool :=
  geq_loop (reverse value) (reverse reference).

Definition bigint_bit_is_set_raw (value : list Z) (bit : Z) : res bool :=
  let index := bit / 32 in
  let subindex := bit mod 32 in
  e ← of_option (value !! Z.to_nat index); Ok (Z.testbit e subindex).

(** [bsrl] of the elements from the most significant down; [n] is the index of
    the element plus one. *)
Fixpoint max_set_bit_loop (value : list Z) (n : Z) : Z :=
  match value with
  | [] => 0
  | v :: value => if v =? 0 then max_set_bit_loop value (n - 1) else 1 + Z.log2 v + 8 * (4 * (n - 1))
  end.

Definition bigint_max_set_bit_raw (value : list Z) : Z := max_set_bit_loop (reverse value) (zlen value).

Definition bigint_grow_raw (source : list Z) (dest_size : nat) : list Z :=
  source ++ replicate (dest_size - length source) 0.

Definition bigint_shrink_raw (source : list Z) (dest_size : nat) : res (list Z) :=
  if (length source <? dest_size)%nat then Trap else Ok (take dest_size source).

(** ** Multiplication

    The carry loop runs at least once, so that it reads and rewrites the
    element after the two that receive the product: [mem] is the memory from
    the start of the result on, with whatever follows it. *)

Fixpoint carry_loop (cf : Z) (mem : list Z) : res (list Z) :=
  match mem with
  | [] => Trap
  | v :: mem =>
      let '(v', cf) := adcl v 0 cf in
      if cf =? 0 then Ok (v' :: mem) else mem ← carry_loop cf mem; Ok (v' :: mem)
  end.

(** [mull], [addl], [adcl] and the carry loop at element [k]. *)
Fixpoint mul_add (k : nat) (x y : Z) (mem : list Z) : res (list Z) :=
  match k, mem with
  | O, lo :: hi :: mem =>
      let product := x * y in
      let '(lo', cf) := adcl lo (u32 product) 0 in
      let '(hi', cf) := adcl hi (product / 2 ^ 32) cf in
      mem ← carry_loop cf mem; Ok (lo' :: hi' :: mem)
  | S k, v :: mem => mem ← mul_add k x y mem; Ok (v :: mem)
  | _, _ => Trap
  end.

Fixpoint mul_row (k : nat) (x : Z) (multiplier : list Z) (mem : list Z) : res (list Z) :=
  match multiplier with
  | [] => Ok mem
  | y :: multiplier => mem ← mul_add k x y mem; mul_row (S k) x multiplier mem
  end.

Fixpoint mul_rows (k : nat) (multiplicand multiplier : list Z) (mem : list Z) : res (list Z) :=
  match multiplicand with
  | [] => Ok mem
  | x :: multiplicand =>
      mem ← mul_row k x multiplier mem; mul_rows (S k) multiplicand multiplier mem
  end.

(** [size] elements each, and [2 * size] elements of result. *)
Definition bigint_multiply_raw (multiplicand multiplier : list Z) (size : nat) (mem : list Z) : res (list Z) :=
  if (length mem <? 2 * size)%nat then Trap
  else mul_rows 0 (take size multiplicand) (take size multiplier)
         (replicate (2 * size) 0 ++ drop (2 * size) mem).

(** ** Modular multiplication and exponentiation

    [tmp] is the working space, the result and the scaled modulus of
    [2 * size] elements each. *)

Fixpoint rescale_loop (rotation : nat) (modulus : list Z) : list Z :=
  match rotation with
  | O => modulus
  | S rotation => rescale_loop rotation (bigint_rol_raw modulus)
  end.

Fixpoint reduce_loop (n : nat) (result modulus : list Z) : res (list Z * list Z) :=
  match n with
  | O => Ok (result, modulus)
  | S n =>
      geq ← bigint_is_geq_raw result modulus;
      result ← (if (geq : bool) then bigint_subtract_raw modulus result else Ok result);
      reduce_loop n result (bigint_ror_raw modulus)
  end.

Definition bigint_mod_multiply_raw (multiplicand multiplier modulus : list Z) (size : nat) (tmp : list Z)
    : res (list Z * list Z) :=
  mem ← bigint_multiply_raw multiplicand multiplier size tmp;
  let temp_result := take (2 * size) mem in
  let temp_modulus := bigint_grow_raw (take size modulus) (2 * size) in
  let rotation := bigint_max_set_bit_raw temp_result - bigint_max_set_bit_raw temp_modulus in
  let temp_modulus := rescale_loop (Z.to_nat rotation) temp_modulus in
  '(temp_result, temp_modulus) ← reduce_loop (Z.to_nat (rotation + 1)) temp_result temp_modulus;
  result ← bigint_shrink_raw temp_result size;
  Ok (result, temp_result ++ temp_modulus).

Fixpoint mod_exp_loop (fuel : nat) (modulus : list Z) (size : nat) (result base exponent tmp : list Z)
    : res (list Z) :=
  match fuel with
  | O => Trap
  | S fuel =>
      if bigint_is_zero_raw exponent then Ok result
      else
        set ← bigint_bit_is_set_raw exponent 0;
        '(result, tmp) ← (if (set : bool) then bigint_mod_multiply_raw result base modulus size tmp
                          else Ok (result, tmp));
        let exponent := bigint_ror_raw exponent in
        '(base, tmp) ← bigint_mod_multiply_raw base base modulus size tmp;
        mod_exp_loop fuel modulus size result base exponent tmp
  end.

(** Every iteration halves the exponent, so its number of bits is enough. *)
Definition bigint_mod_exp_raw (base modulus exponent : list Z) (size : nat) (tmp : list Z) : res (list Z) :=
  result ← bigint_init_raw size [1];
  mod_exp_loop (S (32 * length exponent)) modulus size result base exponent tmp.

(** ** The value of a big integer *)

Definition bigint_value (l : list Z) : Z := foldr (fun e acc => e + 2 ^ 32 * acc) 0 l.

(** An array of [n] elements. *)
Definition bigint (n : nat) (l : list Z) : Prop := length l = n /\ Forall (in_range 32) l.

Abbreviation radix n := (2 ^ (32 * Z.of_nat n)).

Lemma radix_S n : radix (S n) = 2 ^ 32 * radix n.
Proof. rewrite <- Z.pow_add_r by lia. f_equal. lia. Qed.

Lemma radix_pos n : 0 < radix n.
Proof. apply Z.pow_pos_nonneg; lia. Qed.

Lemma radix_add n k : radix (n + k) = radix n * radix k.
Proof. rewrite <- Z.pow_add_r by lia. f_equal. lia. Qed.

Lemma bigint_nil l : bigint 0 l -> l = [].
Proof. intros [H _]. by apply nil_length_inv. Qed.

Lemma bigint_cons_inv n l : bigint (S n) l -> exists e l', l = e :: l' /\ in_range 32 e /\ bigint n l'.
Proof.
  intros [Hl Hf]. destruct l as [| e l]; [done |]. apply Forall_cons in Hf as [? ?].
  exists e, l. split_and!; [done.. |]. cbn in Hl. split; [lia | done].
Qed.

Lemma bigint_cons n e l : in_range 32 e -> bigint n l -> bigint (S n) (e :: l).
Proof. intros ? [<- ?]. split; [done | by constructor]. Qed.

Lemma bigint_app n k l1 l2 : bigint n l1 -> bigint k l2 -> bigint (n + k) (l1 ++ l2).
Proof. intros [<- ?] [<- ?]. split; [apply length_app | by apply Forall_app]. Qed.

Lemma bigint_take n k l : bigint n l -> (k <= n)%nat -> bigint k (take k l).
Proof. intros [<- ?] ?. split; [rewrite length_take; lia | by apply Forall_take]. Qed.

Lemma bigint_zeros n : bigint n (replicate n 0).
Proof. split; [apply length_replicate | by apply Forall_replicate]. Qed.

Lemma value_zeros n : bigint_value (replicate n 0) = 0.
Proof. induction n as [| n IH]; [done |]. cbn [replicate bigint_value foldr]. unfold bigint_value in IH. rewrite IH. lia. Qed.

Lemma value_app l1 l2 : bigint_value (l1 ++ l2) = bigint_value l1 + radix (length l1) * bigint_value l2.
Proof.
  unfold bigint_value. induction l1 as [| e l1 IH]; [cbn [app foldr length]; lia |].
  cbn [app foldr length]. rewrite IH, radix_S. lia.
Qed.

Lemma value_range n l : bigint n l -> 0 <= bigint_value l < radix n.
Proof.
  revert l. induction n as [| n IH]; intros l Hl.
  - apply bigint_nil in Hl as ->. cbn. lia.
  - apply bigint_cons_inv in Hl as (e & l' & -> & He & Hl'). cbn [bigint_value foldr].
    specialize (IH l' Hl'). unfold bigint_value, in_range in *. rewrite radix_S. lia.
Qed.

(** Adding an element at the bottom commutes with reduction. *)
Lemma mod_low n e x : 0 <= e < 2 ^ 32 -> (e + 2 ^ 32 * x) mod radix (S n) = e + 2 ^ 32 * (x mod radix n).
Proof.
  intros He. rewrite radix_S. pose proof (radix_pos n).
  symmetry. apply (Z.mod_unique_pos _ _ (x / radix n)).
  - pose proof (Z.mod_pos_bound x (radix n)). nia.
  - rewrite (Z.div_mod x (radix n)) at 1 by lia. lia.
Qed.

Lemma adcl_spec a b cf :
  in_range 32 a -> in_range 32 b -> 0 <= cf <= 1 ->
  let '(r, cf') := adcl a b cf in in_range 32 r /\ 0 <= cf' <= 1 /\ a + b + cf = r + 2 ^ 32 * cf'.
Proof.
  intros Ha Hb Hc. unfold adcl. split; [by apply wrap_range |]. unfold in_range in *.
  pose proof (Z.div_mod (a + b + cf) (2 ^ 32)). unfold wrap. split; [| lia].
  split; [apply Z.div_pos; lia |]. apply Z.lt_succ_r. apply Z.div_lt_upper_bound; lia.
Qed.

Lemma sbbl_spec a b cf :
  in_range 32 a -> in_range 32 b -> 0 <= cf <= 1 ->
  let '(r, cf') := sbbl a b cf in in_range 32 r /\ 0 <= cf' <= 1 /\ a - b - cf = r - 2 ^ 32 * cf'.
Proof. intros Ha Hb Hc. unfold sbbl. case_if; wrap_lia. Qed.

(** Addition and subtraction modulo the size of the integer. *)
Lemma add_loop_spec n cf a v :
  bigint n a -> bigint n v -> 0 <= cf <= 1 ->
  exists r, add_loop cf a v = Ok r /\ bigint n r /\
    bigint_value r = (bigint_value v + bigint_value a + cf) mod radix n.
Proof.
  revert cf a v. induction n as [| n IH]; intros cf a v Ha Hv Hc.
  - apply bigint_nil in Ha as ->. apply bigint_nil in Hv as ->. exists [].
    split_and!; [done | done |]. by rewrite Z.mod_1_r.
  - apply bigint_cons_inv in Ha as (x & a' & -> & Hx & Ha). apply bigint_cons_inv in Hv as (y & v' & -> & Hy & Hv).
    cbn [add_loop]. pose proof (adcl_spec y x cf Hy Hx Hc) as Hs. destruct (adcl y x cf) as [r cf'].
    destruct Hs as (Hr & Hc' & Hs). destruct (IH cf' a' v' Ha Hv Hc') as (l & -> & Hl & Hval).
    exists (r :: l). split_and!; [done | by apply bigint_cons |]. cbn [bigint_value foldr].
    change (foldr _ 0 ?l) with (bigint_value l). rewrite Hval, <- mod_low by done. f_equal. lia.
Qed.

Lemma subtract_loop_spec n cf a v :
  bigint n a -> bigint n v -> 0 <= cf <= 1 ->
  exists r, subtract_loop cf a v = Ok r /\ bigint n r /\
    bigint_value r = (bigint_value v - bigint_value a - cf) mod radix n.
Proof.
  revert cf a v. induction n as [| n IH]; intros cf a v Ha Hv Hc.
  - apply bigint_nil in Ha as ->. apply bigint_nil in Hv as ->. exists [].
    split_and!; [done | done |]. by rewrite Z.mod_1_r.
  - apply bigint_cons_inv in Ha as (x & a' & -> & Hx & Ha). apply bigint_cons_inv in Hv as (y & v' & -> & Hy & Hv).
    cbn [subtract_loop]. pose proof (sbbl_spec y x cf Hy Hx Hc) as Hs. destruct (sbbl y x cf) as [r cf'].
    destruct Hs as (Hr & Hc' & Hs). destruct (IH cf' a' v' Ha Hv Hc') as (l & -> & Hl & Hval).
    exists (r :: l). split_and!; [done | by apply bigint_cons |]. cbn [bigint_value foldr].
    change (foldr _ 0 ?l) with (bigint_value l). rewrite Hval, <- mod_low by done. f_equal. lia.
Qed.

Lemma rol_loop_spec n cf v :
  bigint n v -> 0 <= cf <= 1 ->
  bigint n (rol_loop cf v) /\ bigint_value (rol_loop cf v) = (2 * bigint_value v + cf) mod radix n.
Proof.
  revert cf v. induction n as [| n IH]; intros cf v Hv Hc.
  - apply bigint_nil in Hv as ->. split; [done |]. by rewrite Z.mod_1_r.
  - apply bigint_cons_inv in Hv as (y & v' & -> & Hy & Hv). cbn [rol_loop]. unfold rcll.
    assert (Hs : 2 * y + cf = u32 (Z.shiftl y 1 + cf) + 2 ^ 32 * Z.shiftr y 31 /\ 0 <= Z.shiftr y 31 <= 1).
    { rewrite Z.shiftl_mul_pow2, Z.shiftr_div_pow2 by lia. wrap_lia. }
    destruct Hs as [Hs Hc']. destruct (IH (Z.shiftr y 31) v' Hv Hc') as [Hl Hval].
    split; [apply bigint_cons; [by apply wrap_range | done] |]. cbn [bigint_value foldr].
    change (foldr _ 0 ?l) with (bigint_value l). rewrite Hval, <- mod_low by (by apply (wrap_range 32)).
    f_equal. lia.
Qed.

Lemma ror_loop_spec n v :
  bigint n v -> bigint n (ror_loop v).1 /\
    bigint_value v = 2 * bigint_value (ror_loop v).1 + (ror_loop v).2 /\ 0 <= (ror_loop v).2 <= 1.
Proof.
  revert v. induction n as [| n IH]; intros v Hv.
  - apply bigint_nil in Hv as ->. cbn. split; [done | lia].
  - apply bigint_cons_inv in Hv as (y & v' & -> & Hy & Hv). cbn [ror_loop].
    destruct (IH v' Hv) as (Hl & Hval & Hc). destruct (ror_loop v') as [l cf]. cbn [fst snd] in *.
    unfold rcrl. cbn [fst snd]. change (Z.land y 1) with (Z.land y (2 ^ 1 - 1)).
    rewrite land_mask, Z.shiftr_div_pow2, Z.shiftl_mul_pow2 by lia. unfold in_range in Hy. pow2_consts.
    split_and!; [| | Z.div_mod_to_equations; lia..].
    + apply bigint_cons; [unfold in_range; pow2_consts; Z.div_mod_to_equations; lia | done].
    + cbn [bigint_value foldr]. change (foldr _ 0 ?l) with (bigint_value l). pow2_consts.
      Z.div_mod_to_equations; lia.
Qed.

Lemma bigint_ror_spec n v :
  bigint n v -> bigint n (bigint_ror_raw v) /\ bigint_value (bigint_ror_raw v) = bigint_value v / 2.
Proof.
  intros Hv. destruct (ror_loop_spec n v Hv) as (? & ? & ?). unfold bigint_ror_raw. split; [done |].
  apply (Z.div_unique_pos _ _ _ (ror_loop v).2); lia.
Qed.

Lemma bigint_is_zero_spec n v : bigint n v -> bigint_is_zero_raw v = (bigint_value v =? 0).
Proof.
  revert v. induction n as [| n IH]; intros v Hv.
  - by apply bigint_nil in Hv as ->.
  - apply bigint_cons_inv in Hv as (y & v' & -> & Hy & Hv). cbn [bigint_is_zero_raw bigint_value foldr].
    change (foldr _ 0 ?l) with (bigint_value l). pose proof (value_range _ _ Hv). unfold in_range in Hy.
    rewrite (IH v' Hv). case_if; lia.
Qed.

(** ** Comparison and size *)

Lemma bigint_reverse n l : bigint n l -> bigint n (reverse l).
Proof. intros [<- Hf]. split; [apply length_reverse | by apply Forall_reverse]. Qed.

Lemma value_reverse_cons x l :
  bigint_value (reverse (x :: l)) = bigint_value (reverse l) + radix (length l) * x.
Proof.
  rewrite reverse_cons, value_app, length_reverse. cbn [bigint_value foldr]. lia.
Qed.

Lemma geq_loop_spec n v r :
  bigint (S n) v -> bigint (S n) r ->
  geq_loop v r = Ok (bigint_value (reverse r) <=? bigint_value (reverse v)).
Proof.
  revert v r. induction n as [| n IH]; intros v r Hv Hr.
  all: apply bigint_cons_inv in Hv as (x & v' & -> & Hx & Hv).
  all: apply bigint_cons_inv in Hr as (y & r' & -> & Hy & Hr).
  all: rewrite !value_reverse_cons.
  - apply bigint_nil in Hv as ->. apply bigint_nil in Hr as ->. cbn [geq_loop]. f_equal. cbn. lia.
  - pose proof (value_range _ _ (bigint_reverse _ _ Hv)) as Bv.
    pose proof (value_range _ _ (bigint_reverse _ _ Hr)) as Br.
    pose proof (proj1 Hv) as Lv. pose proof (proj1 Hr) as Lr. rewrite Lv, Lr.
    assert (E : geq_loop (x :: v') (y :: r') = if x =? y then geq_loop v' r' else Ok (y <=? x)).
    { destruct v'; [done |]. by destruct r'. }
    rewrite E. destruct (Z.eqb_spec x y) as [-> | Hne].
    + rewrite (IH v' r' Hv Hr). f_equal. lia.
    + f_equal. pose proof (radix_pos (S n)). unfold in_range in *.
      destruct (Z.leb_spec y x), (Z.leb_spec (bigint_value (reverse r') + radix (S n) * y)
        (bigint_value (reverse v') + radix (S n) * x)); try done; nia.
Qed.

Lemma bigint_is_geq_spec n v r :
  bigint (S n) v -> bigint (S n) r ->
  bigint_is_geq_raw v r = Ok (bigint_value r <=? bigint_value v).
Proof.
  intros Hv Hr. unfold bigint_is_geq_raw.
  rewrite (geq_loop_spec n) by (by apply bigint_reverse). by rewrite !reverse_involutive.
Qed.

(** Number of significant bits. *)
Definition bits (v : Z) : Z := if v =? 0 then 0 else 1 + Z.log2 v.

Lemma bits_bound v : 0 <= v -> v < 2 ^ bits v /\ (v <> 0 -> 2 ^ (bits v - 1) <= v).
Proof.
  intros Hv. unfold bits. destruct (Z.eqb_spec v 0) as [-> | Hne]; [done |].
  replace (1 + Z.log2 v - 1) with (Z.log2 v) by lia. rewrite (Z.add_comm 1).
  pose proof (Z.log2_spec v). lia.
Qed.

Lemma bits_nonneg v : 0 <= bits v.
Proof. unfold bits. pose proof (Z.log2_nonneg v). case_if; lia. Qed.

Lemma bits_lt v w : 0 <= v -> 0 <= w -> bits v < bits w -> v < w.
Proof.
  intros Hv Hw Hlt. destruct (bits_bound v Hv) as [Hv1 _]. destruct (bits_bound w Hw) as [_ Hw1].
  assert (w <> 0) by (intros ->; cbn in Hlt; pose proof (bits_nonneg v); lia).
  specialize (Hw1 H). assert (2 ^ bits v <= 2 ^ (bits w - 1)); [| lia].
  apply Z.pow_le_mono_r; lia.
Qed.

Lemma max_set_bit_loop_spec n l :
  bigint n l -> max_set_bit_loop l (Z.of_nat n) = bits (bigint_value (reverse l)).
Proof.
  revert l. induction n as [| n IH]; intros l Hl.
  - by apply bigint_nil in Hl as ->.
  - apply bigint_cons_inv in Hl as (x & l' & -> & Hx & Hl). cbn [max_set_bit_loop].
    rewrite value_reverse_cons, (proj1 Hl). pose proof (value_range _ _ (bigint_reverse _ _ Hl)) as Hr.
    replace (Z.of_nat (S n) - 1) with (Z.of_nat n) by lia. destruct (Z.eqb_spec x 0) as [-> | Hne].
    { rewrite (IH l' Hl), Z.mul_0_r, Z.add_0_r. done. }
    unfold bits, in_range in *. pose proof (radix_pos n).
    rewrite (proj2 (Z.eqb_neq _ 0)) by nia.
    enough (Z.log2 (bigint_value (reverse l') + radix n * x) = Z.log2 x + 32 * Z.of_nat n) by lia.
    pose proof (Z.log2_spec x). apply Z.log2_unique; [pose proof (Z.log2_nonneg x); lia |].
    rewrite <- Z.add_succ_l, !Z.pow_add_r by (pose proof (Z.log2_nonneg x); lia). nia.
Qed.

Lemma bigint_max_set_bit_spec n l : bigint n l -> bigint_max_set_bit_raw l = bits (bigint_value l).
Proof.
  intros Hl. unfold bigint_max_set_bit_raw. rewrite (proj1 Hl).
  rewrite max_set_bit_loop_spec by (by apply bigint_reverse). by rewrite reverse_involutive.
Qed.

Lemma bigint_grow_spec n k l :
  bigint n l -> (n <= k)%nat ->
  bigint k (bigint_grow_raw l k) /\ bigint_value (bigint_grow_raw l k) = bigint_value l.
Proof.
  intros Hl Hk. unfold bigint_grow_raw. rewrite (proj1 Hl), value_app, value_zeros. split; [| lia].
  replace k with (n + (k - n))%nat at 1 by lia. apply bigint_app; [done | apply bigint_zeros].
Qed.

Lemma bigint_shrink_spec n k l :
  bigint n l -> (k <= n)%nat -> bigint_value l < radix k ->
  exists r, bigint_shrink_raw l k = Ok r /\ bigint k r /\ bigint_value r = bigint_value l.
Proof.
  intros Hl Hk Hv. unfold bigint_shrink_raw. rewrite (proj1 Hl), (proj2 (Nat.ltb_ge _ _)) by done.
  eexists. split; [done |]. split; [by apply (bigint_take n) |].
  assert (Ht : bigint k (take k l)) by (by apply (bigint_take n)).
  assert (Ev : bigint_value l = bigint_value (take k l) + radix k * bigint_value (drop k l)).
  { rewrite <- (take_drop k l) at 1. by rewrite value_app, (proj1 Ht). }
  assert (Hd : bigint (n - k) (drop k l)).
  { destruct Hl as [<- Hf]. split; [by rewrite length_drop | by apply Forall_drop]. }
  pose proof (value_range _ _ Ht). pose proof (value_range _ _ Hd). pose proof (radix_pos k).
  assert (bigint_value (drop k l) = 0) by nia. lia.
Qed.

Lemma bigint_bit0_spec n v :
  bigint (S n) v -> bigint_bit_is_set_raw v 0 = Ok (Z.odd (bigint_value v)).
Proof.
  intros Hv. apply bigint_cons_inv in Hv as (e & l & -> & _ & _). 
  transitivity (@Ok bool (Z.testbit e 0)); [reflexivity |]. cbn [bigint_value foldr].
  f_equal. rewrite Z.bit0_odd, Z.odd_add, Z.odd_mul. by rewrite xorb_false_r.
Qed.

(** ** Multiplication *)

Lemma value_cons e l : bigint_value (e :: l) = e + 2 ^ 32 * bigint_value l.
Proof. done. Qed.

(** The carry never leaves the result; the element after it is rewritten
    unchanged. *)
Lemma carry_loop_spec n cf l r rest :
  bigint n l -> in_range 32 r -> 0 <= cf <= 1 -> bigint_value l + cf < radix n ->
  exists l', carry_loop cf (l ++ r :: rest) = Ok (l' ++ r :: rest) /\ bigint n l' /\
    bigint_value l' = bigint_value l + cf.
Proof.
  revert cf l. induction n as [| n IH]; intros cf l Hl Hr Hc Hlt.
  - apply bigint_nil in Hl as ->. exists []. assert (cf = 0) as -> by (cbn in Hlt; lia).
    split_and!; [| done | done]. cbn [app carry_loop]. unfold adcl. rewrite !Z.add_0_r, wrap_small by done.
    rewrite Z.div_small by done. done.
  - apply bigint_cons_inv in Hl as (e & l' & -> & He & Hl). cbn [app carry_loop]. rewrite value_cons in *.
    pose proof (adcl_spec e 0 cf He ltac:(done) Hc) as Hs. destruct (adcl e 0 cf) as [e' cf'].
    destruct Hs as (He' & Hc' & Hs). rewrite radix_S in Hlt. unfold in_range in He, He'.
    destruct (Z.eqb_spec cf' 0) as [-> | Hne].
    { exists (e' :: l'). split_and!; [done | by apply bigint_cons |]. rewrite value_cons. lia. }
    assert (cf' = 1) as -> by lia.
    destruct (IH 1 l' Hl Hr) as (l2 & -> & Hl2 & Hval); [lia | lia |].
    exists (e' :: l2). split_and!; [done | by apply bigint_cons |]. rewrite value_cons. lia.
Qed.

Lemma mul_add_spec n k x y l r rest :
  bigint n l -> in_range 32 r -> in_range 32 x -> in_range 32 y -> (k + 2 <= n)%nat ->
  bigint_value l + radix k * (x * y) < radix n ->
  exists l', mul_add k x y (l ++ r :: rest) = Ok (l' ++ r :: rest) /\ bigint n l' /\
    bigint_value l' = bigint_value l + radix k * (x * y).
Proof.
  revert n l. induction k as [| k IH]; intros n l Hl Hr Hx Hy Hk Hlt.
  - destruct n as [| [| n]]; [lia.. |]. apply bigint_cons_inv in Hl as (lo & l1 & -> & Hlo & Hl).
    apply bigint_cons_inv in Hl as (hi & l2 & -> & Hhi & Hl). rewrite !value_cons in *. cbn [app mul_add].
    assert (Hp : in_range 32 (x * y / 2 ^ 32)).
    { unfold in_range in *. split; [apply Z.div_pos; nia | apply Z.div_lt_upper_bound; nia]. }
    pose proof (adcl_spec lo (u32 (x * y)) 0 Hlo ltac:(by apply wrap_range) ltac:(lia)) as H1.
    destruct (adcl lo (u32 (x * y)) 0) as [lo' c1]. destruct H1 as (Hlo' & Hc1 & H1).
    pose proof (adcl_spec hi (x * y / 2 ^ 32) c1 Hhi Hp Hc1) as H2.
    destruct (adcl hi (x * y / 2 ^ 32) c1) as [hi' c2]. destruct H2 as (Hhi' & Hc2 & H2).
    assert (Hprod : x * y = u32 (x * y) + 2 ^ 32 * (x * y / 2 ^ 32)).
    { unfold wrap. pose proof (Z.div_mod (x * y) (2 ^ 32)). lia. }
    rewrite !radix_S in Hlt. change (radix 0) with 1 in *. unfold in_range in *.
    destruct (carry_loop_spec n c2 l2 r rest) as (l3 & -> & Hl3 & Hval); [done | done | done | nia |].
    exists (lo' :: hi' :: l3). split_and!; [done | by do 2 (apply bigint_cons; [done |]) |].
    rewrite !value_cons. lia.
  - destruct n as [| n]; [lia |]. apply bigint_cons_inv in Hl as (e & l1 & -> & He & Hl).
    rewrite !value_cons, !radix_S in *. cbn [app mul_add]. unfold in_range in He.
    destruct (IH n l1 Hl Hr Hx Hy) as (l2 & -> & Hl2 & Hval); [lia | lia |].
    exists (e :: l2). split_and!; [done | by apply bigint_cons |]. rewrite value_cons. lia.
Qed.

Lemma mul_row_spec n k x m ys l r rest :
  bigint n l -> in_range 32 r -> in_range 32 x -> bigint m ys -> (k + m < n)%nat ->
  bigint_value l + radix k * (x * bigint_value ys) < radix n ->
  exists l', mul_row k x ys (l ++ r :: rest) = Ok (l' ++ r :: rest) /\ bigint n l' /\
    bigint_value l' = bigint_value l + radix k * (x * bigint_value ys).
Proof.
  revert k ys l. induction m as [| m IH]; intros k ys l Hl Hr Hx Hys Hk Hlt.
  - apply bigint_nil in Hys as ->. exists l. split_and!; [done | done |]. cbn. lia.
  - apply bigint_cons_inv in Hys as (y & ys' & -> & Hy & Hys). rewrite value_cons in *. cbn [mul_row].
    pose proof (value_range _ _ Hys) as Hv. pose proof (radix_pos k) as Hrk.
    assert (Hnn : 0 <= radix k * (x * (2 ^ 32 * bigint_value ys'))) by (unfold in_range in *; nia).
    destruct (mul_add_spec n k x y l r rest) as (l1 & -> & Hl1 & Hval1); [done | done | done | done | lia | lia |].
    destruct (IH (S k) ys' l1 Hl1 Hr Hx Hys) as (l2 & Hm & Hl2 & Hval2); [lia | rewrite radix_S; lia |].
    cbn [mbind res_bind]. rewrite Hm. exists l2. split_and!; [done | done |]. rewrite radix_S in Hval2. lia.
Qed.

Lemma mul_rows_spec n k a m xs ys l r rest :
  bigint n l -> in_range 32 r -> bigint a xs -> bigint m ys -> (k + a + m <= n)%nat ->
  bigint_value l + radix k * (bigint_value xs * bigint_value ys) < radix n ->
  exists l', mul_rows k xs ys (l ++ r :: rest) = Ok (l' ++ r :: rest) /\ bigint n l' /\
    bigint_value l' = bigint_value l + radix k * (bigint_value xs * bigint_value ys).
Proof.
  revert k xs l. induction a as [| a IH]; intros k xs l Hl Hr Hxs Hys Hk Hlt.
  - apply bigint_nil in Hxs as ->. exists l. split_and!; [done | done |]. cbn. lia.
  - apply bigint_cons_inv in Hxs as (x & xs' & -> & Hx & Hxs). rewrite value_cons in *. cbn [mul_rows].
    pose proof (value_range _ _ Hxs) as Hv. pose proof (value_range _ _ Hys) as Hvy. pose proof (radix_pos k) as Hrk.
    assert (Hnn : 0 <= radix k * (2 ^ 32 * bigint_value xs' * bigint_value ys)) by nia.
    destruct (mul_row_spec n k x m ys l r rest) as (l1 & -> & Hl1 & Hval1); [done | done | done | done | lia | lia |].
    destruct (IH (S k) xs' l1 Hl1 Hr Hxs Hys) as (l2 & Hm & Hl2 & Hval2); [lia | rewrite radix_S; lia |].
    cbn [mbind res_bind]. rewrite Hm. exists l2. split_and!; [done | done |]. rewrite radix_S in Hval2. lia.
Qed.

Lemma bigint_multiply_spec size a b mem :
  bigint size a -> bigint size b -> Forall (in_range 32) mem -> (2 * size < length mem)%nat ->
  exists r, bigint_multiply_raw a b size mem = Ok (r ++ drop (2 * size) mem) /\ bigint (2 * size) r /\
    bigint_value r = bigint_value a * bigint_value b.
Proof.
  intros Ha Hb Hm Hlen. unfold bigint_multiply_raw. rewrite (proj2 (Nat.ltb_ge _ _)) by lia.
  rewrite !take_ge by (rewrite ?(proj1 Ha), ?(proj1 Hb); lia).
  destruct (drop (2 * size) mem) as [| r rest] eqn:Ed.
  { apply (f_equal length) in Ed. rewrite length_drop in Ed. cbn in Ed. lia. }
  assert (Hr : in_range 32 r).
  { apply (Forall_drop _ (2 * size)) in Hm. rewrite Ed in Hm. by apply Forall_cons in Hm as [? _]. }
  pose proof (value_range _ _ Ha). pose proof (value_range _ _ Hb).
  destruct (mul_rows_spec (2 * size) 0 size size a b (replicate (2 * size) 0) r rest)
    as (l & El & Hl & Hval); [apply bigint_zeros | done | done | done | lia | |].
  { rewrite value_zeros. replace (2 * size)%nat with (size + size)%nat by lia. rewrite radix_add.
    change (radix 0) with 1. nia. }
  exists l. split_and!; [done | done |]. rewrite Hval, value_zeros. change (radix 0) with 1. lia.
Qed.

(** ** Modular multiplication *)

Lemma rescale_loop_spec n k m :
  bigint n m -> bigint_value m * 2 ^ Z.of_nat k < radix n ->
  bigint n (rescale_loop k m) /\ bigint_value (rescale_loop k m) = bigint_value m * 2 ^ Z.of_nat k.
Proof.
  revert m. induction k as [| k IH]; intros m Hm Hlt; [cbn [rescale_loop]; split; [done | lia] |].
  cbn [rescale_loop]. rewrite Nat2Z.inj_succ, Z.pow_succ_r in * by lia.
  destruct (rol_loop_spec n 0 m Hm ltac:(lia)) as [Hm' Hval]. fold (bigint_rol_raw m) in *.
  pose proof (value_range _ _ Hm) as Hr. pose proof (pow2_pos (Z.of_nat k)).
  rewrite Z.mod_small in Hval by nia.
  destruct (IH (bigint_rol_raw m) Hm') as [? ->]; [lia |]. split; [done | lia].
Qed.

(** With [k + 1] iterations left the working modulus is [2^k * m]. *)
Lemma reduce_loop_spec n k m r d :
  0 < m -> bigint (S n) r -> bigint (S n) d -> bigint_value d = 2 ^ Z.of_nat k * m ->
  bigint_value r < 2 * bigint_value d ->
  exists r' d', reduce_loop (S k) r d = Ok (r', d') /\ bigint (S n) r' /\ bigint (S n) d' /\
    bigint_value r' = bigint_value r mod m.
Proof.
  intros Hm. revert r d. induction k as [| k IH]; intros r d Hr Hd Hval Hlt.
  all: pose proof (value_range _ _ Hr) as Br; pose proof (value_range _ _ Hd) as Bd.
  all: destruct (bigint_ror_spec _ _ Hd) as [Hd' Hval'].
  all: assert (Hstep : exists r1, (if bigint_value d <=? bigint_value r then bigint_subtract_raw d r else Ok r) = Ok r1 /\
         bigint (S n) r1 /\ 0 <= bigint_value r1 < bigint_value d /\ bigint_value r1 mod m = bigint_value r mod m).
  1, 3: destruct (Z.leb_spec (bigint_value d) (bigint_value r)); [| exists r; split_and!; [done | done | lia | lia | done]];
    destruct (subtract_loop_spec (S n) 0 d r Hd Hr ltac:(lia)) as (r1 & E1 & Hr1 & V1);
    rewrite Z.mod_small in V1 by lia; exists r1; split_and!; [done | done | lia | lia |];
    rewrite V1, Z.sub_0_r, Hval.
  - replace (bigint_value r - 2 ^ Z.of_nat 0 * m) with (bigint_value r + -2 ^ Z.of_nat 0 * m) by lia.
    apply Z_mod_plus_full.
  - replace (bigint_value r - 2 ^ Z.of_nat (S k) * m) with (bigint_value r + - 2 ^ Z.of_nat (S k) * m) by lia.
    apply Z_mod_plus_full.
  - destruct Hstep as (r1 & E1 & Hr1 & B1 & V1). change (2 ^ Z.of_nat 0) with 1 in Hval.
    exists r1, (bigint_ror_raw d). cbn [reduce_loop]. rewrite (bigint_is_geq_spec n) by done.
    cbn [mbind res_bind]. rewrite E1. cbn [mbind res_bind]. split_and!; [done | done | done |].
    rewrite <- V1, Z.mod_small; lia.
  - destruct Hstep as (r1 & E1 & Hr1 & B1 & V1). rewrite Nat2Z.inj_succ, Z.pow_succ_r in Hval by lia.
    assert (Hhalf : bigint_value (bigint_ror_raw d) = 2 ^ Z.of_nat k * m).
    { rewrite Hval', Hval. replace (2 * 2 ^ Z.of_nat k * m) with (2 ^ Z.of_nat k * m * 2) by lia.
      apply Z.div_mul. lia. }
    destruct (IH r1 (bigint_ror_raw d) Hr1 Hd' Hhalf) as (r' & d2 & E2 & Hr' & Hd2 & V2); [lia |].
    exists r', d2. rewrite V1 in V2. split_and!; try done.
    cbn [reduce_loop] in E2 |- *. rewrite (bigint_is_geq_spec n r d) by done.
    cbn [mbind res_bind]. rewrite E1. exact E2.
Qed.

(** Scaling the modulus up to the magnitude of the product and subtracting back
    down reduces the product. *)
Lemma mod_reduce_spec n p d m :
  let rot := bits (bigint_value p) - bits m in
  bigint (S n) p -> bigint (S n) d -> bigint_value d = m -> 0 < m ->
  exists r d', reduce_loop (Z.to_nat (rot + 1)) p (rescale_loop (Z.to_nat rot) d) = Ok (r, d') /\
    bigint (S n) r /\ bigint (S n) d' /\ bigint_value r = bigint_value p mod m.
Proof.
  intros rot Hp Hd Vd Hm. set (Q := bigint_value p) in *.
  pose proof (value_range _ _ Hp) as BQ. fold Q in BQ.
  destruct (bits_bound Q) as [Q1 Q2]; [lia |]. destruct (bits_bound m) as [M1 M2]; [lia |].
  specialize (M2 ltac:(lia)). pose proof (bits_nonneg m).
  destruct (Z.lt_ge_cases rot 0) as [Hneg | Hrot].
  { replace (Z.to_nat (rot + 1)) with 0%nat by lia. replace (Z.to_nat rot) with 0%nat by lia.
    exists p, d. split_and!; [done | done | done |].
    rewrite Z.mod_small; [done |]. split; [lia |]. apply bits_lt; lia. }
  assert (Hbm : 0 < bits m) by (unfold bits; pose proof (Z.log2_nonneg m); case_if; lia).
  assert (Hscale : m * 2 ^ rot < 2 ^ bits Q /\ 2 ^ bits Q <= 2 * (m * 2 ^ rot)).
  { replace (bits Q) with (bits m + rot) by lia. rewrite Z.pow_add_r by lia. pose proof (pow2_pos rot Hrot).
    split; [nia |]. replace (bits m) with (1 + (bits m - 1)) by lia. rewrite Z.pow_add_r by lia.
    change (2 ^ 1) with 2. nia. }
  assert (Hfit : m * 2 ^ rot < radix (S n)).
  { assert (Q <> 0) by (intros E0; unfold rot in Hrot; rewrite E0 in Hrot; change (bits 0) with 0 in Hrot; lia).
    specialize (Q2 ltac:(done)). assert (2 ^ bits Q <= radix (S n)); [| lia].
    apply Z.pow_le_mono_r; [lia |]. apply Z.lt_succ_r. apply (Z.pow_lt_mono_r_iff 2); [lia.. |].
    rewrite Z.pow_succ_r by lia. replace (bits Q) with (bits Q - 1 + 1) by lia.
    rewrite Z.pow_add_r by lia. change (2 ^ 1) with 2. lia. }
  destruct (rescale_loop_spec (S n) (Z.to_nat rot) d Hd) as [Hs Vs].
  { rewrite Vd, Z2Nat.id by lia. done. }
  rewrite Vd, Z2Nat.id in Vs by lia. replace (Z.to_nat (rot + 1)) with (S (Z.to_nat rot)) by lia.
  apply reduce_loop_spec; [done | done | done | rewrite Z2Nat.id by lia; lia | fold Q; lia].
Qed.

Lemma bigint_mod_multiply_spec n a b m tmp :
  let size := S n in
  bigint size a -> bigint size b -> bigint size m -> bigint (4 * size) tmp -> 0 < bigint_value m ->
  exists r t, bigint_mod_multiply_raw a b m size tmp = Ok (r, t) /\ bigint size r /\ bigint (4 * size) t /\
    bigint_value r = (bigint_value a * bigint_value b) mod bigint_value m.
Proof.
  intros size Ha Hb Hm Ht Hpos. unfold bigint_mod_multiply_raw.
  destruct (bigint_multiply_spec size a b tmp Ha Hb (proj2 Ht)) as (p & Ep & Hp & Vp); [rewrite (proj1 Ht); lia |].
  rewrite Ep. cbn [mbind res_bind]. rewrite take_app_length' by (symmetry; apply Hp).
  rewrite (take_ge m) by (rewrite (proj1 Hm); lia).
  destruct (bigint_grow_spec size (2 * size) m Hm) as [Hg Vg]; [lia |].
  rewrite (bigint_max_set_bit_spec _ _ Hp), (bigint_max_set_bit_spec _ _ Hg), Vg.
  pose proof (value_range _ _ Hm) as BM.
  assert (E2 : (2 * size)%nat = S (n + size)) by lia. rewrite E2 in Hp, Hg, Vg |- *.
  destruct (mod_reduce_spec (n + size) p _ _ Hp Hg Vg Hpos) as (r & d & Er & Hr & Hd & Vr).
  rewrite Er. cbn [mbind res_bind].
  pose proof (Z.mod_pos_bound (bigint_value p) (bigint_value m) ltac:(lia)).
  destruct (bigint_shrink_spec (S (n + size)) size r Hr) as (s & Es & Hs & Vs); [lia | lia |].
  rewrite Es. cbn [mbind res_bind]. eexists s, _. split; [done |]. split; [done |]. split; [| by rewrite Vs, Vr, Vp].
  replace (4 * size)%nat with (S (n + size) + S (n + size))%nat by lia. by apply bigint_app.
Qed.

(** ** Modular exponentiation *)

(** One square-and-multiply step on values. *)
Lemma mod_exp_step r b e m :
  0 < m -> 0 < e / 2 ->
  ((if Z.odd e then (r * b) mod m else r) * ((b * b) mod m) ^ (e / 2)) mod m = (r * b ^ e) mod m.
Proof.
  intros Hm He. pose proof (Z.div_mod e 2 ltac:(lia)) as E. rewrite Zmod_odd in E.
  assert (Hpow : b ^ e = b ^ (if Z.odd e then 1 else 0) * (b * b) ^ (e / 2)).
  { rewrite E at 1. rewrite Z.pow_add_r, Z.pow_mul_r by (destruct (Z.odd e); lia).
    rewrite (Z.pow_2_r b). lia. }
  rewrite Hpow, <- (Z.mul_mod_idemp_r (if Z.odd e then _ else _)), Z.mod_pow_l, Z.mul_mod_idemp_r by lia.
  destruct (Z.odd e).
  - rewrite Z.mul_mod_idemp_l by lia. f_equal. rewrite Z.pow_1_r. lia.
  - f_equal. rewrite Z.pow_0_r. lia.
Qed.

Lemma mod_exp_loop_spec n k fuel m r b e tmp :
  let size := S n in
  bigint size m -> 0 < bigint_value m -> bigint size r -> bigint size b -> bigint (S k) e ->
  bigint (4 * size) tmp -> bigint_value e < 2 ^ Z.of_nat fuel ->
  exists r', mod_exp_loop (S fuel) m size r b e tmp = Ok r' /\ bigint size r' /\
    bigint_value r' = (if bigint_value e =? 0 then bigint_value r
                       else (bigint_value r * bigint_value b ^ bigint_value e) mod bigint_value m).
Proof.
  intros size Hm Hpos. revert r b e tmp. induction fuel as [| fuel IH]; intros r b e tmp Hr Hb He Ht Hfuel.
  all: pose proof (value_range _ _ He) as Be.
  all: cbn [mod_exp_loop]; rewrite (bigint_is_zero_spec _ _ He);
    destruct (Z.eqb_spec (bigint_value e) 0) as [E0 | E0]; [by eexists |].
  { change (2 ^ Z.of_nat 0) with 1 in Hfuel. lia. }
  rewrite (bigint_bit0_spec _ _ He). cbn [mbind res_bind].
  destruct (bigint_ror_spec _ _ He) as [He' Ve'].
  assert (Hmul : exists r1 t1, (if Z.odd (bigint_value e) then bigint_mod_multiply_raw r b m size tmp
                                else Ok (r, tmp)) = Ok (r1, t1) /\ bigint size r1 /\ bigint (4 * size) t1 /\
      bigint_value r1 = (if Z.odd (bigint_value e) then (bigint_value r * bigint_value b) mod bigint_value m
                         else bigint_value r)).
  { destruct (Z.odd (bigint_value e)); [by apply bigint_mod_multiply_spec | by eexists r, tmp]. }
  destruct Hmul as (r1 & t1 & E1 & Hr1 & Ht1 & V1). rewrite E1. cbn [mbind res_bind].
  destruct (bigint_mod_multiply_spec n b b m t1 Hb Hb Hm Ht1 Hpos) as (b2 & t2 & E2 & Hb2 & Ht2 & V2).
  fold size in E2. rewrite E2. cbn [mbind res_bind]. rewrite Nat2Z.inj_succ, Z.pow_succ_r in Hfuel by lia.
  destruct (IH r1 b2 (bigint_ror_raw e) t2 Hr1 Hb2 He' Ht2) as (r' & E3 & Hr' & V3).
  { rewrite Ve'. apply Z.div_lt_upper_bound; lia. }
  exists r'. split_and!; [exact E3 | done |]. rewrite V3, Ve', V1, V2.
  destruct (Z.eqb_spec (bigint_value e / 2) 0) as [Eh | Eh].
  - assert (bigint_value e = 1) as -> by (Z.div_mod_to_equations; lia).
    by rewrite Z.pow_1_r.
  - apply mod_exp_step; [done |]. pose proof (Z.div_pos (bigint_value e) 2). lia.
Qed.

Lemma elements_of_zeros n : elements_of (replicate (4 * n) 0) = replicate n 0.
Proof.
  induction n as [| n IH]; [done |]. replace (4 * S n)%nat with (S (S (S (S (4 * n))))) by lia.
  cbn [replicate elements_of]. by rewrite IH.
Qed.

Lemma bigint_init_one n : bigint_init_raw (S n) [1] = Ok (1 :: replicate n 0).
Proof.
  unfold bigint_init_raw. change (zlen [1]) with 1. rewrite (proj2 (Z.ltb_ge _ _)) by lia. cbn [orb Z.eqb].
  f_equal. replace (Z.to_nat (4 * Z.of_nat (S n) - 1)) with (3 + 4 * n)%nat by lia.
  rewrite replicate_add. cbn [reverse rev_append app replicate elements_of]. by rewrite elements_of_zeros.
Qed.

(** ** Conversion from and to big-endian byte arrays *)

Lemma le_value_zeros b k : le_value (b ++ replicate k 0) = le_value b.
Proof.
  unfold le_value. rewrite foldr_app. f_equal. induction k as [| k IH]; [done |].
  cbn [replicate foldr]. rewrite IH. lia.
Qed.

Lemma elements_of_spec n b :
  length b = (4 * n)%nat -> Forall (in_range 8) b ->
  bigint n (elements_of b) /\ bigint_value (elements_of b) = le_value b /\
  bytes_of_elements (elements_of b) = b.
Proof.
  revert b. induction n as [| n IH]; intros b Hl Hb.
  { apply nil_length_inv in Hl as ->. done. }
  destruct b as [| b0 [| b1 [| b2 [| b3 b]]]]; cbn [length] in Hl; try lia.
  rewrite !Forall_cons in Hb. destruct Hb as (H0 & H1 & H2 & H3 & Hb). unfold in_range in H0, H1, H2, H3.
  destruct (IH b ltac:(lia) Hb) as (Hn & Hv & Hr). cbn [elements_of]. pow2_consts. split_and!.
  - apply bigint_cons; [unfold in_range; pow2_consts; lia | done].
  - rewrite value_cons, Hv. unfold le_value. cbn [foldr]. pow2_consts. lia.
  - unfold bytes_of_elements in *. rewrite bind_cons, Hr. unfold le32. cbn [app]. pow2_consts.
    repeat f_equal; Z.div_mod_to_equations; lia.
Qed.

Lemma bigint_init_spec size data :
  let b := reverse data ++ replicate (4 * size - length data) 0 in
  Forall (in_range 8) data -> (0 < length data <= 4 * size)%nat ->
  bigint_init_raw size data = Ok (elements_of b) /\ bigint size (elements_of b) /\
  bigint_value (elements_of b) = be_value data /\ bytes_of_elements (elements_of b) = b.
Proof.
  intros b Hd Hl. unfold bigint_init_raw. rewrite (proj2 (Z.eqb_neq _ _)), (proj2 (Z.ltb_ge _ _)) by lia.
  cbn [orb]. replace (Z.to_nat (4 * Z.of_nat size - Z.of_nat (length data))) with (4 * size - length data)%nat by lia.
  fold b. split; [done |]. destruct (elements_of_spec size b) as (? & Hv & ?).
  - unfold b. rewrite length_app, length_reverse, length_replicate. lia.
  - unfold b. rewrite Forall_app, Forall_reverse. split; [done |]. apply Forall_replicate. unfold in_range. lia.
  - split_and!; [done | | done]. rewrite Hv. unfold b. by rewrite le_value_zeros, le_value_reverse.
Qed.

Lemma le_value_app a b : le_value (a ++ b) = le_value a + 2 ^ (8 * zlen a) * le_value b.
Proof.
  unfold le_value. rewrite foldr_app. induction a as [| x a IH]; [change (2 ^ (8 * zlen [])) with 1; cbn [foldr]; lia |].
  cbn [foldr length]. rewrite IH. replace (8 * Z.of_nat (S (length a))) with (8 + 8 * zlen a) by lia.
  rewrite Z.pow_add_r by lia. lia.
Qed.

Lemma bytes_of_elements_spec n v :
  bigint n v -> length (bytes_of_elements v) = (4 * n)%nat /\ Forall is_byte (bytes_of_elements v) /\
    le_value (bytes_of_elements v) = bigint_value v.
Proof.
  revert n. induction v as [| x v IH]; intros n [Hl Hf].
  { cbn in Hl. subst n. done. }
  destruct n as [| n]; [done |]. injection Hl as Hl. apply Forall_cons in Hf as [Hx Hf].
  destruct (IH n (conj Hl Hf)) as (H1 & H2 & H3). unfold bytes_of_elements in *. rewrite bind_cons. split_and!.
  - rewrite length_app, length_le32, H1. lia.
  - apply Forall_app. split; [apply le32_bytes | done].
  - rewrite le_value_app, length_le32, H3, value_le32, value_cons by done. done.
Qed.

(** The bytes written back are those of the value. *)
Lemma bigint_done_spec n v len :
  bigint n v -> (0 < len <= 4 * n)%nat -> bigint_value v < 2 ^ (8 * Z.of_nat len) ->
  bigint_done_raw v (Z.of_nat len) = Ok (be_repr len (bigint_value v)).
Proof.
  intros Hv Hlen Hlt. destruct (bytes_of_elements_spec n v Hv) as (Hl & Hb & Hval). unfold bigint_done_raw.
  rewrite (proj1 Hv), (proj2 (Z.eqb_neq _ _)), (proj2 (Z.ltb_ge _ _)) by lia. cbn [orb]. rewrite Nat2Z.id. f_equal.
  set (b := bytes_of_elements v) in *. rewrite <- (take_drop len b), le_value_app in Hval.
  assert (Htl : length (take len b) = len) by (rewrite length_take; lia).
  assert (Ht : Forall is_byte (reverse (take len b))) by (apply Forall_reverse, Forall_take; done).
  pose proof (be_value_range _ Ht) as Hr. rewrite <- le_value_reverse, reverse_involutive, length_reverse in Hr.
  assert (0 <= le_value (drop len b)).
  { rewrite <- (reverse_involutive (drop len b)), le_value_reverse.
    apply be_value_range, Forall_reverse, Forall_drop. done. }
  rewrite Htl in *. assert (le_value (drop len b) = 0) by nia.
  rewrite <- (be_repr_be_value _ Ht), length_reverse, Htl, <- le_value_reverse, reverse_involutive. f_equal. lia.
Qed.

Lemma bigint_mod_exp_spec (size : nat) (base modulus exponent tmp : list Z) :
  (0 < size)%nat -> (0 < length exponent)%nat -> bigint size base -> bigint size modulus ->
  bigint (length exponent) exponent -> bigint (4 * size) tmp -> 0 < bigint_value modulus ->
  exists result, bigint_mod_exp_raw base modulus exponent size tmp = Ok result /\ bigint size result /\
    bigint_value result = (if bigint_value exponent =? 0 then 1
                           else bigint_value base ^ bigint_value exponent mod bigint_value modulus).
Proof.
  intros Hs Hl Hb Hm He Ht Hpos. destruct size as [| n]; [lia |]. unfold bigint_mod_exp_raw.
  rewrite bigint_init_one. cbn [mbind res_bind]. remember (length exponent) as k. destruct k as [| k]; [lia |].
  assert (Hone : bigint (S n) (1 :: replicate n 0)).
  { apply bigint_cons; [unfold in_range; lia | apply bigint_zeros]. }
  destruct (mod_exp_loop_spec n k (32 * S k) modulus (1 :: replicate n 0) base exponent tmp)
    as (r & Er & Hr & Vr); try done.
  { pose proof (value_range _ _ He). replace (Z.of_nat (32 * S k)) with (32 * Z.of_nat (S k)) by lia. lia. }
  exists r. split_and!; [done | done |]. rewrite Vr, value_cons, value_zeros, Z.mul_0_r, Z.add_0_r, Z.mul_1_l. done.
Qed.

(** ** Correctness of the public operations *)

(** Modular multiplication: for operands and a positive modulus of the same
    size and working space of the size [bigint_mod_multiply_tmp_len] gives, the
    result is the product modulo the modulus, whatever the working space held
    before; nothing outside the arrays is accessed. *)
Theorem bigint_mod_multiply_correct (size : nat) (multiplicand multiplier modulus tmp : list Z) :
  (0 < size)%nat -> bigint size multiplicand -> bigint size multiplier -> bigint size modulus ->
  bigint (4 * size) tmp -> 0 < bigint_value modulus ->
  exists result tmp', bigint_mod_multiply_raw multiplicand multiplier modulus size tmp = Ok (result, tmp') /\
    bigint size result /\ bigint (4 * size) tmp' /\
    bigint_value result = (bigint_value multiplicand * bigint_value multiplier) mod bigint_value modulus.
Proof. destruct size as [| n]; [lia |]. intros _. apply bigint_mod_multiply_spec. Qed.

Lemma bigint_mod_multiply_correct_witness :
  exists result tmp', bigint_mod_multiply_raw [4294967295; 5] [7; 4000000000] [1000003; 1] 2 (replicate 8 99) =
      Ok (result, tmp') /\ bigint 2 result /\ bigint 8 tmp' /\
    bigint_value result = (bigint_value [4294967295; 5] * bigint_value [7; 4000000000]) mod bigint_value [1000003; 1].
Proof.
  apply (bigint_mod_multiply_correct 2); [lia | | | | | reflexivity];
    (split; [reflexivity | repeat constructor; unfold in_range; lia]).
Defined.

(** Modular exponentiation terminates within one iteration per exponent bit
    and computes the power of the base modulo the modulus; with a zero exponent
    the result is the initial value one. *)
Theorem bigint_mod_exp_correct (size : nat) (base modulus exponent tmp : list Z) :
  (0 < size)%nat -> (0 < length exponent)%nat -> bigint size base -> bigint size modulus ->
  bigint (length exponent) exponent -> bigint (4 * size) tmp -> 0 < bigint_value modulus ->
  exists result, bigint_mod_exp_raw base modulus exponent size tmp = Ok result /\ bigint size result /\
    bigint_value result = (if bigint_value exponent =? 0 then 1
                           else bigint_value base ^ bigint_value exponent mod bigint_value modulus).
Proof. apply bigint_mod_exp_spec. Qed.

Lemma bigint_mod_exp_correct_witness :
  exists result, bigint_mod_exp_raw [1234567; 3] [1000003; 1] [65537] 2 (replicate 8 0) = Ok result /\
    bigint 2 result /\
    bigint_value result = (if bigint_value [65537] =? 0 then 1
                           else bigint_value [1234567; 3] ^ bigint_value [65537] mod bigint_value [1000003; 1]).
Proof.
  apply (bigint_mod_exp_correct 2); [lia | cbn; lia | | | | | reflexivity];
    (split; [reflexivity | repeat constructor; unfold in_range; lia]).
Defined.

(** Reading a big-endian byte array gives a well-formed big integer of the
    value the bytes denote, and writing it back at the same length gives the same
    bytes; written at a greater length it is padded with leading zeros. *)
Theorem bigint_init_done (size k : nat) (data : bytes) :
  Forall (in_range 8) data -> (0 < length data)%nat -> (length data + k <= 4 * size)%nat ->
  exists value, bigint_init_raw size data = Ok value /\ bigint size value /\
    bigint_value value = be_value data /\
    bigint_done_raw value (zlen data + Z.of_nat k) = Ok (replicate k 0 ++ data).
Proof.
  intros Hd Hpos Hl. destruct (bigint_init_spec size data Hd ltac:(lia)) as (E & Hb & Hv & Hr).
  eexists. split_and!; [exact E | done | done |]. unfold bigint_done_raw. rewrite (proj1 Hb), Hr.
  rewrite (proj2 (Z.eqb_neq _ _)), (proj2 (Z.ltb_ge _ _)) by lia. cbn [orb]. f_equal.
  replace (Z.to_nat _) with (length data + k)%nat by lia.
  rewrite <- (length_reverse data), take_app_add, length_reverse, take_replicate, Nat.min_l by lia.
  by rewrite reverse_app, reverse_replicate, reverse_involutive.
Qed.

Lemma bigint_init_done_witness :
  exists value, bigint_init_raw 2 [18; 52; 86; 120; 154] = Ok value /\ bigint 2 value /\
    bigint_value value = be_value [18; 52; 86; 120; 154] /\
    bigint_done_raw value (zlen [18; 52; 86; 120; 154] + Z.of_nat 2) = Ok (replicate 2 0 ++ [18; 52; 86; 120; 154]).
Proof.
  apply (bigint_init_done 2 2); [repeat constructor; unfold in_range; lia | cbn; lia..].
Defined.
