(* ===== verification/Aes.v ===== *)
(** * AES ([crypto/aes.c], [include/ipxe/aes.h])

    The table-driven cipher: generation of the lookup tables, key expansion, and
    encryption and decryption of one block.  A matrix is its 16 bytes in memory
    order, seen as four little-endian columns; the tables are the static arrays,
    filled in by the first key; the round keys are the 240 bytes of
    [struct aes_round_keys].  Accesses outside an array are a [Trap]. *)

From Stdlib Require Import ZArith Lia Bool ZifyBool.
From stdpp Require Import base numbers list.
From S2P Require Import Prelude Bits.

Local Open Scope Z_scope.

Abbreviation AES_BLOCKSIZE := (16).
Abbreviation AES_MAX_ROUNDS := (15).
Abbreviation AES_STRIDE_SHIFTROWS := (5).
Abbreviation AES_STRIDE_INVSHIFTROWS := (-3).

(** ** Data *)

Abbreviation aes_matrix := bytes.

Abbreviation aes_table_entry := bytes.

Abbreviation aes_table := (list bytes).

Record aes_tables := AesTables { aes_mixcolumns : aes_table; aes_invmixcolumns : aes_table }.

(** The static tables before the first key is set. *)
Definition aes_tables_bss : aes_tables :=
  AesTables (replicate 256 (replicate 8 0)) (replicate 256 (replicate 8 0)).

Record aes_context := AesContext { encrypt : bytes; decrypt : bytes; rounds : Z }.

Definition column (m : aes_matrix) (c : Z) : res Z := rd_le32 m (4 * c).

Definition set_column (m : aes_matrix) (c v : Z) : res aes_matrix := wr_le32 m (4 * c) v.

(** The round key [key[i]]. *)
Definition round_key (keys : bytes) (i : Z) : res aes_matrix := rd_range keys (16 * i) 16.

Definition entry (table : aes_table) (byte : Z) : res aes_table_entry :=
  if byte <? 0 then Trap else of_option (table !! Z.to_nat byte).

(** The initial contents of an automatic matrix; each is written before it is
    read. *)
Definition automatic : aes_matrix := replicate 16 0.

(** ** Rounds *)

Definition aes_entry_column (e : aes_table_entry) (col : Z) : res Z := rd_le32 e (4 - col).

(** The stride is reduced modulo a power of two of at least 16 before masking,
    which the mask of the unreduced product agrees with. *)
Definition aes_column (table : aes_table) (stride : Z) (inp : aes_matrix) (offset : Z) : res Z :=
  byte ← rd inp (Z.land (stride * offset) 15);
  e ← entry table byte;
  aes_entry_column e (Z.land offset 3).

Definition aes_output (table : aes_table) (stride : Z) (inp key : aes_matrix) (col : Z) : res Z :=
  let offset := col * 4 in
  c0 ← aes_column table stride inp (offset + 0);
  c1 ← aes_column table stride inp (offset + 1);
  c2 ← aes_column table stride inp (offset + 2);
  c3 ← aes_column table stride inp (offset + 3);
  k ← column key col;
  Ok (Z.lxor (Z.lxor (Z.lxor (Z.lxor c0 c1) c2) c3) k).

Definition aes_round (table : aes_table) (stride : Z) (inp out key : aes_matrix) : res aes_matrix :=
  o ← aes_output table stride inp key 0; out ← set_column out 0 o;
  o ← aes_output table stride inp key 1; out ← set_column out 1 o;
  o ← aes_output table stride inp key 2; out ← set_column out 2 o;
  o ← aes_output table stride inp key 3; set_column out 3 o.

(** The two buffers change roles after every round; the result is the final
    contents of the buffers passed as [inp] and [out].  [key] is the index of
    the round key the pointer designates. *)
Fixpoint aes_rounds (table : aes_table) (stride : Z) (rounds : nat) (inp out : aes_matrix)
    (keys : bytes) (key : Z) : res (aes_matrix * aes_matrix) :=
  match rounds with
  | O => Trap
  | S rounds =>
      k ← round_key keys key;
      out ← aes_round table stride inp out k;
      match rounds with
      | O => Ok (inp, out)
      | S _ => '(inp', out') ← aes_rounds table stride rounds out inp keys (key + 1); Ok (out', inp')
      end
  end.

Definition aes_encrypt_rounds (t : aes_tables) := aes_rounds (aes_mixcolumns t) AES_STRIDE_SHIFTROWS.

Definition aes_decrypt_rounds (t : aes_tables) := aes_rounds (aes_invmixcolumns t) AES_STRIDE_INVSHIFTROWS.

Definition addroundkey_column (state key : aes_matrix) (c : Z) : res aes_matrix :=
  s ← column state c; k ← column key c; set_column state c (Z.lxor s k).

Definition aes_addroundkey (state key : aes_matrix) : res aes_matrix :=
  state ← addroundkey_column state key 0;
  state ← addroundkey_column state key 1;
  state ← addroundkey_column state key 2;
  addroundkey_column state key 3.

Fixpoint final_loop (n : nat) (table : aes_table) (stride out_offset in_offset : Z) (inp out : aes_matrix)
    : res aes_matrix :=
  match n with
  | O => Ok out
  | S n =>
      byte ← rd inp in_offset;
      e ← entry table byte;
      b ← rd e 0;
      out ← wr out out_offset b;
      final_loop n table stride (out_offset + 1) (Z.land (in_offset + stride) 15) inp out
  end.

Definition aes_final (table : aes_table) (stride : Z) (inp out key : aes_matrix) : res aes_matrix :=
  out ← final_loop 16 table stride 0 0 inp out;
  aes_addroundkey out key.

(** Encryption and decryption of one block; [dst] is the previous contents of the
    destination. *)
Definition aes_encrypt (t : aes_tables) (aes : aes_context) (src dst : bytes) : res bytes :=
  inp ← rd_range src 0 16;
  k ← round_key (encrypt aes) 0;
  inp ← aes_addroundkey inp k;
  '(_, inp) ← aes_encrypt_rounds t (Z.to_nat (rounds aes - 2)) inp automatic (encrypt aes) 1;
  k ← round_key (encrypt aes) (rounds aes - 1);
  aes_final (aes_mixcolumns t) AES_STRIDE_SHIFTROWS inp dst k.

Definition aes_decrypt (t : aes_tables) (aes : aes_context) (src dst : bytes) : res bytes :=
  inp ← rd_range src 0 16;
  k ← round_key (decrypt aes) 0;
  inp ← aes_addroundkey inp k;
  '(_, inp) ← aes_decrypt_rounds t (Z.to_nat (rounds aes - 2)) inp automatic (decrypt aes) 1;
  k ← round_key (decrypt aes) (rounds aes - 1);
  aes_final (aes_invmixcolumns t) AES_STRIDE_INVSHIFTROWS inp dst k.

(** ** Lookup tables *)

Definition aes_double (poly : Z) : Z :=
  let poly := rol8 poly 1 in
  if Z.land poly 1 =? 0 then poly else Z.lxor (Z.lxor poly 1) 27.

Definition set_byte (e : aes_table_entry) (i v : Z) : res aes_table_entry := wr e i (u8 v).

Definition aes_mixcolumns_entry (e : aes_table_entry) : res aes_table_entry :=
  scalar ← rd e 0;
  e ← set_byte e 1 scalar; e ← set_byte e 2 scalar; e ← set_byte e 5 scalar; e ← set_byte e 6 scalar;
  let scalar_x := aes_double scalar in
  e ← set_byte e 4 scalar_x;
  let scalar_x_1 := Z.lxor scalar_x scalar in
  e ← set_byte e 3 scalar_x_1; set_byte e 7 scalar_x_1.

Definition aes_invmixcolumns_entry (e : aes_table_entry) : res aes_table_entry :=
  scalar ← rd e 0;
  let scalar_x := aes_double scalar in
  let scalar_x2 := aes_double scalar_x in
  let scalar_x3 := aes_double scalar_x2 in
  let scalar_x3_1 := Z.lxor scalar_x3 scalar in
  e ← set_byte e 1 scalar_x3_1; e ← set_byte e 5 scalar_x3_1;
  let scalar_x3_x_1 := Z.lxor scalar_x3_1 scalar_x in
  e ← set_byte e 3 scalar_x3_x_1; e ← set_byte e 7 scalar_x3_x_1;
  let scalar_x3_x2 := Z.lxor scalar_x3 scalar_x2 in
  let scalar_x3_x2_1 := Z.lxor scalar_x3_x2 scalar in
  e ← set_byte e 2 scalar_x3_x2_1; e ← set_byte e 6 scalar_x3_x2_1;
  let scalar_x3_x2_x := Z.lxor scalar_x3_x2 scalar_x in
  set_byte e 4 scalar_x3_x2_x.

Definition set_entry (table : aes_table) (i : Z) (e : aes_table_entry) : res aes_table :=
  if (0 <=? i) && (i <? zlen table) then Ok (<[Z.to_nat i := e]> table) else Trap.

(** Division of the inverse polynomial by the generator. *)
Definition inv_step (invpoly : Z) : Z :=
  let invpoly := Z.lxor invpoly (u32 (Z.shiftl invpoly 1)) in
  let invpoly := Z.lxor invpoly (u32 (Z.shiftl invpoly 2)) in
  let invpoly := Z.lxor invpoly (u32 (Z.shiftl invpoly 4)) in
  let invpoly := if Z.land invpoly 128 =? 0 then invpoly else Z.lxor invpoly 9 in
  Z.land invpoly 255.

Definition affine (invpoly : Z) : Z :=
  Z.lxor (Z.lxor (Z.lxor (Z.lxor (Z.lxor 99 invpoly) (rol8 invpoly 1)) (rol8 invpoly 2)) (rol8 invpoly 3))
    (rol8 invpoly 4).

(** The [do] loop of [aes_generate]. *)
Fixpoint sbox_loop (fuel : nat) (poly invpoly : Z) (table : aes_table) : res aes_table :=
  match fuel with
  | O => Trap
  | S fuel =>
      let poly := Z.lxor poly (aes_double poly) in
      let invpoly := inv_step invpoly in
      e ← entry table poly;
      e ← set_byte e 0 (affine invpoly);
      table ← set_entry table poly e;
      if poly =? 1 then Ok table else sbox_loop fuel poly invpoly table
  end.

(** The [for] loop, with [n] iterations left. *)
Fixpoint fill_loop (n : nat) (i : Z) (t : aes_tables) : res aes_tables :=
  match n with
  | O => Ok t
  | S n =>
      e ← entry (aes_mixcolumns t) i;
      e ← aes_mixcolumns_entry e;
      mix ← set_entry (aes_mixcolumns t) i e;
      j ← rd e 0;
      inv ← entry (aes_invmixcolumns t) j;
      inv ← set_byte inv 0 i;
      inv ← aes_invmixcolumns_entry inv;
      invmix ← set_entry (aes_invmixcolumns t) j inv;
      fill_loop n (i + 1) (AesTables mix invmix)
  end.

(** The generator has order 255, so the first loop ends after 255 iterations. *)
Definition aes_generate (t : aes_tables) : res aes_tables :=
  mix ← sbox_loop 255 1 1 (aes_mixcolumns t);
  e ← entry mix 0;
  e ← set_byte e 0 99;
  mix ← set_entry mix 0 e;
  fill_loop 256 0 (AesTables mix (aes_invmixcolumns t)).

(** ** Key expansion *)

Definition aes_key_rotate (col : Z) : Z := ror32 col 8.

Fixpoint key_sbox_loop (n : nat) (table : aes_table) (col : Z) : res Z :=
  match n with
  | O => Ok col
  | S n =>
      e ← entry table (Z.land col 255);
      byte ← rd e 0;
      key_sbox_loop n table (rol32 (Z.lor (Z.land col (Z.lnot 255)) byte) 8)
  end.

Definition aes_key_sbox (table : aes_table) (col : Z) : res Z := key_sbox_loop 4 table col.

Definition aes_key_rcon (col rcon : Z) : Z := Z.lxor col rcon.

(** [next] and [prev] are byte offsets into the expanded key. *)
Fixpoint expand_loop (fuel : nat) (table : aes_table) (keylen last : Z)
    (enc : bytes) (prev next offset tmp rcon : Z) : res bytes :=
  if next <? last then
    match fuel with
    | O => Trap
    | S fuel =>
        tmp ← (if (offset =? 0) || (Z.lor offset keylen =? 48) then aes_key_sbox table tmp else Ok tmp);
        let '(tmp, rcon) := if offset =? 0 then (aes_key_rcon (aes_key_rotate tmp) rcon, aes_double rcon)
                            else (tmp, rcon) in
        p ← rd_le32 enc prev;
        let tmp := Z.lxor tmp p in
        enc ← wr_le32 enc next tmp;
        let offset := if offset + 4 =? keylen then 0 else offset + 4 in
        expand_loop fuel table keylen last enc (prev + 4) (next + 4) offset tmp rcon
    end
  else Ok enc.

(** Decryption keys from [dec] down to index 1, encryption keys from [enc] up. *)
Fixpoint invert_loop (dec : nat) (t : aes_tables) (enc_keys dec_keys : bytes) (enc : Z) (temp : aes_matrix)
    : res bytes :=
  match dec with
  | O => Ok dec_keys
  | S dec' =>
      k ← round_key enc_keys enc;
      temp ← aes_final (aes_mixcolumns t) AES_STRIDE_SHIFTROWS k temp (replicate 16 0);
      d ← round_key dec_keys (Z.of_nat dec);
      '(temp, d) ← aes_decrypt_rounds t 1 temp d (replicate 16 0) 0;
      dec_keys ← wr_range dec_keys (16 * Z.of_nat dec) d;
      invert_loop dec' t enc_keys dec_keys (enc + 1) temp
  end.

Definition aes_key_rounds (keylen : Z) : option Z :=
  if keylen =? 128 / 8 then Some 11
  else if keylen =? 192 / 8 then Some 13
  else if keylen =? 256 / 8 then Some 15
  else None.

(** The tables, the context and the return status, [None] for success. *)
Definition aes_setkey (t : aes_tables) (aes : aes_context) (key : bytes)
    : res (aes_tables * aes_context * option errno) :=
  e ← entry (aes_mixcolumns t) 0;
  b ← rd e 0;
  t ← (if b =? 0 then aes_generate t else Ok t);
  let keylen := zlen key in
  match aes_key_rounds keylen with
  | None => Ok (t, aes, Some EINVAL)
  | Some rounds =>
      enc ← wr_range (encrypt aes) 0 key;
      tmp ← rd_le32 enc (keylen - 4);
      enc ← expand_loop 60 (aes_mixcolumns t) keylen (16 * rounds) enc 0 keylen 0 tmp 1;
      k ← round_key enc 0;
      dec ← wr_range (decrypt aes) (16 * (rounds - 1)) k;
      dec ← invert_loop (Z.to_nat (rounds - 2)) t enc dec 1 automatic;
      k ← round_key enc (rounds - 1);
      dec ← wr_range dec 0 k;
      Ok (t, AesContext enc dec rounds, None)
  end.

Definition aes_setiv (aes : aes_context) : aes_context := aes.
