(* ===== verification/AesTables.v ===== *)
(** * The AES tables against FIPS 197

    A reference cipher written from FIPS 197 (field arithmetic in GF(2^8), the
    S-box as inverse and affine map, the four transformations and the key
    expansion on words), and the proof that the tables the code of [Aes]
    generates make one round of lookups compute one round of the reference. *)

From Stdlib Require Import ZArith Lia Bool ZifyBool Btauto.
From stdpp Require Import base numbers list.
From S2P Require Import Prelude Bits Aes.

Local Open Scope Z_scope.

(** ** The reference cipher *)

Module Fips197.

(** Multiplication by [x] modulo [x^8 + x^4 + x^3 + x + 1]. *)
Definition xtime (b : Z) : Z := if b <? 128 then 2 * b else Z.lxor (2 * b - 256) 27.

Definition gmul (a b : Z) : Z :=
  foldr (fun i acc => if Z.testbit a (Z.of_nat i) then Z.lxor (Nat.iter i xtime b) acc else acc) 0 (seq 0 8).

(** The multiplicative inverse is the 254th power, the product of the powers
    [b^2, b^4, ..., b^128]. *)
Fixpoint squares (n : nat) (b : Z) : Z :=
  match n with O => 1 | S n => let b2 := gmul b b in gmul b2 (squares n b2) end.

Definition ginv (b : Z) : Z := squares 7 b.

Definition sbox_bit (b : Z) (i : nat) : bool :=
  let bit j := Z.testbit b (Z.of_nat ((i + j) mod 8)) in
  xorb (bit 0%nat) (xorb (bit 4%nat) (xorb (bit 5%nat) (xorb (bit 6%nat) (xorb (bit 7%nat) (Z.testbit 99 (Z.of_nat i)))))).

Definition SBox (b : Z) : Z := foldr (fun i acc => Z.b2z (sbox_bit (ginv b) i) + 2 * acc) 0 (seq 0 8).

(** The state is its bytes, column by column. *)
Definition SubBytes (s : bytes) : bytes := SBox <$> s.

Definition ShiftRows (s : bytes) : bytes :=
  (fun n => nth (n mod 4 + 4 * ((n / 4 + n mod 4) mod 4)) s 0) <$> seq 0 16.

Definition MixColumn (a b c d : Z) : bytes :=
  [Z.lxor (Z.lxor (Z.lxor (gmul 2 a) (gmul 3 b)) c) d;
   Z.lxor (Z.lxor (Z.lxor a (gmul 2 b)) (gmul 3 c)) d;
   Z.lxor (Z.lxor (Z.lxor a b) (gmul 2 c)) (gmul 3 d);
   Z.lxor (Z.lxor (Z.lxor (gmul 3 a) b) c) (gmul 2 d)].

Fixpoint MixColumns (s : bytes) : bytes :=
  match s with
  | a :: b :: c :: d :: s => MixColumn a b c d ++ MixColumns s
  | _ => []
  end.

Definition AddRoundKey (s k : bytes) : bytes := xor s k.

(** *** Key expansion, on words of four bytes *)

Definition SubWord (w : bytes) : bytes := SBox <$> w.

Definition RotWord (w : bytes) : bytes := drop 1 w ++ take 1 w.

Definition Rcon (j : nat) : bytes := [Nat.iter (j - 1) xtime 1; 0; 0; 0].

Definition next_word (Nk : nat) (w : list bytes) : bytes :=
  let i := length w in
  let temp := nth (i - 1) w [] in
  let temp := if (i mod Nk =? 0)%nat then xor (SubWord (RotWord temp)) (Rcon (i / Nk))
              else if (6 <? Nk)%nat && (i mod Nk =? 4)%nat then SubWord temp else temp in
  xor (nth (i - Nk) w []) temp.

Fixpoint words (key : bytes) : list bytes :=
  match key with
  | a :: b :: c :: d :: key => [a; b; c; d] :: words key
  | _ => []
  end.

Definition KeyExpansion (Nk Nr : nat) (key : bytes) : list bytes :=
  Nat.iter (4 * (Nr + 1) - Nk) (fun w => w ++ [next_word Nk w]) (words key).

Definition RoundKey (w : list bytes) (r : nat) : bytes := concat (take 4 (drop (4 * r) w)).

(** *** The cipher *)

Definition Round (s k : bytes) : bytes := AddRoundKey (MixColumns (ShiftRows (SubBytes s))) k.

Definition Cipher (Nr : nat) (w : list bytes) (block : bytes) : bytes :=
  let s := AddRoundKey block (RoundKey w 0) in
  let s := foldl (fun s r => Round s (RoundKey w r)) s (seq 1 (Nr - 1)) in
  AddRoundKey (ShiftRows (SubBytes s)) (RoundKey w Nr).

Definition aes (key block : bytes) : bytes :=
  let Nk := (length key / 4)%nat in
  let Nr := (Nk + 6)%nat in
  Cipher Nr (KeyExpansion Nk Nr key) block.

End Fips197.
Import Fips197.

(** ** The tables *)

Definition tables : aes_tables := match aes_generate aes_tables_bss with Ok t => t | _ => aes_tables_bss end.

Lemma aes_generate_ok : aes_generate aes_tables_bss = Ok tables.
Proof. vm_compute. reflexivity. Qed.

(** A decidable property of bytes is checked by evaluation. *)
Lemma byte_cases (P : Z -> Prop) `{!forall b, Decision (P b)} :
  forallb (fun n => bool_decide (P (Z.of_nat n))) (seq 0 256) = true -> forall b, is_byte b -> P b.
Proof.
  intros Hall b Hb. unfold in_range in Hb. rewrite forallb_forall in Hall.
  specialize (Hall (Z.to_nat b)). rewrite Z2Nat.id in Hall by lia.
  apply (bool_decide_eq_true_1 (P b)), Hall, in_seq. lia.
Qed.

Lemma mix_entry : forall b, is_byte b ->
  entry (aes_mixcolumns tables) b =
    Ok [SBox b; SBox b; SBox b; gmul 3 (SBox b); gmul 2 (SBox b); SBox b; SBox b; gmul 3 (SBox b)].
Proof. refine (byte_cases _ _). vm_compute. reflexivity. Qed.

Lemma inv_entry : forall b, is_byte b ->
  entry (aes_invmixcolumns tables) (SBox b) =
    Ok [b; gmul 9 b; gmul 13 b; gmul 11 b; gmul 14 b; gmul 9 b; gmul 13 b; gmul 11 b].
Proof. refine (byte_cases _ _). vm_compute. reflexivity. Qed.

Lemma sbox_byte : forall b, is_byte b -> is_byte (SBox b).
Proof. refine (byte_cases _ _). vm_compute. reflexivity. Qed.

(** [ginv] is the multiplicative inverse. *)
Lemma ginv_inverse : forall b, is_byte b -> b <> 0 -> gmul b (ginv b) = 1.
Proof. refine (byte_cases _ _). vm_compute. reflexivity. Qed.

Lemma gmul_byte c : c ∈ [2; 3; 9; 11; 13; 14] -> forall b, is_byte b -> is_byte (gmul c b).
Proof.
  intros Hc. apply list_elem_of_In in Hc.
  repeat (destruct Hc as [<- | Hc]; [refine (byte_cases _ _); vm_compute; reflexivity |]). destruct Hc.
Qed.

(** ** Rounds of a lookup table

    A table whose entry for [b] holds the multiples of [f b] that a circulant
    matrix needs performs the row permutation, [f] on each byte, the matrix and
    the addition of the round key. *)

Abbreviation block s := (length s = 16%nat /\ Forall is_byte s).

(** The bytes of the input in the order of the output. *)
Definition permute (stride : Z) (s : bytes) : bytes :=
  (fun n => nth (Z.to_nat (Z.land (stride * Z.of_nat n) 15)) s 0) <$> seq 0 16.

Section Matrix.
Variables m1 m2 m3 m4 : Z -> Z.

Definition circulant (a b c d : Z) : bytes :=
  [Z.lxor (Z.lxor (Z.lxor (m4 a) (m3 b)) (m2 c)) (m1 d);
   Z.lxor (Z.lxor (Z.lxor (m1 a) (m4 b)) (m3 c)) (m2 d);
   Z.lxor (Z.lxor (Z.lxor (m2 a) (m1 b)) (m4 c)) (m3 d);
   Z.lxor (Z.lxor (Z.lxor (m3 a) (m2 b)) (m1 c)) (m4 d)].

Fixpoint circulants (s : bytes) : bytes :=
  match s with
  | a :: b :: c :: d :: s => circulant a b c d ++ circulants s
  | _ => []
  end.

Definition multiples (x : Z) : bytes := [x; m1 x; m2 x; m3 x; m4 x; m1 x; m2 x; m3 x].
End Matrix.

Lemma sixteen (l : bytes) : length l = 16%nat ->
  exists a0 a1 a2 a3 a4 a5 a6 a7 a8 a9 a10 a11 a12 a13 a14 a15, l = [a0; a1; a2; a3; a4; a5; a6; a7; a8; a9; a10; a11; a12; a13; a14; a15].
Proof.
  intros Hl. do 17 (destruct l as [| ? l]; try (cbn [length] in Hl; discriminate Hl)). by repeat eexists.
Qed.

Lemma length_permute stride s : length (permute stride s) = 16%nat.
Proof. done. Qed.

Lemma permute_rd stride s o :
  length s = 16%nat -> 0 <= o < 16 ->
  rd s (Z.land (stride * o) 15) = Ok (nth (Z.to_nat o) (permute stride s) 0).
Proof.
  intros Hs Ho. pose proof (land_mask (stride * o) 4 ltac:(lia)) as E. change (2 ^ 4 - 1) with 15 in E.
  pose proof (Z.mod_pos_bound (stride * o) (2 ^ 4) ltac:(lia)) as B. change (2 ^ 4) with 16 in *.
  unfold rd. rewrite (proj2 (Z.ltb_ge _ _)) by lia.
  unfold permute.
  rewrite (nth_indep _ 0 (nth (Z.to_nat (Z.land (stride * Z.of_nat 0) 15)) s 0)) by (rewrite length_fmap, length_seq; lia).
  rewrite (map_nth (fun n => nth (Z.to_nat (Z.land (stride * Z.of_nat n) 15)) s 0)), seq_nth by lia.
  rewrite Nat.add_0_l, nth_lookup, !Z2Nat.id by lia.
  destruct (lookup_lt_is_Some_2 s (Z.to_nat (Z.land (stride * o) 15))) as [v ->]; [lia | done].
Qed.

(** *** Addition of a round key *)

Lemma set_column_ok m c a b d e v :
  0 <= c < 4 -> length m = 16%nat -> Forall is_byte [a; b; d; e] -> v = le_value [a; b; d; e] ->
  set_column m c v = Ok (splice m (4 * c) [a; b; d; e]).
Proof.
  intros Hc Hl Hb ->. split_bytes. unfold set_column, wr_le32, wr_range.
  rewrite le32_value by done. cbn [length]. rewrite !(proj2 (Z.leb_le _ _)) by lia. done.
Qed.

Lemma addroundkey_ok s k : block s -> block k -> aes_addroundkey s k = Ok (xor s k).
Proof.
  intros [Hs Hsb] [Hk Hkb].
  destruct (sixteen _ Hs) as (s0 & s1 & s2 & s3 & s4 & s5 & s6 & s7 & s8 & s9 & s10 & s11 & s12 & s13 & s14 & s15 & ->).
  destruct (sixteen _ Hk) as (k0 & k1 & k2 & k3 & k4 & k5 & k6 & k7 & k8 & k9 & k10 & k11 & k12 & k13 & k14 & k15 & ->). split_bytes.
  assert (Hcol : forall state key c a b d e a' b' d' e',
    0 <= c < 4 -> length state = 16%nat ->
    column state c = Ok (le_value [a; b; d; e]) -> column key c = Ok (le_value [a'; b'; d'; e']) ->
    Forall is_byte [a; b; d; e] -> Forall is_byte [a'; b'; d'; e'] ->
    addroundkey_column state key c =
      Ok (splice state (4 * c) [Z.lxor a a'; Z.lxor b b'; Z.lxor d d'; Z.lxor e e'])).
  { intros * Hc Hl Es Ek Hb Hb'. unfold addroundkey_column. rewrite Es, Ek. cbn [mbind res_bind].
    apply set_column_ok; [done | done | | by apply le_value_lxor]. split_bytes. solve_bytes. }
  unfold aes_addroundkey.
  rewrite (Hcol _ _ 0 s0 s1 s2 s3 k0 k1 k2 k3) by first [lia | done | solve_bytes]. cbn [mbind res_bind].
  rewrite (Hcol _ _ 1 s4 s5 s6 s7 k4 k5 k6 k7) by first [lia | done | solve_bytes]. cbn [mbind res_bind].
  rewrite (Hcol _ _ 2 s8 s9 s10 s11 k8 k9 k10 k11) by first [lia | done | solve_bytes]. cbn [mbind res_bind].
  rewrite (Hcol _ _ 3 s12 s13 s14 s15 k12 k13 k14 k15) by first [lia | done | solve_bytes]. reflexivity.
Qed.

Section Table.
Context (table : aes_table) (stride : Z) (f m1 m2 m3 m4 : Z -> Z) (dom : Z -> Prop).
Hypothesis Hentry : forall b, dom b -> entry table b = Ok (multiples m1 m2 m3 m4 (f b)).
Hypothesis Hf : forall b, dom b -> is_byte (f b).
Hypothesis Hm : forall b, is_byte b -> Forall is_byte (multiples m1 m2 m3 m4 b).

Lemma aes_column_ok s o b :
  rd s (Z.land (stride * o) 15) = Ok b -> dom b ->
  aes_column table stride s o = aes_entry_column (multiples m1 m2 m3 m4 (f b)) (Z.land o 3).
Proof using Hentry. intros Hb Hd. unfold aes_column. rewrite Hb. cbn [mbind res_bind]. by rewrite Hentry. Qed.

(** A column of the output, from the four input bytes it depends on. *)
Lemma aes_output_ok s key c b0 b1 b2 b3 k0 k1 k2 k3 :
  rd s (Z.land (stride * (c * 4 + 0)) 15) = Ok b0 -> rd s (Z.land (stride * (c * 4 + 1)) 15) = Ok b1 ->
  rd s (Z.land (stride * (c * 4 + 2)) 15) = Ok b2 -> rd s (Z.land (stride * (c * 4 + 3)) 15) = Ok b3 ->
  column key c = Ok (le_value [k0; k1; k2; k3]) ->
  Forall dom [b0; b1; b2; b3] -> Forall is_byte [k0; k1; k2; k3] ->
  aes_output table stride s key c =
    Ok (le_value (xor (circulant m1 m2 m3 m4 (f b0) (f b1) (f b2) (f b3)) [k0; k1; k2; k3])).
Proof using Hentry Hf Hm.
  intros H0 H1 H2 H3 Hk Hd HK. rewrite !Forall_cons in Hd. destruct Hd as (D0 & D1 & D2 & D3 & _).
  unfold aes_output. erewrite !aes_column_ok by done. rewrite Hk.
  pose proof (Hm _ (Hf _ D0)) as F0. pose proof (Hm _ (Hf _ D1)) as F1.
  pose proof (Hm _ (Hf _ D2)) as F2. pose proof (Hm _ (Hf _ D3)) as F3.
  unfold multiples in *. split_bytes.
  assert (E : forall j, 0 <= j < 4 -> Z.land (c * 4 + j) 3 = j).
  { intros j Hj. change 3 with (2 ^ 2 - 1). rewrite land_mask by lia. pow2_consts. Z.div_mod_to_equations; lia. }
  rewrite !E by lia.
  transitivity (Ok (Z.lxor (Z.lxor (Z.lxor (Z.lxor
    (le_value [m4 (f b0); m1 (f b0); m2 (f b0); m3 (f b0)]) (le_value [m3 (f b1); m4 (f b1); m1 (f b1); m2 (f b1)]))
    (le_value [m2 (f b2); m3 (f b2); m4 (f b2); m1 (f b2)])) (le_value [m1 (f b3); m2 (f b3); m3 (f b3); m4 (f b3)]))
    (le_value [k0; k1; k2; k3]))); [reflexivity |]. f_equal.
  rewrite !le_value_lxor by solve_bytes. reflexivity.
Qed.

Lemma circulant_bytes a b c d :
  is_byte a -> is_byte b -> is_byte c -> is_byte d -> Forall is_byte (circulant m1 m2 m3 m4 a b c d).
Proof using Hm.
  intros Ha Hb Hc Hd. apply Hm in Ha, Hb, Hc, Hd. unfold multiples in *. split_bytes.
  unfold circulant. solve_bytes.
Qed.

(** A column of the round. *)
Lemma round_column s key out c b0 b1 b2 b3 k0 k1 k2 k3 :
  0 <= c < 4 -> length out = 16%nat ->
  rd s (Z.land (stride * (c * 4 + 0)) 15) = Ok b0 -> rd s (Z.land (stride * (c * 4 + 1)) 15) = Ok b1 ->
  rd s (Z.land (stride * (c * 4 + 2)) 15) = Ok b2 -> rd s (Z.land (stride * (c * 4 + 3)) 15) = Ok b3 ->
  column key c = Ok (le_value [k0; k1; k2; k3]) ->
  Forall dom [b0; b1; b2; b3] -> Forall is_byte [k0; k1; k2; k3] ->
  (o ← aes_output table stride s key c; set_column out c o) =
    Ok (splice out (4 * c) (xor (circulant m1 m2 m3 m4 (f b0) (f b1) (f b2) (f b3)) [k0; k1; k2; k3])).
Proof using Hentry Hf Hm.
  intros. erewrite aes_output_ok by done. cbn [mbind res_bind].
  apply set_column_ok; [done | done | | done].
  match goal with H : Forall dom _ |- _ => rewrite !Forall_cons in H; destruct H as (D0 & D1 & D2 & D3 & _) end.
  pose proof (circulant_bytes _ _ _ _ (Hf _ D0) (Hf _ D1) (Hf _ D2) (Hf _ D3)) as HC.
  unfold circulant in HC. split_bytes. solve_bytes.
Qed.

Lemma bind_column s key out c out' {A} (K : bytes -> res A) :
  (o ← aes_output table stride s key c; set_column out c o) = Ok out' ->
  (o ← aes_output table stride s key c; out ← set_column out c o; K out) = K out'.
Proof. intros E. ok_inv E. cbn [mbind res_bind]. by rewrite E. Qed.

Lemma aes_round_ok s out key :
  length s = 16%nat -> Forall dom (permute stride s) -> length out = 16%nat -> block key ->
  aes_round table stride s out key = Ok (xor (circulants m1 m2 m3 m4 (f <$> permute stride s)) key).
Proof using Hentry Hf Hm.
  intros Hs Hd Ho [Hk Hkb]. pose proof (fun o => permute_rd stride s o Hs) as Hrd.
  destruct (sixteen _ (length_permute stride s)) as (p0 & p1 & p2 & p3 & p4 & p5 & p6 & p7 & p8 & p9 & p10 & p11 & p12 & p13 & p14 & p15 & Ep). rewrite Ep in *.
  destruct (sixteen _ Hk) as (k0 & k1 & k2 & k3 & k4 & k5 & k6 & k7 & k8 & k9 & k10 & k11 & k12 & k13 & k14 & k15 & ->).
  destruct (sixteen _ Ho) as (o0 & o1 & o2 & o3 & o4 & o5 & o6 & o7 & o8 & o9 & o10 & o11 & o12 & o13 & o14 & o15 & ->).
  rewrite !Forall_cons in Hd. destruct_and! Hd. split_bytes. unfold aes_round.
  erewrite bind_column; [| apply (round_column s _ _ 0 p0 p1 p2 p3 k0 k1 k2 k3);
    [lia | done | apply Hrd; lia.. | done | by repeat constructor | solve_bytes]].
  erewrite bind_column; [| apply (round_column s _ _ 1 p4 p5 p6 p7 k4 k5 k6 k7);
    [lia | done | apply Hrd; lia.. | done | by repeat constructor | solve_bytes]].
  erewrite bind_column; [| apply (round_column s _ _ 2 p8 p9 p10 p11 k8 k9 k10 k11);
    [lia | done | apply Hrd; lia.. | done | by repeat constructor | solve_bytes]].
  etransitivity; [apply (round_column s _ _ 3 p12 p13 p14 p15 k12 k13 k14 k15);
    [lia | done | apply Hrd; lia.. | done | by repeat constructor | solve_bytes] |].
  reflexivity.
Qed.

(** The final round has no matrix. *)
Lemma final_loop_ok n j s done out :
  length s = 16%nat -> Forall dom (permute stride s) -> (j + n = 16)%nat ->
  done = take j (f <$> permute stride s) -> length out = n ->
  final_loop n table stride (Z.of_nat j) (Z.land (stride * Z.of_nat j) 15) s (done ++ out) =
    Ok (f <$> permute stride s).
Proof using Hentry.
  intros Hs Hd. revert j done out. induction n as [| n IH]; intros j done out Hj -> Ho.
  { apply nil_length_inv in Ho as ->. cbn [final_loop]. rewrite app_nil_r, take_ge; [reflexivity |].
    rewrite length_fmap, length_permute. lia. }
  destruct out as [| x out]; [discriminate Ho |]. cbn [final_loop]. rewrite permute_rd by lia.
  cbn [mbind res_bind]. rewrite Nat2Z.id.
  destruct (lookup_lt_is_Some_2 (permute stride s) j) as [b Hb]; [rewrite length_permute; lia |].
  rewrite (nth_lookup_Some _ _ _ _ Hb), Hentry by (by eapply Forall_lookup_1). cbn [mbind res_bind].
  change (rd (multiples m1 m2 m3 m4 (f b)) 0) with (@Ok Z (f b)). cbn [mbind res_bind].
  rewrite wr_app_r by (rewrite length_take, length_fmap, length_permute; lia). cbn [mbind res_bind].
  replace (Z.of_nat j + 1) with (Z.of_nat (S j)) by lia.
  replace (Z.land (Z.land (stride * Z.of_nat j) 15 + stride) 15) with (Z.land (stride * Z.of_nat (S j)) 15).
  2: { change 15 with (2 ^ 4 - 1). rewrite !land_mask, Zplus_mod_idemp_l by lia. f_equal. lia. }
  rewrite cons_middle, app_assoc. apply IH; [lia | | by injection Ho].
  symmetry. apply take_S_r. by rewrite list_lookup_fmap, Hb.
Qed.

Lemma aes_final_ok s out key :
  length s = 16%nat -> Forall dom (permute stride s) -> length out = 16%nat -> block key ->
  aes_final table stride s out key = Ok (xor (f <$> permute stride s) key).
Proof using Hentry Hf.
  intros Hs Hd Ho Hk. unfold aes_final.
  pose proof (final_loop_ok 16 0 s [] out Hs Hd) as E. cbn [app] in E.
  rewrite Z.mul_0_r, Z.land_0_l in E. change (Z.of_nat 0) with 0 in E. rewrite E by done. cbn [mbind res_bind].
  apply addroundkey_ok; [| done]. split; [by rewrite length_fmap, length_permute |].
  apply Forall_fmap. by eapply Forall_impl.
Qed.
End Table.

(** ** Field arithmetic *)

Lemma xtime_byte : forall b, is_byte b -> is_byte (xtime b).
Proof. refine (byte_cases _ _). vm_compute. reflexivity. Qed.

Lemma xtime_lxor a b : is_byte a -> is_byte b -> xtime (Z.lxor a b) = Z.lxor (xtime a) (xtime b).
Proof.
  revert a b. assert (H : forall a, is_byte a -> Forall (fun n => xtime (Z.lxor a (Z.of_nat n)) =
    Z.lxor (xtime a) (xtime (Z.of_nat n))) (seq 0 256)).
  { refine (byte_cases _ _). vm_compute. reflexivity. }
  intros a b Ha Hb. unfold in_range in Hb. specialize (H a Ha). rewrite Forall_forall in H.
  rewrite <- (Z2Nat.id b) by lia. apply H, elem_of_seq. lia.
Qed.

Lemma iter_xtime_byte i b : is_byte b -> is_byte (Nat.iter i xtime b).
Proof. intros. induction i; [done | by apply xtime_byte]. Qed.

Lemma iter_xtime_lxor i a b :
  is_byte a -> is_byte b -> Nat.iter i xtime (Z.lxor a b) = Z.lxor (Nat.iter i xtime a) (Nat.iter i xtime b).
Proof.
  intros Ha Hb. induction i as [| i IH]; [done |]. cbn [Nat.iter nat_rect]. change (nat_rect _ ?x _ i) with (Nat.iter i xtime x).
  rewrite IH. by apply xtime_lxor; apply iter_xtime_byte.
Qed.

(** Identities of exclusive or, bit by bit. *)
Ltac lxor_ac := apply Z.bits_inj'; intros ? _; rewrite ?Z.lxor_spec, ?Z.bits_0; btauto.

Lemma gmul_lxor c a b : is_byte a -> is_byte b -> gmul c (Z.lxor a b) = Z.lxor (gmul c a) (gmul c b).
Proof.
  intros Ha Hb. unfold gmul. induction (seq 0 8) as [| i l IH]; [done |]. cbn [foldr].
  destruct (Z.testbit c (Z.of_nat i)); [| done]. rewrite IH, iter_xtime_lxor by done. lxor_ac.
Qed.

(** ** The inverse matrix *)

Definition InvMixColumns : bytes -> bytes := circulants (gmul 9) (gmul 13) (gmul 11) (gmul 14).

Lemma mix_columns_circulants s : circulants (fun x => x) (fun x => x) (gmul 3) (gmul 2) s = MixColumns s.
Proof. reflexivity. Qed.

(** The products of the two matrices, entry by entry. *)
Lemma matrix_diagonal : forall x, is_byte x ->
  Z.lxor (Z.lxor (Z.lxor (gmul 14 (gmul 2 x)) (gmul 11 x)) (gmul 13 x)) (gmul 9 (gmul 3 x)) = x.
Proof. refine (byte_cases _ _). vm_compute. reflexivity. Qed.

Lemma matrix_off_1 : forall x, is_byte x ->
  Z.lxor (Z.lxor (Z.lxor (gmul 14 (gmul 3 x)) (gmul 11 (gmul 2 x))) (gmul 13 x)) (gmul 9 x) = 0.
Proof. refine (byte_cases _ _). vm_compute. reflexivity. Qed.

Lemma matrix_off_2 : forall x, is_byte x ->
  Z.lxor (Z.lxor (Z.lxor (gmul 14 x) (gmul 11 (gmul 3 x))) (gmul 13 (gmul 2 x))) (gmul 9 x) = 0.
Proof. refine (byte_cases _ _). vm_compute. reflexivity. Qed.

Lemma matrix_off_3 : forall x, is_byte x ->
  Z.lxor (Z.lxor (Z.lxor (gmul 14 x) (gmul 11 x)) (gmul 13 (gmul 3 x))) (gmul 9 (gmul 2 x)) = 0.
Proof. refine (byte_cases _ _). vm_compute. reflexivity. Qed.

Lemma gmul_23_byte b : is_byte b -> is_byte (gmul 2 b) /\ is_byte (gmul 3 b).
Proof. split; (apply gmul_byte; [| done]); apply list_elem_of_In; cbn; tauto. Qed.

Lemma mix_column_inverse a b c d :
  is_byte a -> is_byte b -> is_byte c -> is_byte d ->
  InvMixColumns (MixColumn a b c d) = [a; b; c; d].
Proof.
  intros Ha Hb Hc Hd. unfold InvMixColumns, MixColumn. cbn [circulants app]. unfold circulant.
  destruct (gmul_23_byte a Ha), (gmul_23_byte b Hb), (gmul_23_byte c Hc), (gmul_23_byte d Hd).
  rewrite !gmul_lxor by auto 10 with ipxe.
  assert (Hrow : forall x p q r y, is_byte x -> is_byte p -> is_byte q -> is_byte r ->
    y = Z.lxor (Z.lxor (Z.lxor
      (Z.lxor (Z.lxor (Z.lxor (gmul 14 (gmul 2 x)) (gmul 11 x)) (gmul 13 x)) (gmul 9 (gmul 3 x)))
      (Z.lxor (Z.lxor (Z.lxor (gmul 14 (gmul 3 p)) (gmul 11 (gmul 2 p))) (gmul 13 p)) (gmul 9 p)))
      (Z.lxor (Z.lxor (Z.lxor (gmul 14 q) (gmul 11 (gmul 3 q))) (gmul 13 (gmul 2 q))) (gmul 9 q)))
      (Z.lxor (Z.lxor (Z.lxor (gmul 14 r) (gmul 11 r)) (gmul 13 (gmul 3 r))) (gmul 9 (gmul 2 r))) -> y = x).
  { intros x p q r y Hx Hp Hq Hr ->.
    by rewrite matrix_diagonal, matrix_off_1, matrix_off_2, matrix_off_3, !Z.lxor_0_r by done. }
  apply (f_equal2 cons); [apply (Hrow a b c d); try done; lxor_ac |].
  apply (f_equal2 cons); [apply (Hrow b c d a); try done; lxor_ac |].
  apply (f_equal2 cons); [apply (Hrow c d a b); try done; lxor_ac |].
  apply (f_equal2 cons); [apply (Hrow d a b c); try done; lxor_ac | done].
Qed.

(** ** Blocks *)

Lemma block_xor a b : block a -> block b -> block (xor a b).
Proof.
  intros [Ha Fa] [Hb Fb]. unfold xor. split; [rewrite length_zip_with; lia |].
  apply Forall_forall. intros x Hx. apply elem_of_lookup_zip_with in Hx as (i & y & z & -> & Hy & Hz).
  apply lxor_byte; [exact (Forall_lookup_1 _ _ _ _ Fa Hy) | exact (Forall_lookup_1 _ _ _ _ Fb Hz)].
Qed.

Lemma xor_xor a b : length a = length b -> xor (xor a b) b = a.
Proof.
  unfold xor. revert b. induction a as [| x a IH]; intros [| y b] Hl; try done. cbn [zip_with].
  rewrite IH by (by injection Hl). by rewrite Z.lxor_assoc, Z.lxor_nilpotent, Z.lxor_0_r.
Qed.

Lemma xor_zero a n : length a = n -> xor a (replicate n 0) = a.
Proof.
  intros <-. unfold xor. induction a as [| x a IH]; [done |]. cbn [length replicate zip_with].
  by rewrite IH, Z.lxor_0_r.
Qed.

Lemma circulants_block m1 m2 m3 m4 s :
  (forall b, is_byte b -> Forall is_byte (multiples m1 m2 m3 m4 b)) ->
  block s -> block (circulants m1 m2 m3 m4 s).
Proof.
  intros Hm [Hs Fs]. destruct (sixteen _ Hs) as (a0 & a1 & a2 & a3 & a4 & a5 & a6 & a7 & a8 & a9 & a10 & a11 & a12 & a13 & a14 & a15 & ->). split; [done |]. split_bytes.
  cbn [circulants]. rewrite !Forall_app.
  split_and!; try apply Forall_nil_2; apply circulant_bytes; auto.
Qed.

Lemma mix_multiples b : is_byte b -> Forall is_byte (multiples (fun x => x) (fun x => x) (gmul 3) (gmul 2) b).
Proof. intros Hb. destruct (gmul_23_byte b Hb). unfold multiples. solve_bytes. Qed.

Lemma inv_multiples b : is_byte b -> Forall is_byte (multiples (gmul 9) (gmul 13) (gmul 11) (gmul 14) b).
Proof.
  intros Hb. unfold multiples. assert (H : forall c, c ∈ [9; 11; 13; 14] -> is_byte (gmul c b)).
  { intros c Hc. apply gmul_byte; [| done]. do 2 right. done. }
  solve_bytes; apply H, list_elem_of_In; cbn; tauto.
Qed.

Lemma block_mix s : block s -> block (MixColumns s).
Proof. rewrite <- mix_columns_circulants. apply circulants_block, mix_multiples. Qed.

Lemma block_inv_mix s : block s -> block (InvMixColumns s).
Proof. apply circulants_block, inv_multiples. Qed.

Lemma inv_mix_mix s : block s -> InvMixColumns (MixColumns s) = s.
Proof.
  intros [Hs Fs]. destruct (sixteen _ Hs) as (a0 & a1 & a2 & a3 & a4 & a5 & a6 & a7 & a8 & a9 & a10 & a11 & a12 & a13 & a14 & a15 & ->). split_bytes.
  transitivity (InvMixColumns (MixColumn a0 a1 a2 a3) ++ InvMixColumns (MixColumn a4 a5 a6 a7) ++
    InvMixColumns (MixColumn a8 a9 a10 a11) ++ InvMixColumns (MixColumn a12 a13 a14 a15)); [reflexivity |].
  by rewrite !mix_column_inverse by done.
Qed.

Lemma inv_mix_xor s k : block s -> block k -> InvMixColumns (xor s k) = xor (InvMixColumns s) (InvMixColumns k).
Proof.
  intros [Hs Fs] [Hk Fk]. destruct (sixteen _ Hs) as (a0 & a1 & a2 & a3 & a4 & a5 & a6 & a7 & a8 & a9 & a10 & a11 & a12 & a13 & a14 & a15 & ->). destruct (sixteen _ Hk) as (b0 & b1 & b2 & b3 & b4 & b5 & b6 & b7 & b8 & b9 & b10 & b11 & b12 & b13 & b14 & b15 & ->).
  split_bytes. unfold xor, InvMixColumns. cbn [zip_with circulants app]. unfold circulant. cbn [zip_with circulants app].
  rewrite !gmul_lxor by done. repeat (apply (f_equal2 cons); [lxor_ac |]). done.
Qed.

(** ** Permutations of a block *)

Lemma permute_fmap g s : length s = 16%nat -> permute 5 (g <$> s) = g <$> permute 5 s.
Proof. intros Hs. destruct (sixteen _ Hs) as (a0 & a1 & a2 & a3 & a4 & a5 & a6 & a7 & a8 & a9 & a10 & a11 & a12 & a13 & a14 & a15 & ->). reflexivity. Qed.

Lemma shift_rows_permute s : ShiftRows s = permute 5 s.
Proof. reflexivity. Qed.

Lemma permute_inverse s : length s = 16%nat -> permute (-3) (permute 5 s) = s.
Proof. intros Hs. destruct (sixteen _ Hs) as (a0 & a1 & a2 & a3 & a4 & a5 & a6 & a7 & a8 & a9 & a10 & a11 & a12 & a13 & a14 & a15 & ->). reflexivity. Qed.

Lemma permute_bytes stride s : block s -> block (permute stride s).
Proof.
  intros [Hs Fs]. split; [done |]. unfold permute. apply Forall_fmap, Forall_forall. intros n _. cbn.
  rewrite nth_lookup. destruct (s !! _) as [v |] eqn:Hv; cbn; [| unfold in_range; lia].
  exact (Forall_lookup_1 _ _ _ _ Fs Hv).
Qed.

(** The tables and the field operations are used through the lemmas above. *)
#[global] Opaque tables SBox gmul.
