(* ===== verification/AesCorrect.v ===== *)
(** * Correctness of AES

    Key expansion, encryption and decryption of [Aes] against the reference
    cipher of [AesTables], for every key and every block. *)

From Stdlib Require Import ZArith Lia Bool ZifyBool.
From stdpp Require Import base numbers list.
From S2P Require Import Prelude Bits Aes AesTables.

Import Fips197.
Local Open Scope Z_scope.

(** ** Rounds of the generated tables *)

(** [ShiftRows] and [SubBytes], in either order. *)
Definition shift_sub (s : bytes) : bytes := ShiftRows (SubBytes s).

(** The inverse S-box of the second table. *)
Definition inv_sbox (b : Z) : Z :=
  match entry (aes_invmixcolumns tables) b with Ok (x :: _) => x | _ => 0 end.

Lemma inv_sbox_sbox b : is_byte b -> inv_sbox (SBox b) = b.
Proof. intros Hb. unfold inv_sbox. by rewrite inv_entry. Qed.

Lemma block_shift_sub s : block s -> block (shift_sub s).
Proof.
  intros [Hs Fs]. unfold shift_sub. rewrite shift_rows_permute. apply permute_bytes.
  unfold SubBytes. split; [by rewrite length_fmap |]. apply Forall_fmap. eapply Forall_impl; [exact Fs | apply sbox_byte].
Qed.

Lemma block_round s k : block s -> block k -> block (Round s k).
Proof. intros. by apply block_xor; [apply block_mix, block_shift_sub |]. Qed.

Lemma shift_sub_map s : length s = 16%nat -> shift_sub s = SBox <$> permute 5 s.
Proof. intros. unfold shift_sub. rewrite shift_rows_permute. by apply permute_fmap. Qed.

Lemma encrypt_round_ok s out k :
  block s -> length out = 16%nat -> block k ->
  aes_round (aes_mixcolumns tables) AES_STRIDE_SHIFTROWS s out k = Ok (Round s k).
Proof.
  intros Hs Ho Hk. unfold Round, AddRoundKey.
  rewrite <- mix_columns_circulants. fold (shift_sub s). rewrite shift_sub_map by apply Hs.
  apply (aes_round_ok _ _ SBox _ _ _ _ is_byte); auto using mix_entry, sbox_byte, mix_multiples; [apply Hs |].
  by apply permute_bytes.
Qed.

Lemma encrypt_final_ok s out k :
  block s -> length out = 16%nat -> block k ->
  aes_final (aes_mixcolumns tables) AES_STRIDE_SHIFTROWS s out k = Ok (xor (shift_sub s) k).
Proof.
  intros Hs Ho Hk. rewrite shift_sub_map by apply Hs.
  apply (aes_final_ok _ _ SBox (fun x => x) (fun x => x) (gmul 3) (gmul 2) is_byte);
    auto using mix_entry, sbox_byte; [apply Hs |].
  by apply permute_bytes.
Qed.

(** The inverse table is used on bytes that an S-box produced. *)
Definition sboxed (b : Z) : Prop := exists x, is_byte x /\ b = SBox x.

Lemma permute_shift_sub s : block s ->
  Forall sboxed (permute (-3) (shift_sub s)) /\ inv_sbox <$> permute (-3) (shift_sub s) = s.
Proof.
  intros [Hs Fs]. unfold shift_sub. rewrite shift_rows_permute. unfold SubBytes. rewrite permute_inverse by (by rewrite length_fmap).
  split.
  - apply Forall_fmap. eapply Forall_impl; [exact Fs |]. intros x Hx. by exists x.
  - rewrite <- list_fmap_compose. rewrite <- (list_fmap_id s) at 2. apply list_fmap_ext. intros i x Hx. cbn.
    apply inv_sbox_sbox. exact (Forall_lookup_1 _ _ _ _ Fs Hx).
Qed.

Lemma inv_table_entry b : sboxed b ->
  entry (aes_invmixcolumns tables) b = Ok (multiples (gmul 9) (gmul 13) (gmul 11) (gmul 14) (inv_sbox b)).
Proof. intros (x & Hx & ->). by rewrite inv_entry, inv_sbox_sbox. Qed.

Lemma inv_sbox_byte b : sboxed b -> is_byte (inv_sbox b).
Proof. intros (x & Hx & ->). by rewrite inv_sbox_sbox. Qed.

Lemma decrypt_round_ok s out k :
  block s -> length out = 16%nat -> block k ->
  aes_round (aes_invmixcolumns tables) AES_STRIDE_INVSHIFTROWS (shift_sub s) out k = Ok (xor (InvMixColumns s) k).
Proof.
  intros Hs Ho Hk. destruct (permute_shift_sub s Hs) as [Hd E]. rewrite <- E at 2. unfold InvMixColumns.
  apply (aes_round_ok _ _ inv_sbox _ _ _ _ sboxed); auto using inv_table_entry, inv_sbox_byte, inv_multiples.
Qed.

Lemma decrypt_final_ok s out k :
  block s -> length out = 16%nat -> block k ->
  aes_final (aes_invmixcolumns tables) AES_STRIDE_INVSHIFTROWS (shift_sub s) out k = Ok (xor s k).
Proof.
  intros Hs Ho Hk. destruct (permute_shift_sub s Hs) as [Hd E]. rewrite <- E at 2.
  apply (aes_final_ok _ _ inv_sbox (gmul 9) (gmul 13) (gmul 11) (gmul 14) sboxed);
    auto using inv_table_entry, inv_sbox_byte.
Qed.

(** ** Sequences of rounds *)

(** The buffers alternate, so after an odd number of rounds the result is in the
    buffer passed as the output. *)
Lemma aes_rounds_trace table stride keys n key (st : nat -> bytes) out :
  (forall i, (i <= n)%nat -> exists k, round_key keys (key + Z.of_nat i) = Ok k /\
     forall out, length out = 16%nat -> aes_round table stride (st i) out k = Ok (st (S i))) ->
  (forall i, (i <= S n)%nat -> length (st i) = 16%nat) -> length out = 16%nat ->
  exists x y, aes_rounds table stride (S n) (st 0%nat) out keys key = Ok (x, y) /\
    (if Nat.even n then y else x) = st (S n).
Proof.
  revert key st out. induction n as [| n IH]; intros key st out Hround Hlen Ho.
  - destruct (Hround 0%nat) as (k & Ek & Er); [lia |]. rewrite Z.add_0_r in Ek.
    exists (st 0%nat), (st 1%nat). split; [| done]. cbn [aes_rounds]. rewrite Ek. cbn [mbind res_bind].
    by rewrite Er.
  - destruct (Hround 0%nat) as (k & Ek & Er); [lia |]. rewrite Z.add_0_r in Ek.
    destruct (IH (key + 1) (fun i => st (S i)) (st 0%nat)) as (x & y & E & Hres).
    { intros i Hi. destruct (Hround (S i)) as (k' & Ek' & Er'); [lia |]. exists k'. split; [| done].
      rewrite <- Ek'. f_equal. lia. }
    { intros i Hi. apply Hlen. lia. }
    { apply Hlen. lia. }
    exists y, x. split.
    + change (aes_rounds table stride (S (S n)) (st 0%nat) out keys key) with
        (k ← round_key keys key; out ← aes_round table stride (st 0%nat) out k;
         '(inp', out') ← aes_rounds table stride (S n) out (st 0%nat) keys (key + 1); Ok (out', inp')).
      rewrite Ek. cbn [mbind res_bind]. rewrite Er by done. cbn [mbind res_bind]. by rewrite E.
    + rewrite Nat.even_succ, <- Nat.negb_even. by destruct (Nat.even n).
Qed.

(** The round keys a context holds for encryption and decryption. *)
Definition decrypt_key (rk : nat -> bytes) (Nr i : nat) : bytes :=
  if (i =? 0)%nat then rk Nr else if (i =? Nr)%nat then rk 0%nat else InvMixColumns (rk (Nr - i)%nat).

Record keyed (aes : aes_context) (Nr : nat) (rk : nat -> bytes) : Prop := {
  keyed_rounds : rounds aes = Z.of_nat (S Nr);
  keyed_Nr : (2 <= Nr)%nat /\ Nat.even Nr = true;
  keyed_block i : (i <= Nr)%nat -> block (rk i);
  keyed_encrypt i : (i <= Nr)%nat -> round_key (encrypt aes) (Z.of_nat i) = Ok (rk i);
  keyed_decrypt i : (i <= Nr)%nat -> round_key (decrypt aes) (Z.of_nat i) = Ok (decrypt_key rk Nr i)
}.

(** The state after [i] rounds. *)
Definition enc_state (rk : nat -> bytes) (b : bytes) (i : nat) : bytes :=
  foldl (fun s r => Round s (rk r)) (xor b (rk 0%nat)) (seq 1 i).

Lemma enc_state_S rk b i : enc_state rk b (S i) = Round (enc_state rk b i) (rk (S i)).
Proof. unfold enc_state. by rewrite seq_S, foldl_app. Qed.

Lemma rd_block b : block b -> rd_range b 0 16 = Ok b.
Proof.
  intros [Hb _]. unfold rd_range, slice. rewrite Hb. cbn [andb Z.leb]. f_equal.
  change (Z.to_nat 0) with 0%nat. rewrite skipn_O. apply take_ge. rewrite Hb. done.
Qed.

Lemma round_key_at keys (f : nat -> bytes) {Nr} :
  (forall i, (i <= Nr)%nat -> round_key keys (Z.of_nat i) = Ok (f i)) ->
  forall i z, z = Z.of_nat i -> (i <= Nr)%nat -> round_key keys z = Ok (f i).
Proof. intros H i z ->. apply H. Qed.

Section Keyed.
Context (aes : aes_context) (Nr : nat) (rk : nat -> bytes) (Hkeyed : keyed aes Nr rk).

Lemma enc_state_block b i : block b -> (i <= Nr)%nat -> block (enc_state rk b i).
Proof using Hkeyed.
  intros Hb. induction i as [| i IH]; intros Hi.
  - apply block_xor; [done | apply (keyed_block _ _ _ Hkeyed); lia].
  - rewrite enc_state_S. apply block_round; [apply IH; lia | apply (keyed_block _ _ _ Hkeyed); lia].
Qed.

Lemma aes_encrypt_ok b dst :
  block b -> length dst = 16%nat ->
  aes_encrypt tables aes b dst = Ok (xor (shift_sub (enc_state rk b (Nr - 1))) (rk Nr)).
Proof using Hkeyed.
  intros Hb Hd. pose proof (enc_state_block b) as Hst.
  destruct Hkeyed as [HR [HN Heven] Hblk Henc _]. unfold aes_encrypt.
  rewrite rd_block by done. cbn [mbind res_bind]. rewrite (round_key_at _ _ Henc 0 0) by lia. cbn [mbind res_bind].
  rewrite addroundkey_ok by auto with lia. cbn [mbind res_bind].
  replace (Z.to_nat (rounds aes - 2)) with (S (Nr - 2)) by lia.
  destruct (aes_rounds_trace (aes_mixcolumns tables) AES_STRIDE_SHIFTROWS (encrypt aes) (Nr - 2) 1
    (enc_state rk b) automatic) as (x & y & E & Hres).
  - intros i Hi. exists (rk (S i)). split; [apply (round_key_at _ _ Henc); lia |].
    intros out Ho. rewrite enc_state_S. apply encrypt_round_ok; [apply Hst; [done | lia] | done | apply Hblk; lia].
  - intros i Hi. apply Hst; [done | lia].
  - done.
  - change (enc_state rk b 0%nat) with (xor b (rk 0%nat)) in E. unfold aes_encrypt_rounds. rewrite E.
    cbn [mbind res_bind]. rewrite (round_key_at _ _ Henc Nr) by lia. cbn [mbind res_bind].
    assert (Nat.even (Nr - 2) = true) as Hev by (rewrite Nat.even_sub, Heven by lia; done).
    rewrite Hev in Hres. subst y. replace (S (Nr - 2)) with (Nr - 1)%nat by lia.
    apply encrypt_final_ok; [apply Hst; [done | lia] | done | apply Hblk; lia].
Qed.

Lemma decrypt_step b i :
  block b -> (S i < Nr)%nat ->
  xor (InvMixColumns (enc_state rk b (S i))) (InvMixColumns (rk (S i))) = shift_sub (enc_state rk b i).
Proof using Hkeyed.
  intros Hb Hi. pose proof (enc_state_block b i Hb ltac:(lia)) as He.
  pose proof (enc_state_block b (S i) Hb ltac:(lia)) as He'.
  pose proof (keyed_block _ _ _ Hkeyed (S i) ltac:(lia)) as Hk.
  rewrite <- inv_mix_xor by done. rewrite enc_state_S. unfold Round, AddRoundKey. fold (shift_sub (enc_state rk b i)).
  assert (Hm : block (MixColumns (shift_sub (enc_state rk b i)))) by (by apply block_mix, block_shift_sub).
  rewrite xor_xor by (rewrite (proj1 Hm), (proj1 Hk); done).
  by apply inv_mix_mix, block_shift_sub.
Qed.

Lemma aes_decrypt_ok b dst :
  block b -> length dst = 16%nat ->
  aes_decrypt tables aes (xor (shift_sub (enc_state rk b (Nr - 1))) (rk Nr)) dst = Ok b.
Proof using Hkeyed.
  intros Hb Hd. pose proof (enc_state_block b) as Hst. pose proof (decrypt_step b) as Hstep.
  destruct Hkeyed as [HR [HN Heven] Hblk _ Hdec]. unfold aes_decrypt.
  assert (Hs : forall i, (i <= Nr)%nat -> block (shift_sub (enc_state rk b i))) by (intros; apply block_shift_sub; auto).
  rewrite rd_block by (apply block_xor; [apply Hs; lia | apply Hblk; lia]). cbn [mbind res_bind].
  rewrite (round_key_at _ _ Hdec 0 0) by lia. cbn [mbind res_bind decrypt_key Nat.eqb].
  rewrite addroundkey_ok by (first [apply block_xor; [apply Hs; lia | apply Hblk; lia] | apply Hblk; lia]).
  rewrite xor_xor by (rewrite (proj1 (Hs (Nr - 1)%nat ltac:(lia))), (proj1 (Hblk Nr ltac:(lia))); done).
  cbn [mbind res_bind]. replace (Z.to_nat (rounds aes - 2)) with (S (Nr - 2)) by lia.
  destruct (aes_rounds_trace (aes_invmixcolumns tables) AES_STRIDE_INVSHIFTROWS (decrypt aes) (Nr - 2) 1
    (fun i => shift_sub (enc_state rk b (Nr - 1 - i))) automatic) as (x & y & E & Hres).
  - intros i Hi. exists (InvMixColumns (rk (S (Nr - 2 - i)))). split.
    { rewrite (round_key_at _ _ Hdec (S i)) by lia. unfold decrypt_key.
      rewrite !(proj2 (Nat.eqb_neq _ _)) by lia. do 3 f_equal. lia. }
    intros out Ho. replace (Nr - 1 - i)%nat with (S (Nr - 2 - i)) by lia.
    rewrite decrypt_round_ok by (first [done | apply Hst; [done | lia] | apply block_inv_mix, Hblk; lia]).
    rewrite Hstep by (first [done | lia]). do 3 f_equal. lia.
  - intros i Hi. apply Hs. lia.
  - done.
  - rewrite Nat.sub_0_r in E. unfold aes_decrypt_rounds. rewrite E. cbn [mbind res_bind].
    rewrite (round_key_at _ _ Hdec Nr) by lia. cbn [mbind res_bind].
    assert (Nat.even (Nr - 2) = true) as Hev by (rewrite Nat.even_sub, Heven by lia; done).
    rewrite Hev in Hres. subst y. replace (Nr - 1 - S (Nr - 2))%nat with 0%nat by lia.
    unfold decrypt_key. rewrite (proj2 (Nat.eqb_neq Nr 0)), Nat.eqb_refl by lia.
    rewrite decrypt_final_ok by (first [done | apply Hst; [done | lia] | apply Hblk; lia]).
    change (enc_state rk b 0%nat) with (xor b (rk 0%nat)).
    rewrite xor_xor by (rewrite (proj1 Hb), (proj1 (Hblk 0%nat ltac:(lia))); done). done.
Qed.
End Keyed.

(** ** Key columns as words *)

Abbreviation word w := (length w = 4%nat /\ Forall is_byte w).

Lemma four (l : bytes) : word l ->
  exists a b c d, l = [a; b; c; d] /\ is_byte a /\ is_byte b /\ is_byte c /\ is_byte d.
Proof.
  intros [Hl Hf]. destruct l as [| a [| b [| c [| d [| e l]]]]]; try (cbn [length] in Hl; discriminate Hl).
  split_bytes. by exists a, b, c, d.
Qed.

Lemma rol32_8 a b c d :
  is_byte a -> is_byte b -> is_byte c -> is_byte d ->
  rol32 (le_value [a; b; c; d]) 8 = le_value [d; a; b; c].
Proof.
  intros Ha Hb Hc Hd. unfold rol32, ROLx. rewrite Z.lor_comm, Z.lor_comm, !le_value_4.
  rewrite Z.shiftl_mul_pow2, Z.shiftr_div_pow2 by lia. change (32 - 8) with 24.
  unfold in_range in *.
  assert (E : (a + 2 ^ 8 * b + 2 ^ 16 * c + 2 ^ 24 * d) / 2 ^ 24 = d) by (pow2_consts; Z.div_mod_to_equations; lia).
  rewrite E, lor_disjoint by lia. unfold wrap. pow2_consts. Z.div_mod_to_equations; lia.
Qed.

Lemma ror32_8 a b c d :
  is_byte a -> is_byte b -> is_byte c -> is_byte d ->
  ror32 (le_value [a; b; c; d]) 8 = le_value [b; c; d; a].
Proof.
  intros Ha Hb Hc Hd. unfold ror32, RORx. rewrite Z.lor_comm, !le_value_4.
  rewrite Z.shiftl_mul_pow2, Z.shiftr_div_pow2 by lia. change (32 - 8) with 24.
  unfold in_range in *.
  assert (E : (a + 2 ^ 8 * b + 2 ^ 16 * c + 2 ^ 24 * d) / 2 ^ 8 = b + 2 ^ 8 * c + 2 ^ 16 * d)
    by (pow2_consts; Z.div_mod_to_equations; lia).
  rewrite E, lor_disjoint by (pow2_consts; lia). unfold wrap. pow2_consts. Z.div_mod_to_equations; lia.
Qed.

Lemma rd_cons_0 x l : rd (x :: l) 0 = Ok x.
Proof. done. Qed.

Lemma land_255 x : Z.land x 255 = x mod 2 ^ 8.
Proof. by apply (land_mask x 8). Qed.

Lemma land_not_255 x : Z.land x (Z.lnot 255) = x - x mod 2 ^ 8.
Proof. by apply (land_not_mask x 8). Qed.

Lemma key_sbox_step table a b c d n x rest :
  is_byte a -> is_byte b -> is_byte c -> is_byte d -> is_byte x -> entry table a = Ok (x :: rest) ->
  key_sbox_loop (S n) table (le_value [a; b; c; d]) = key_sbox_loop n table (le_value [d; x; b; c]).
Proof.
  intros Ha Hb Hc Hd Hx Ex. cbn [key_sbox_loop]. rewrite land_255, land_not_255.
  assert (E : le_value [a; b; c; d] mod 2 ^ 8 = a).
  { rewrite le_value_4. unfold in_range in *. pow2_consts. Z.div_mod_to_equations; lia. }
  rewrite E, Ex. cbn [mbind res_bind]. rewrite rd_cons_0. cbn [mbind res_bind]. f_equal.
  rewrite <- (rol32_8 x b c d) by done. f_equal. rewrite !le_value_4.
  replace (a + 2 ^ 8 * b + 2 ^ 16 * c + 2 ^ 24 * d - a) with ((b + 2 ^ 8 * c + 2 ^ 16 * d) * 2 ^ 8) by lia.
  rewrite lor_disjoint by (first [done | lia]). lia.
Qed.

Lemma aes_key_sbox_ok w : word w -> aes_key_sbox (aes_mixcolumns tables) (le_value w) = Ok (le_value (SubWord w)).
Proof.
  intros Hw. destruct (four w Hw) as (a & b & c & d & -> & Ha & Hb & Hc & Hd). unfold aes_key_sbox.
  assert (H : forall n a b c d, is_byte a -> is_byte b -> is_byte c -> is_byte d ->
    key_sbox_loop (S n) (aes_mixcolumns tables) (le_value [a; b; c; d]) =
      key_sbox_loop n (aes_mixcolumns tables) (le_value [d; SBox a; b; c])).
  { intros. eapply key_sbox_step; [.. | by apply mix_entry]; by try apply sbox_byte. }
  rewrite !H by auto using sbox_byte. done.
Qed.

Lemma aes_key_rotate_ok w : word w -> aes_key_rotate (le_value w) = le_value (RotWord w).
Proof. intros Hw. destruct (four w Hw) as (a & b & c & d & -> & ? & ? & ? & ?). by apply ror32_8. Qed.

Lemma word_xor a b : word a -> word b -> word (xor a b) /\ Z.lxor (le_value a) (le_value b) = le_value (xor a b).
Proof.
  intros Ha Hb. destruct (four a Ha) as (? & ? & ? & ? & -> & ? & ? & ? & ?).
  destruct (four b Hb) as (? & ? & ? & ? & -> & ? & ? & ? & ?).
  split; [| apply le_value_lxor; solve_bytes]. split; [done |]. cbn [xor zip_with]. solve_bytes.
Qed.

Lemma word_sub w : word w -> word (SubWord w).
Proof.
  intros Hw. destruct (four w Hw) as (? & ? & ? & ? & -> & ? & ? & ? & ?). split; [done |].
  cbn [SubWord fmap list_fmap]. solve_bytes; by apply sbox_byte.
Qed.

Lemma word_rot w : word w -> word (RotWord w).
Proof.
  intros Hw. destruct (four w Hw) as (? & ? & ? & ? & -> & ? & ? & ? & ?). split; [done |].
  cbn [RotWord take drop app]. solve_bytes.
Qed.

Lemma rot_sub w : word w -> RotWord (SubWord w) = SubWord (RotWord w).
Proof. intros Hw. by destruct (four w Hw) as (? & ? & ? & ? & -> & _). Qed.

Lemma word_rcon j : word (Rcon j).
Proof.
  split; [done |]. unfold Rcon.
  assert (is_byte (Nat.iter (j - 1) xtime 1)) by (apply iter_xtime_byte; unfold in_range; lia).
  assert (is_byte 0) by (unfold in_range; lia). solve_bytes.
Qed.

Lemma rcon_value j : le_value (Rcon j) = Nat.iter (j - 1) xtime 1.
Proof. unfold Rcon. rewrite le_value_4. lia. Qed.

Lemma aes_double_xtime : forall b, is_byte b -> aes_double b = xtime b.
Proof. refine (byte_cases _ _). vm_compute. reflexivity. Qed.

(** ** Key expansion *)

(** A list of words, and its bytes in memory. *)
Abbreviation wordlist w := (Forall (fun x : bytes => word x) w).

Lemma length_concat_words (w : list bytes) : wordlist w -> length (concat w) = (4 * length w)%nat.
Proof.
  intros Hw. induction Hw as [| x w [Hx _] Hw IH]; [done |]. cbn [concat length]. rewrite length_app. lia.
Qed.

Lemma words_concat (key : bytes) n :
  length key = (4 * n)%nat -> Forall is_byte key ->
  wordlist (words key) /\ length (words key) = n /\ concat (words key) = key.
Proof.
  revert key. induction n as [| n IH]; intros key Hl Hb.
  { apply nil_length_inv in Hl as ->. done. }
  destruct key as [| a [| b [| c [| d key]]]]; cbn [length] in Hl; try lia.
  cbn [words concat length app]. split_bytes. destruct (IH key) as (W1 & W2 & W3); [lia | done |].
  rewrite W2, W3. split_and!; [| done | done]. apply Forall_cons_2; [| done]. split; [done |]. solve_bytes.
Qed.

(** The word at index [i] of a word list in memory. *)
Lemma rd_word w rest i off :
  wordlist w -> (i < length w)%nat -> off = 4 * Z.of_nat i ->
  rd_le32 (concat w ++ rest) off = Ok (le_value (nth i w [])) /\ word (nth i w []).
Proof.
  intros Hw Hi ->. destruct (lookup_lt_is_Some_2 w i Hi) as [x Hx].
  rewrite (nth_lookup_Some _ _ _ _ Hx). pose proof (Forall_lookup_1 _ _ _ _ Hw Hx) as Hword. split; [| done].
  unfold rd_le32. rewrite <- (take_drop_middle w i x Hx) at 1. rewrite concat_app. cbn [concat]. rewrite <- !app_assoc.
  rewrite rd_range_app; [done | | by rewrite (proj1 Hword)].
  rewrite length_concat_words by (by apply Forall_take). rewrite length_take. lia.
Qed.

Lemma wr_word w x rest off :
  wordlist w -> word x -> (4 <= length rest)%nat -> off = 4 * Z.of_nat (length w) ->
  wr_le32 (concat w ++ rest) off (le_value x) = Ok (concat (w ++ [x]) ++ drop 4 rest).
Proof.
  intros Hw Hx Hr ->. unfold wr_le32. destruct (four x Hx) as (a & b & c & d & -> & ? & ? & ? & ?).
  rewrite le32_value by done. rewrite <- (take_drop 4 rest) at 1.
  rewrite wr_range_app; [| rewrite length_concat_words by done; lia | rewrite length_take; cbn [length]; lia].
  rewrite concat_app. cbn [concat]. by rewrite app_nil_r, <- !app_assoc.
Qed.

Section Expand.
Context (Nk : nat) (HNk : Nk ∈ [4; 6; 8]%nat).

Lemma Nk_cases : Nk = 4%nat \/ Nk = 6%nat \/ Nk = 8%nat.
Proof using HNk. apply list_elem_of_In in HNk. cbn in HNk. lia. Qed.

(** The tests of the code are those of the standard. *)
Lemma offset_tests i :
  let offset := 4 * Z.of_nat (i mod Nk) in
  (offset =? 0) = (i mod Nk =? 0)%nat /\
  (Z.lor offset (4 * Z.of_nat Nk) =? 48) = (6 <? Nk)%nat && (i mod Nk =? 4)%nat.
Proof using HNk.
  intros offset. pose proof (Nat.mod_upper_bound i Nk) as Hb. unfold offset. generalize (i mod Nk)%nat Hb.
  intros m Hm. split; [lia |].
  destruct Nk_cases as [-> | [-> | ->]]; do 8 (destruct m as [| m]; [reflexivity |]); lia.
Qed.

Lemma next_offset i :
  (if 4 * Z.of_nat (i mod Nk) + 4 =? 4 * Z.of_nat Nk then 0 else 4 * Z.of_nat (i mod Nk) + 4) =
    4 * Z.of_nat (S i mod Nk).
Proof using HNk.
  pose proof Nk_cases. pose proof (Nat.div_mod i Nk ltac:(lia)). pose proof (Nat.mod_upper_bound i Nk ltac:(lia)).
  pose proof (Nat.div_mod (S i) Nk ltac:(lia)). pose proof (Nat.mod_upper_bound (S i) Nk ltac:(lia)).
  destruct (Z.eqb_spec (4 * Z.of_nat (i mod Nk) + 4) (4 * Z.of_nat Nk)) as [E | E].
  - rewrite <- (Nat.mod_unique (S i) Nk (S (i / Nk)) 0); lia.
  - rewrite <- (Nat.mod_unique (S i) Nk (i / Nk) (S (i mod Nk))); lia.
Qed.

(** Round constants used so far. *)
Lemma next_rcon i : (0 < i)%nat ->
  (if (i mod Nk =? 0)%nat then S ((i - 1) / Nk) else ((i - 1) / Nk)%nat) = (i / Nk)%nat /\
  ((i mod Nk =? 0)%nat = true -> (i / Nk - 1 = (i - 1) / Nk)%nat).
Proof using HNk.
  intros Hi. pose proof Nk_cases. pose proof (Nat.div_mod i Nk ltac:(lia)). pose proof (Nat.mod_upper_bound i Nk ltac:(lia)).
  assert (E : (if (i mod Nk =? 0)%nat then S ((i - 1) / Nk) else ((i - 1) / Nk)%nat) = (i / Nk)%nat).
  { destruct (Nat.eqb_spec (i mod Nk) 0) as [E | E].
    - rewrite <- (Nat.div_unique (i - 1) Nk (i / Nk - 1) (Nk - 1)); nia.
    - symmetry. rewrite <- (Nat.div_unique (i - 1) Nk (i / Nk) (i mod Nk - 1)); lia. }
  split; [done |]. intros E'. rewrite E' in E. lia.
Qed.

(** The word the code derives from the previous one. *)
Definition temp_word (i : nat) (temp : bytes) : bytes :=
  if (i mod Nk =? 0)%nat then xor (SubWord (RotWord temp)) (Rcon (i / Nk))
  else if (6 <? Nk)%nat && (i mod Nk =? 4)%nat then SubWord temp else temp.

Lemma expand_temp i temp :
  (0 < i)%nat -> word temp ->
  let offset := 4 * Z.of_nat (i mod Nk) in
  let rcon j := Nat.iter j xtime 1 in
  word (temp_word i temp) /\
  exists t, (if (offset =? 0) || (Z.lor offset (4 * Z.of_nat Nk) =? 48)
             then aes_key_sbox (aes_mixcolumns tables) (le_value temp) else Ok (le_value temp)) = Ok t /\
    (if offset =? 0 then (aes_key_rcon (aes_key_rotate t) (rcon ((i - 1) / Nk)%nat), aes_double (rcon ((i - 1) / Nk)%nat))
     else (t, rcon ((i - 1) / Nk)%nat)) = (le_value (temp_word i temp), rcon (i / Nk)%nat).
Proof using HNk.
  intros Hi Ht offset rcon. destruct (offset_tests i) as [T1 T2]. fold offset in T1, T2.
  destruct (next_rcon i Hi) as [R1 R2]. rewrite T1, T2. unfold temp_word.
  destruct (i mod Nk =? 0)%nat; cbn [orb].
  - pose proof (word_sub _ Ht) as Hs. pose proof (word_rot _ Hs) as Hr. rewrite <- rot_sub by done.
    destruct (word_xor _ _ Hr (word_rcon (i / Nk)%nat)) as [Hx Ex]. split; [done |].
    eexists. split; [by apply aes_key_sbox_ok |]. rewrite aes_key_rotate_ok by done.
    unfold aes_key_rcon, rcon. rewrite <- Ex, rcon_value, R2, <- R1 by done. f_equal.
    apply aes_double_xtime, iter_xtime_byte. unfold in_range; lia.
  - rewrite <- R1. destruct ((6 <? Nk)%nat && (i mod Nk =? 4)%nat).
    + split; [by apply word_sub |]. eexists. split; [by apply aes_key_sbox_ok |]. done.
    + split; [done |]. by eexists.
Qed.

Lemma expand_loop_ok k fuel w rest :
  wordlist w -> (Nk <= length w)%nat -> (4 * k <= length rest)%nat -> (k <= fuel)%nat ->
  let i := length w in
  let W := Nat.iter k (fun w => w ++ [next_word Nk w]) w in
  expand_loop fuel (aes_mixcolumns tables) (4 * Z.of_nat Nk) (4 * Z.of_nat (i + k)) (concat w ++ rest)
    (4 * Z.of_nat (i - Nk)) (4 * Z.of_nat i) (4 * Z.of_nat (i mod Nk)) (le_value (nth (i - 1) w []))
    (Nat.iter ((i - 1) / Nk) xtime 1) = Ok (concat W ++ drop (4 * k) rest) /\
  wordlist W /\ length W = (i + k)%nat.
Proof using HNk.
  revert fuel w rest. induction k as [| k IH]; intros fuel w rest Hw Hl Hr Hf i W.
  { split_and!; [| done | cbn; lia]. destruct fuel; cbn [expand_loop]; by rewrite (proj2 (Z.ltb_ge _ _)) by lia. }
  destruct fuel as [| fuel]; [lia |]. pose proof Nk_cases as HC.
  destruct (rd_word w rest (i - 1) _ Hw ltac:(lia) eq_refl) as [_ Hlast].
  destruct (rd_word w rest (i - Nk) _ Hw ltac:(lia) eq_refl) as [Eprev Hprev].
  destruct (expand_temp i (nth (i - 1) w []) ltac:(lia) Hlast) as (Htmp & t & E1 & E2).
  destruct (word_xor _ _ Htmp Hprev) as [Hnew Enew].
  assert (En : next_word Nk w = xor (temp_word i (nth (i - 1) w [])) (nth (i - Nk) w [])).
  { rewrite xor_comm. reflexivity. }
  specialize (IH fuel (w ++ [next_word Nk w]) (drop 4 rest)). rewrite length_app in IH. cbn [length] in IH.
  destruct IH as (E & HW & HlW).
  { apply Forall_app. split; [done |]. apply Forall_cons_2; [by rewrite En | done]. }
  { lia. }
  { rewrite length_drop. lia. }
  { lia. }
  unfold W. rewrite Nat.iter_succ_r. split_and!; [| done | lia].
  cbn [expand_loop]. rewrite (proj2 (Z.ltb_lt _ _)) by lia. rewrite E1. cbn [mbind res_bind]. rewrite E2.
  rewrite Eprev. cbn [mbind res_bind]. rewrite Enew, <- En.
  rewrite wr_word by (first [done | lia | by rewrite En]). cbn [mbind res_bind]. rewrite next_offset.
  rewrite drop_drop in E. replace (4 + 4 * k)%nat with (4 * S k)%nat in E by lia. rewrite <- E.
  rewrite Nat.add_1_r. cbn [Nat.sub]. rewrite Nat.sub_0_r, app_nth2, Nat.sub_diag by lia. fold i. cbn [nth].
  replace (4 * Z.of_nat (i - Nk) + 4) with (4 * Z.of_nat (S i - Nk)) by lia.
  replace (4 * Z.of_nat i + 4) with (4 * Z.of_nat (S i)) by lia.
  by replace (i + S k)%nat with (S i + k)%nat by lia.
Qed.
End Expand.

(** ** Round keys in memory *)

Lemma round_key_words W rest r :
  wordlist W -> (4 * S r <= length W)%nat ->
  round_key (concat W ++ rest) (Z.of_nat r) = Ok (RoundKey W r) /\ block (RoundKey W r).
Proof.
  intros HW Hr. unfold RoundKey. set (k := take 4 (drop (4 * r) W)).
  assert (Hk : wordlist k /\ length k = 4%nat).
  { split; [by apply Forall_take, Forall_drop |]. unfold k. rewrite length_take, length_drop. lia. }
  assert (Hlen : length (concat k) = 16%nat) by (rewrite length_concat_words by apply Hk; lia).
  split.
  - unfold round_key.
    assert (E : concat W = concat (take (4 * r) W) ++ concat k ++ concat (drop 4 (drop (4 * r) W))).
    { unfold k. by rewrite <- !concat_app, !take_drop. }
    rewrite E, <- !app_assoc. apply rd_range_app; [| lia].
    rewrite length_concat_words by (by apply Forall_take). rewrite length_take. lia.
  - split; [done |]. apply Forall_concat. eapply Forall_impl; [apply Hk |]. by intros x [].
Qed.

(** Writing one round key. *)
Lemma wr_round_key keys j k :
  length keys = 240%nat -> 0 <= j < 15 -> length k = 16%nat ->
  exists keys', wr_range keys (16 * j) k = Ok keys' /\ length keys' = 240%nat /\
    forall i, 0 <= i < 15 -> round_key keys' i = if i =? j then Ok k else round_key keys i.
Proof.
  intros Hl Hj Hk. exists (splice keys (16 * j) k). unfold wr_range.
  rewrite !(proj2 (Z.leb_le _ _)) by lia. cbn [andb]. split; [done |].
  assert (Hlen : length (splice keys (16 * j) k) = 240%nat) by (rewrite length_splice; lia).
  split; [done |]. intros i Hi. unfold round_key, rd_range. rewrite Hlen, Hl.
  rewrite !(proj2 (Z.leb_le _ _)) by lia. cbn [andb].
  destruct (Z.eqb_spec i j) as [-> | Hne].
  - f_equal. replace 16 with (zlen k) at 3 by lia. apply slice_splice_eq; lia.
  - f_equal. unfold slice, splice. apply list_eq. intros n.
    destruct (Nat.lt_ge_cases n 16) as [Hn | Hn]; [| by rewrite !lookup_take_ge by lia].
    rewrite !lookup_take_lt, !lookup_drop by lia.
    destruct (Z.lt_ge_cases i j).
    + rewrite lookup_app_l by (rewrite length_take; lia). by rewrite lookup_take_lt by lia.
    + rewrite lookup_app_r by (rewrite length_take; lia). rewrite length_take.
      rewrite lookup_app_r by lia. rewrite lookup_drop. f_equal. lia.
Qed.

(** Each decryption key is the encryption key with the inverse matrix applied. *)
Lemma invert_loop_ok d e enc dec rk temp :
  length dec = 240%nat -> (d < 15)%nat -> length temp = 16%nat ->
  (forall i, (i < d)%nat -> round_key enc (Z.of_nat (e + i)) = Ok (rk (e + i)%nat) /\ block (rk (e + i)%nat)) ->
  exists dec', invert_loop d tables enc dec (Z.of_nat e) temp = Ok dec' /\ length dec' = 240%nat /\
    forall i, (i < 15)%nat -> round_key dec' (Z.of_nat i) =
      if (1 <=? i)%nat && (i <=? d)%nat then Ok (InvMixColumns (rk (e + (d - i))%nat)) else round_key dec (Z.of_nat i).
Proof.
  revert e dec temp. induction d as [| d IH]; intros e dec temp Hl Hd Ht Hrk.
  { exists dec. split_and!; [done | done |]. intros i Hi.
    destruct (Nat.leb_spec 1 i), (Nat.leb_spec i 0); try lia; done. }
  destruct (Hrk 0%nat) as [Ek Hk]; [lia |]. rewrite Nat.add_0_r in Ek, Hk.
  assert (Hz : block (replicate 16 0)) by (split; [done | apply Forall_replicate; unfold in_range; lia]).
  assert (Hkey : exists k, round_key dec (Z.of_nat (S d)) = Ok k /\ length k = 16%nat).
  { unfold round_key, rd_range. rewrite !(proj2 (Z.leb_le _ _)) by lia. eexists. split; [done |].
    pose proof (length_slice dec (16 * Z.of_nat (S d)) 16). lia. }
  destruct Hkey as (k0 & Ek0 & Hk0).
  destruct (wr_round_key dec (Z.of_nat (S d)) (InvMixColumns (rk e))) as (dec1 & Ew & Hl1 & Hrd1);
    [done | lia | by apply block_inv_mix |].
  destruct (IH (S e) dec1 (shift_sub (rk e))) as (dec2 & E & Hl2 & Hrd2); [done | lia | by apply block_shift_sub | |].
  { intros i Hi. rewrite Nat.add_succ_comm. apply Hrk. lia. }
  exists dec2. split_and!; [| done |].
  - cbn [invert_loop]. rewrite Ek. cbn [mbind res_bind].
    rewrite encrypt_final_ok by done. cbn [mbind res_bind].
    rewrite xor_zero by (by apply block_shift_sub). rewrite Ek0. cbn [mbind res_bind].
    unfold aes_decrypt_rounds. cbn [aes_rounds].
    rewrite (rd_block _ Hz : round_key (replicate 16 0) 0 = _). cbn [mbind res_bind].
    rewrite decrypt_round_ok by done. cbn [mbind res_bind].
    rewrite xor_zero by (by apply block_inv_mix). rewrite Ew. cbn [mbind res_bind].
    by replace (Z.of_nat e + 1) with (Z.of_nat (S e)) by lia.
  - intros i Hi. rewrite Hrd2, Hrd1 by lia.
    destruct (Nat.leb_spec 1 i), (Nat.leb_spec i d), (Nat.leb_spec i (S d)); cbn [andb]; try lia;
      destruct (Z.eqb_spec (Z.of_nat i) (Z.of_nat (S d))); try lia; try done.
    + do 3 f_equal. lia.
    + do 3 f_equal. lia.
Qed.

(** ** Setting a key *)

(** The tables are generated by the first key and kept. *)
Definition tables_state (t : aes_tables) : Prop := t = aes_tables_bss \/ t = tables.

Lemma tables_generated t : tables_state t ->
  exists b, (e ← entry (aes_mixcolumns t) 0; rd e 0) = Ok b /\ (if b =? 0 then aes_generate t else Ok t) = Ok tables.
Proof.
  intros [-> | ->].
  - exists 0. split; [reflexivity |]. apply aes_generate_ok.
  - exists (SBox 0). rewrite mix_entry by (unfold in_range; lia). split; [done |].
    assert (SBox 0 = 99) as -> by (vm_compute; reflexivity). done.
Qed.

Definition context_ok (aes : aes_context) : Prop :=
  length (encrypt aes) = 240%nat /\ length (decrypt aes) = 240%nat.

(** The expanded key of a raw key. *)
Definition expanded (Nk : nat) (key : bytes) : list bytes := KeyExpansion Nk (Nk + 6) key.

Lemma key_rounds Nk : Nk ∈ [4; 6; 8]%nat -> aes_key_rounds (4 * Z.of_nat Nk) = Some (Z.of_nat (Nk + 7)).
Proof. intros HNk. destruct (Nk_cases Nk HNk) as [-> | [-> | ->]]; reflexivity. Qed.

(** The expansion of [aes_setkey], from the raw key in memory. *)
Lemma setkey_expand Nk aes key :
  Nk ∈ [4; 6; 8]%nat -> context_ok aes -> length key = (4 * Nk)%nat -> Forall is_byte key ->
  exists rest tmp, wr_range (encrypt aes) 0 key = Ok (key ++ rest) /\
    rd_le32 (key ++ rest) (4 * Z.of_nat Nk - 4) = Ok tmp /\
    expand_loop 60 (aes_mixcolumns tables) (4 * Z.of_nat Nk) (16 * Z.of_nat (Nk + 7)) (key ++ rest)
      0 (4 * Z.of_nat Nk) 0 tmp 1 = Ok (concat (expanded Nk key) ++ drop (4 * (4 * (Nk + 7) - Nk)) rest) /\
    wordlist (expanded Nk key) /\ length (expanded Nk key) = (4 * (Nk + 7))%nat /\
    length (concat (expanded Nk key) ++ drop (4 * (4 * (Nk + 7) - Nk)) rest) = 240%nat.
Proof.
  intros HNk [He _] Hl Hb. pose proof (Nk_cases Nk HNk) as HC.
  set (rest := drop (4 * Nk) (encrypt aes)). destruct (words_concat key Nk Hl Hb) as (Hw & Hlw & Hcat).
  assert (Hrest : length rest = (240 - 4 * Nk)%nat) by (unfold rest; rewrite length_drop; lia).
  destruct (rd_word (words key) rest (Nk - 1) (4 * Z.of_nat Nk - 4) Hw) as [Etmp _]; [lia | lia |].
  destruct (expand_loop_ok Nk HNk (4 * (Nk + 7) - Nk) 60 (words key) rest Hw) as (E & HW & HlW); [lia | lia | lia |].
  rewrite Hcat, Hlw in E. rewrite Hcat in Etmp. rewrite Hlw in HlW.
  exists rest, (le_value (nth (Nk - 1) (words key) [])).
  assert (Ex : expanded Nk key = Nat.iter (4 * (Nk + 7) - Nk) (fun w => w ++ [next_word Nk w]) (words key)).
  { unfold expanded, KeyExpansion. by replace (Nk + 6 + 1)%nat with (Nk + 7)%nat by lia. }
  rewrite Ex. split_and!; [| done | | done | lia |].
  - pose proof (wr_range_app [] (take (4 * Nk) (encrypt aes)) rest 0 key) as Hwr. cbn [app] in Hwr.
    unfold rest in Hwr. rewrite take_drop in Hwr. rewrite Hwr; [done | done | rewrite length_take; lia].
  - rewrite <- E. replace (16 * Z.of_nat (Nk + 7)) with (4 * Z.of_nat (Nk + (4 * (Nk + 7) - Nk))) by lia.
    rewrite Nat.sub_diag, Nat.Div0.mod_same, (Nat.div_small (Nk - 1) Nk) by lia. reflexivity.
  - rewrite length_app, length_drop, length_concat_words by done. lia.
Qed.

(** The steps of [aes_setkey] put together. *)
Lemma setkey_run t T aes key b R enc0 tmp enc k0 k1 d1 d2 d3 :
  (e ← entry (aes_mixcolumns t) 0; rd e 0) = Ok b -> (if b =? 0 then aes_generate t else Ok t) = Ok T ->
  aes_key_rounds (zlen key) = Some R -> wr_range (encrypt aes) 0 key = Ok enc0 ->
  rd_le32 enc0 (zlen key - 4) = Ok tmp ->
  expand_loop 60 (aes_mixcolumns T) (zlen key) (16 * R) enc0 0 (zlen key) 0 tmp 1 = Ok enc ->
  round_key enc 0 = Ok k0 -> wr_range (decrypt aes) (16 * (R - 1)) k0 = Ok d1 ->
  invert_loop (Z.to_nat (R - 2)) T enc d1 1 automatic = Ok d2 ->
  round_key enc (R - 1) = Ok k1 -> wr_range d2 0 k1 = Ok d3 ->
  aes_setkey t aes key = Ok (T, AesContext enc d3 R, None).
Proof.
  intros Eb Eg ER E1 E2 E3 K0 W1 W2 K1 W3. unfold aes_setkey.
  destruct (entry (aes_mixcolumns t) 0) as [e0 | |]; try discriminate Eb. cbn [mbind res_bind] in Eb.
  rewrite bind_ok. step Eb. step Eg. rewrite ER. step E1. step E2. step E3. step K0. step W1. step W2. step K1.
  by step W3.
Qed.

Lemma setkey_ok t Nk aes key :
  tables_state t -> Nk ∈ [4; 6; 8]%nat -> context_ok aes -> length key = (4 * Nk)%nat -> Forall is_byte key ->
  exists aes', aes_setkey t aes key = Ok (tables, aes', None) /\ context_ok aes' /\
    keyed aes' (Nk + 6) (RoundKey (expanded Nk key)).
Proof.
  intros Ht HNk Hctx Hl Hb. pose proof (Nk_cases Nk HNk) as HC.
  destruct (tables_generated t Ht) as (b & Eb & Eg).
  destruct (setkey_expand Nk aes key HNk Hctx Hl Hb) as (rest & tmp & E1 & E2 & E3 & HW & HlW & Hlen).
  set (enc := concat (expanded Nk key) ++ drop (4 * (4 * (Nk + 7) - Nk)) rest) in *.
  set (rk := RoundKey (expanded Nk key)).
  assert (Hrk : forall i, (i <= Nk + 6)%nat -> round_key enc (Z.of_nat i) = Ok (rk i) /\ block (rk i)).
  { intros i Hi. apply round_key_words; [done | lia]. }
  destruct (wr_round_key (decrypt aes) (Z.of_nat (Nk + 7) - 1) (rk 0%nat)) as (d1 & W1 & L1 & R1);
    [apply Hctx | lia | apply Hrk; lia |].
  destruct (invert_loop_ok (Nk + 5) 1 enc d1 rk automatic) as (d2 & W2 & L2 & R2); [done | lia | done | |].
  { intros i Hi. apply Hrk. lia. }
  destruct (wr_round_key d2 0 (rk (Nk + 6)%nat)) as (d3 & W3 & L3 & R3); [done | lia | apply Hrk; lia |].
  exists (AesContext enc d3 (Z.of_nat (Nk + 7))). split_and!; [| done |].
  - eapply setkey_run; [exact Eb | exact Eg | | exact E1 | | | | exact W1 | | | exact W3].
    + replace (zlen key) with (4 * Z.of_nat Nk) by lia. by apply key_rounds.
    + replace (zlen key) with (4 * Z.of_nat Nk) by lia. exact E2.
    + replace (zlen key) with (4 * Z.of_nat Nk) by lia. exact E3.
    + apply (Hrk 0%nat). lia.
    + replace (Z.to_nat (Z.of_nat (Nk + 7) - 2)) with (Nk + 5)%nat by lia. exact W2.
    + replace (Z.of_nat (Nk + 7) - 1) with (Z.of_nat (Nk + 6)) by lia. apply Hrk. lia.
  - constructor; cbn [rounds encrypt decrypt].
    + lia.
    + split; [lia |]. by destruct HC as [-> | [-> | ->]].
    + intros i Hi. by apply Hrk.
    + intros i Hi. by apply Hrk.
    + intros i Hi. rewrite R3, R2, R1 by lia. unfold decrypt_key.
      destruct (Nat.eqb_spec i 0) as [-> | ]; [done |].
      rewrite (proj2 (Z.eqb_neq _ _)) by lia.
      destruct (Nat.eqb_spec i (Nk + 6)) as [-> | ].
      * destruct (Nat.leb_spec 1 (Nk + 6)), (Nat.leb_spec (Nk + 6) (Nk + 5)); cbn [andb]; try lia.
        by rewrite (proj2 (Z.eqb_eq _ _)) by lia.
      * destruct (Nat.leb_spec 1 i), (Nat.leb_spec i (Nk + 5)); cbn [andb]; try lia. do 3 f_equal. lia.
Qed.

(** An unsupported key length is refused and leaves the context alone. *)
Lemma aes_setkey_einval t aes (key : bytes) :
  tables_state t -> length key ∉ [16; 24; 32]%nat ->
  aes_setkey t aes key = Ok (tables, aes, Some EINVAL).
Proof.
  intros Ht Hl. destruct (tables_generated t Ht) as (b & Eb & Eg). unfold aes_setkey.
  destruct (entry (aes_mixcolumns t) 0) as [e0 | |]; try discriminate Eb. cbn [mbind res_bind] in Eb.
  rewrite bind_ok. step Eb. step Eg. unfold aes_key_rounds.
  change (128 / 8) with 16. change (192 / 8) with 24. change (256 / 8) with 32.
  rewrite list_elem_of_In in Hl. cbn in Hl. rewrite !(proj2 (Z.eqb_neq _ _)) by lia. done.
Qed.

Lemma key_length (key : bytes) : length key ∈ [16; 24; 32]%nat ->
  exists Nk, Nk ∈ [4; 6; 8]%nat /\ length key = (4 * Nk)%nat /\ (length key / 4 = Nk)%nat.
Proof.
  intros Hl. apply list_elem_of_In in Hl. cbn in Hl. destruct Hl as [E | [E | [E | []]]]; rewrite <- E.
  - exists 4%nat. split; [by left | done].
  - exists 6%nat. split; [right; by left | done].
  - exists 8%nat. split; [do 2 right; by left | done].
Qed.

(** C7. For every key of 16, 24 or 32 bytes, whether or not the lookup tables
    have been generated before, setting the key succeeds and encryption of any
    block then computes the cipher of FIPS 197: the tables the code generates,
    the merged rounds with their alternating buffers and the in-place key
    expansion implement the standard's S-box, transformations and key
    schedule. *)
Theorem aes_encrypt_correct (t : aes_tables) (aes : aes_context) (key b dst : bytes) :
  tables_state t -> context_ok aes -> length key ∈ [16; 24; 32]%nat -> Forall is_byte key ->
  block b -> length dst = 16%nat ->
  exists aes', aes_setkey t aes key = Ok (tables, aes', None) /\
    aes_encrypt tables aes' b dst = Ok (Fips197.aes key b).
Proof.
  intros Ht Hctx Hl Hkey Hb Hd. destruct (key_length key Hl) as (Nk & HNk & Hlen & Hdiv).
  destruct (setkey_ok t Nk aes key Ht HNk Hctx Hlen Hkey) as (aes' & Eset & _ & Hkeyed).
  exists aes'. split; [done |]. rewrite (aes_encrypt_ok _ _ _ Hkeyed) by done. unfold Fips197.aes. by rewrite Hdiv.
Qed.

(** Bytes 0, 1, 2, ... as key and block. *)
Definition ramp (n : nat) : bytes := Z.of_nat <$> seq 0 n.

Definition blank_context : aes_context := AesContext (replicate 240 0) (replicate 240 0) 0.

Lemma ramp_bytes n : (n <= 256)%nat -> Forall is_byte (ramp n).
Proof.
  intros Hn. apply Forall_fmap, Forall_forall. intros i Hi. apply elem_of_seq in Hi. cbn. unfold in_range. lia.
Qed.

Lemma aes_encrypt_correct_witness :
  exists aes', aes_setkey aes_tables_bss blank_context (ramp 32) = Ok (tables, aes', None) /\
    aes_encrypt tables aes' (ramp 16) (replicate 16 0) = Ok (Fips197.aes (ramp 32) (ramp 16)).
Proof.
  apply (aes_encrypt_correct aes_tables_bss blank_context (ramp 32) (ramp 16) (replicate 16 0)).
  - by left.
  - done.
  - apply list_elem_of_In. cbn. tauto.
  - apply ramp_bytes. lia.
  - split; [done | apply ramp_bytes; lia].
  - done.
Defined.

(** C29. Decryption inverts encryption for every key and block: the decryption
    key schedule (the encryption keys in reverse order, passed through the
    inverse column matrix by way of the cipher's own rounds) makes the
    equivalent inverse cipher undo each round. *)
Theorem aes_decrypt_encrypt (t : aes_tables) (aes : aes_context) (key b dst dst' : bytes) :
  tables_state t -> context_ok aes -> length key ∈ [16; 24; 32]%nat -> Forall is_byte key ->
  block b -> length dst = 16%nat -> length dst' = 16%nat ->
  exists aes' c, aes_setkey t aes key = Ok (tables, aes', None) /\
    aes_encrypt tables aes' b dst = Ok c /\ block c /\ aes_decrypt tables aes' c dst' = Ok b.
Proof.
  intros Ht Hctx Hl Hkey Hb Hd Hd'. destruct (key_length key Hl) as (Nk & HNk & Hlen & _).
  destruct (setkey_ok t Nk aes key Ht HNk Hctx Hlen Hkey) as (aes' & Eset & _ & Hkeyed).
  exists aes'. eexists. split; [done |]. split; [by apply (aes_encrypt_ok _ _ _ Hkeyed) |].
  split; [| by apply (aes_decrypt_ok _ _ _ Hkeyed)].
  apply block_xor; [apply block_shift_sub, (enc_state_block _ _ _ Hkeyed); [done | lia] |].
  apply (keyed_block _ _ _ Hkeyed). lia.
Qed.

Lemma aes_decrypt_encrypt_witness :
  exists aes' c, aes_setkey tables blank_context (ramp 24) = Ok (tables, aes', None) /\
    aes_encrypt tables aes' (ramp 16) (replicate 16 0) = Ok c /\ block c /\
    aes_decrypt tables aes' c (replicate 16 0) = Ok (ramp 16).
Proof.
  apply (aes_decrypt_encrypt tables blank_context (ramp 24) (ramp 16) (replicate 16 0) (replicate 16 0)).
  - by right.
  - done.
  - apply list_elem_of_In. cbn. tauto.
  - apply ramp_bytes. lia.
  - split; [done | apply ramp_bytes; lia].
  - done.
  - done.
Defined.
