(* ===== verification/Cbc.v ===== *)
(** * Cipher modes ([crypto/cbc.c], [crypto/ecb.c], [include/ipxe/cbc.h])

    Cipher-block chaining and electronic codebook over any block cipher.  The
    source and the destination are ranges of one memory, so that encryption and
    decryption in place are covered; the chaining context is an object of its
    own.  What the modes need of the underlying cipher is the class
    [BlockCipher], which AES implements. *)

From Stdlib Require Import ZArith Lia Bool ZifyBool.
From stdpp Require Import base numbers list.
From S2P Require Import Prelude Bits Aes AesTables AesCorrect.

Local Open Scope Z_scope.

(** ** The cipher interface ([include/ipxe/crypto.h])

    One block of the source and the previous contents of the destination give
    the new contents of the destination. *)

Record cipher_algorithm (Ctx : Type) := CipherAlgorithm {
  blocksize : Z;
  cipher_encrypt : Ctx -> bytes -> bytes -> res bytes;
  cipher_decrypt : Ctx -> bytes -> bytes -> res bytes
}.
Arguments CipherAlgorithm {Ctx}.
Arguments blocksize {Ctx}.
Arguments cipher_encrypt {Ctx}.
Arguments cipher_decrypt {Ctx}.

Definition aes_algorithm : cipher_algorithm (aes_tables * aes_context) :=
  CipherAlgorithm AES_BLOCKSIZE (fun '(t, aes) => aes_encrypt t aes) (fun '(t, aes) => aes_decrypt t aes).

(** ** Word-wise exclusive or *)

Fixpoint xor_loop (n : nat) (i : Z) (src : bytes) (soff : Z) (dst : bytes) (doff : Z) : res bytes :=
  match n with
  | O => Ok dst
  | S n =>
      d ← rd_le32 dst (doff + 4 * i);
      s ← rd_le32 src (soff + 4 * i);
      dst ← wr_le32 dst (doff + 4 * i) (Z.lxor d s);
      xor_loop n (i + 1) src soff dst doff
  end.

Definition cbc_xor (src : bytes) (soff : Z) (dst : bytes) (doff len : Z) : res bytes :=
  xor_loop (Z.to_nat (len / 4)) 0 src soff dst doff.

Section Modes.
Context {Ctx : Type} (raw_cipher : cipher_algorithm Ctx) (ctx : Ctx).

(** ** Cipher-block chaining *)

Definition cbc_setiv (cbc_ctx iv : bytes) : res bytes :=
  iv ← rd_range iv 0 (blocksize raw_cipher); wr_range cbc_ctx 0 iv.

Fixpoint cbc_encrypt_loop (fuel : nat) (mem : bytes) (src dst len : Z) (cbc_ctx : bytes) : res (bytes * bytes) :=
  if len =? 0 then Ok (mem, cbc_ctx)
  else match fuel with
  | O => Trap
  | S fuel =>
      let bs := blocksize raw_cipher in
      cbc_ctx ← cbc_xor mem src cbc_ctx 0 bs;
      old ← rd_range mem dst bs;
      out ← cipher_encrypt raw_cipher ctx cbc_ctx old;
      mem ← wr_range mem dst out;
      out ← rd_range mem dst bs;
      cbc_ctx ← wr_range cbc_ctx 0 out;
      cbc_encrypt_loop fuel mem (src + bs) (dst + bs) (len - bs) cbc_ctx
  end.

Definition cbc_encrypt (mem : bytes) (src dst len : Z) (cbc_ctx : bytes) : res (bytes * bytes) :=
  cbc_encrypt_loop (Z.to_nat len) mem src dst len cbc_ctx.

Fixpoint cbc_decrypt_loop (fuel : nat) (mem : bytes) (src dst len : Z) (cbc_ctx : bytes) : res (bytes * bytes) :=
  if len =? 0 then Ok (mem, cbc_ctx)
  else match fuel with
  | O => Trap
  | S fuel =>
      let bs := blocksize raw_cipher in
      next_cbc_ctx ← rd_range mem src bs;
      inp ← rd_range mem src bs;
      old ← rd_range mem dst bs;
      out ← cipher_decrypt raw_cipher ctx inp old;
      mem ← wr_range mem dst out;
      mem ← cbc_xor cbc_ctx 0 mem dst bs;
      cbc_ctx ← wr_range cbc_ctx 0 next_cbc_ctx;
      cbc_decrypt_loop fuel mem (src + bs) (dst + bs) (len - bs) cbc_ctx
  end.

Definition cbc_decrypt (mem : bytes) (src dst len : Z) (cbc_ctx : bytes) : res (bytes * bytes) :=
  cbc_decrypt_loop (Z.to_nat len) mem src dst len cbc_ctx.

(** ** Electronic codebook *)

Fixpoint ecb_loop (op : Ctx -> bytes -> bytes -> res bytes) (fuel : nat) (mem : bytes) (src dst len : Z) : res bytes :=
  if len =? 0 then Ok mem
  else match fuel with
  | O => Trap
  | S fuel =>
      let bs := blocksize raw_cipher in
      inp ← rd_range mem src bs;
      old ← rd_range mem dst bs;
      out ← op ctx inp old;
      mem ← wr_range mem dst out;
      ecb_loop op fuel mem (src + bs) (dst + bs) (len - bs)
  end.

Definition ecb_encrypt (mem : bytes) (src dst len : Z) : res bytes :=
  ecb_loop (cipher_encrypt raw_cipher) (Z.to_nat len) mem src dst len.

Definition ecb_decrypt (mem : bytes) (src dst len : Z) : res bytes :=
  ecb_loop (cipher_decrypt raw_cipher) (Z.to_nat len) mem src dst len.
End Modes.

(** ** What a block cipher promises *)

Abbreviation blockn n s := (zlen s = n /\ Forall is_byte s).

Class BlockCipher {Ctx} (alg : cipher_algorithm Ctx) (ctx : Ctx) (E : bytes -> bytes) : Prop := {
  blocksize_words : 0 < blocksize alg /\ blocksize alg mod 4 = 0;
  encrypt_ok b old : blockn (blocksize alg) b -> zlen old = blocksize alg ->
    cipher_encrypt alg ctx b old = Ok (E b) /\ blockn (blocksize alg) (E b);
  decrypt_ok b old : blockn (blocksize alg) b -> zlen old = blocksize alg ->
    cipher_decrypt alg ctx (E b) old = Ok b
}.

(** AES with the keys that [aes_setkey] leaves is a block cipher. *)
Lemma aes_block_cipher t Nk aes key :
  tables_state t -> Nk ∈ [4; 6; 8]%nat -> context_ok aes -> length key = (4 * Nk)%nat -> Forall is_byte key ->
  exists aes', aes_setkey t aes key = Ok (tables, aes', None) /\
    BlockCipher aes_algorithm (tables, aes') (Fips197.aes key).
Proof.
  intros Ht HNk Hctx Hl Hb. destruct (setkey_ok t Nk aes key Ht HNk Hctx Hl Hb) as (aes' & E & _ & Hk).
  exists aes'. split; [done |].
  assert (Hspec : forall b, Fips197.aes key b = xor (shift_sub (enc_state (Fips197.RoundKey (expanded Nk key)) b (Nk + 6 - 1)))
    (Fips197.RoundKey (expanded Nk key) (Nk + 6))).
  { intros b. unfold Fips197.aes. by rewrite Hl, Nat.mul_comm, Nat.div_mul by lia. }
  split; [done | |]; cbn [blocksize aes_algorithm cipher_encrypt cipher_decrypt];
    intros b old [Hlen Hbytes] Hold; assert (Hblk : block b) by (split; [lia | done]); rewrite Hspec.
  - split; [apply (aes_encrypt_ok _ _ _ Hk); [done | lia] |].
    destruct (block_xor (shift_sub (enc_state (Fips197.RoundKey (expanded Nk key)) b (Nk + 6 - 1)))
      (Fips197.RoundKey (expanded Nk key) (Nk + 6))) as [L F].
    + apply block_shift_sub, (enc_state_block _ _ _ Hk); [done | lia].
    + apply (keyed_block _ _ _ Hk). lia.
    + split; [lia | done].
  - apply (aes_decrypt_ok _ _ _ Hk); [done | lia].
Qed.

(** ** Exclusive or of ranges *)

Lemma split_word (a : bytes) n : length a = (4 * S n)%nat -> Forall is_byte a ->
  exists w a', a = w ++ a' /\ word w /\ length a' = (4 * n)%nat /\ Forall is_byte a'.
Proof.
  intros Hl Hf. exists (take 4 a), (drop 4 a). rewrite take_drop, length_take, length_drop.
  split_and!; [done | lia | by apply Forall_take | lia | by apply Forall_drop].
Qed.

Lemma xor_loop_ok n i s1 a s2 soff d1 b d2 doff :
  length a = (4 * n)%nat -> length b = (4 * n)%nat -> Forall is_byte a -> Forall is_byte b ->
  soff + 4 * i = zlen s1 -> doff + 4 * i = zlen d1 ->
  xor_loop n i (s1 ++ a ++ s2) soff (d1 ++ b ++ d2) doff = Ok (d1 ++ xor b a ++ d2).
Proof.
  revert i s1 a d1 b. induction n as [| n IH]; intros i s1 a d1 b La Lb Fa Fb Hs Hd.
  { apply nil_length_inv in La as ->. apply nil_length_inv in Lb as ->. done. }
  destruct (split_word a n La Fa) as (wa & a' & -> & Wa & La' & Fa').
  destruct (split_word b n Lb Fb) as (wb & b' & -> & Wb & Lb' & Fb').
  destruct (word_xor wb wa Wb Wa) as [Wx Ex]. destruct (four _ Wx) as (x0 & x1 & x2 & x3 & E & ? & ? & ? & ?).
  cbn [xor_loop]. unfold rd_le32, wr_le32. rewrite <- !app_assoc.
  rewrite (rd_range_app d1 wb), (rd_range_app s1 wa) by (rewrite ?(proj1 Wa), ?(proj1 Wb); lia).
  cbn [mbind res_bind]. rewrite Ex, E, le32_value, <- E by done.
  rewrite wr_range_app by (first [done | rewrite (proj1 Wx), (proj1 Wb); done]). cbn [mbind res_bind].
  rewrite (app_assoc s1), (app_assoc d1).
  rewrite IH by (first [done | rewrite length_app, ?(proj1 Wa), ?(proj1 Wx); lia]).
  rewrite <- !app_assoc. f_equal. f_equal. rewrite app_assoc. f_equal.
  unfold xor. rewrite zip_with_app by (rewrite (proj1 Wa), (proj1 Wb); done). done.
Qed.

Lemma cbc_xor_ok s1 a s2 soff d1 b d2 doff len :
  zlen a = len -> zlen b = len -> len mod 4 = 0 -> Forall is_byte a -> Forall is_byte b ->
  soff = zlen s1 -> doff = zlen d1 ->
  cbc_xor (s1 ++ a ++ s2) soff (d1 ++ b ++ d2) doff len = Ok (d1 ++ xor b a ++ d2).
Proof.
  intros Ha Hb Hmod Fa Fb -> ->. unfold cbc_xor. apply xor_loop_ok; try done; try lia;
    (rewrite Nat2Z.inj_iff || idtac); Z.div_mod_to_equations; lia.
Qed.

(** ** The modes on lists of blocks *)

Section Spec.
Variable E : bytes -> bytes.

Fixpoint cbc_blocks (iv : bytes) (ps : list bytes) : list bytes :=
  match ps with
  | [] => []
  | p :: ps => E (xor iv p) :: cbc_blocks (E (xor iv p)) ps
  end.

(** The chaining value after encrypting. *)
Definition cbc_chain (iv : bytes) (cs : list bytes) : bytes := default iv (last cs).
End Spec.

Lemma cbc_chain_cons iv c cs : cbc_chain iv (c :: cs) = cbc_chain c cs.
Proof. unfold cbc_chain. by destruct cs as [| c' cs]; [| rewrite last_cons_cons; destruct (last (c' :: cs)) eqn:El; [| by apply last_None in El]]. Qed.

Lemma xor_length a b n : zlen a = n -> zlen b = n -> zlen (xor a b) = n.
Proof. intros. unfold xor. rewrite length_zip_with. lia. Qed.

Section Correct.
Context {Ctx : Type} (alg : cipher_algorithm Ctx) (ctx : Ctx) (E : bytes -> bytes) `{BC : !BlockCipher alg ctx E}.
Abbreviation bs := (blocksize alg).
Abbreviation blocks ps := (Forall (fun p : bytes => blockn bs p) ps).

Lemma length_blocks ps : blocks ps -> zlen (concat ps) = Z.of_nat (length ps) * bs.
Proof using Type.
  intros Hp. induction Hp as [| p ps [Hp _] Hps IH]; [done |]. cbn [concat length]. rewrite length_app. lia.
Qed.

Lemma cbc_blocks_ok iv ps : blockn bs iv -> blocks ps -> blocks (cbc_blocks E iv ps) /\
  length (cbc_blocks E iv ps) = length ps.
Proof using BC.
  intros Hiv Hps. revert iv Hiv. induction Hps as [| p ps [Lp Fp] Hps IH]; intros iv [Li Fi]; [done |].
  cbn [cbc_blocks length].
  assert (Hx : blockn bs (xor iv p)) by (split; [by apply xor_length | by apply xor_bytes]).
  destruct (encrypt_ok (xor iv p) (xor iv p) Hx (proj1 Hx)) as [_ Hc].
  destruct (IH _ Hc) as [Hb Hl]. split; [by constructor | by rewrite Hl].
Qed.

Lemma cbc_xor_ctx mem src iv p :
  0 <= src -> src + bs <= zlen mem -> slice mem src bs = p -> blockn bs p -> blockn bs iv ->
  cbc_xor mem src iv 0 bs = Ok (xor iv p).
Proof using BC.
  intros Hs Hb Hp [Lp Fp] [Li Fi]. destruct (blocksize_words (alg := alg) (ctx := ctx) (E := E)) as [Hpos Hmod].
  rewrite (slice_split mem src bs) at 1 by lia. rewrite Hp.
  pose proof (cbc_xor_ok (take (Z.to_nat src) mem) p (drop (Z.to_nat src + Z.to_nat bs) mem) src [] iv [] 0 bs) as H.
  cbn [app] in H. rewrite !app_nil_r in H. apply H; try done. rewrite length_take. lia.
Qed.

(** A buffer of whole blocks at [src] that may be overwritten from [dst] on. *)
Definition buffer (mem : bytes) (src dst : Z) (ps : list bytes) : Prop :=
  let len := Z.of_nat (length ps) * bs in
  0 <= src /\ 0 <= dst /\ src + len <= zlen mem /\ dst + len <= zlen mem /\
  (dst <= src \/ src + len <= dst) /\ slice mem src len = concat ps.

Lemma buffer_cons mem src dst p ps c :
  buffer mem src dst (p :: ps) -> blockn bs p -> zlen c = bs ->
  slice mem src bs = p /\ src + bs <= zlen mem /\ dst + bs <= zlen mem /\
  buffer (splice mem dst c) (src + bs) (dst + bs) ps.
Proof using BC.
  intros (Hs & Hd & Hsl & Hdl & Ho & Hdata) [Lp _] Lc. cbn [length concat] in *.
  destruct (blocksize_words (alg := alg) (ctx := ctx) (E := E)) as [Hpos _].
  replace (Z.of_nat (S (length ps)) * bs) with (bs + Z.of_nat (length ps) * bs) in * by lia.
  assert (0 <= Z.of_nat (length ps) * bs) by lia.
  rewrite slice_add in Hdata by lia. apply app_inj_1 in Hdata as [E1 E2].
  2: { pose proof (length_slice mem src bs). lia. }
  split_and!; [done | lia | lia |]. unfold buffer. rewrite length_splice by lia.
  split_and!; [lia | lia | lia | lia | lia |].
  rewrite slice_splice_ne by lia. done.
Qed.

Lemma cbc_encrypt_loop_ok fuel ps mem src dst iv :
  blocks ps -> blockn bs iv -> buffer mem src dst ps -> (length ps <= fuel)%nat ->
  cbc_encrypt_loop alg ctx fuel mem src dst (Z.of_nat (length ps) * bs) iv =
    Ok (splice mem dst (concat (cbc_blocks E iv ps)), cbc_chain iv (cbc_blocks E iv ps)).
Proof using BC.
  intros Hps. destruct (blocksize_words (alg := alg) (ctx := ctx) (E := E)) as [Hpos _].
  revert fuel mem src dst iv. induction Hps as [| p ps Hp Hps IH]; intros fuel mem src dst iv Hiv Hbuf Hf.
  { destruct fuel; cbn; f_equal; f_equal; unfold splice; cbn [app length]; by rewrite Nat.add_0_r, take_drop. }
  destruct fuel as [| fuel]; [cbn in Hf; lia |].
  assert (Hx : blockn bs (xor iv p)).
  { destruct Hp, Hiv. split; [by apply xor_length | by apply xor_bytes]. }
  destruct (encrypt_ok (xor iv p) (slice mem dst bs) Hx) as [Eenc Hc].
  { destruct Hbuf as (? & ? & ? & ? & _). cbn [length] in *. apply length_slice; lia. }
  set (c := E (xor iv p)) in *.
  destruct (buffer_cons mem src dst p ps c Hbuf Hp (proj1 Hc)) as (Ep & Hsl & Hdl & Hbuf').
  specialize (IH fuel _ _ _ c Hc Hbuf' ltac:(cbn in Hf; lia)).
  destruct Hbuf as (Hs & Hd & _). cbn [cbc_encrypt_loop cbc_blocks concat].
  rewrite (proj2 (Z.eqb_neq _ _)) by (cbn [length]; lia).
  step (cbc_xor_ctx mem src iv p Hs Hsl Ep Hp Hiv). step (rd_range_slice mem dst bs Hd ltac:(lia) Hdl).
  step Eenc. step (wr_range_splice mem dst c Hd ltac:(lia)).
  rewrite <- (proj1 Hc) at 1. step (rd_range_slice (splice mem dst c) dst (zlen c) Hd ltac:(lia) ltac:(rewrite length_splice; lia)).
  rewrite slice_splice_eq by lia.
  step (wr_range_splice (xor iv p) 0 c ltac:(lia) ltac:(lia)). rewrite splice_whole by lia.
  replace (Z.of_nat (length (p :: ps)) * bs - bs) with (Z.of_nat (length ps) * bs) by (cbn [length]; lia).
  rewrite IH, cbc_chain_cons. do 2 f_equal. fold c. rewrite <- (proj1 Hc) at 1. apply splice_splice; [lia |].
  destruct (cbc_blocks_ok c ps Hc Hps) as [Hbl Hln]. rewrite (length_blocks _ Hbl), Hln, (proj1 Hc).
  destruct Hbuf' as (_ & _ & _ & Hdl' & _). rewrite length_splice in Hdl' by lia. lia.
Qed.

Lemma cbc_xor_mem mem dst iv x :
  0 <= dst -> dst + bs <= zlen mem -> blockn bs x -> blockn bs iv ->
  cbc_xor iv 0 (splice mem dst x) dst bs = Ok (splice mem dst (xor x iv)).
Proof using BC.
  intros Hd Hb [Lx Fx] [Li Fi]. destruct (blocksize_words (alg := alg) (ctx := ctx) (E := E)) as [Hpos Hmod].
  pose proof (cbc_xor_ok [] iv [] 0 (take (Z.to_nat dst) mem) x (drop (Z.to_nat dst + length x) mem) dst bs) as H.
  cbn [app] in H. rewrite !app_nil_r in H. unfold splice at 1. rewrite H; try done.
  - unfold splice. by replace (length (xor x iv)) with (length x) by (pose proof (xor_length x iv bs Lx Li); lia).
  - rewrite length_take. lia.
Qed.

Lemma cbc_decrypt_loop_ok fuel ps mem src dst iv :
  blocks ps -> blockn bs iv -> buffer mem src dst (cbc_blocks E iv ps) -> (length ps <= fuel)%nat ->
  cbc_decrypt_loop alg ctx fuel mem src dst (Z.of_nat (length ps) * bs) iv =
    Ok (splice mem dst (concat ps), cbc_chain iv (cbc_blocks E iv ps)).
Proof using BC.
  intros Hps. destruct (blocksize_words (alg := alg) (ctx := ctx) (E := E)) as [Hpos _].
  revert fuel mem src dst iv. induction Hps as [| p ps Hp Hps IH]; intros fuel mem src dst iv Hiv Hbuf Hf.
  { destruct fuel; cbn; f_equal; f_equal; unfold splice; cbn [app length]; by rewrite Nat.add_0_r, take_drop. }
  destruct fuel as [| fuel]; [cbn in Hf; lia |].
  assert (Hx : blockn bs (xor iv p)).
  { destruct Hp, Hiv. split; [by apply xor_length | by apply xor_bytes]. }
  destruct (encrypt_ok (xor iv p) (xor iv p) Hx (proj1 Hx)) as [_ Hc]. cbn [cbc_blocks] in Hbuf.
  set (c := E (xor iv p)) in *.
  destruct (buffer_cons mem src dst c (cbc_blocks E c ps) p Hbuf Hc (proj1 Hp)) as (Ec & Hsl & Hdl & Hbuf').
  specialize (IH fuel _ _ _ c Hc Hbuf' ltac:(cbn in Hf; lia)).
  destruct Hbuf as (Hs & Hd & _). cbn [cbc_decrypt_loop cbc_blocks concat].
  rewrite (proj2 (Z.eqb_neq _ _)) by (cbn [length]; lia).
  step (rd_range_slice mem src bs Hs ltac:(lia) Hsl). rewrite bind_ok. rewrite Ec.
  step (rd_range_slice mem dst bs Hd ltac:(lia) Hdl).
  pose proof (decrypt_ok (xor iv p) (slice mem dst bs) Hx ltac:(apply length_slice; lia)) as Edec. fold c in Edec.
  step Edec.
  step (wr_range_splice mem dst (xor iv p) Hd ltac:(destruct Hx; lia)).
  step (cbc_xor_mem mem dst iv (xor iv p) Hd Hdl Hx Hiv).
  rewrite (xor_comm iv p), xor_xor by (destruct Hp, Hiv; lia).
  step (wr_range_splice iv 0 c ltac:(lia) ltac:(destruct Hc, Hiv; lia)). rewrite splice_whole by (destruct Hc, Hiv; lia).
  replace (Z.of_nat (length (p :: ps)) * bs - bs) with (Z.of_nat (length ps) * bs) by (cbn [length]; lia).
  rewrite IH, (xor_comm p iv). fold c. rewrite cbc_chain_cons. do 2 f_equal. rewrite <- (proj1 Hp) at 1.
  apply splice_splice; [lia |]. rewrite (length_blocks _ Hps), (proj1 Hp).
  destruct Hbuf' as (_ & _ & _ & Hdl' & _). rewrite length_splice in Hdl' by (destruct Hp; lia).
  rewrite (proj2 (cbc_blocks_ok c ps Hc Hps)) in Hdl'. lia.
Qed.

Lemma cbc_setiv_ok cbc_ctx iv : zlen cbc_ctx = bs -> zlen iv = bs -> cbc_setiv alg cbc_ctx iv = Ok iv.
Proof using BC.
  intros Hc Hi. destruct (blocksize_words (alg := alg) (ctx := ctx) (E := E)) as [Hpos _]. unfold cbc_setiv.
  step (rd_range_slice iv 0 bs ltac:(lia) ltac:(lia) ltac:(lia)). rewrite slice_whole by lia.
  rewrite wr_range_splice by lia. by rewrite splice_whole by lia.
Qed.

(** Encrypting in several calls is encrypting at once. *)
Lemma cbc_blocks_app iv ps qs :
  cbc_blocks E iv (ps ++ qs) = cbc_blocks E iv ps ++ cbc_blocks E (cbc_chain iv (cbc_blocks E iv ps)) qs.
Proof using Type.
  revert iv. induction ps as [| p ps IH]; intros iv; [done |]. cbn [app cbc_blocks]. by rewrite IH, cbc_chain_cons.
Qed.

(** Electronic codebook, for either operation. *)
Lemma ecb_loop_ok op F fuel ps mem src dst :
  (forall p old, blockn bs p -> zlen old = bs -> op ctx (F p) old = Ok p /\ blockn bs (F p)) ->
  blocks ps -> buffer mem src dst (F <$> ps) -> (length ps <= fuel)%nat ->
  ecb_loop alg ctx op fuel mem src dst (Z.of_nat (length ps) * bs) = Ok (splice mem dst (concat ps)).
Proof using BC.
  intros Hop Hps. destruct (blocksize_words (alg := alg) (ctx := ctx) (E := E)) as [Hpos _].
  revert fuel mem src dst. induction Hps as [| p ps Hp Hps IH]; intros fuel mem src dst Hbuf Hf.
  { destruct fuel; cbn; f_equal; unfold splice; cbn [app length]; by rewrite Nat.add_0_r, take_drop. }
  destruct fuel as [| fuel]; [cbn in Hf; lia |]. rewrite fmap_cons in Hbuf.
  destruct (Hop p (slice mem dst bs) Hp) as [Eop HF].
  { destruct Hbuf as (? & ? & ? & ? & _). cbn [length] in *. apply length_slice; lia. }
  destruct (buffer_cons mem src dst (F p) (F <$> ps) p Hbuf HF (proj1 Hp)) as (Ec & Hsl & Hdl & Hbuf').
  specialize (IH fuel _ _ _ Hbuf' ltac:(cbn in Hf; lia)). destruct Hbuf as (Hs & Hd & _). cbn [ecb_loop concat].
  rewrite (proj2 (Z.eqb_neq _ _)) by (cbn [length]; lia).
  step (rd_range_slice mem src bs Hs ltac:(lia) Hsl). rewrite Ec. step (rd_range_slice mem dst bs Hd ltac:(lia) Hdl).
  step Eop. step (wr_range_splice mem dst p Hd ltac:(destruct Hp; lia)).
  replace (Z.of_nat (length (p :: ps)) * bs - bs) with (Z.of_nat (length ps) * bs) by (cbn [length]; lia).
  rewrite IH. f_equal. rewrite <- (proj1 Hp) at 1. apply splice_splice; [lia |].
  rewrite (length_blocks _ Hps), (proj1 Hp). destruct Hbuf' as (_ & _ & _ & Hdl' & _).
  rewrite length_splice, length_fmap in Hdl' by (destruct Hp; lia). lia.
Qed.

Lemma ecb_decrypt_ok ps mem src dst :
  blocks ps -> buffer mem src dst (E <$> ps) ->
  ecb_decrypt alg ctx mem src dst (Z.of_nat (length ps) * bs) = Ok (splice mem dst (concat ps)).
Proof using BC.
  intros Hps Hbuf. destruct (blocksize_words (alg := alg) (ctx := ctx) (E := E)) as [Hpos _].
  apply (ecb_loop_ok _ E); [| done | done | nia].
  intros p old Hp Ho. split; [by apply decrypt_ok | by apply (encrypt_ok p old)].
Qed.
End Correct.

(** C30. Cipher-block chaining over any block cipher: encryption of a buffer of
    whole blocks writes exactly the chained ciphertext [c = E (previous c xor p)]
    to the destination, and decryption under the same initialisation vector
    restores the plaintext, for every destination that does not overlap the source
    from behind (it may be the source itself, start before it, or be disjoint from
    it); the rest of memory is unchanged and both calls end with the last
    ciphertext block as chaining context. *)
Theorem cbc_decrypt_encrypt {Ctx : Type} (alg : cipher_algorithm Ctx) (ctx : Ctx) (E : bytes -> bytes)
    `{!BlockCipher alg ctx E} (mem iv cbc_ctx : bytes) (src dst dst' : Z) (ps : list bytes) :
  let len := Z.of_nat (length ps) * blocksize alg in
  let cs := cbc_blocks E iv ps in
  Forall (fun p : bytes => blockn (blocksize alg) p) ps -> blockn (blocksize alg) iv ->
  zlen cbc_ctx = blocksize alg -> buffer alg mem src dst ps ->
  0 <= dst' -> dst' + len <= zlen mem -> dst' <= dst \/ dst + len <= dst' ->
  (c ← cbc_setiv alg cbc_ctx iv; cbc_encrypt alg ctx mem src dst len c) =
    Ok (splice mem dst (concat cs), cbc_chain iv cs) /\
  (c ← cbc_setiv alg cbc_ctx iv; cbc_decrypt alg ctx (splice mem dst (concat cs)) dst dst' len c) =
    Ok (splice (splice mem dst (concat cs)) dst' (concat ps), cbc_chain iv cs).
Proof.
  intros len cs Hps Hiv Hctx Hbuf Hd' Hl' Ho'.
  destruct (blocksize_words (alg := alg) (ctx := ctx) (E := E)) as [Hpos _].
  destruct (cbc_blocks_ok alg ctx E iv ps Hiv Hps) as [Hcs Hlen].
  rewrite (cbc_setiv_ok alg ctx E cbc_ctx iv Hctx (proj1 Hiv)). split; rewrite bind_ok.
  - apply (cbc_encrypt_loop_ok alg ctx E); [done | done | done |]. unfold len. nia.
  - apply (cbc_decrypt_loop_ok alg ctx E); [done | done | | unfold len; nia].
    destruct Hbuf as (Hs & Hd & _ & Hdl & _). fold len in Hdl. pose proof (length_blocks alg _ Hcs) as Hcat.
    fold cs in Hcat |- *. rewrite (Hlen : length cs = _) in Hcat. fold len in Hcat.
    unfold buffer. rewrite (Hlen : length cs = _). fold len. rewrite length_splice by lia.
    split_and!; try done; try lia. rewrite <- Hcat at 1. apply slice_splice_eq; lia.
Qed.

(** Three blocks encrypted in place under an AES key. *)
Lemma cbc_decrypt_encrypt_witness :
  exists aes', aes_setkey aes_tables_bss blank_context (ramp 16) = Ok (tables, aes', None) /\
    let ps := [ramp 16; ramp 16; ramp 16] in
    let mem := concat ps ++ ramp 5 in
    let cs := cbc_blocks (Fips197.aes (ramp 16)) (ramp 16) ps in
    (c ← cbc_setiv aes_algorithm (replicate 16 0) (ramp 16); cbc_encrypt aes_algorithm (tables, aes') mem 0 0 48 c) =
      Ok (splice mem 0 (concat cs), cbc_chain (ramp 16) cs) /\
    (c ← cbc_setiv aes_algorithm (replicate 16 0) (ramp 16);
     cbc_decrypt aes_algorithm (tables, aes') (splice mem 0 (concat cs)) 0 0 48 c) =
      Ok (splice (splice mem 0 (concat cs)) 0 (concat ps), cbc_chain (ramp 16) cs).
Proof.
  destruct (aes_block_cipher aes_tables_bss 4 blank_context (ramp 16)) as (aes' & Eset & HBC).
  - by left.
  - by left.
  - done.
  - done.
  - apply ramp_bytes. lia.
  - exists aes'. split; [exact Eset |].
    assert (Hramp : zlen (ramp 16) = 16 /\ Forall is_byte (ramp 16)) by (split; [done | apply ramp_bytes; lia]).
    pose proof (cbc_decrypt_encrypt aes_algorithm (tables, aes') (Fips197.aes (ramp 16))
      (concat [ramp 16; ramp 16; ramp 16] ++ ramp 5) (ramp 16) (replicate 16 0) 0 0 0
      [ramp 16; ramp 16; ramp 16]) as H.
    apply H.
    + repeat apply Forall_cons_2; try apply Forall_nil_2; exact Hramp.
    + exact Hramp.
    + done.
    + unfold buffer. split_and!; [lia | lia | vm_compute; discriminate | vm_compute; discriminate | left; lia |].
      vm_compute. reflexivity.
    + lia.
    + vm_compute. discriminate.
    + left. lia.
Defined.
