(* ===== verification/Digest.v ===== *)
(** * Message digests ([crypto/md4.c], [md5.c], [sha1.c], [sha256.c],
      [sha224.c], [sha512.c], [sha384.c], [sha512_224.c], [sha512_256.c])

    The digests share one structure, which the sources repeat for each: a context
    with the length so far, the digest and a block of accumulated data; a
    function that digests a full block in place; byte-wise accumulation; and
    padding with the length in bits.  A [family] holds what differs (word size,
    byte order, the rounds); [family_digest], [family_update] and
    [family_final] are the shared code, instantiated under the sources' names. *)

From Stdlib Require Import ZArith Lia Bool ZifyBool.
From stdpp Require Import base numbers list.
From S2P Require Import Prelude Bits.

Local Open Scope Z_scope.

(** ** Bytes of a word *)

Fixpoint le_bytes (n : nat) (v : Z) : bytes :=
  match n with
  | O => []
  | S n => v mod 2 ^ 8 :: le_bytes n (v / 2 ^ 8)
  end.

Definition be_bytes (n : nat) (v : Z) : bytes := reverse (le_bytes n v).

(** The first [k] groups of [n] elements. *)
Fixpoint groups (n k : nat) (b : bytes) : list bytes :=
  match k with
  | O => []
  | S k => take n b :: groups n k (drop n b)
  end.

(** ** MD4 *)

Record md_variables := MdVariables { md_a : Z; md_b : Z; md_c : Z; md_d : Z; md_w : list Z }.

Definition md4_r : list (list Z) := [[3; 7; 11; 19]; [3; 5; 9; 13]; [3; 9; 11; 15]].

Definition md4_f_0_15 (v : md_variables) (i : nat) : Z :=
  u32 (Z.lor (Z.land (md_b v) (md_c v)) (Z.land (u32 (Z.lnot (md_b v))) (md_d v)) + nth i (md_w v) 0).

Definition md4_f_16_31 (v : md_variables) (i : nat) : Z :=
  u32 (Z.lor (Z.lor (Z.land (md_b v) (md_c v)) (Z.land (md_b v) (md_d v))) (Z.land (md_c v) (md_d v)) +
       nth (Z.to_nat (Z.lor (Z.shiftl (Z.of_nat i) 2) (Z.shiftr (Z.of_nat i) 2) mod 16)) (md_w v) 0).

Definition md4_reverse : list nat := [0; 8; 4; 12; 2; 10; 6; 14; 1; 9; 5; 13; 3; 11; 7; 15]%nat.

Definition md4_f_32_47 (v : md_variables) (i : nat) : Z :=
  u32 (Z.lxor (Z.lxor (md_b v) (md_c v)) (md_d v) + nth (nth i md4_reverse 0%nat) (md_w v) 0).

Definition md4_steps : list ((md_variables -> nat -> Z) * Z) :=
  [(md4_f_0_15, 0); (md4_f_16_31, 0x5a827999); (md4_f_32_47, 0x6ed9eba1)].

Definition md4_step (v : md_variables) (i : nat) : md_variables :=
  let round := (i / 16)%nat in
  let '(fn, constant) := nth round md4_steps (md4_f_0_15, 0) in
  let f := fn v (i mod 16)%nat in
  MdVariables (md_d v) (rol32 (u32 (md_a v + f + constant)) (nth (i mod 4) (nth round md4_r []) 0))
    (md_b v) (md_c v) (md_w v).

(** The variables from the words of the digest and of the data, and back. *)
Definition md_load (u : list Z) : md_variables :=
  MdVariables (nth 0 u 0) (nth 1 u 0) (nth 2 u 0) (nth 3 u 0) (drop 4 u).

Definition md_store (v : md_variables) : list Z := [md_a v; md_b v; md_c v; md_d v].

Definition md4_rounds (u : list Z) : list Z := md_store (foldl md4_step (md_load u) (seq 0 48)).

(** ** MD5 *)

Definition md5_k : list Z := [
  0xd76aa478; 0xe8c7b756; 0x242070db; 0xc1bdceee; 0xf57c0faf; 0x4787c62a;
  0xa8304613; 0xfd469501; 0x698098d8; 0x8b44f7af; 0xffff5bb1; 0x895cd7be;
  0x6b901122; 0xfd987193; 0xa679438e; 0x49b40821; 0xf61e2562; 0xc040b340;
  0x265e5a51; 0xe9b6c7aa; 0xd62f105d; 0x02441453; 0xd8a1e681; 0xe7d3fbc8;
  0x21e1cde6; 0xc33707d6; 0xf4d50d87; 0x455a14ed; 0xa9e3e905; 0xfcefa3f8;
  0x676f02d9; 0x8d2a4c8a; 0xfffa3942; 0x8771f681; 0x6d9d6122; 0xfde5380c;
  0xa4beea44; 0x4bdecfa9; 0xf6bb4b60; 0xbebfbc70; 0x289b7ec6; 0xeaa127fa;
  0xd4ef3085; 0x04881d05; 0xd9d4d039; 0xe6db99e5; 0x1fa27cf8; 0xc4ac5665;
  0xf4292244; 0x432aff97; 0xab9423a7; 0xfc93a039; 0x655b59c3; 0x8f0ccc92;
  0xffeff47d; 0x85845dd1; 0x6fa87e4f; 0xfe2ce6e0; 0xa3014314; 0x4e0811a1;
  0xf7537e82; 0xbd3af235; 0x2ad7d2bb; 0xeb86d391].

Definition md5_r : list (list Z) :=
  [[7; 12; 17; 22]; [5; 9; 14; 20]; [4; 11; 16; 23]; [6; 10; 15; 21]].

Definition md5_f_0_15 (v : md_variables) : Z :=
  Z.lxor (md_d v) (Z.land (md_b v) (Z.lxor (md_c v) (md_d v))).

Definition md5_f_16_31 (v : md_variables) : Z :=
  Z.lxor (md_c v) (Z.land (md_d v) (Z.lxor (md_b v) (md_c v))).

Definition md5_f_32_47 (v : md_variables) : Z := Z.lxor (Z.lxor (md_b v) (md_c v)) (md_d v).

Definition md5_f_48_63 (v : md_variables) : Z :=
  Z.lxor (md_c v) (Z.lor (md_b v) (u32 (Z.lnot (md_d v)))).

Record md5_step := Md5Step { md5_f : md_variables -> Z; coefficient : nat; constant : nat }.

Definition md5_steps : list md5_step :=
  [Md5Step md5_f_0_15 1 0; Md5Step md5_f_16_31 5 1; Md5Step md5_f_32_47 3 5; Md5Step md5_f_48_63 7 0].

Definition md5_round (v : md_variables) (i : nat) : md_variables :=
  let round := (i / 16)%nat in
  let step := nth round md5_steps (Md5Step md5_f_0_15 1 0) in
  let f := md5_f step v in
  let g := ((coefficient step * i + constant step) mod 16)%nat in
  MdVariables (md_d v)
    (u32 (md_b v + rol32 (u32 (md_a v + f + nth i md5_k 0 + nth g (md_w v) 0)) (nth (i mod 4) (nth round md5_r []) 0)))
    (md_b v) (md_c v) (md_w v).

Definition md5_rounds (u : list Z) : list Z := md_store (foldl md5_round (md_load u) (seq 0 64)).

(** ** SHA-1 *)

Record sha1_variables := Sha1Variables
  { sha1_a : Z; sha1_b : Z; sha1_c : Z; sha1_d : Z; sha1_e : Z; sha1_w : list Z }.

Definition sha1_f_0_19 (v : sha1_variables) : Z :=
  Z.lor (Z.land (sha1_b v) (sha1_c v)) (Z.land (u32 (Z.lnot (sha1_b v))) (sha1_d v)).

Definition sha1_f_20_39_60_79 (v : sha1_variables) : Z := Z.lxor (Z.lxor (sha1_b v) (sha1_c v)) (sha1_d v).

Definition sha1_f_40_59 (v : sha1_variables) : Z :=
  Z.lor (Z.lor (Z.land (sha1_b v) (sha1_c v)) (Z.land (sha1_b v) (sha1_d v))) (Z.land (sha1_c v) (sha1_d v)).

Definition sha1_steps : list ((sha1_variables -> Z) * Z) :=
  [(sha1_f_0_19, 0x5a827999); (sha1_f_20_39_60_79, 0x6ed9eba1);
   (sha1_f_40_59, 0x8f1bbcdc); (sha1_f_20_39_60_79, 0xca62c1d6)].

(** The words [w[16..79]], with [n] of them left to compute. *)
Fixpoint sha1_schedule (n : nat) (w : list Z) : list Z :=
  match n with
  | O => w
  | S n =>
      let i := length w in
      let x := Z.lxor (Z.lxor (Z.lxor (nth (i - 3) w 0) (nth (i - 8) w 0)) (nth (i - 14) w 0)) (nth (i - 16) w 0) in
      sha1_schedule n (w ++ [rol32 x 1])
  end.

Definition sha1_round (v : sha1_variables) (i : nat) : sha1_variables :=
  let '(fn, k) := nth (i / 20) sha1_steps (sha1_f_0_19, 0) in
  let f := fn v in
  let temp := u32 (rol32 (sha1_a v) 5 + f + sha1_e v + k + nth i (sha1_w v) 0) in
  Sha1Variables temp (sha1_a v) (rol32 (sha1_b v) 30) (sha1_c v) (sha1_d v) (sha1_w v).

Definition sha1_rounds (u : list Z) : list Z :=
  let v := Sha1Variables (nth 0 u 0) (nth 1 u 0) (nth 2 u 0) (nth 3 u 0) (nth 4 u 0) (sha1_schedule 64 (drop 5 u)) in
  let v := foldl sha1_round v (seq 0 80) in
  [sha1_a v; sha1_b v; sha1_c v; sha1_d v; sha1_e v].

(** ** SHA-2

    [sha256.c] and [sha512.c] are the same code at two word sizes, with their
    own rotations, number of rounds and constants. *)

Record sha2_parameters := Sha2Parameters {
  s2_bits : Z; s2_rounds : nat; s2_k : list Z;
  s2_w0 : Z * Z * Z; s2_w1 : Z * Z * Z; s2_a : Z * Z * Z; s2_e : Z * Z * Z
}.

Record sha2_variables := Sha2Variables
  { s2a : Z; s2b : Z; s2c : Z; s2d : Z; s2e : Z; s2f : Z; s2g : Z; s2h : Z; s2w : list Z }.

(** [ror ^ ror ^ >>] of the schedule and [ror ^ ror ^ ror] of the main loop. *)
Definition sha2_small (bits : Z) (r : Z * Z * Z) (x : Z) : Z :=
  Z.lxor (Z.lxor (RORx bits x r.1.1) (RORx bits x r.1.2)) (Z.shiftr x r.2).

Definition sha2_big (bits : Z) (r : Z * Z * Z) (x : Z) : Z :=
  Z.lxor (Z.lxor (RORx bits x r.1.1) (RORx bits x r.1.2)) (RORx bits x r.2).

Fixpoint sha2_schedule (p : sha2_parameters) (n : nat) (w : list Z) : list Z :=
  match n with
  | O => w
  | S n =>
      let i := length w in
      let s0 := sha2_small (s2_bits p) (s2_w0 p) (nth (i - 15) w 0) in
      let s1 := sha2_small (s2_bits p) (s2_w1 p) (nth (i - 2) w 0) in
      sha2_schedule p n (w ++ [wrap (s2_bits p) (nth (i - 16) w 0 + s0 + nth (i - 7) w 0 + s1)])
  end.

Definition sha2_round (p : sha2_parameters) (v : sha2_variables) (i : nat) : sha2_variables :=
  let wr := wrap (s2_bits p) in
  let s0 := sha2_big (s2_bits p) (s2_a p) (s2a v) in
  let maj := Z.lxor (Z.lxor (Z.land (s2a v) (s2b v)) (Z.land (s2a v) (s2c v))) (Z.land (s2b v) (s2c v)) in
  let t2 := wr (s0 + maj) in
  let s1 := sha2_big (s2_bits p) (s2_e p) (s2e v) in
  let ch := Z.lxor (Z.land (s2e v) (s2f v)) (Z.land (wr (Z.lnot (s2e v))) (s2g v)) in
  let t1 := wr (s2h v + s1 + ch + nth i (s2_k p) 0 + nth i (s2w v) 0) in
  Sha2Variables (wr (t1 + t2)) (s2a v) (s2b v) (s2c v) (wr (s2d v + t1)) (s2e v) (s2f v) (s2g v) (s2w v).

Definition sha2_rounds (p : sha2_parameters) (u : list Z) : list Z :=
  let v := Sha2Variables (nth 0 u 0) (nth 1 u 0) (nth 2 u 0) (nth 3 u 0) (nth 4 u 0) (nth 5 u 0) (nth 6 u 0)
             (nth 7 u 0) (sha2_schedule p (s2_rounds p - 16) (drop 8 u)) in
  let v := foldl (sha2_round p) v (seq 0 (s2_rounds p)) in
  [s2a v; s2b v; s2c v; s2d v; s2e v; s2f v; s2g v; s2h v].

(** Constants of SHA-256, by the rows of the table. *)
Definition sha256_k : list Z := Eval cbv in concat [
  [0x428a2f98; 0x71374491; 0xb5c0fbcf; 0xe9b5dba5; 0x3956c25b; 0x59f111f1];
  [0x923f82a4; 0xab1c5ed5; 0xd807aa98; 0x12835b01; 0x243185be; 0x550c7dc3];
  [0x72be5d74; 0x80deb1fe; 0x9bdc06a7; 0xc19bf174; 0xe49b69c1; 0xefbe4786];
  [0x0fc19dc6; 0x240ca1cc; 0x2de92c6f; 0x4a7484aa; 0x5cb0a9dc; 0x76f988da];
  [0x983e5152; 0xa831c66d; 0xb00327c8; 0xbf597fc7; 0xc6e00bf3; 0xd5a79147];
  [0x06ca6351; 0x14292967; 0x27b70a85; 0x2e1b2138; 0x4d2c6dfc; 0x53380d13];
  [0x650a7354; 0x766a0abb; 0x81c2c92e; 0x92722c85; 0xa2bfe8a1; 0xa81a664b];
  [0xc24b8b70; 0xc76c51a3; 0xd192e819; 0xd6990624; 0xf40e3585; 0x106aa070];
  [0x19a4c116; 0x1e376c08; 0x2748774c; 0x34b0bcb5; 0x391c0cb3; 0x4ed8aa4a];
  [0x5b9cca4f; 0x682e6ff3; 0x748f82ee; 0x78a5636f; 0x84c87814; 0x8cc70208];
  [0x90befffa; 0xa4506ceb; 0xbef9a3f7; 0xc67178f2]].

(** Constants of SHA-512. *)
Definition sha512_k : list Z := [
  0x428a2f98d728ae22; 0x7137449123ef65cd; 0xb5c0fbcfec4d3b2f;
  0xe9b5dba58189dbbc; 0x3956c25bf348b538; 0x59f111f1b605d019;
  0x923f82a4af194f9b; 0xab1c5ed5da6d8118; 0xd807aa98a3030242;
  0x12835b0145706fbe; 0x243185be4ee4b28c; 0x550c7dc3d5ffb4e2;
  0x72be5d74f27b896f; 0x80deb1fe3b1696b1; 0x9bdc06a725c71235;
  0xc19bf174cf692694; 0xe49b69c19ef14ad2; 0xefbe4786384f25e3;
  0x0fc19dc68b8cd5b5; 0x240ca1cc77ac9c65; 0x2de92c6f592b0275;
  0x4a7484aa6ea6e483; 0x5cb0a9dcbd41fbd4; 0x76f988da831153b5;
  0x983e5152ee66dfab; 0xa831c66d2db43210; 0xb00327c898fb213f;
  0xbf597fc7beef0ee4; 0xc6e00bf33da88fc2; 0xd5a79147930aa725;
  0x06ca6351e003826f; 0x142929670a0e6e70; 0x27b70a8546d22ffc;
  0x2e1b21385c26c926; 0x4d2c6dfc5ac42aed; 0x53380d139d95b3df;
  0x650a73548baf63de; 0x766a0abb3c77b2a8; 0x81c2c92e47edaee6;
  0x92722c851482353b; 0xa2bfe8a14cf10364; 0xa81a664bbc423001;
  0xc24b8b70d0f89791; 0xc76c51a30654be30; 0xd192e819d6ef5218;
  0xd69906245565a910; 0xf40e35855771202a; 0x106aa07032bbd1b8;
  0x19a4c116b8d2d0c8; 0x1e376c085141ab53; 0x2748774cdf8eeb99;
  0x34b0bcb5e19b48a8; 0x391c0cb3c5c95a63; 0x4ed8aa4ae3418acb;
  0x5b9cca4f7763e373; 0x682e6ff3d6b2b8a3; 0x748f82ee5defb2fc;
  0x78a5636f43172f60; 0x84c87814a1f0ab72; 0x8cc702081a6439ec;
  0x90befffa23631e28; 0xa4506cebde82bde9; 0xbef9a3f7b2c67915;
  0xc67178f2e372532b; 0xca273eceea26619c; 0xd186b8c721c0c207;
  0xeada7dd6cde0eb1e; 0xf57d4f7fee6ed178; 0x06f067aa72176fba;
  0x0a637dc5a2c898a6; 0x113f9804bef90dae; 0x1b710b35131c471b;
  0x28db77f523047d84; 0x32caab7b40c72493; 0x3c9ebe0a15c9bebc;
  0x431d67c49c100d4c; 0x4cc5d4becb3e42b6; 0x597f299cfc657e2a;
  0x5fcb6fab3ad6faec; 0x6c44198c4a475817].

(** Initial digest, in host order. *)
Definition sha256_init_digest : list Z := [
  0x6a09e667; 0xbb67ae85; 0x3c6ef372; 0xa54ff53a;
  0x510e527f; 0x9b05688c; 0x1f83d9ab; 0x5be0cd19].

(** Initial digest, in host order. *)
Definition sha224_init_digest : list Z := [
  0xc1059ed8; 0x367cd507; 0x3070dd17; 0xf70e5939;
  0xffc00b31; 0x68581511; 0x64f98fa7; 0xbefa4fa4].

(** Initial digest, in host order. *)
Definition sha512_init_digest : list Z := [
  0x6a09e667f3bcc908; 0xbb67ae8584caa73b; 0x3c6ef372fe94f82b; 0xa54ff53a5f1d36f1;
  0x510e527fade682d1; 0x9b05688c2b3e6c1f; 0x1f83d9abfb41bd6b; 0x5be0cd19137e2179].

(** Initial digest, in host order. *)
Definition sha384_init_digest : list Z := [
  0xcbbb9d5dc1059ed8; 0x629a292a367cd507; 0x9159015a3070dd17; 0x152fecd8f70e5939;
  0x67332667ffc00b31; 0x8eb44a8768581511; 0xdb0c2e0d64f98fa7; 0x47b5481dbefa4fa4].

(** Initial digest, in host order. *)
Definition sha512_224_init_digest : list Z := [
  0x8c3d37c819544da2; 0x73e1996689dcd4d6; 0x1dfab7ae32ff9c82; 0x679dd514582f9fcf;
  0x0f6d2b697bd44da8; 0x77e36f7304c48942; 0x3f9d85a86a1d36c8; 0x1112e6ad91d692a1].

(** Initial digest, in host order. *)
Definition sha512_256_init_digest : list Z := [
  0x22312194fc2bf72c; 0x9f555fa3c84c64c2; 0x2393b86b6f53b151; 0x963877195940eabd;
  0x96283ee2a88effe3; 0xbe5e1e2553863992; 0x2b0199fc2c85b8aa; 0x0eb72ddc81c52ca2].

Definition sha256_parameters : sha2_parameters :=
  Sha2Parameters 32 64 sha256_k (7, 18, 3) (17, 19, 10) (2, 13, 22) (6, 11, 25).

Definition sha512_parameters : sha2_parameters :=
  Sha2Parameters 64 80 sha512_k (1, 8, 7) (19, 61, 6) (28, 34, 39) (14, 18, 41).

(** ** Contexts

    [word] is the size of a word in bytes; a block is 16 words; the length field
    is the last two words of a block, the low 64 bits of it in the last eight
    bytes. *)

Record family := Family {
  word_size : nat;
  big_endian : bool;
  digest_words : nat;
  rounds : list Z -> list Z
}.

Definition block_size (f : family) : nat := 16 * word_size f.

Definition digest_size (f : family) : nat := digest_words f * word_size f.

(** [cpu_to_be32], [cpu_to_le32] and so on: the bytes of a value in memory, and
    the value of bytes. *)
Definition encode (big : bool) (n : nat) (v : Z) : bytes := if big then be_bytes n v else le_bytes n v.

Definition decode (big : bool) (b : bytes) : Z := le_value (if big then reverse b else b).

(** The digest and the data block, one after the other.  The digest size is a
    field of the SHA-2 contexts, and the size of the digest for the others. *)
Record digest_context := DigestContext { ctx_len : Z; ctx_digestsize : nat; ctx_ddd : bytes }.

Section Family.
Context (size_bits : Z) (f : family).

(** The words of the context are converted in place to host order and copied;
    the rounds work on the copy; the sum is converted back. *)
Definition family_digest (ctx : digest_context) : res digest_context :=
  let ws := word_size f in
  let n := (digest_words f + 16)%nat in
  if (length (ctx_ddd ctx) =? n * ws)%nat then
    let u := decode (big_endian f) <$> groups ws n (ctx_ddd ctx) in
    let ddd := concat (le_bytes ws <$> u) in
    let v := rounds f u in
    let h := zip_with (fun x y => wrap (8 * Z.of_nat ws) (x + y)) (take (digest_words f) u) v in
    Ok (DigestContext (ctx_len ctx) (ctx_digestsize ctx)
          (concat (encode (big_endian f) ws <$> h) ++ drop (digest_size f) ddd))
  else Trap.

Definition family_update_byte (ctx : digest_context) (byte : Z) : res digest_context :=
  let bs := Z.of_nat (block_size f) in
  let offset := ctx_len ctx mod bs in
  ddd ← wr (ctx_ddd ctx) (Z.of_nat (digest_size f) + offset) byte;
  let ctx := DigestContext (wrap size_bits (ctx_len ctx + 1)) (ctx_digestsize ctx) ddd in
  if ctx_len ctx mod bs =? 0 then family_digest ctx else Ok ctx.

Fixpoint family_update (ctx : digest_context) (data : bytes) : res digest_context :=
  match data with
  | [] => Ok ctx
  | byte :: data => ctx ← family_update_byte ctx byte; family_update ctx data
  end.

(** The padding loop; a block is enough. *)
Fixpoint pad_loop (fuel : nat) (ctx : digest_context) (pad : Z) : res digest_context :=
  match fuel with
  | O => Trap
  | S fuel =>
      ctx ← family_update ctx [pad];
      if ctx_len ctx mod Z.of_nat (block_size f) =? Z.of_nat (14 * word_size f) then Ok ctx
      else pad_loop fuel ctx 0
  end.

(** The high bits of the length are zero; the result is the digest copied to the
    start of [out]. *)
Definition family_final (ctx : digest_context) (out : bytes) : res (digest_context * bytes) :=
  let len_bits := encode (big_endian f) 8 (wrap 64 (ctx_len ctx * 8)) in
  ctx ← pad_loop (block_size f) ctx 128;
  ctx ← family_update ctx (replicate (2 * word_size f - 8) 0);
  ctx ← family_update ctx len_bits;
  digest ← rd_range (ctx_ddd ctx) 0 (Z.of_nat (ctx_digestsize ctx));
  out ← wr_range out 0 digest;
  Ok (ctx, out).

(** Initialisation copies the initial digest in memory order. *)
Definition family_init (init : list Z) (digestsize : nat) (ctx : digest_context) : res digest_context :=
  ddd ← wr_range (ctx_ddd ctx) 0 (concat (encode (big_endian f) (word_size f) <$> init));
  Ok (DigestContext 0 digestsize ddd).
End Family.

(** ** The algorithms *)

Definition md4_family : family := Family 4 false 4 md4_rounds.
Definition md5_family : family := Family 4 false 4 md5_rounds.
Definition sha1_family : family := Family 4 true 5 sha1_rounds.
Definition sha256_family : family := Family 4 true 8 (sha2_rounds sha256_parameters).
Definition sha512_family : family := Family 8 true 8 (sha2_rounds sha512_parameters).

Definition md_init_digest : list Z := [0x67452301; 0xefcdab89; 0x98badcfe; 0x10325476].

Definition sha1_init_digest : list Z := md_init_digest ++ [0xc3d2e1f0].

(** [struct digest_algorithm]; [size_bits] is the width of [size_t], and
    [ddd_size] what the context size leaves for the digest and data. *)
Record digest_algorithm := DigestAlgorithm {
  ddd_size : nat;
  blocksize : nat;
  digestsize : nat;
  digest_init : digest_context -> res digest_context;
  digest_update : Z -> digest_context -> bytes -> res digest_context;
  digest_final : Z -> digest_context -> bytes -> res (digest_context * bytes)
}.

Definition family_algorithm (f : family) (init : list Z) (size : nat) : digest_algorithm :=
  DigestAlgorithm (digest_size f + block_size f) (block_size f) size (family_init f init size)
    (fun size_bits => family_update size_bits f) (fun size_bits => family_final size_bits f).

(** The functions of each source file. *)
Definition md4_digest := family_digest md4_family.
Definition md4_update (size_bits : Z) := family_update size_bits md4_family.
Definition md4_final (size_bits : Z) := family_final size_bits md4_family.
Definition md5_digest := family_digest md5_family.
Definition md5_update (size_bits : Z) := family_update size_bits md5_family.
Definition md5_final (size_bits : Z) := family_final size_bits md5_family.
Definition sha1_digest := family_digest sha1_family.
Definition sha1_update (size_bits : Z) := family_update size_bits sha1_family.
Definition sha1_final (size_bits : Z) := family_final size_bits sha1_family.
Definition sha256_digest := family_digest sha256_family.
Definition sha256_update (size_bits : Z) := family_update size_bits sha256_family.
Definition sha256_final (size_bits : Z) := family_final size_bits sha256_family.
Definition sha512_digest := family_digest sha512_family.
Definition sha512_update (size_bits : Z) := family_update size_bits sha512_family.
Definition sha512_final (size_bits : Z) := family_final size_bits sha512_family.
Definition md4_init := family_init md4_family md_init_digest 16.
Definition md5_init := family_init md5_family md_init_digest 16.
Definition sha1_init := family_init sha1_family sha1_init_digest 20.
Definition sha256_family_init := family_init sha256_family.
Definition sha512_family_init := family_init sha512_family.
Definition sha256_init := sha256_family_init sha256_init_digest 32.
Definition sha224_init := sha256_family_init sha224_init_digest (32 * 224 / 256).
Definition sha512_init := sha512_family_init sha512_init_digest 64.
Definition sha384_init := sha512_family_init sha384_init_digest (64 * 384 / 512).
Definition sha512_224_init := sha512_family_init sha512_224_init_digest (64 * 224 / 512).
Definition sha512_256_init := sha512_family_init sha512_256_init_digest (64 * 256 / 512).

Definition md4_algorithm : digest_algorithm :=
  DigestAlgorithm (digest_size md4_family + block_size md4_family) (block_size md4_family) 16 md4_init md4_update md4_final.
Definition md5_algorithm : digest_algorithm :=
  DigestAlgorithm (digest_size md5_family + block_size md5_family) (block_size md5_family) 16 md5_init md5_update md5_final.
Definition sha1_algorithm : digest_algorithm :=
  DigestAlgorithm (digest_size sha1_family + block_size sha1_family) (block_size sha1_family) 20 sha1_init sha1_update sha1_final.
Definition sha256_algorithm : digest_algorithm :=
  DigestAlgorithm (digest_size sha256_family + block_size sha256_family) (block_size sha256_family) 32 sha256_init sha256_update sha256_final.
Definition sha224_algorithm : digest_algorithm :=
  DigestAlgorithm (digest_size sha256_family + block_size sha256_family) (block_size sha256_family) (32 * 224 / 256) sha224_init sha256_update sha256_final.
Definition sha512_algorithm : digest_algorithm :=
  DigestAlgorithm (digest_size sha512_family + block_size sha512_family) (block_size sha512_family) 64 sha512_init sha512_update sha512_final.
Definition sha384_algorithm : digest_algorithm :=
  DigestAlgorithm (digest_size sha512_family + block_size sha512_family) (block_size sha512_family) (64 * 384 / 512) sha384_init sha512_update sha512_final.
Definition sha512_224_algorithm : digest_algorithm :=
  DigestAlgorithm (digest_size sha512_family + block_size sha512_family) (block_size sha512_family) (64 * 224 / 512) sha512_224_init sha512_update sha512_final.
Definition sha512_256_algorithm : digest_algorithm :=
  DigestAlgorithm (digest_size sha512_family + block_size sha512_family) (block_size sha512_family) (64 * 256 / 512) sha512_256_init sha512_update sha512_final.
