(* ===== verification/DigestCorrect.v ===== *)
(** * Correctness of the message digests

    What the code shared by the digests of [Digest] does with a message: byte-wise
    accumulation keeps the chaining value of the full blocks and the rest of the
    message in the context ([accumulated]), however the message is cut into
    pieces, and the final call pads it and copies the digest out.  The rounds
    are arbitrary here; [DigestStandard] relates them to the standards. *)

From Stdlib Require Import ZArith Lia Bool ZifyBool Btauto.
From stdpp Require Import base numbers list.
From S2P Require Import Prelude Bits Digest.

Local Open Scope Z_scope.

(** ** Words and bytes *)

Lemma length_le_bytes n v : length (le_bytes n v) = n.
Proof. revert v. induction n as [| n IH]; intros v; [done |]. cbn [le_bytes length]. by rewrite IH. Qed.

Lemma le_bytes_bytes n v : Forall is_byte (le_bytes n v).
Proof.
  revert v. induction n as [| n IH]; intros v; [constructor |]. cbn [le_bytes]. apply Forall_cons_2; [| apply IH].
  apply wrap_range. lia.
Qed.

Lemma value_le_bytes n v : in_range (8 * Z.of_nat n) v -> le_value (le_bytes n v) = v.
Proof.
  revert v. induction n as [| n IH]; intros v [Hv1 Hv2].
  { change (8 * Z.of_nat 0) with 0 in Hv2. cbn. lia. }
  unfold le_value. cbn [le_bytes foldr]. fold (le_value (le_bytes n (v / 2 ^ 8))). rewrite IH.
  - pose proof (Z.div_mod v (2 ^ 8)). lia.
  - split; [apply Z.div_pos; lia |]. apply Z.div_lt_upper_bound; [lia |].
    rewrite <- Z.pow_add_r by lia. replace (8 + 8 * Z.of_nat n) with (8 * Z.of_nat (S n)) by lia. done.
Qed.

Lemma le_value_bytes b n : length b = n -> Forall is_byte b ->
  le_bytes n (le_value b) = b /\ in_range (8 * Z.of_nat n) (le_value b).
Proof.
  intros <- Hb. induction Hb as [| x b Hx Hb IH]; [done |]. destruct IH as [IH1 IH2].
  unfold le_value. cbn [length le_bytes foldr]. fold (le_value b). unfold in_range in *.
  replace (8 * Z.of_nat (S (length b))) with (8 + 8 * Z.of_nat (length b)) by lia. rewrite Z.pow_add_r by lia.
  pow2_consts. split; [| nia]. f_equal.
  - rewrite Z.mul_comm, Z_mod_plus_full. apply Z.mod_small. lia.
  - rewrite Z.mul_comm, Z_div_plus_full, (Z.div_small x) by lia. done.
Qed.

Lemma length_encode big n v : length (encode big n v) = n.
Proof. destruct big; cbn [encode]; unfold be_bytes; rewrite ?length_reverse; apply length_le_bytes. Qed.

Lemma encode_word_bytes big n v : Forall is_byte (encode big n v).
Proof. destruct big; cbn [encode]; unfold be_bytes; [apply Forall_reverse |]; apply le_bytes_bytes. Qed.

Lemma decode_encode_word big n v : in_range (8 * Z.of_nat n) v -> decode big (encode big n v) = v.
Proof.
  intros Hv. unfold decode, encode, be_bytes. destruct big; rewrite ?reverse_involutive; by apply value_le_bytes.
Qed.

Lemma decode_range big b n : length b = n -> Forall is_byte b -> in_range (8 * Z.of_nat n) (decode big b).
Proof.
  intros Hl Hb. unfold decode. destruct big; [| by apply le_value_bytes].
  apply le_value_bytes; [by rewrite length_reverse | by apply Forall_reverse].
Qed.

(** ** Groups *)

Lemma length_groups n k b : length (groups n k b) = k.
Proof. revert b. induction k as [| k IH]; intros b; [done |]. cbn [groups length]. by rewrite IH. Qed.

Lemma groups_app n k b c : (k * n <= length b)%nat -> groups n k (b ++ c) = groups n k b.
Proof.
  revert b. induction k as [| k IH]; intros b Hb; [done |]. cbn [groups].
  rewrite take_app_le, drop_app_le, IH by (rewrite ?length_drop; lia). done.
Qed.

Lemma groups_add n k j b : groups n (k + j) b = groups n k b ++ groups n j (drop (k * n) b).
Proof.
  revert b. induction k as [| k IH]; intros b; [done |]. cbn [Nat.add groups app]. rewrite IH, drop_drop. done.
Qed.

Lemma groups_S_r n k b : groups n (S k) b = groups n k b ++ [take n (drop (k * n) b)].
Proof. rewrite <- Nat.add_1_r, groups_add. done. Qed.

(** Words of equal size put together and taken apart. *)
Lemma groups_concat (ws : list bytes) n rest :
  Forall (fun w : bytes => length w = n) ws -> groups n (length ws) (concat ws ++ rest) = ws.
Proof.
  induction 1 as [| w ws Hw Hws IH]; [done |]. cbn [concat length groups]. rewrite <- app_assoc.
  rewrite take_app_length', drop_app_length' by lia. by rewrite IH.
Qed.

Lemma length_concat_same (ws : list bytes) n :
  Forall (fun w : bytes => length w = n) ws -> length (concat ws) = (length ws * n)%nat.
Proof. induction 1 as [| w ws Hw Hws IH]; [done |]. cbn [concat length]. rewrite length_app. lia. Qed.

Lemma groups_lengths n k b : (k * n <= length b)%nat -> Forall (fun w : bytes => length w = n) (groups n k b).
Proof.
  revert b. induction k as [| k IH]; intros b Hb; [constructor |]. cbn [groups].
  apply Forall_cons_2; [rewrite length_take; lia | apply IH; rewrite length_drop; lia].
Qed.

Lemma groups_bytes n k b : Forall is_byte b -> Forall (fun w : bytes => Forall is_byte w) (groups n k b).
Proof.
  revert b. induction k as [| k IH]; intros b Hb; [constructor |]. cbn [groups].
  apply Forall_cons_2; [by apply Forall_take | by apply IH, Forall_drop].
Qed.

(** ** Streaming

    [absorb] is the chaining value after the full blocks of a message. *)

Section Stream.
Context (size_bits : Z) (f : family).
Hypothesis Hsize : size_bits = 32 \/ size_bits = 64.
Hypothesis Hword : word_size f = 4%nat \/ word_size f = 8%nat /\ big_endian f = true.
Hypothesis Hrounds : forall u, length u = (digest_words f + 16)%nat -> length (rounds f u) = digest_words f.

Abbreviation ws := (word_size f).
Abbreviation bs := (block_size f).
Abbreviation wbits := (8 * Z.of_nat ws).

(** A chaining value: the words of a digest. *)
Definition chain (h : list Z) : Prop := length h = digest_words f /\ Forall (in_range wbits) h.

Definition compress (h : list Z) (blk : bytes) : list Z :=
  zip_with (fun x y => wrap wbits (x + y)) h (rounds f (h ++ (decode (big_endian f) <$> groups ws 16 blk))).

Definition absorb (iv : list Z) (m : bytes) : list Z := foldl compress iv (groups bs (length m / bs) m).

Abbreviation memory h := (concat (encode (big_endian f) ws <$> h)).

Lemma block_size_cases : bs = 64%nat \/ bs = 128%nat.
Proof using Hword. unfold block_size. destruct Hword as [-> | [-> _]]; cbn; lia. Qed.

Lemma length_memory h : length (memory h) = (length h * ws)%nat.
Proof using Type.
  rewrite (length_concat_same _ ws), length_fmap; [done |].
  apply Forall_fmap, Forall_forall. intros x _. apply length_encode.
Qed.

Lemma compress_chain h blk : chain h -> chain (compress h blk).
Proof using Hword Hrounds.
  intros [Hl Hr]. unfold compress. split.
  - rewrite length_zip_with, Hrounds; [lia |]. rewrite length_app, length_fmap, length_groups. lia.
  - apply Forall_forall. intros x Hx. apply elem_of_lookup_zip_with in Hx as (i & y & z & -> & _ & _).
    apply wrap_range. lia.
Qed.

Lemma absorb_chain iv m : chain iv -> chain (absorb iv m).
Proof using Hword Hrounds.
  intros Hiv. unfold absorb. generalize (groups bs (length m / bs) m). intros blks. revert iv Hiv.
  induction blks as [| blk blks IH]; intros iv Hiv; [done |]. cbn [foldl]. by apply IH, compress_chain.
Qed.

(** The words of a context. *)
Lemma decode_memory h data :
  chain h -> decode (big_endian f) <$> groups ws (digest_words f + 16) (memory h ++ data) =
    h ++ (decode (big_endian f) <$> groups ws 16 data).
Proof using Hword.
  intros [Hl Hr]. rewrite groups_add, fmap_app. f_equal.
  - pose proof (groups_concat (encode (big_endian f) ws <$> h) ws data) as E. rewrite length_fmap, Hl in E.
    rewrite E by (apply Forall_fmap, Forall_forall; intros x _; apply length_encode).
    rewrite <- list_fmap_compose. rewrite <- (list_fmap_id h) at 2. apply list_fmap_ext. intros i x Hx. cbn.
    apply decode_encode_word. exact (Forall_lookup_1 _ _ _ _ Hr Hx).
  - do 2 f_equal. rewrite drop_app_length'; [done |]. rewrite length_memory. lia.
Qed.

Lemma family_digest_ok len ds h data :
  chain h -> length data = bs -> Forall is_byte data ->
  exists data', family_digest f (DigestContext len ds (memory h ++ data)) =
      Ok (DigestContext len ds (memory (compress h data) ++ data')) /\ length data' = bs /\ Forall is_byte data'.
Proof using Hword.
  intros Hh Hd Hb. unfold family_digest. cbn [ctx_ddd ctx_len ctx_digestsize].
  rewrite length_app, length_memory, Hd, (proj1 Hh). unfold block_size.
  rewrite (proj2 (Nat.eqb_eq _ _)) by lia. rewrite decode_memory by done.
  eexists. split; [| split].
  - rewrite take_app_length' by (destruct Hh; lia). reflexivity.
  - rewrite length_drop, (length_concat_same _ ws), length_fmap, length_app, length_fmap, length_groups, (proj1 Hh).
    + unfold digest_size. lia.
    + apply Forall_fmap, Forall_forall. intros x _. apply length_le_bytes.
  - apply Forall_drop, Forall_concat, Forall_fmap, Forall_forall. intros x _. apply le_bytes_bytes.
Qed.

(** The context after a message has been accumulated. *)
Definition accumulated (iv : list Z) (ds : nat) (m : bytes) (ctx : digest_context) : Prop :=
  exists data, ctx = DigestContext (wrap size_bits (zlen m)) ds (memory (absorb iv m) ++ data) /\
    length data = bs /\ Forall is_byte data /\
    take (length m mod bs) data = drop (length m / bs * bs) m.

Lemma len_offset n : wrap size_bits (Z.of_nat n) mod Z.of_nat bs = Z.of_nat (n mod bs).
Proof using Hsize Hword.
  unfold wrap. rewrite Nat2Z.inj_mod. pose proof block_size_cases as Hb.
  destruct Hb as [-> | ->], Hsize as [-> | ->].
  1, 2: change (Z.of_nat 64) with (2 ^ 6); apply mod_pow2_le; lia.
  all: change (Z.of_nat 128) with (2 ^ 7); apply mod_pow2_le; lia.
Qed.

(** A message that does not complete a block, and one that does. *)
Lemma absorb_partial iv m b :
  (S (length m) mod bs <> 0)%nat ->
  absorb iv (m ++ [b]) = absorb iv m /\ (S (length m) / bs = length m / bs)%nat /\
  (S (length m) mod bs = S (length m mod bs))%nat.
Proof using Hword.
  intros Hm. pose proof block_size_cases as Hb.
  pose proof (Nat.div_mod (length m) bs ltac:(lia)) as E. pose proof (Nat.mod_upper_bound (length m) bs ltac:(lia)) as B.
  pose proof (Nat.div_mod (S (length m)) bs ltac:(lia)) as E'. pose proof (Nat.mod_upper_bound (S (length m)) bs ltac:(lia)) as B'.
  assert (Hd : (S (length m) / bs = length m / bs)%nat).
  { apply (Nat.div_unique _ _ _ (S (length m) mod bs - 1)); lia. }
  split_and!; [| done | rewrite Hd in E'; lia].
  unfold absorb. rewrite length_app, Nat.add_1_r, Hd, groups_app by lia. done.
Qed.

Lemma absorb_full iv m b :
  (S (length m) mod bs = 0)%nat ->
  absorb iv (m ++ [b]) = compress (absorb iv m) (drop (length m / bs * bs) m ++ [b]) /\
  (S (length m) / bs = S (length m / bs))%nat /\ (length m mod bs = bs - 1)%nat.
Proof using Hword.
  intros Hm. pose proof block_size_cases as Hb.
  pose proof (Nat.div_mod (length m) bs ltac:(lia)) as E. pose proof (Nat.mod_upper_bound (length m) bs ltac:(lia)) as B.
  pose proof (Nat.div_mod (S (length m)) bs ltac:(lia)) as E'.
  assert (Hmod : (length m mod bs = bs - 1)%nat).
  { symmetry. apply (Nat.mod_unique _ _ (S (length m) / bs - 1)); [lia |].
    destruct (S (length m) / bs)%nat; nia. }
  assert (Hd : (S (length m) / bs = S (length m / bs))%nat) by nia.
  split_and!; [| done | done].
  unfold absorb. rewrite length_app, Nat.add_1_r, Hd, groups_S_r, foldl_app, groups_app by lia. cbn [foldl]. f_equal.
  rewrite drop_app_le by lia. apply take_ge. rewrite length_app, length_drop. cbn [length]. lia.
Qed.

Lemma update_byte_ok iv ds m ctx b :
  chain iv -> accumulated iv ds m ctx -> is_byte b ->
  exists ctx', family_update_byte size_bits f ctx b = Ok ctx' /\ accumulated iv ds (m ++ [b]) ctx'.
Proof using Hsize Hword Hrounds.
  intros Hiv (data & -> & Hl & Hb & Ht) Hbyte. pose proof block_size_cases as HB.
  pose proof (absorb_chain iv m Hiv) as Hch. pose proof (Nat.mod_upper_bound (length m) bs ltac:(lia)) as Hoff.
  unfold family_update_byte. cbn [ctx_len ctx_ddd ctx_digestsize]. rewrite len_offset.
  pose proof (wr_mid (memory (absorb iv m)) data [] (Z.of_nat (digest_size f) + Z.of_nat (length m mod bs))
    (length m mod bs) b) as Hwr. rewrite !app_nil_r in Hwr.
  rewrite Hwr by (first [lia | rewrite length_memory, (proj1 Hch); unfold digest_size; lia]).
  rewrite bind_ok. cbn [ctx_len].
  assert (Elen : wrap size_bits (wrap size_bits (zlen m) + 1) = wrap size_bits (zlen (m ++ [b]))).
  { rewrite wrap_add_idemp_l, length_app. cbn [length]. f_equal. lia. }
  rewrite Elen, len_offset, length_app, Nat.add_1_r. rewrite Ht. set (data' := drop _ m ++ b :: _).
  assert (Hl' : length data' = bs).
  { unfold data'. rewrite <- Ht, length_app, length_take. cbn [length]. rewrite length_drop. lia. }
  assert (Hb' : Forall is_byte data').
  { unfold data'. rewrite <- Ht. apply Forall_app. split; [by apply Forall_take |].
    apply Forall_cons_2; [done | by apply Forall_drop]. }
  destruct (Z.eqb_spec (Z.of_nat (S (length m) mod bs)) 0) as [Hm | Hm].
  - destruct (absorb_full iv m b ltac:(lia)) as (Ea & Ed & Em).
    destruct (family_digest_ok (wrap size_bits (Z.of_nat (S (length m)))) ds _ data' Hch Hl' Hb') as (data2 & E & Hl2 & Hb2).
    eexists. split; [exact E |]. exists data2. rewrite Ea. rewrite length_app, Nat.add_1_r.
    assert (Ed' : data' = drop (length m / bs * bs) m ++ [b]).
    { unfold data'. rewrite (drop_ge data) by lia. done. }
    rewrite <- Ed'. split_and!; [done | done | done |].
    replace (S (length m) mod bs)%nat with 0%nat by lia. cbn [take]. symmetry. apply drop_ge.
    rewrite length_app. cbn [length]. pose proof (Nat.div_mod (S (length m)) bs ltac:(lia)). lia.
  - destruct (absorb_partial iv m b ltac:(lia)) as (Ea & Ed & Em). eexists. split; [done |]. exists data'.
    rewrite Ea, length_app, Nat.add_1_r, Em, Ed. split_and!; [done | done | done |].
    assert (Hdl : length (drop (length m / bs * bs) m) = (length m mod bs)%nat).
    { rewrite <- Ht, length_take. lia. }
    rewrite (drop_app_le m) by (pose proof (Nat.Div0.mul_div_le (length m) bs); lia). unfold data'. rewrite <- Hdl.
    rewrite cons_middle, app_assoc. apply take_app_length'. rewrite length_app. cbn [length]. lia.
Qed.

Lemma family_update_ok iv ds m ctx data :
  chain iv -> accumulated iv ds m ctx -> Forall is_byte data ->
  exists ctx', family_update size_bits f ctx data = Ok ctx' /\ accumulated iv ds (m ++ data) ctx'.
Proof using Hsize Hword Hrounds.
  intros Hiv Hacc Hd. revert m ctx Hacc. induction Hd as [| b data Hb Hd IH]; intros m ctx Hacc.
  { exists ctx. by rewrite app_nil_r. }
  destruct (update_byte_ok iv ds m ctx b Hiv Hacc Hb) as (ctx1 & E1 & Hacc1).
  destruct (IH _ _ Hacc1) as (ctx2 & E2 & Hacc2). exists ctx2. cbn [family_update]. rewrite E1, bind_ok.
  split; [done |]. by rewrite <- app_assoc in Hacc2.
Qed.

(** *** Padding

    A one bit, zeros up to 14 words, and the length in bits in two words. *)

Definition pad_zeros (n : nat) : nat := (14 * ws + bs - S n mod bs) mod bs.

Definition padded (m : bytes) : bytes :=
  m ++ 128 :: replicate (pad_zeros (length m)) 0 ++ encode (big_endian f) (2 * ws) (8 * zlen m).

Lemma pad_zeros_spec n :
  (pad_zeros n < bs)%nat /\ ((S n + pad_zeros n) mod bs = 14 * ws)%nat /\
  forall j, (j < pad_zeros n)%nat -> ((S n + j) mod bs <> 14 * ws)%nat.
Proof using Hword.
  pose proof block_size_cases as HB. unfold pad_zeros.
  assert (H14 : (14 * ws < bs)%nat) by (unfold block_size; lia).
  pose proof (Nat.div_mod (S n) bs ltac:(lia)) as E. pose proof (Nat.mod_upper_bound (S n) bs ltac:(lia)) as B.
  set (r := (S n mod bs)%nat) in *. set (q := (S n / bs)%nat) in *. set (t := (14 * ws)%nat) in *.
  destruct (Nat.le_gt_cases r t) as [Hrt | Hrt].
  - assert (Ez : ((t + bs - r) mod bs = t - r)%nat) by (symmetry; apply (Nat.mod_unique _ _ 1); lia).
    rewrite Ez. split_and!; [lia | symmetry; apply (Nat.mod_unique _ _ q); lia |].
    intros j Hj. rewrite <- (Nat.mod_unique (S n + j) bs q (r + j)); lia.
  - assert (Ez : ((t + bs - r) mod bs = t + bs - r)%nat) by (apply Nat.mod_small; lia).
    rewrite Ez. split_and!; [lia | symmetry; apply (Nat.mod_unique _ _ (q + 1)); lia |].
    intros j Hj. destruct (Nat.le_gt_cases bs (r + j)) as [Hbr | Hbr].
    + rewrite <- (Nat.mod_unique (S n + j) bs (q + 1) (r + j - bs)); lia.
    + rewrite <- (Nat.mod_unique (S n + j) bs q (r + j)); lia.
Qed.

Lemma pad_loop_ok iv ds k fuel m ctx pad :
  chain iv -> accumulated iv ds m ctx -> is_byte pad -> (k < fuel)%nat ->
  ((S (length m) + k) mod bs = 14 * ws)%nat ->
  (forall j, (j < k)%nat -> ((S (length m) + j) mod bs <> 14 * ws)%nat) ->
  exists ctx', pad_loop size_bits f fuel ctx pad = Ok ctx' /\ accumulated iv ds (m ++ pad :: replicate k 0) ctx'.
Proof using Hsize Hword Hrounds.
  intros Hiv. revert fuel m ctx pad. induction k as [| k IH]; intros fuel m ctx pad Hacc Hp Hf Hk Hj;
    (destruct fuel as [| fuel]; [lia |]).
  all: destruct (family_update_ok iv ds m ctx [pad] Hiv Hacc (Forall_cons_2 _ _ _ Hp (Forall_nil_2 _))) as (c1 & E1 & Hacc1).
  all: cbn [pad_loop]; step E1.
  all: assert (Eo : ctx_len c1 mod Z.of_nat bs = Z.of_nat (S (length m) mod bs))
    by (destruct Hacc1 as (? & -> & _); cbn [ctx_len]; rewrite len_offset, length_app, Nat.add_1_r; done).
  all: rewrite Eo.
  - rewrite Nat.add_0_r in Hk. rewrite Hk, Z.eqb_refl. by exists c1.
  - specialize (Hj 0%nat ltac:(lia)) as Hj0. rewrite Nat.add_0_r in Hj0.
    rewrite (proj2 (Z.eqb_neq _ _)) by lia.
    assert (El : length (m ++ [pad]) = S (length m)) by (rewrite length_app; cbn; lia).
    destruct (IH fuel (m ++ [pad]) c1 0 Hacc1) as (c2 & E2 & Hacc2); [unfold in_range; lia | lia | | |].
    + rewrite El, <- Hk. f_equal. lia.
    + intros j Hjk. rewrite El. specialize (Hj (S j) ltac:(lia)). rewrite <- Nat.add_succ_comm in Hj. exact Hj.
    + exists c2. split; [done |]. rewrite <- app_assoc in Hacc2. exact Hacc2.
Qed.

(** The length field, of which the code writes the low eight bytes last. *)
Lemma length_field v :
  in_range 64 v -> replicate (2 * ws - 8) 0 ++ encode (big_endian f) 8 v = encode (big_endian f) (2 * ws) v.
Proof using Hword.
  intros Hv. destruct Hword as [-> | [-> ->]]; [done |]. change (2 * 8 - 8)%nat with 8%nat. cbn [encode].
  unfold be_bytes. rewrite <- (reverse_replicate 8 0), <- reverse_app. f_equal.
  change (2 * 8)%nat with (8 + 8)%nat. unfold in_range in Hv.
  assert (E : forall n k v, in_range (8 * Z.of_nat n) v -> le_bytes (n + k) v = le_bytes n v ++ replicate k 0).
  { clear. induction n as [| n IH]; intros k v [Hv1 Hv2].
    - change (8 * Z.of_nat 0) with 0 in Hv2. replace v with 0 by lia. cbn [Nat.add le_bytes app].
      induction k as [| k IHk]; [done |]. cbn [le_bytes replicate]. rewrite <- IHk. done.
    - cbn [Nat.add le_bytes app]. f_equal. apply IH. split; [apply Z.div_pos; lia |].
      apply Z.div_lt_upper_bound; [lia |]. rewrite <- Z.pow_add_r by lia.
      replace (8 + 8 * Z.of_nat n) with (8 * Z.of_nat (S n)) by lia. done. }
  symmetry. apply E. exact Hv.
Qed.

Lemma length_padded m : (length (padded m) mod bs = 0)%nat.
Proof using Hword.
  destruct (pad_zeros_spec (length m)) as (_ & Hz & _). pose proof block_size_cases as HB.
  unfold padded. rewrite length_app. cbn [length]. rewrite length_app, length_replicate, length_encode.
  replace (length m + S (pad_zeros (length m) + 2 * ws))%nat with (S (length m) + pad_zeros (length m) + 2 * ws)%nat by lia.
  rewrite <- Nat.Div0.add_mod_idemp_l, Hz. replace (14 * ws + 2 * ws)%nat with bs by (unfold block_size; lia).
  apply Nat.Div0.mod_same.
Qed.

(** The bytes of a finished message's digest. *)
Definition hash (iv : list Z) (ds : nat) (m : bytes) : bytes := take ds (memory (absorb iv (padded m))).

Lemma family_final_ok iv ds m ctx out :
  chain iv -> accumulated iv ds m ctx -> (ds <= digest_size f)%nat -> (ds <= length out)%nat ->
  zlen m < 2 ^ size_bits -> zlen m < 2 ^ 61 ->
  exists ctx', family_final size_bits f ctx out = Ok (ctx', hash iv ds m ++ drop ds out) /\
    accumulated iv ds (padded m) ctx'.
Proof using Hsize Hword Hrounds.
  intros Hiv Hacc Hds Hout Hlen Hlen61. destruct (pad_zeros_spec (length m)) as (Hz1 & Hz2 & Hz3).
  assert (Elen : wrap 64 (ctx_len ctx * 8) = 8 * zlen m).
  { destruct Hacc as (? & -> & _). cbn [ctx_len]. unfold wrap. rewrite (Z.mod_small (zlen m)) by lia.
    rewrite Z.mod_small; lia. }
  unfold family_final. rewrite Elen.
  destruct (pad_loop_ok iv ds _ bs m ctx 128 Hiv Hacc ltac:(unfold in_range; lia) Hz1 Hz2 Hz3) as (c1 & E1 & H1). step E1.
  destruct (family_update_ok iv ds _ c1 (replicate (2 * ws - 8) 0) Hiv H1) as (c2 & E2 & H2).
  { apply Forall_replicate. unfold in_range; lia. }
  step E2. destruct (family_update_ok iv ds _ c2 (encode (big_endian f) 8 (8 * zlen m)) Hiv H2 (encode_word_bytes _ _ _)) as (c3 & E3 & H3).
  step E3. rewrite <- !app_assoc, length_field in H3 by (unfold in_range; lia).
  change (accumulated iv ds (padded m) c3) in H3. pose proof H3 as (data & -> & Hd & _).
  pose proof (absorb_chain iv (padded m) Hiv) as [Hc _]. cbn [ctx_ddd ctx_digestsize].
  assert (Hm : length (memory (absorb iv (padded m))) = digest_size f) by (rewrite length_memory, Hc; done).
  rewrite rd_range_slice by (try rewrite length_app; lia). rewrite bind_ok.
  assert (Es : slice (memory (absorb iv (padded m)) ++ data) 0 (Z.of_nat ds) = hash iv ds m).
  { unfold slice, hash. change (Z.to_nat 0) with 0%nat. rewrite drop_0, Nat2Z.id, take_app_le by lia. done. }
  assert (Eh : length (hash iv ds m) = ds) by (unfold hash; rewrite length_take; lia).
  rewrite Es, wr_range_splice by lia. rewrite bind_ok. eexists. split; [| exact H3].
  do 2 f_equal. unfold splice. rewrite Eh. cbn [Z.to_nat take app]. done.
Qed.

Lemma family_init_ok iv ds ctx :
  chain iv -> length (ctx_ddd ctx) = (digest_size f + bs)%nat -> Forall is_byte (ctx_ddd ctx) ->
  exists ctx', family_init f iv ds ctx = Ok ctx' /\ accumulated iv ds [] ctx'.
Proof using Hword Hsize.
  intros [Hl Hr] Hlen Hb. unfold family_init.
  assert (Hm : length (memory iv) = digest_size f) by (rewrite length_memory, Hl; done).
  rewrite wr_range_splice by lia. rewrite bind_ok. eexists. split; [done |].
  pose proof block_size_cases as HB. exists (drop (digest_size f) (ctx_ddd ctx)). unfold splice. rewrite Hm.
  cbn [Z.to_nat take app length]. rewrite Nat.Div0.div_0_l, Nat.Div0.mod_0_l. split_and!.
  - f_equal. unfold absorb. cbn [length]. rewrite Nat.Div0.div_0_l. cbn [groups foldl]. done.
  - rewrite length_drop. lia.
  - by apply Forall_drop.
  - done.
Qed.

Lemma accumulated_wf iv ds m ctx :
  chain iv -> accumulated iv ds m ctx ->
  length (ctx_ddd ctx) = (digest_size f + bs)%nat /\ Forall is_byte (ctx_ddd ctx).
Proof using Hword Hrounds.
  intros Hiv (data & -> & Hl & Hb & _). pose proof (absorb_chain iv m Hiv) as [Hc _]. cbn [ctx_ddd]. split.
  - rewrite length_app, length_memory, Hc, Hl. done.
  - apply Forall_app. split; [| done]. apply Forall_concat, Forall_fmap, Forall_forall. intros x _. apply encode_word_bytes.
Qed.

Lemma hash_bytes iv ds m :
  chain iv -> (ds <= digest_size f)%nat -> length (hash iv ds m) = ds /\ Forall is_byte (hash iv ds m).
Proof using Hword Hrounds.
  intros Hiv Hds. pose proof (absorb_chain iv (padded m) Hiv) as [Hc _]. unfold hash. split.
  - rewrite length_take, length_memory, Hc. unfold digest_size in *. lia.
  - apply Forall_take, Forall_concat, Forall_fmap, Forall_forall. intros x _. apply encode_word_bytes.
Qed.
End Stream.
