(* ===== verification/DigestStandard.v ===== *)
(** * The digest standards, and the digests against them

    [Module Standard] transcribes RFC 1320 (MD4), RFC 1321 (MD5) and FIPS 180-4
    (SHA-1 and SHA-2): rotations, shifts and complements are arithmetic, the step
    tables of MD4 and MD5 are spelled out, the MD5 constants are computed from the
    sine function, the message schedule is a sliding window of sixteen words, and
    the SHA-2 constants are computed from the roots of the first primes.  The sources' rounds are then proved equal to these on
    every block, which with the streaming lemmas gives the hash of a message fed
    in any pieces. *)

From Stdlib Require Import ZArith Lia Bool ZifyBool Btauto.
From stdpp Require Import base numbers list.
From S2P Require Import Prelude Bits Digest DigestCorrect.

Local Open Scope Z_scope.

Module Standard.

(** ** Operations on words of [w] bits *)

Definition add (w : Z) (x y : Z) : Z := (x + y) mod 2 ^ w.
Definition rotl (w n x : Z) : Z := x * 2 ^ n mod 2 ^ w + x / 2 ^ (w - n).
Definition rotr (w n x : Z) : Z := rotl w (w - n) x.
Definition shr (n x : Z) : Z := x / 2 ^ n.
Definition complement (w x : Z) : Z := 2 ^ w - 1 - x.

Definition Ch (w x y z : Z) : Z := Z.lxor (Z.land x y) (Z.land (complement w x) z).
Definition Parity (x y z : Z) : Z := Z.lxor (Z.lxor x y) z.
Definition Maj (x y z : Z) : Z := Z.lxor (Z.lxor (Z.land x y) (Z.land x z)) (Z.land y z).

(** ** A hash function: words of [n] bytes, an initial value, the
    transformation of the chaining value by the sixteen words of a block, and
    the bytes of the result that are kept. *)
Record standard := {
  std_word : nat;
  std_big : bool;
  std_iv : list Z;
  std_transform : list Z -> list Z -> list Z;
  std_size : nat
}.

(** The smallest number of zero bytes that leaves room for the length only. *)
Definition zeros (n l : nat) : nat :=
  hd 0%nat (filter (fun k => (l + 1 + k) mod (16 * n) = 14 * n)%nat (seq 0 (16 * n))).

Definition pad (S : standard) (m : bytes) : bytes :=
  m ++ [128] ++ replicate (zeros (std_word S) (length m)) 0 ++
  encode (std_big S) (2 * std_word S) (8 * zlen m).

Definition hash_block (S : standard) (h : list Z) (block : bytes) : list Z :=
  zip_with (add (8 * Z.of_nat (std_word S))) h
    (std_transform S h (decode (std_big S) <$> groups (std_word S) 16 block)).

Definition hash (S : standard) (m : bytes) : bytes :=
  let p := pad S m in
  let blocks := groups (16 * std_word S) (length p / (16 * std_word S)) p in
  take (std_size S) (concat (encode (std_big S) (std_word S) <$> foldl (hash_block S) (std_iv S) blocks)).

(** ** RFC 1320 and RFC 1321: a list of operations on four registers *)

Record operation := Operation { op_f : Z -> Z -> Z -> Z; op_t : Z; op_k : nat; op_s : Z }.

Definition registers : Type := Z * Z * Z * Z.

(** [[abcd k s]], with the registers then renamed for the next operation. *)
Definition md4_operation (X : list Z) (r : registers) (o : operation) : registers :=
  let '(a, b, c, d) := r in
  (d, rotl 32 (op_s o) ((a + op_f o b c d + nth (op_k o) X 0 + op_t o) mod 2 ^ 32), b, c).

Definition md5_operation (X : list Z) (r : registers) (o : operation) : registers :=
  let '(a, b, c, d) := r in
  (d, add 32 b (rotl 32 (op_s o) ((a + op_f o b c d + nth (op_k o) X 0 + op_t o) mod 2 ^ 32)), b, c).

(** One round: its function, constants, word indices and the four shifts. *)
Definition operations (f : Z -> Z -> Z -> Z) (ts : list Z) (ks : list nat) (ss : list Z) : list operation :=
  zip_with (fun '(t, k) s => Operation f t k s) (zip ts ks) (ss ++ ss ++ ss ++ ss).

Definition F (x y z : Z) : Z := Z.lor (Z.land x y) (Z.land (complement 32 x) z).
Definition G4 (x y z : Z) : Z := Z.lor (Z.lor (Z.land x y) (Z.land x z)) (Z.land y z).
Definition G5 (x y z : Z) : Z := Z.lor (Z.land x z) (Z.land y (complement 32 z)).
Definition I (x y z : Z) : Z := Z.lxor y (Z.lor x (complement 32 z)).

Definition md4_operations : list operation :=
  operations F (replicate 16 0) [0; 1; 2; 3; 4; 5; 6; 7; 8; 9; 10; 11; 12; 13; 14; 15]%nat [3; 7; 11; 19] ++
  operations G4 (replicate 16 0x5a827999) [0; 4; 8; 12; 1; 5; 9; 13; 2; 6; 10; 14; 3; 7; 11; 15]%nat [3; 5; 9; 13] ++
  operations Parity (replicate 16 0x6ed9eba1) [0; 8; 4; 12; 2; 10; 6; 14; 1; 9; 5; 13; 3; 11; 7; 15]%nat [3; 9; 11; 15].

Definition md5_operations (T : list Z) : list operation :=
  operations F (take 16 T) [0; 1; 2; 3; 4; 5; 6; 7; 8; 9; 10; 11; 12; 13; 14; 15]%nat [7; 12; 17; 22] ++
  operations G5 (take 16 (drop 16 T)) [1; 6; 11; 0; 5; 10; 15; 4; 9; 14; 3; 8; 13; 2; 7; 12]%nat [5; 9; 14; 20] ++
  operations Parity (take 16 (drop 32 T)) [5; 8; 11; 14; 1; 4; 7; 10; 13; 0; 3; 6; 9; 12; 15; 2]%nat [4; 11; 16; 23] ++
  operations I (take 16 (drop 48 T)) [0; 7; 14; 5; 12; 3; 10; 1; 8; 15; 6; 13; 4; 11; 2; 9]%nat [6; 10; 15; 21].

(** The table [T] of RFC 1321, [T[i] = floor (4294967296 * abs (sin (i)))] with
    [i] in radians.  The sine is the partial sum of [n] terms of its power series,
    [x * (1 - x^2/(2*3) * (1 - x^2/(4*5) * ...))], an exact fraction. *)
Fixpoint sine_tail (n : nat) (k x : Z) : Z * Z :=
  match n with
  | O => (1, 1)
  | S n =>
      let '(a, b) := sine_tail n (k + 1) x in
      let d := 2 * k * (2 * k + 1) in
      (d * b - x * x * a, d * b)
  end.

Definition sine_bits (n : nat) (x : Z) : Z :=
  let '(a, b) := sine_tail n 1 x in 2 ^ 32 * Z.abs (x * a) / b.

Definition md5_T : list Z := sine_bits 120 <$> seqZ 1 64.

Definition md_transform (op : list Z -> registers -> operation -> registers) (ops : list operation)
    (h X : list Z) : list Z :=
  let '(a, b, c, d) := foldl (op X) (nth 0 h 0, nth 1 h 0, nth 2 h 0, nth 3 h 0) ops in [a; b; c; d].

(** ** FIPS 180-4 *)

(** The words [W(0) .. W(n-1)] from a window of sixteen words. *)
Fixpoint schedule (next : list Z -> Z) (n : nat) (window : list Z) : list Z :=
  match n with
  | O => []
  | S n => nth 0 window 0 :: schedule next n (tail window ++ [next window])
  end.

Definition sha1_next (w : list Z) : Z :=
  rotl 32 1 (Z.lxor (Z.lxor (Z.lxor (nth 13 w 0) (nth 8 w 0)) (nth 2 w 0)) (nth 0 w 0)).

Definition sha1_f (t : nat) : Z -> Z -> Z -> Z :=
  if (t <? 20)%nat then Ch 32 else if (t <? 40)%nat then Parity else if (t <? 60)%nat then Maj else Parity.

Definition sha1_K (t : nat) : Z :=
  if (t <? 20)%nat then 0x5a827999 else if (t <? 40)%nat then 0x6ed9eba1
  else if (t <? 60)%nat then 0x8f1bbcdc else 0xca62c1d6.

Definition sha1_loop (W : list Z) (v : Z * Z * Z * Z * Z) (t : nat) : Z * Z * Z * Z * Z :=
  let '(a, b, c, d, e) := v in
  ((rotl 32 5 a + sha1_f t b c d + e + sha1_K t + nth t W 0) mod 2 ^ 32, a, rotl 32 30 b, c, d).

Definition sha1_transform (h X : list Z) : list Z :=
  let '(a, b, c, d, e) := foldl (sha1_loop (schedule sha1_next 80 X))
    (nth 0 h 0, nth 1 h 0, nth 2 h 0, nth 3 h 0, nth 4 h 0) (seq 0 80) in
  [a; b; c; d; e].

(** What SHA-256 and SHA-512 have of their own: the word size, the number of
    rounds, and the rotations of the four functions. *)
Record sha2_functions := Sha2Functions {
  word : Z; round_count : nat; Sigma0 : Z -> Z; Sigma1 : Z -> Z; sigma0 : Z -> Z; sigma1 : Z -> Z
}.

Definition sha256_functions : sha2_functions :=
  Sha2Functions 32 64
    (fun x => Z.lxor (Z.lxor (rotr 32 2 x) (rotr 32 13 x)) (rotr 32 22 x))
    (fun x => Z.lxor (Z.lxor (rotr 32 6 x) (rotr 32 11 x)) (rotr 32 25 x))
    (fun x => Z.lxor (Z.lxor (rotr 32 7 x) (rotr 32 18 x)) (shr 3 x))
    (fun x => Z.lxor (Z.lxor (rotr 32 17 x) (rotr 32 19 x)) (shr 10 x)).

Definition sha512_functions : sha2_functions :=
  Sha2Functions 64 80
    (fun x => Z.lxor (Z.lxor (rotr 64 28 x) (rotr 64 34 x)) (rotr 64 39 x))
    (fun x => Z.lxor (Z.lxor (rotr 64 14 x) (rotr 64 18 x)) (rotr 64 41 x))
    (fun x => Z.lxor (Z.lxor (rotr 64 1 x) (rotr 64 8 x)) (shr 7 x))
    (fun x => Z.lxor (Z.lxor (rotr 64 19 x) (rotr 64 61 x)) (shr 6 x)).

Definition sha2_next (s : sha2_functions) (w : list Z) : Z :=
  (sigma1 s (nth 14 w 0) + nth 9 w 0 + sigma0 s (nth 1 w 0) + nth 0 w 0) mod 2 ^ word s.

Definition sha2_loop (s : sha2_functions) (K W : list Z) (v : list Z) (t : nat) : list Z :=
  match v with
  | [a; b; c; d; e; f; g; h] =>
      let T1 := h + Sigma1 s e + Ch (word s) e f g + nth t K 0 + nth t W 0 in
      let T2 := Sigma0 s a + Maj a b c in
      [(T1 + T2) mod 2 ^ word s; a; b; c; (d + T1) mod 2 ^ word s; e; f; g]
  | _ => v
  end.

Definition sha2_transform (s : sha2_functions) (K : list Z) (h X : list Z) : list Z :=
  foldl (sha2_loop s K (schedule (sha2_next s) (round_count s) X)) h (seq 0 (round_count s)).

(** *** Constants: the first bits of the fractional parts of roots of primes *)

Definition prime (p : nat) : bool :=
  (2 <=? p)%nat && forallb (fun d => negb (p mod d =? 0)%nat) (seq 2 (p - 2)).

Definition primes (n : nat) : list Z :=
  take n (Z.of_nat <$> List.filter prime (seq 0 (10 + n * 6))).

(** The integer cube root, bit by bit from bit [n - 1] down. *)
Fixpoint cbrt (n : nat) (x acc : Z) : Z :=
  match n with
  | O => acc
  | S n =>
      let next := acc + 2 ^ Z.of_nat n in
      cbrt n x (if next ^ 3 <=? x then next else acc)
  end.

Definition cube_root_bits (w p : Z) : Z := cbrt (Z.to_nat w + 4) (p * 2 ^ (3 * w)) 0 mod 2 ^ w.

Definition square_root_bits (w p : Z) : Z := Z.sqrt (p * 2 ^ (2 * w)) mod 2 ^ w.

Definition K256 : list Z := cube_root_bits 32 <$> primes 64.
Definition K512 : list Z := cube_root_bits 64 <$> primes 80.

Definition iv256 : list Z := square_root_bits 32 <$> primes 8.
Definition iv512 : list Z := square_root_bits 64 <$> primes 8.
Definition iv384 : list Z := square_root_bits 64 <$> drop 8 (primes 16).

(** The second words of the initial value of SHA-384. *)
Definition iv224 : list Z := (fun x => x mod 2 ^ 32) <$> iv384.

Definition SHA512_with (iv : list Z) (size : nat) : standard :=
  Build_standard 8 true iv (sha2_transform sha512_functions K512) size.

(** The initial value of SHA-512/t: the hash of its name by SHA-512 with a
    modified initial value. *)
Definition iv512_t (name : bytes) : list Z :=
  decode true <$> groups 8 8 (hash (SHA512_with ((fun x => Z.lxor x 0xa5a5a5a5a5a5a5a5) <$> iv512) 64) name).

(** ASCII of [SHA-512/224] and [SHA-512/256]. *)
Definition name_224 : bytes := [83; 72; 65; 45; 53; 49; 50; 47; 50; 50; 52].
Definition name_256 : bytes := [83; 72; 65; 45; 53; 49; 50; 47; 50; 53; 54].

Definition md_iv : list Z := [0x67452301; 0xefcdab89; 0x98badcfe; 0x10325476].

Definition MD4 : standard := Build_standard 4 false md_iv (md_transform md4_operation md4_operations) 16.
Definition MD5 : standard := Build_standard 4 false md_iv (md_transform md5_operation (md5_operations md5_T)) 16.
Definition SHA1 : standard := Build_standard 4 true (md_iv ++ [0xc3d2e1f0]) sha1_transform 20.
Definition SHA256 : standard := Build_standard 4 true iv256 (sha2_transform sha256_functions K256) 32.
Definition SHA224 : standard := Build_standard 4 true iv224 (sha2_transform sha256_functions K256) 28.
Definition SHA512 : standard := SHA512_with iv512 64.
Definition SHA384 : standard := SHA512_with iv384 48.
Definition SHA512_224 : standard := SHA512_with (iv512_t name_224) 28.
Definition SHA512_256 : standard := SHA512_with (iv512_t name_256) 32.
End Standard.

(** ** The constants of the sources *)

Lemma md5_k_ok : md5_k = Standard.md5_T.
Proof. vm_compute. reflexivity. Qed.

(** The terms alternate, so that the sine lies between two consecutive partial
    sums; the next one gives the same table. *)
Lemma md5_T_exact : Standard.md5_T = Standard.sine_bits 121 <$> seqZ 1 64.
Proof. vm_compute. reflexivity. Qed.

Lemma sha256_k_ok : sha256_k = Standard.K256.
Proof. vm_compute. reflexivity. Qed.

Lemma sha512_k_ok : sha512_k = Standard.K512.
Proof. vm_compute. reflexivity. Qed.

Lemma sha2_init_digest_ok :
  sha256_init_digest = Standard.iv256 /\ sha224_init_digest = Standard.iv224 /\
  sha512_init_digest = Standard.iv512 /\ sha384_init_digest = Standard.iv384 /\
  sha512_224_init_digest = Standard.iv512_t Standard.name_224 /\
  sha512_256_init_digest = Standard.iv512_t Standard.name_256.
Proof. vm_compute. split_and!; reflexivity. Qed.

(** The cube roots are cube roots. *)
Lemma cbrt_spec n x acc :
  0 <= acc -> acc ^ 3 <= x < (acc + 2 ^ Z.of_nat n) ^ 3 ->
  let r := Standard.cbrt n x acc in 0 <= r /\ r ^ 3 <= x < (r + 1) ^ 3.
Proof.
  revert acc. induction n as [| n IH]; intros acc Ha Hx; [done |]. cbn [Standard.cbrt].
  assert (E2 : 2 ^ Z.of_nat (S n) = 2 ^ Z.of_nat n + 2 ^ Z.of_nat n).
  { rewrite Nat2Z.inj_succ, Z.pow_succ_r by lia. lia. }
  pose proof (Z.pow_pos_nonneg 2 (Z.of_nat n) ltac:(lia) ltac:(lia)).
  destruct (Z.leb_spec ((acc + 2 ^ Z.of_nat n) ^ 3) x).
  - apply IH; [lia |]. split; [done |]. rewrite <- Z.add_assoc, <- E2. apply Hx.
  - apply IH; [done |]. lia.
Qed.

(** ** Words *)

Lemma rol_rotl w x n : 0 < n < w -> in_range w x -> ROLx w x n = Standard.rotl w n x.
Proof.
  intros Hn [Hx1 Hx2]. unfold ROLx, Standard.rotl, wrap.
  rewrite Z.shiftl_mul_pow2, Z.shiftr_div_pow2 by lia.
  assert (E : 2 ^ w = 2 ^ (w - n) * 2 ^ n) by (rewrite <- Z.pow_add_r by lia; f_equal; lia).
  pose proof (Z.pow_pos_nonneg 2 n ltac:(lia) ltac:(lia)). pose proof (Z.pow_pos_nonneg 2 (w - n) ltac:(lia) ltac:(lia)).
  assert (Hd : 0 <= x / 2 ^ (w - n) < 2 ^ n).
  { split; [apply Z.div_pos; lia |]. apply Z.div_lt_upper_bound; lia. }
  rewrite lor_disjoint by lia. rewrite E, Z.mul_mod_distr_r by lia.
  pose proof (Z.mod_pos_bound x (2 ^ (w - n)) ltac:(lia)) as Hm.
  rewrite <- (Z.mod_small (x mod 2 ^ (w - n) * 2 ^ n + x / 2 ^ (w - n)) (2 ^ (w - n) * 2 ^ n)) by nia.
  rewrite <- Z.mul_mod_distr_r by lia. by rewrite Zplus_mod_idemp_l.
Qed.

Lemma ror_rotr w x n : 0 < n < w -> in_range w x -> RORx w x n = Standard.rotr w n x.
Proof.
  intros Hn Hx. unfold Standard.rotr. rewrite <- rol_rotl by (done || lia). unfold RORx, ROLx.
  rewrite Z.lor_comm. do 3 f_equal. lia.
Qed.

Lemma rotl_range w x n : 0 < n < w -> in_range w x -> in_range w (Standard.rotl w n x).
Proof. intros Hn Hx. rewrite <- rol_rotl by done. apply wrap_range. lia. Qed.

Lemma not_complement w x : 0 <= w -> in_range w x -> wrap w (Z.lnot x) = Standard.complement w x.
Proof.
  intros Hw [Hx1 Hx2]. unfold wrap, Standard.complement, Z.lnot. pose proof (Z.pow_pos_nonneg 2 w ltac:(lia) Hw).
  rewrite <- (Z.mod_small (2 ^ w - 1 - x) (2 ^ w)) by lia. rewrite <- (Z.mod_add (Z.pred (- x)) 1 (2 ^ w)) by lia. f_equal. lia.
Qed.

Lemma in_range_high w x n : in_range w x -> 0 <= w <= n -> Z.testbit x n = false.
Proof. intros Hx Hn. rewrite <- (wrap_small w x Hx). unfold wrap. by apply Z.mod_pow2_bits_high. Qed.

Lemma land_complement w x y :
  0 <= w -> in_range w x -> in_range w y -> Z.land (Standard.complement w x) y = Z.ldiff y x.
Proof.
  intros Hw Hx Hy. rewrite <- not_complement by done. apply Z.bits_inj'. intros n Hn.
  rewrite Z.land_spec, Z.ldiff_spec. unfold wrap. destruct (Z.lt_ge_cases n w).
  - rewrite Z.mod_pow2_bits_low, Z.lnot_spec by lia. btauto.
  - rewrite Z.mod_pow2_bits_high by lia. by rewrite (in_range_high w y n Hy) by lia.
Qed.

(** Equality of bitwise expressions. *)
Ltac bitwise :=
  apply Z.bits_inj'; intros ?n ?Hn; rewrite ?Z.lxor_spec, ?Z.lor_spec, ?Z.land_spec, ?Z.ldiff_spec,
    ?Z.lxor_spec, ?Z.lor_spec, ?Z.land_spec, ?Z.ldiff_spec;
  repeat match goal with |- context [Z.testbit ?x ?n] => destruct (Z.testbit x n) end; reflexivity.

Lemma choose_md5 x y z :
  in_range 32 x -> in_range 32 z -> Z.lxor z (Z.land x (Z.lxor y z)) = Standard.F x y z.
Proof. intros Hx Hz. unfold Standard.F. rewrite land_complement by done. bitwise. Qed.

Lemma choose_md5_g x y z :
  in_range 32 y -> in_range 32 z -> Z.lxor y (Z.land z (Z.lxor x y)) = Standard.G5 x y z.
Proof. intros Hy Hz. unfold Standard.G5. rewrite (Z.land_comm y), land_complement by done. bitwise. Qed.

Lemma choose_or w x y z :
  0 <= w -> in_range w x -> in_range w z ->
  Z.lor (Z.land x y) (Z.land (wrap w (Z.lnot x)) z) = Standard.Ch w x y z.
Proof. intros Hw Hx Hz. unfold Standard.Ch. rewrite not_complement, land_complement by done. bitwise. Qed.

Lemma majority_or x y z :
  Z.lor (Z.lor (Z.land x y) (Z.land x z)) (Z.land y z) = Standard.Maj x y z.
Proof. unfold Standard.Maj. bitwise. Qed.

Lemma div_range w x n : 0 <= n -> in_range w x -> in_range w (x / 2 ^ n).
Proof.
  intros Hn [Hx1 Hx2]. pose proof (Z.pow_pos_nonneg 2 n ltac:(lia) ltac:(lia)). split; [apply Z.div_pos; lia |].
  apply Z.le_lt_trans with x; [| done]. apply Z.div_le_upper_bound; nia.
Qed.

Lemma nth_range w (l : list Z) i : 0 <= w -> Forall (in_range w) l -> in_range w (nth i l 0).
Proof.
  intros Hw Hl. destruct (Nat.lt_ge_cases i (length l)) as [Hi | Hi].
  - rewrite Forall_forall in Hl. apply Hl, list_elem_of_In, nth_In. done.
  - rewrite nth_overflow by done. pose proof (Z.pow_pos_nonneg 2 w ltac:(lia) Hw). split; lia.
Qed.

(** ** Simulations *)

Lemma foldl_sim {S T A B} (R : S -> T -> Prop) (f : S -> A -> S) (g : T -> B -> T) l k s t :
  Forall2 (fun a b => forall s t, R s t -> R (f s a) (g t b)) l k -> R s t -> R (foldl f s l) (foldl g t k).
Proof. intros Hlk. revert s t. induction Hlk as [| a b l k Hab Hlk IH]; intros s t Hst; [done |]. apply IH, Hab, Hst. Qed.

(** *** MD4 and MD5 *)

Definition md_sim (X : list Z) (v : md_variables) (r : Standard.registers) : Prop :=
  r = (md_a v, md_b v, md_c v, md_d v) /\ md_w v = X /\
  in_range 32 (md_a v) /\ in_range 32 (md_b v) /\ in_range 32 (md_c v) /\ in_range 32 (md_d v).

Lemma md4_op_sim X fn t k s i f ik c :
  (forall v, md4_step v i =
    MdVariables (md_d v) (rol32 (u32 (md_a v + u32 (f v + nth ik (md_w v) 0) + c)) s) (md_b v) (md_c v) (md_w v)) ->
  ik = k -> c = t -> 0 < s < 32 ->
  (forall v, in_range 32 (md_b v) -> in_range 32 (md_c v) -> in_range 32 (md_d v) -> f v = fn (md_b v) (md_c v) (md_d v)) ->
  forall v r, md_sim X v r -> md_sim X (md4_step v i) (Standard.md4_operation X r (Standard.Operation fn t k s)).
Proof.
  intros Hstep -> -> Hs Hf v r (-> & Hw & Ha & Hb & Hc & Hd). rewrite Hstep. unfold Standard.md4_operation. cbn.
  assert (E : u32 (md_a v + u32 (f v + nth k (md_w v) 0) + t) =
    (md_a v + fn (md_b v) (md_c v) (md_d v) + nth k X 0 + t) mod 2 ^ 32).
  { rewrite <- Hw, <- Hf by done. unfold wrap.
    replace (md_a v + (f v + nth k (md_w v) 0) mod 2 ^ 32 + t) with ((f v + nth k (md_w v) 0) mod 2 ^ 32 + (md_a v + t)) by lia.
    rewrite Zplus_mod_idemp_l. f_equal. lia. }
  rewrite E. unfold rol32. rewrite rol_rotl by (done || apply wrap_range; lia).
  unfold md_sim. cbn. split_and!; try done. apply rotl_range; [done |]. apply wrap_range. lia.
Qed.

Lemma md5_op_sim X fn t k s i f ik c :
  (forall v, md5_round v i =
    MdVariables (md_d v) (u32 (md_b v + rol32 (u32 (md_a v + f v + c + nth ik (md_w v) 0)) s)) (md_b v) (md_c v) (md_w v)) ->
  ik = k -> c = t -> 0 < s < 32 ->
  (forall v, in_range 32 (md_b v) -> in_range 32 (md_c v) -> in_range 32 (md_d v) -> f v = fn (md_b v) (md_c v) (md_d v)) ->
  forall v r, md_sim X v r -> md_sim X (md5_round v i) (Standard.md5_operation X r (Standard.Operation fn t k s)).
Proof.
  intros Hstep -> -> Hs Hf v r (-> & Hw & Ha & Hb & Hc & Hd). rewrite Hstep. unfold Standard.md5_operation. cbn.
  unfold rol32. rewrite rol_rotl by (done || apply wrap_range; lia). rewrite Hf, <- Hw by done.
  unfold md_sim, Standard.add, wrap. cbn. split_and!; try done.
  - do 7 f_equal. lia.
  - apply wrap_range. lia.
Qed.

(** Discharge the operations of a concrete table. *)
Ltac md_table L f Hf :=
  repeat (apply Forall2_cons_2; [eapply (L _ _ _ _ _ _ f);
    [intros ?v; reflexivity | reflexivity | reflexivity | lia | exact Hf] |]);
  constructor.

Lemma md4_operations_sim X :
  Forall2 (fun i o => forall v r, md_sim X v r -> md_sim X (md4_step v i) (Standard.md4_operation X r o))
    (seq 0 48) Standard.md4_operations.
Proof.
  unfold Standard.md4_operations. change (seq 0 48) with (seq 0 16 ++ seq 16 16 ++ seq 32 16).
  repeat apply Forall2_app; cbn [seq replicate app Standard.operations zip zip_with].
  - md_table md4_op_sim
      (fun v => Z.lor (Z.land (md_b v) (md_c v)) (Z.land (u32 (Z.lnot (md_b v))) (md_d v)))
      (fun v (Hb : in_range 32 (md_b v)) (Hc : in_range 32 (md_c v)) (Hd : in_range 32 (md_d v)) =>
        f_equal (fun x => Z.lor (Z.land (md_b v) (md_c v)) (Z.land x (md_d v))) (not_complement 32 _ ltac:(done) Hb)).
  - md_table md4_op_sim (fun v => Standard.G4 (md_b v) (md_c v) (md_d v))
      (fun v (_ : in_range 32 (md_b v)) (_ : in_range 32 (md_c v)) (_ : in_range 32 (md_d v)) =>
        eq_refl (Standard.G4 (md_b v) (md_c v) (md_d v))).
  - md_table md4_op_sim (fun v => Standard.Parity (md_b v) (md_c v) (md_d v))
      (fun v (_ : in_range 32 (md_b v)) (_ : in_range 32 (md_c v)) (_ : in_range 32 (md_d v)) =>
        eq_refl (Standard.Parity (md_b v) (md_c v) (md_d v))).
Qed.

Lemma md5_operations_sim X :
  Forall2 (fun i o => forall v r, md_sim X v r -> md_sim X (md5_round v i) (Standard.md5_operation X r o))
    (seq 0 64) (Standard.md5_operations Standard.md5_T).
Proof.
  rewrite <- md5_k_ok.
  unfold Standard.md5_operations. change (seq 0 64) with (seq 0 16 ++ seq 16 16 ++ seq 32 16 ++ seq 48 16).
  repeat apply Forall2_app; cbn [seq take drop md5_k app Standard.operations zip zip_with].
  - md_table md5_op_sim md5_f_0_15
      (fun v (Hb : in_range 32 (md_b v)) (Hc : in_range 32 (md_c v)) (Hd : in_range 32 (md_d v)) =>
        choose_md5 _ (md_c v) _ Hb Hd).
  - md_table md5_op_sim md5_f_16_31
      (fun v (Hb : in_range 32 (md_b v)) (Hc : in_range 32 (md_c v)) (Hd : in_range 32 (md_d v)) =>
        choose_md5_g (md_b v) _ _ Hc Hd).
  - md_table md5_op_sim md5_f_32_47
      (fun v (_ : in_range 32 (md_b v)) (_ : in_range 32 (md_c v)) (_ : in_range 32 (md_d v)) =>
        eq_refl (Standard.Parity (md_b v) (md_c v) (md_d v))).
  - md_table md5_op_sim md5_f_48_63
      (fun v (Hb : in_range 32 (md_b v)) (Hc : in_range 32 (md_c v)) (Hd : in_range 32 (md_d v)) =>
        f_equal (fun x => Z.lxor (md_c v) (Z.lor (md_b v) x)) (not_complement 32 _ ltac:(done) Hd)).
Qed.

Lemma md_rounds_sim (step : md_variables -> nat -> md_variables) op n ops h X :
  Forall2 (fun i o => forall v r, md_sim X v r -> md_sim X (step v i) (op X r o)) (seq 0 n) ops ->
  length h = 4%nat -> Forall (in_range 32) h ->
  md_store (foldl step (md_load (h ++ X)) (seq 0 n)) = Standard.md_transform op ops h X.
Proof.
  intros Hops Hl Hr. destruct h as [| a [| b [| c [| d [| ]]]]]; try done. rewrite !Forall_cons in Hr. destruct Hr as (Ha & Hb & Hc & Hd & _).
  unfold Standard.md_transform. cbn [nth].
  assert (H0 : md_sim X (md_load ([a; b; c; d] ++ X)) (a, b, c, d)) by (unfold md_sim, md_load; cbn; split_and!; done).
  destruct (foldl_sim _ _ _ _ _ _ _ Hops H0) as (-> & _). done.
Qed.

(** *** Message schedules *)

Lemma schedule_take next n w : (n <= length w)%nat -> Standard.schedule next n w = take n w.
Proof.
  revert w. induction n as [| n IH]; intros w Hn; [done |]. destruct w as [| x w]; [cbn in Hn; lia |].
  cbn [Standard.schedule nth tail take]. cbn [length] in Hn. rewrite IH by (rewrite length_app; lia).
  rewrite take_app_le by lia. done.
Qed.

(** A schedule that appends words to the whole array computes the sliding
    window's words. *)
Lemma schedule_window b (next : list Z -> Z) (sched : nat -> list Z -> list Z) :
  (forall w, sched 0%nat w = w) ->
  (forall n w, (16 <= length w)%nat -> Forall (in_range b) w ->
    sched (S n) w = sched n (w ++ [next (drop (length w - 16) w)])) ->
  (forall l, Forall (in_range b) l -> in_range b (next l)) ->
  forall n w, (16 <= length w)%nat -> Forall (in_range b) w ->
    sched n w = take (length w - 16) w ++ Standard.schedule next (16 + n) (drop (length w - 16) w).
Proof.
  intros H0 HS Hnext n. induction n as [| n IH]; intros w Hw Hr.
  - rewrite H0, schedule_take by (rewrite length_drop; lia). rewrite (take_ge (drop _ w)) by (rewrite length_drop; lia).
    by rewrite take_drop.
  - rewrite HS, IH by (rewrite ?length_app; first [lia | done |
      apply Forall_app; split; [done | apply Forall_cons_2; [by apply Hnext, Forall_drop | constructor]]]).
    rewrite length_app. cbn [length]. replace (length w + 1 - 16)%nat with (S (length w - 16)) by lia.
    rewrite take_app_le, drop_app_le by lia.
    destruct (lookup_lt_is_Some_2 w (length w - 16) ltac:(lia)) as [x Hx].
    rewrite (take_S_r _ _ _ Hx), <- app_assoc, (drop_S _ _ _ Hx), Nat.add_succ_r. reflexivity.
Qed.

Lemma nth_window (w : list Z) i : (16 <= length w)%nat -> (i < 16)%nat ->
  nth i (drop (length w - 16) w) 0 = nth (length w - (16 - i)) w 0.
Proof.
  intros Hw Hi. rewrite !nth_lookup, lookup_drop. do 2 f_equal. lia.
Qed.

Lemma schedule_range w next n win :
  0 <= w -> Forall (in_range w) win -> (forall l, Forall (in_range w) l -> in_range w (next l)) ->
  Forall (in_range w) (Standard.schedule next n win).
Proof.
  intros Hw Hwin Hnext. revert win Hwin. induction n as [| n IH]; intros win Hwin; [constructor |].
  cbn [Standard.schedule]. apply Forall_cons_2; [by apply nth_range |]. apply IH, Forall_app. split.
  - destruct Hwin; [constructor | done].
  - apply Forall_cons_2; [by apply Hnext | constructor].
Qed.

Lemma sha1_next_range l : Forall (in_range 32) l -> in_range 32 (Standard.sha1_next l).
Proof. intros Hl. unfold Standard.sha1_next. apply rotl_range; [lia |]. repeat apply lxor_range; try lia; by apply nth_range. Qed.

Lemma sha1_schedule_ok n w :
  length w = 16%nat -> Forall (in_range 32) w -> sha1_schedule n w = Standard.schedule Standard.sha1_next (16 + n) w.
Proof.
  intros Hl Hr. rewrite (schedule_window 32 Standard.sha1_next sha1_schedule); rewrite ?Hl; try done.
  - intros k u Hu Hur. cbn [sha1_schedule]. do 3 f_equal. unfold Standard.sha1_next. rewrite !nth_window by lia.
    apply rol_rotl; [lia |]. repeat apply lxor_range; try lia; by apply nth_range.
  - apply sha1_next_range.
Qed.

(** *** SHA-1 *)

Definition sha1_sim (W : list Z) (v : sha1_variables) (r : Z * Z * Z * Z * Z) : Prop :=
  r = (sha1_a v, sha1_b v, sha1_c v, sha1_d v, sha1_e v) /\ sha1_w v = W /\
  in_range 32 (sha1_a v) /\ in_range 32 (sha1_b v) /\ in_range 32 (sha1_c v) /\ in_range 32 (sha1_d v).

Lemma sha1_loop_sim W i v r :
  (i < 80)%nat -> sha1_sim W v r -> sha1_sim W (sha1_round v i) (Standard.sha1_loop W r i).
Proof.
  intros Hi (-> & Hw & Ha & Hb & Hc & Hd).
  assert (E : exists fn, nth (i / 20) sha1_steps (sha1_f_0_19, 0) = (fn, Standard.sha1_K i) /\
    fn v = Standard.sha1_f i (sha1_b v) (sha1_c v) (sha1_d v)).
  { pose proof (choose_or 32 _ (sha1_c v) _ ltac:(lia) Hb Hd) as EC.
    pose proof (majority_or (sha1_b v) (sha1_c v) (sha1_d v)) as EM. unfold Standard.sha1_K, Standard.sha1_f.
    destruct (Nat.ltb_spec i 20); [rewrite Nat.div_small by lia; by exists sha1_f_0_19 |].
    destruct (Nat.ltb_spec i 40); [rewrite <- (Nat.div_unique i 20 1 (i - 20)) by lia; by exists sha1_f_20_39_60_79 |].
    destruct (Nat.ltb_spec i 60); [rewrite <- (Nat.div_unique i 20 2 (i - 40)) by lia; by exists sha1_f_40_59 |].
    rewrite <- (Nat.div_unique i 20 3 (i - 60)) by lia. by exists sha1_f_20_39_60_79. }
  destruct E as (fn & E1 & E2). unfold sha1_round, Standard.sha1_loop. rewrite E1, E2. unfold rol32.
  rewrite !rol_rotl by (done || lia). unfold sha1_sim. cbn. rewrite Hw. split_and!; try done.
  - apply wrap_range. lia.
  - apply rotl_range; [lia | done].
Qed.

Lemma Forall2_same {A} (P : A -> A -> Prop) (l : list A) : (forall x, x ∈ l -> P x x) -> Forall2 P l l.
Proof. intros H. apply Forall2_same_length_lookup_2; [done |]. intros i x y Hx Hy. simplify_eq. eapply H, list_elem_of_lookup_2, Hx. Qed.

Lemma sha1_rounds_ok h X :
  length h = 5%nat -> Forall (in_range 32) h -> length X = 16%nat -> Forall (in_range 32) X ->
  sha1_rounds (h ++ X) = Standard.sha1_transform h X.
Proof.
  intros Hl Hr HlX HrX. destruct h as [| a [| b [| c [| d [| e [| ]]]]]]; try done.
  rewrite !Forall_cons in Hr. destruct Hr as (Ha & Hb & Hc & Hd & He & _).
  unfold sha1_rounds, Standard.sha1_transform. cbn [nth app drop]. rewrite drop_0, sha1_schedule_ok by done.
  change (16 + 64)%nat with 80%nat. generalize (Standard.schedule Standard.sha1_next 80 X). intros W.
  assert (H0 : sha1_sim W (Sha1Variables a b c d e W) (a, b, c, d, e)) by (unfold sha1_sim; cbn; split_and!; done).
  assert (HF : Forall2 (fun i j => forall v r, sha1_sim W v r -> sha1_sim W (sha1_round v i) (Standard.sha1_loop W r j))
    (seq 0 80) (seq 0 80)).
  { apply Forall2_same. intros i Hi v r. apply sha1_loop_sim. apply elem_of_seq in Hi. lia. }
  revert HF. generalize (seq 0 80). intros indices HF. destruct (foldl_sim _ _ _ _ _ _ _ HF H0) as (-> & _). reflexivity.
Qed.

(** *** SHA-2

    The parameters of the sources, and the functions of the standard. *)

Definition sha2_matches (p : sha2_parameters) (s : Standard.sha2_functions) : Prop :=
  s2_bits p = Standard.word s /\ s2_rounds p = Standard.round_count s /\ (16 <= s2_rounds p)%nat /\ 0 < s2_bits p /\
  forall x, in_range (s2_bits p) x ->
    sha2_small (s2_bits p) (s2_w0 p) x = Standard.sigma0 s x /\ sha2_small (s2_bits p) (s2_w1 p) x = Standard.sigma1 s x /\
    sha2_big (s2_bits p) (s2_a p) x = Standard.Sigma0 s x /\ sha2_big (s2_bits p) (s2_e p) x = Standard.Sigma1 s x.

Lemma sha256_matches : sha2_matches sha256_parameters Standard.sha256_functions.
Proof.
  unfold sha2_matches. cbn [s2_bits s2_rounds sha256_parameters Standard.sha256_functions Standard.word Standard.round_count].
  split_and!; try lia. intros x Hx. unfold sha2_small, sha2_big, Standard.shr. cbn.
  rewrite !ror_rotr by (done || lia). rewrite !Z.shiftr_div_pow2 by lia. done.
Qed.

Lemma sha512_matches : sha2_matches sha512_parameters Standard.sha512_functions.
Proof.
  unfold sha2_matches. cbn [s2_bits s2_rounds sha512_parameters Standard.sha512_functions Standard.word Standard.round_count].
  split_and!; try lia. intros x Hx. unfold sha2_small, sha2_big, Standard.shr. cbn.
  rewrite !ror_rotr by (done || lia). rewrite !Z.shiftr_div_pow2 by lia. done.
Qed.

Section Sha2.
Context (p : sha2_parameters) (s : Standard.sha2_functions) (Hm : sha2_matches p s).

Lemma sha2_schedule_ok n w :
  length w = 16%nat -> Forall (in_range (s2_bits p)) w ->
  sha2_schedule p n w = Standard.schedule (Standard.sha2_next s) (16 + n) w.
Proof using Hm.
  destruct Hm as (Eb & _ & _ & Hb & Hf). intros Hl Hr.
  rewrite (schedule_window (s2_bits p) (Standard.sha2_next s) (sha2_schedule p)); rewrite ?Hl; try done.
  - intros k u Hu Hur. cbn [sha2_schedule]. do 3 f_equal. unfold Standard.sha2_next. rewrite !nth_window by lia.
    rewrite (proj1 (Hf (nth (length u - 15) u 0) ltac:(apply nth_range; [lia | done]))).
    rewrite (proj1 (proj2 (Hf (nth (length u - 2) u 0) ltac:(apply nth_range; [lia | done])))).
    rewrite <- Eb. unfold wrap. f_equal. cbn [Nat.sub]. lia.
  - intros l Hlr. unfold Standard.sha2_next. rewrite <- Eb. apply wrap_range. lia.
Qed.

Definition sha2_sim (W : list Z) (v : sha2_variables) (r : list Z) : Prop :=
  r = [s2a v; s2b v; s2c v; s2d v; s2e v; s2f v; s2g v; s2h v] /\ s2w v = W /\ Forall (in_range (s2_bits p)) r.

Lemma sha2_loop_sim W i v r :
  sha2_sim W v r -> sha2_sim W (sha2_round p v i) (Standard.sha2_loop s (s2_k p) W r i).
Proof using Hm.
  destruct Hm as (Eb & _ & _ & Hb & Hf). intros (-> & Hw & Hr).
  rewrite !Forall_cons in Hr. destruct Hr as (Ha & Hb' & Hc & Hd & He & Hf' & Hg & Hh & _).
  unfold sha2_round, Standard.sha2_loop.
  rewrite (proj1 (proj2 (proj2 (Hf _ Ha)))), (proj2 (proj2 (proj2 (Hf _ He)))), not_complement, Hw by (done || lia).
  rewrite <- Eb. fold (Standard.Ch (s2_bits p) (s2e v) (s2f v) (s2g v)) (Standard.Maj (s2a v) (s2b v) (s2c v)).
  set (T1 := s2h v + _ + _ + _ + _). set (T2 := _ + Standard.Maj _ _ _).
  unfold sha2_sim. cbn. split; [| split].
  - unfold wrap. rewrite <- Zplus_mod, Zplus_mod_idemp_r. done.
  - done.
  - repeat (apply Forall_cons_2; [first [done | apply wrap_range; lia] |]). constructor.
Qed.

Lemma sha2_rounds_ok h X :
  length h = 8%nat -> Forall (in_range (s2_bits p)) h -> length X = 16%nat -> Forall (in_range (s2_bits p)) X ->
  sha2_rounds p (h ++ X) = Standard.sha2_transform s (s2_k p) h X.
Proof using Hm.
  intros Hl Hr HlX HrX. destruct h as [| a [| b [| c [| d [| e [| f [| g [| h [|]]]]]]]]]; try done.
  unfold sha2_rounds, Standard.sha2_transform. cbn [nth app drop]. rewrite drop_0, sha2_schedule_ok by done.
  destruct Hm as (_ & En & Hn & _). replace (16 + (s2_rounds p - 16))%nat with (Standard.round_count s) by lia. rewrite En.
  generalize (Standard.schedule (Standard.sha2_next s) (Standard.round_count s) X). intros W. set (v0 := Sha2Variables _ _ _ _ _ _ _ _ _).
  assert (H0 : sha2_sim W v0 [a; b; c; d; e; f; g; h]) by (unfold sha2_sim; cbn; split_and!; done).
  assert (HF : Forall2 (fun i j => forall v r, sha2_sim W v r ->
      sha2_sim W (sha2_round p v i) (Standard.sha2_loop s (s2_k p) W r j))
    (seq 0 (Standard.round_count s)) (seq 0 (Standard.round_count s))).
  { apply Forall2_same. intros i Hi v r. apply sha2_loop_sim. }
  exact (eq_sym (proj1 (foldl_sim _ _ _ _ _ _ _ HF H0))).
Qed.
End Sha2.

(** ** The families against the standards *)

Record implements (f : family) (iv : list Z) (S : Standard.standard) : Prop := {
  imp_word : word_size f = Standard.std_word S;
  imp_big : big_endian f = Standard.std_big S;
  imp_iv : iv = Standard.std_iv S;
  imp_chain : chain f iv;
  imp_sizes : word_size f = 4%nat \/ word_size f = 8%nat /\ big_endian f = true;
  imp_length : forall u, length u = (digest_words f + 16)%nat -> length (rounds f u) = digest_words f;
  imp_size : (Standard.std_size S <= digest_size f)%nat;
  imp_rounds : forall h X, chain f h -> length X = 16%nat -> Forall (in_range (8 * Z.of_nat (word_size f))) X ->
    rounds f (h ++ X) = Standard.std_transform S h X
}.

(** Initial values are words. *)
Ltac concrete_chain := split; [reflexivity | repeat (apply Forall_cons_2; [split; vm_compute; congruence |]); constructor].

Lemma md4_implements : implements md4_family md_init_digest Standard.MD4.
Proof.
  split; [reflexivity | reflexivity | reflexivity | concrete_chain | left; reflexivity | intros u _; reflexivity | apply Nat.leb_le; reflexivity |].
  intros h X [Hl Hr] _ _. apply (md_rounds_sim md4_step Standard.md4_operation 48); [apply md4_operations_sim | done | done].
Qed.

Lemma md5_implements : implements md5_family md_init_digest Standard.MD5.
Proof.
  split; [reflexivity | reflexivity | reflexivity | concrete_chain | left; reflexivity | intros u _; reflexivity | apply Nat.leb_le; reflexivity |].
  intros h X [Hl Hr] _ _. apply (md_rounds_sim md5_round Standard.md5_operation 64); [apply md5_operations_sim | done | done].
Qed.

Lemma sha1_implements : implements sha1_family sha1_init_digest Standard.SHA1.
Proof.
  split; [reflexivity | reflexivity | reflexivity | concrete_chain | left; reflexivity | intros u _; reflexivity | apply Nat.leb_le; reflexivity |].
  intros h X [Hl Hr] HlX HrX. by apply sha1_rounds_ok.
Qed.

Lemma sha256_family_implements iv size :
  chain sha256_family iv -> (size <= 32)%nat ->
  implements sha256_family iv
    (Standard.Build_standard 4 true iv (Standard.sha2_transform Standard.sha256_functions Standard.K256) size).
Proof.
  intros Hiv Hs. split; [reflexivity | reflexivity | reflexivity | exact Hiv | left; reflexivity | intros u _; reflexivity | exact Hs |].
  intros h X [Hl Hr] HlX HrX. cbn [Standard.std_transform]. rewrite <- sha256_k_ok.
  by apply (sha2_rounds_ok sha256_parameters _ sha256_matches).
Qed.

Lemma sha512_family_implements iv size :
  chain sha512_family iv -> (size <= 64)%nat -> implements sha512_family iv (Standard.SHA512_with iv size).
Proof.
  intros Hiv Hs. split; [reflexivity | reflexivity | reflexivity | exact Hiv | right; split; reflexivity | intros u _; reflexivity | exact Hs |].
  intros h X [Hl Hr] HlX HrX. cbn [Standard.std_transform Standard.SHA512_with]. rewrite <- sha512_k_ok.
  by apply (sha2_rounds_ok sha512_parameters _ sha512_matches).
Qed.

Section Hash.
Context (f : family) (iv : list Z) (S : Standard.standard) (Himp : implements f iv S).

Lemma zeros_ok l : Standard.zeros (Standard.std_word S) l = pad_zeros f l.
Proof using Himp.
  destruct (pad_zeros_spec f (imp_sizes _ _ _ Himp) l) as (H1 & H2 & H3).
  unfold Standard.zeros. rewrite <- (imp_word _ _ _ Himp). fold (block_size f).
  assert (Es : seq 0 (block_size f) = seq 0 (pad_zeros f l) ++
    pad_zeros f l :: seq (Datatypes.S (pad_zeros f l)) (block_size f - pad_zeros f l - 1)).
  { change (?x :: seq (Datatypes.S ?x) ?n) with (seq x (Datatypes.S n)). rewrite <- seq_app. f_equal. lia. }
  rewrite Es, filter_app, filter_cons_True by (rewrite <- H2; f_equal; lia).
  assert (E : filter (fun k => ((l + 1 + k) mod block_size f = 14 * word_size f)%nat) (seq 0 (pad_zeros f l)) = []).
  { generalize (pad_zeros f l), H3. clear. intros k Hk. assert (Hi : Forall (fun i => (i < k)%nat) (seq 0 k)) by (apply Forall_seq; lia).
    induction Hi as [| i js Hi His IH]; [done |]. rewrite filter_cons_False, IH; [done |]. specialize (Hk i Hi).
    by replace (l + 1 + i)%nat with (Datatypes.S l + i)%nat by lia. }
  by rewrite E.
Qed.

Lemma padded_ok m : padded f m = Standard.pad S m.
Proof using Himp.
  unfold padded, Standard.pad. rewrite zeros_ok. by rewrite <- (imp_word _ _ _ Himp), <- (imp_big _ _ _ Himp).
Qed.

Lemma compress_ok h blk :
  chain f h -> length blk = block_size f -> Forall is_byte blk -> compress f h blk = Standard.hash_block S h blk.
Proof using Himp.
  intros Hh Hl Hb. unfold compress, Standard.hash_block.
  rewrite <- (imp_word _ _ _ Himp), <- (imp_big _ _ _ Himp), (imp_rounds _ _ _ Himp); [done | done | |].
  - by rewrite length_fmap, length_groups.
  - pose proof (groups_lengths (word_size f) 16 blk ltac:(unfold block_size in Hl; lia)) as HL.
    pose proof (groups_bytes (word_size f) 16 blk Hb) as HB. apply Forall_fmap.
    eapply Forall_impl; [exact (proj2 (Forall_and _ _) (conj HL HB)) |]. intros w [Hw1 Hw2]. by apply decode_range.
Qed.

Lemma hash_ok m : Forall is_byte m -> hash f iv (Standard.std_size S) m = Standard.hash S m.
Proof using Himp.
  intros Hm. unfold hash, Standard.hash, absorb. rewrite padded_ok, <- (imp_word _ _ _ Himp), <- (imp_big _ _ _ Himp), <- (imp_iv _ _ _ Himp).
  fold (block_size f). do 3 f_equal.
  assert (Hp : Forall is_byte (Standard.pad S m)).
  { unfold Standard.pad. apply Forall_app. split; [done |]. apply Forall_cons_2; [unfold in_range; lia |].
    apply Forall_app. split; [apply Forall_replicate; unfold in_range; lia | apply encode_word_bytes]. }
  pose proof (block_size_cases f (imp_sizes _ _ _ Himp)) as HB.
  set (p := Standard.pad S m) in *. set (k := (length p / block_size f)%nat).
  assert (Hk : (k * block_size f <= length p)%nat) by (unfold k; pose proof (Nat.Div0.mul_div_le (length p) (block_size f)); lia).
  pose proof (groups_lengths _ _ _ Hk) as HL. pose proof (groups_bytes (block_size f) k p Hp) as HF.
  revert HL HF. generalize (groups (block_size f) k p). intros blks HL HF.
  cut (forall h, chain f h -> foldl (compress f) h blks = foldl (Standard.hash_block S) h blks);
    [intros E; apply E, (imp_chain _ _ _ Himp) |].
  induction HL as [| b blks Hb HL IH]; intros h Hh; [done |].
  apply Forall_cons_1 in HF as [Hb' HF]. cbn [foldl]. rewrite compress_ok by done. apply IH; [done |].
  rewrite <- compress_ok by done. apply compress_chain; [apply (imp_sizes _ _ _ Himp) | apply (imp_length _ _ _ Himp) | done].
Qed.
End Hash.

(** ** The interface of a digest

    What the clients of a digest rely on: the context [holds] the message fed so
    far, whatever the pieces, and finishing gives its hash [H]. *)

Definition digest_limit (size_bits : Z) : Z := 2 ^ Z.min size_bits 61.

Class IsDigest (size_bits : Z) (alg : digest_algorithm) (H : bytes -> bytes) := {
  digest_holds : bytes -> digest_context -> Prop;
  digest_holds_wf m ctx :
    digest_holds m ctx -> length (ctx_ddd ctx) = ddd_size alg /\ Forall is_byte (ctx_ddd ctx);
  digest_hash_bytes m : Forall is_byte m -> length (H m) = digestsize alg /\ Forall is_byte (H m);
  digest_sizes : (digestsize alg <= blocksize alg <= 128)%nat /\ (0 < digestsize alg)%nat;
  digest_limit_min : 2 ^ 32 <= digest_limit size_bits;
  digest_init_ok ctx :
    length (ctx_ddd ctx) = ddd_size alg -> Forall is_byte (ctx_ddd ctx) ->
    exists ctx', digest_init alg ctx = Ok ctx' /\ digest_holds [] ctx';
  digest_update_ok m ctx data :
    digest_holds m ctx -> Forall is_byte data ->
    exists ctx', digest_update alg size_bits ctx data = Ok ctx' /\ digest_holds (m ++ data) ctx';
  digest_final_ok m ctx out :
    digest_holds m ctx -> Forall is_byte m -> zlen m < digest_limit size_bits -> (digestsize alg <= length out)%nat ->
    exists ctx', digest_final alg size_bits ctx out = Ok (ctx', H m ++ drop (digestsize alg) out) /\
      length (ctx_ddd ctx') = ddd_size alg /\ Forall is_byte (ctx_ddd ctx')
}.

Lemma limit_bounds size_bits n :
  0 <= size_bits -> n < digest_limit size_bits -> n < 2 ^ size_bits /\ n < 2 ^ 61.
Proof.
  intros Hs Hn. unfold digest_limit in Hn.
  split; (eapply Z.lt_le_trans; [exact Hn | apply Z.pow_le_mono_r; lia]).
Qed.

Lemma family_is_digest size_bits f iv S :
  size_bits = 32 \/ size_bits = 64 -> implements f iv S -> (0 < Standard.std_size S <= block_size f)%nat ->
  IsDigest size_bits (family_algorithm f iv (Standard.std_size S)) (Standard.hash S).
Proof.
  intros Hs Himp Hbs. pose proof (imp_sizes _ _ _ Himp) as Hw. pose proof (imp_length _ _ _ Himp) as Hr.
  pose proof (imp_chain _ _ _ Himp) as Hiv. pose proof (imp_size _ _ _ Himp) as Hds.
  pose proof (block_size_cases f Hw) as HB.
  refine (Build_IsDigest _ (family_algorithm f iv (Standard.std_size S)) _
    (accumulated size_bits f iv (Standard.std_size S)) _ _ _ _ _ _ _);
    cbn [family_algorithm ddd_size blocksize digestsize digest_init digest_update digest_final].
  - intros m ctx Ha. exact (accumulated_wf size_bits f Hw Hr _ _ _ _ Hiv Ha).
  - intros m Hm. rewrite <- (hash_ok f iv S Himp m Hm). by apply hash_bytes.
  - lia.
  - destruct Hs as [-> | ->]; vm_compute; discriminate.
  - intros ctx. by apply family_init_ok.
  - intros m ctx data Ha Hd. by apply family_update_ok.
  - intros m ctx out Ha Hm Hlim Hout. apply limit_bounds in Hlim as [Hl1 Hl2]; [| lia].
    destruct (family_final_ok size_bits f Hs Hw Hr iv _ m ctx out Hiv Ha Hds Hout Hl1 Hl2) as (ctx' & E & Ha').
    exists ctx'. rewrite <- (hash_ok f iv S Himp m Hm). split; [exact E |].
    exact (accumulated_wf size_bits f Hw Hr _ _ _ _ Hiv Ha').
Qed.

(** The algorithms of the tree and the functions they compute. *)
Definition digests : list (digest_algorithm * Standard.standard) := [
  (md4_algorithm, Standard.MD4); (md5_algorithm, Standard.MD5); (sha1_algorithm, Standard.SHA1);
  (sha224_algorithm, Standard.SHA224); (sha256_algorithm, Standard.SHA256);
  (sha384_algorithm, Standard.SHA384); (sha512_algorithm, Standard.SHA512);
  (sha512_224_algorithm, Standard.SHA512_224); (sha512_256_algorithm, Standard.SHA512_256)].

Lemma sha256_implements_init iv iv' size :
  iv = iv' -> chain sha256_family iv -> (size <= 32)%nat ->
  implements sha256_family iv
    (Standard.Build_standard 4 true iv' (Standard.sha2_transform Standard.sha256_functions Standard.K256) size).
Proof. intros <-. apply sha256_family_implements. Qed.

Lemma sha512_implements_init iv iv' size :
  iv = iv' -> chain sha512_family iv -> (size <= 64)%nat -> implements sha512_family iv (Standard.SHA512_with iv' size).
Proof. intros <-. apply sha512_family_implements. Qed.

Lemma digests_implement alg S :
  (alg, S) ∈ digests ->
  exists f iv, alg = family_algorithm f iv (Standard.std_size S) /\ implements f iv S /\
    (0 < Standard.std_size S <= block_size f)%nat.
Proof.
  destruct sha2_init_digest_ok as (E256 & E224 & E512 & E384 & E224' & E256').
  assert (H256 : forall iv iv' size, iv = iv' -> chain sha256_family iv -> (0 < size <= 32)%nat ->
    exists f i, family_algorithm sha256_family iv size = family_algorithm f i size /\
      implements f i (Standard.Build_standard 4 true iv' (Standard.sha2_transform Standard.sha256_functions Standard.K256) size) /\
      (0 < size <= block_size f)%nat).
  { intros iv iv' size E Hc Hs. exists sha256_family, iv. split; [reflexivity |].
    split; [apply sha256_implements_init; [done | done | lia] |]. change (block_size sha256_family) with 64%nat. lia. }
  assert (H512 : forall iv iv' size, iv = iv' -> chain sha512_family iv -> (0 < size <= 64)%nat ->
    exists f i, family_algorithm sha512_family iv size = family_algorithm f i size /\
      implements f i (Standard.SHA512_with iv' size) /\ (0 < size <= block_size f)%nat).
  { intros iv iv' size E Hc Hs. exists sha512_family, iv. split; [reflexivity |].
    split; [apply sha512_implements_init; [done | done | lia] |]. change (block_size sha512_family) with 128%nat. lia. }
  intros Hin. unfold digests in Hin. rewrite !elem_of_cons in Hin.
  destruct Hin as [E | [E | [E | [E | [E | [E | [E | [E | [E | E]]]]]]]]]; [apply pair_eq in E as [-> ->] .. | exfalso; exact (not_elem_of_nil _ E)].
  - exists md4_family, md_init_digest. split; [reflexivity |]. split; [apply md4_implements | split; apply Nat.leb_le; reflexivity].
  - exists md5_family, md_init_digest. split; [reflexivity |]. split; [apply md5_implements | split; apply Nat.leb_le; reflexivity].
  - exists sha1_family, sha1_init_digest. split; [reflexivity |]. split; [apply sha1_implements | split; apply Nat.leb_le; reflexivity].
  - apply (H256 _ _ 28%nat E224); [concrete_chain | lia].
  - apply (H256 _ _ 32%nat E256); [concrete_chain | lia].
  - apply (H512 _ _ 48%nat E384); [concrete_chain | lia].
  - apply (H512 _ _ 64%nat E512); [concrete_chain | lia].
  - apply (H512 _ _ 28%nat E224'); [concrete_chain | lia].
  - apply (H512 _ _ 32%nat E256'); [concrete_chain | lia].
Qed.

(** ** Digesting a message in pieces *)

Fixpoint update_pieces (size_bits : Z) (alg : digest_algorithm) (ctx : digest_context) (pieces : list bytes) : res digest_context :=
  match pieces with
  | [] => Ok ctx
  | data :: pieces => ctx ← digest_update alg size_bits ctx data; update_pieces size_bits alg ctx pieces
  end.

Definition digest_run (size_bits : Z) (alg : digest_algorithm) (ctx : digest_context) (pieces : list bytes) (out : bytes) : res (digest_context * bytes) :=
  ctx ← digest_init alg ctx;
  ctx ← update_pieces size_bits alg ctx pieces;
  digest_final alg size_bits ctx out.

Section Interface.
Context (size_bits : Z) (alg : digest_algorithm) (H : bytes -> bytes) {D : IsDigest size_bits alg H}.

Lemma update_pieces_ok m ctx pieces :
  digest_holds (IsDigest := D) m ctx -> Forall (Forall is_byte) pieces ->
  exists ctx', update_pieces size_bits alg ctx pieces = Ok ctx' /\ digest_holds (IsDigest := D) (m ++ concat pieces) ctx'.
Proof using Type.
  intros Hm Hp. revert m ctx Hm. induction Hp as [| data pieces Hd Hp IH]; intros m ctx Hm.
  - exists ctx. by rewrite app_nil_r.
  - destruct (digest_update_ok (IsDigest := D) _ _ _ Hm Hd) as (c1 & E1 & H1).
    destruct (IH _ _ H1) as (c2 & E2 & H2). exists c2. cbn [update_pieces concat]. step E1. split; [done |].
    by rewrite app_assoc.
Qed.

Lemma digest_run_ok ctx pieces out :
  length (ctx_ddd ctx) = ddd_size alg -> Forall is_byte (ctx_ddd ctx) -> Forall (Forall is_byte) pieces ->
  zlen (concat pieces) < digest_limit size_bits -> (digestsize alg <= length out)%nat ->
  exists ctx', digest_run size_bits alg ctx pieces out = Ok (ctx', H (concat pieces) ++ drop (digestsize alg) out) /\
    length (ctx_ddd ctx') = ddd_size alg /\ Forall is_byte (ctx_ddd ctx').
Proof using D.
  intros Hl Hb Hp Hlim Hout. unfold digest_run.
  destruct (digest_init_ok (IsDigest := D) ctx Hl Hb) as (c1 & E1 & H1). step E1.
  destruct (update_pieces_ok [] c1 pieces H1 Hp) as (c2 & E2 & H2). step E2.
  apply (digest_final_ok (IsDigest := D)); [done | by apply Forall_concat | done | done].
Qed.
End Interface.

(** C6. Every digest of the tree (MD4, MD5, SHA-1, SHA-224, SHA-256, SHA-384,
    SHA-512, SHA-512/224, SHA-512/256) computes the hash of its standard: a
    context of any contents, initialised, updated with a message in any pieces and
    finished, leaves in the output buffer the RFC 1320, RFC 1321 or FIPS 180-4
    hash of the whole message and changes nothing after it.  The message is
    below the size the length counter and the length field can hold. *)
Theorem digest_correct size_bits alg S ctx pieces out :
  (alg, S) ∈ digests -> size_bits = 32 \/ size_bits = 64 ->
  length (ctx_ddd ctx) = ddd_size alg -> Forall is_byte (ctx_ddd ctx) ->
  Forall (Forall is_byte) pieces -> zlen (concat pieces) < digest_limit size_bits ->
  (digestsize alg <= length out)%nat ->
  exists ctx', digest_run size_bits alg ctx pieces out =
    Ok (ctx', Standard.hash S (concat pieces) ++ drop (digestsize alg) out).
Proof.
  intros Hin Hs Hl Hb Hp Hlim Hout. destruct (digests_implement alg S Hin) as (f & iv & -> & Himp & Hsz).
  pose proof (family_is_digest size_bits f iv S Hs Himp Hsz) as D.
  destruct (digest_run_ok size_bits _ _ ctx pieces out Hl Hb Hp Hlim Hout) as (ctx' & E & _). by exists ctx'.
Qed.

(** The ASCII of "abc" in two pieces, by SHA-256. *)
Lemma digest_correct_witness :
  (exists ctx', digest_run 32 sha256_algorithm (DigestContext 7 0 (replicate 96 165)) [[97]; [98; 99]] (replicate 33 0) =
    Ok (ctx', Standard.hash Standard.SHA256 [97; 98; 99] ++ [0])) /\
  Standard.hash Standard.SHA256 [97; 98; 99] =
    be_bytes 32 0xba7816bf8f01cfea414140de5dae2223b00361a396177a9cb410ff61f20015ad.
Proof.
  split; [| vm_compute; reflexivity].
  apply (digest_correct 32 sha256_algorithm Standard.SHA256 (DigestContext 7 0 (replicate 96 165)) [[97]; [98; 99]] (replicate 33 0)).
  - do 4 right. left.
  - by left.
  - reflexivity.
  - apply Forall_replicate. split; [lia | reflexivity].
  - repeat (apply Forall_cons_2 || apply Forall_nil_2); split; lia || reflexivity.
  - reflexivity.
  - apply Nat.leb_le. reflexivity.
Defined.

(** ** Contexts of any history *)

Definition context_wf (size_bits : Z) (alg : digest_algorithm) (ctx : digest_context) : Prop :=
  in_range size_bits (ctx_len ctx) /\ ctx_digestsize ctx = digestsize alg /\
  length (ctx_ddd ctx) = ddd_size alg /\ Forall is_byte (ctx_ddd ctx).

Section Context.
Context (size_bits : Z) (f : family) (iv : list Z) (ds : nat).
Hypothesis Hsize : size_bits = 32 \/ size_bits = 64.
Hypothesis Hword : word_size f = 4%nat \/ word_size f = 8%nat /\ big_endian f = true.
Hypothesis Hrounds : forall u, length u = (digest_words f + 16)%nat -> length (rounds f u) = digest_words f.

Abbreviation wf := (context_wf size_bits (family_algorithm f iv ds)).

Lemma digest_wf ctx : wf ctx -> exists ctx', family_digest f ctx = Ok ctx' /\ wf ctx' /\ ctx_len ctx' = ctx_len ctx.
Proof using Hword Hrounds.
  intros (Hlen & Hd & Hl & Hb). cbn [family_algorithm ddd_size digestsize] in *. unfold family_digest.
  rewrite (proj2 (Nat.eqb_eq _ _)) by (rewrite Hl; unfold digest_size, block_size; lia).
  eexists. split; [reflexivity |]. split; [| done]. unfold context_wf. cbn [ctx_len ctx_digestsize ctx_ddd family_algorithm ddd_size digestsize].
  split_and!; [done | done | |].
  - rewrite length_app, length_drop, length_memory, (length_concat_same _ (word_size f)), length_fmap, length_fmap, length_groups.
    + rewrite length_zip_with, length_take, length_fmap, length_groups, Hrounds by (rewrite length_fmap, length_groups; done).
      unfold digest_size, block_size. lia.
    + apply Forall_fmap, Forall_forall. intros x _. apply length_le_bytes.
  - apply Forall_app. split; [| apply Forall_drop]; apply Forall_concat, Forall_fmap, Forall_forall; intros x _;
      [apply encode_word_bytes | apply le_bytes_bytes].
Qed.

Lemma update_wf ctx data :
  wf ctx -> Forall is_byte data ->
  exists ctx', family_update size_bits f ctx data = Ok ctx' /\ wf ctx' /\ ctx_len ctx' = wrap size_bits (ctx_len ctx + zlen data).
Proof using Hsize Hword Hrounds.
  intros Hwf Hd. revert ctx Hwf. induction Hd as [| b data Hb Hd IH]; intros ctx Hwf.
  { exists ctx. split; [done |]. split; [done |]. rewrite Z.add_0_r. symmetry. apply wrap_small, Hwf. }
  destruct Hwf as (Hlen & Hds' & Hl & Hbs). cbn [family_algorithm ddd_size digestsize] in *.
  pose proof (block_size_cases f Hword) as HB.
  pose proof (Z.mod_pos_bound (ctx_len ctx) (Z.of_nat (block_size f)) ltac:(lia)) as Hoff.
  cbn [family_update]. unfold family_update_byte, wr. rewrite (proj2 (Z.leb_le _ _)), (proj2 (Z.ltb_lt _ _)) by lia.
  cbn [andb]. rewrite bind_ok. cbn [ctx_len].
  set (c1 := DigestContext _ (ctx_digestsize ctx) _).
  assert (H1 : wf c1).
  { unfold context_wf, c1. cbn [ctx_len ctx_digestsize ctx_ddd family_algorithm ddd_size digestsize]. split_and!.
    - apply wrap_range. lia.
    - done.
    - by rewrite length_insert.
    - by apply Forall_insert. }
  assert (E2 : exists c2, (if ctx_len c1 mod Z.of_nat (block_size f) =? 0 then family_digest f c1 else Ok c1) = Ok c2 /\
    wf c2 /\ ctx_len c2 = ctx_len c1).
  { destruct (_ =? 0); [by apply digest_wf | by exists c1]. }
  destruct E2 as (c2 & E2 & H2 & L2). change (ctx_len c1) with (wrap size_bits (ctx_len ctx + 1)) in E2, L2. step E2.
  destruct (IH c2 H2) as (c3 & E3 & H3 & L3). exists c3. split; [done |]. split; [done |].
  rewrite L3, L2, wrap_add_idemp_l. cbn [length]. f_equal. lia.
Qed.

(** The padding loop ends: some number of zeros below a block reaches 14 words. *)
Lemma pad_loop_wf k fuel ctx pad :
  wf ctx -> is_byte pad -> (k < fuel)%nat ->
  (ctx_len ctx + 1 + Z.of_nat k) mod Z.of_nat (block_size f) = Z.of_nat (14 * word_size f) ->
  exists ctx', pad_loop size_bits f fuel ctx pad = Ok ctx' /\ wf ctx'.
Proof using Hsize Hword Hrounds.
  assert (Hmod : forall n, wrap size_bits n mod Z.of_nat (block_size f) = n mod Z.of_nat (block_size f)).
  { intros n. unfold wrap. destruct (block_size_cases f Hword) as [-> | ->], Hsize as [-> | ->].
    1, 2: change (Z.of_nat 64) with (2 ^ 6); apply mod_pow2_le; lia.
    all: change (Z.of_nat 128) with (2 ^ 7); apply mod_pow2_le; lia. }
  revert fuel ctx pad. induction k as [| k IH]; intros fuel ctx pad Hwf Hp Hf Hk;
    (destruct fuel as [| fuel]; [lia |]);
    destruct (update_wf ctx [pad] Hwf (Forall_cons_2 _ _ _ Hp (Forall_nil_2 _))) as (c1 & E1 & H1 & L1);
    cbn [pad_loop]; step E1; rewrite L1, Hmod; change (zlen [pad]) with 1.
  - rewrite Z.add_0_r in Hk. rewrite Hk, Z.eqb_refl. by exists c1.
  - destruct (_ =? _); [by exists c1 |]. apply IH; [done | unfold in_range; lia | lia |].
    rewrite L1, <- Hk. change (zlen [pad]) with 1. rewrite <- Z.add_assoc, <- (Zplus_mod_idemp_l (wrap _ _)), Hmod, Zplus_mod_idemp_l.
    f_equal. lia.
Qed.

Hypothesis Hds : (ds <= digest_size f)%nat.

Lemma final_wf ctx out :
  wf ctx -> (ds <= length out)%nat ->
  exists ctx' out', family_final size_bits f ctx out = Ok (ctx', out') /\ wf ctx' /\ length out' = length out.
Proof using Hsize Hword Hrounds Hds.
  intros Hwf Hout. unfold family_final.
  destruct (pad_zeros_spec f Hword (Z.to_nat (ctx_len ctx))) as (Hz1 & Hz2 & _).
  destruct (pad_loop_wf _ (block_size f) ctx 128 Hwf ltac:(unfold in_range; lia) Hz1) as (c1 & E1 & H1).
  { rewrite <- Hz2, Nat2Z.inj_mod. f_equal. destruct Hwf as [[Hl _] _]. lia. }
  step E1. destruct (update_wf c1 (replicate (2 * word_size f - 8) 0) H1) as (c2 & E2 & H2 & _).
  { apply Forall_replicate. unfold in_range; lia. }
  step E2. destruct (update_wf c2 _ H2 (encode_word_bytes (big_endian f) 8 (wrap 64 (ctx_len ctx * 8)))) as (c3 & E3 & H3 & _).
  step E3. pose proof H3 as (_ & Hd & Hl & _). cbn [family_algorithm ddd_size digestsize] in Hd, Hl. rewrite Hd.
  rewrite rd_range_slice by lia. rewrite bind_ok.
  assert (Hs : length (slice (ctx_ddd c3) 0 (Z.of_nat ds)) = ds) by (unfold slice; rewrite length_take, length_drop; lia).
  rewrite wr_range_splice by lia. rewrite bind_ok. do 2 eexists. split; [reflexivity |]. split; [done |].
  unfold splice. rewrite !length_app, length_take, length_drop. lia.
Qed.
End Context.

(** C31. The digest contexts keep their shape whatever is done with them, from any
    history: initialising a context of the algorithm's size, updating with any
    bytes and finishing always succeed, within the context and the first
    [digestsize] bytes of the output, and leave a context of the same shape (the
    counter in the range of its type, the digest size, the size of the digest
    and block, bytes in every cell); in particular the padding loop ends. *)
Theorem digest_context_type size_bits alg S ctx :
  (alg, S) ∈ digests -> size_bits = 32 \/ size_bits = 64 ->
  length (ctx_ddd ctx) = ddd_size alg -> Forall is_byte (ctx_ddd ctx) ->
  (exists ctx', digest_init alg ctx = Ok ctx' /\ context_wf size_bits alg ctx') /\
  (context_wf size_bits alg ctx ->
    (forall data, Forall is_byte data ->
      exists ctx', digest_update alg size_bits ctx data = Ok ctx' /\ context_wf size_bits alg ctx') /\
    (forall out, (digestsize alg <= length out)%nat ->
      exists ctx' out', digest_final alg size_bits ctx out = Ok (ctx', out') /\ context_wf size_bits alg ctx' /\
        length out' = length out)).
Proof.
  intros Hin Hs Hl Hb. destruct (digests_implement alg S Hin) as (f & iv & -> & Himp & _).
  pose proof (imp_sizes _ _ _ Himp) as Hw. pose proof (imp_length _ _ _ Himp) as Hr.
  pose proof (imp_chain _ _ _ Himp) as Hiv. pose proof (imp_size _ _ _ Himp) as Hds. split; [| intros Hwf; split].
  - destruct (family_init_ok size_bits f Hs Hw iv (Standard.std_size S) ctx Hiv Hl Hb) as (ctx' & E & Ha).
    exists ctx'. split; [exact E |]. pose proof (accumulated_wf _ _ Hw Hr _ _ _ _ Hiv Ha) as [Ha1 Ha2].
    destruct Ha as (? & -> & _). split_and!; [apply wrap_range; lia | done | done | done].
  - intros data Hd. destruct (update_wf size_bits f iv (Standard.std_size S) Hs Hw Hr ctx data Hwf Hd) as (c & E & Hc & _).
    by exists c.
  - intros out Hout. by apply final_wf.
Qed.

Lemma digest_context_type_witness :
  exists ctx' out', digest_final md5_algorithm 32 (DigestContext 0xffffffff 16 (replicate 80 1)) (replicate 16 0) = Ok (ctx', out') /\
    context_wf 32 md5_algorithm ctx' /\ length out' = 16%nat.
Proof.
  assert (Hb : Forall is_byte (replicate 80 1)) by (apply Forall_replicate; split; [lia | reflexivity]).
  refine (proj2 (proj2 (digest_context_type 32 md5_algorithm Standard.MD5 (DigestContext 0xffffffff 16 (replicate 80 1))
    _ _ _ Hb) _) (replicate 16 0) _).
  - do 1 right. left.
  - by left.
  - reflexivity.
  - split_and!; [split; [vm_compute; discriminate | reflexivity] | reflexivity | reflexivity | exact Hb].
  - apply Nat.leb_le. reflexivity.
Defined.
