(* ===== verification/Hmac.v ===== *)
(** * HMAC ([crypto/hmac.c], [include/ipxe/hmac.h])

    The key and the output are ranges of one memory, so that calls in which they
    overlap (as in [hmac_drbg.c]) are covered.  [local] stands for the
    uninitialised digest context on the stack.  The theorems are proved against
    the [IsDigest] interface and instantiated with the digests of the tree. *)

From Stdlib Require Import ZArith Lia Bool ZifyBool.
From stdpp Require Import base numbers list.
From S2P Require Import Prelude Bits Digest DigestCorrect DigestStandard.

Local Open Scope Z_scope.

(** ** The code *)

Section Hmac.
Context (size_bits : Z) (digest : digest_algorithm) (local : digest_context).

(** [digest_final] with the output at [off]. *)
Definition digest_final_at (ctx : digest_context) (mem : bytes) (off : Z) : res (digest_context * bytes) :=
  if (0 <=? off) && (off <=? zlen mem) then
    '(ctx, out) ← digest_final digest size_bits ctx (drop (Z.to_nat off) mem);
    Ok (ctx, take (Z.to_nat off) mem ++ out)
  else Trap.

Definition hmac_reduce_key (mem : bytes) (key key_len : Z) : res (bytes * Z) :=
  ctx ← digest_init digest local;
  data ← rd_range mem key key_len;
  ctx ← digest_update digest size_bits ctx data;
  '(_, mem) ← digest_final_at ctx mem key;
  Ok (mem, Z.of_nat (digestsize digest)).

(** The reduced key and the pad: the key in a block of zeros, with every byte
    combined with [byte]. *)
Definition hmac_pad (mem : bytes) (key key_len byte : Z) : res (bytes * Z * bytes) :=
  '(mem, key_len) ← (if Z.of_nat (blocksize digest) <? key_len then hmac_reduce_key mem key key_len else Ok (mem, key_len) : res (bytes * Z));
  data ← rd_range mem key key_len;
  pad ← wr_range (replicate (blocksize digest) 0) 0 data;
  Ok (mem, key_len, (fun b => Z.lxor b byte) <$> (pad : list Z)).

Definition hmac_init (ctx : digest_context) (mem : bytes) (key key_len : Z) : res (digest_context * bytes * Z) :=
  '(mem, key_len, k_ipad) ← hmac_pad mem key key_len 0x36;
  ctx ← digest_init digest ctx;
  ctx ← digest_update digest size_bits ctx k_ipad;
  Ok (ctx, mem, key_len).

Definition hmac_update (ctx : digest_context) (data : bytes) : res digest_context :=
  digest_update digest size_bits ctx data.

Definition hmac_final (ctx : digest_context) (mem : bytes) (key key_len hmac : Z) : res (digest_context * bytes * Z) :=
  '(mem, key_len, k_opad) ← hmac_pad mem key key_len 0x5c;
  '(ctx, mem) ← digest_final_at ctx mem hmac;
  ctx ← digest_init digest ctx;
  ctx ← digest_update digest size_bits ctx k_opad;
  data ← rd_range mem hmac (Z.of_nat (digestsize digest));
  ctx ← digest_update digest size_bits ctx data;
  '(ctx, mem) ← digest_final_at ctx mem hmac;
  Ok (ctx, mem, key_len).

(** A whole computation, of a message in pieces. *)
Fixpoint hmac_update_pieces (ctx : digest_context) (pieces : list bytes) : res digest_context :=
  match pieces with
  | [] => Ok ctx
  | data :: pieces => ctx ← hmac_update ctx data; hmac_update_pieces ctx pieces
  end.

Definition hmac_run (ctx : digest_context) (mem : bytes) (key key_len : Z) (pieces : list bytes) (hmac : Z) : res (digest_context * bytes * Z) :=
  '(ctx, mem, key_len) ← hmac_init ctx mem key key_len;
  ctx ← hmac_update_pieces ctx pieces;
  hmac_final ctx mem key key_len hmac.
End Hmac.

(** ** RFC 2104 *)

Module Rfc2104.
Section Rfc2104.
Context (H : bytes -> bytes) (B : nat).

Definition short_key (K : bytes) : bytes := if (B <? length K)%nat then H K else K.

Definition block_key (K : bytes) : bytes := let K := short_key K in K ++ replicate (B - length K) 0.

Definition ipad : bytes := replicate B 0x36.
Definition opad : bytes := replicate B 0x5c.

Definition HMAC (K text : bytes) : bytes :=
  H (xor (block_key K) opad ++ H (xor (block_key K) ipad ++ text)).
End Rfc2104.
End Rfc2104.

(** ** Correctness *)

Section Correct.
Context (size_bits : Z) (alg : digest_algorithm) (local : digest_context) (H : bytes -> bytes).
Context {D : IsDigest size_bits alg H}.

Abbreviation ds := (digestsize alg).
Abbreviation bs := (blocksize alg).
Abbreviation holds := (digest_holds (IsDigest := D)).

(** A context that can be initialised. *)
Definition usable (ctx : digest_context) : Prop :=
  length (ctx_ddd ctx) = ddd_size alg /\ Forall is_byte (ctx_ddd ctx).

(** The range of a buffer. *)
Definition inside (mem : bytes) (off len : Z) : Prop := 0 <= off /\ 0 <= len /\ off + len <= zlen mem.

Lemma final_at_ok m ctx mem off :
  holds m ctx -> Forall is_byte m -> zlen m < digest_limit size_bits -> inside mem off (Z.of_nat ds) ->
  exists ctx', digest_final_at size_bits alg ctx mem off = Ok (ctx', splice mem off (H m)) /\ usable ctx'.
Proof using Type.
  intros Hm Hb Hlim (Ho & _ & Hl). unfold digest_final_at. rewrite !(proj2 (Z.leb_le _ _)) by lia. cbn [andb].
  destruct (digest_final_ok (IsDigest := D) m ctx (drop (Z.to_nat off) mem) Hm Hb Hlim) as (ctx' & E & Hu).
  { rewrite length_drop. lia. }
  step E. exists ctx'. split; [| exact Hu]. do 2 f_equal. unfold splice. rewrite drop_drop.
  by rewrite (proj1 (digest_hash_bytes (IsDigest := D) m Hb)).
Qed.

(** What [hmac_pad] leaves of the key. *)
Definition reduced (mem : bytes) (key key_len : Z) : bytes * Z :=
  if Z.of_nat bs <? key_len then (splice mem key (H (slice mem key key_len)), Z.of_nat ds) else (mem, key_len).

Lemma short_key_bytes K : Forall is_byte K -> Forall is_byte (Rfc2104.short_key H bs K).
Proof using D. intros HK. unfold Rfc2104.short_key. destruct (_ <? _)%nat; [by apply (digest_hash_bytes (IsDigest := D)) | done]. Qed.

Lemma length_short_key K : Forall is_byte K -> (length (Rfc2104.short_key H bs K) <= bs)%nat.
Proof using D.
  intros HK. unfold Rfc2104.short_key. pose proof (digest_sizes (IsDigest := D)).
  destruct (Nat.ltb_spec bs (length K)); [rewrite (proj1 (digest_hash_bytes (IsDigest := D) K HK)) |]; lia.
Qed.

Lemma reduced_key mem key key_len :
  Forall is_byte mem -> inside mem key key_len ->
  let '(mem', key_len') := reduced mem key key_len in
  slice mem' key key_len' = Rfc2104.short_key H bs (slice mem key key_len) /\ inside mem' key key_len' /\
  Forall is_byte mem' /\ length mem' = length mem /\ key_len' <= Z.of_nat bs.
Proof using D.
  intros Hm (Hk & Hkl & Hin). unfold reduced, Rfc2104.short_key. pose proof (slice_bytes mem key key_len Hm) as Hs.
  pose proof (digest_hash_bytes (IsDigest := D) _ Hs) as [Hh1 Hh2]. pose proof (digest_sizes (IsDigest := D)).
  pose proof (length_slice mem key key_len Hk Hkl Hin) as HL.
  destruct (Z.ltb_spec (Z.of_nat bs) key_len), (Nat.ltb_spec bs (length (slice mem key key_len))); try lia; cbn.
  - rewrite slice_splice_same by lia. unfold inside. rewrite length_splice by lia.
    split_and!; try lia; [done | by apply splice_bytes].
  - split_and!; try done; lia.
Qed.

Lemma hmac_reduce_key_ok mem key key_len :
  usable local -> Forall is_byte mem -> inside mem key key_len -> Z.of_nat ds <= key_len < digest_limit size_bits ->
  hmac_reduce_key size_bits alg local mem key key_len = Ok (splice mem key (H (slice mem key key_len)), Z.of_nat ds).
Proof using D.
  intros [Hu1 Hu2] Hm (Hk & Hkl & Hin) Hlen. unfold hmac_reduce_key. pose proof (slice_bytes mem key key_len Hm) as Hs.
  destruct (digest_init_ok (IsDigest := D) local Hu1 Hu2) as (c1 & E1 & H1). step E1.
  rewrite rd_range_slice, bind_ok by lia.
  destruct (digest_update_ok (IsDigest := D) [] c1 _ H1 Hs) as (c2 & E2 & H2). step E2.
  destruct (final_at_ok _ c2 mem key H2 Hs) as (c3 & E3 & H3); [cbn [app]; rewrite length_slice by lia; lia | unfold inside; lia |].
  step E3. done.
Qed.

Lemma hmac_pad_ok mem key key_len byte :
  usable local -> Forall is_byte mem -> inside mem key key_len -> key_len < digest_limit size_bits ->
  hmac_pad size_bits alg local mem key key_len byte =
    Ok (reduced mem key key_len, xor (Rfc2104.block_key H bs (slice mem key key_len)) (replicate bs byte)).
Proof using D.
  intros Hu Hm Hin Hlen. pose proof (reduced_key mem key key_len Hm Hin) as Hr. unfold hmac_pad.
  assert (E : (if Z.of_nat bs <? key_len then hmac_reduce_key size_bits alg local mem key key_len else Ok (mem, key_len)) =
    Ok (reduced mem key key_len)).
  { unfold reduced. destruct (Z.ltb_spec (Z.of_nat bs) key_len); [| done]. pose proof (digest_sizes (IsDigest := D)).
    apply hmac_reduce_key_ok; [done | done | done | lia]. }
  step E. destruct (reduced mem key key_len) as [mem' key_len']. destruct Hr as (Es & (Hk & Hkl & Hin') & Hm' & Hl & Hle).
  rewrite rd_range_slice, bind_ok by lia. rewrite Es. set (K := Rfc2104.short_key _ _ _) in *.
  assert (HlK : (length K <= bs)%nat) by (apply length_short_key, slice_bytes, Hm).
  rewrite wr_range_splice, bind_ok by (rewrite ?length_replicate; lia).
  do 2 f_equal. unfold splice. change (Z.to_nat 0) with 0%nat. rewrite take_0, drop_replicate. cbn [app Nat.add].
  unfold Rfc2104.block_key. fold K. unfold xor.
  rewrite zip_with_replicate_r_eq; [done |]. rewrite length_app, length_replicate. lia.
Qed.

Lemma xor_pad_bytes K byte : Forall is_byte K -> is_byte byte -> Forall is_byte (xor (Rfc2104.block_key H bs K) (replicate bs byte)).
Proof using D.
  intros HK Hb. assert (HB : Forall is_byte (Rfc2104.block_key H bs K)).
  { unfold Rfc2104.block_key. apply Forall_app. split; [by apply short_key_bytes |]. apply Forall_replicate. split; [lia | reflexivity]. }
  apply xor_bytes; [done | by apply Forall_replicate].
Qed.

Lemma length_xor_pad K byte : Forall is_byte K -> length (xor (Rfc2104.block_key H bs K) (replicate bs byte)) = bs.
Proof using D.
  intros HK. unfold xor, Rfc2104.block_key. rewrite length_zip_with, length_app, !length_replicate.
  pose proof (length_short_key K HK). lia.
Qed.

Lemma hmac_init_ok ctx mem key key_len :
  usable local -> usable ctx -> Forall is_byte mem -> inside mem key key_len -> key_len < digest_limit size_bits ->
  exists ctx', hmac_init size_bits alg local ctx mem key key_len = Ok (ctx', (reduced mem key key_len).1, (reduced mem key key_len).2) /\
    holds (xor (Rfc2104.block_key H bs (slice mem key key_len)) (Rfc2104.ipad bs)) ctx'.
Proof using Type.
  intros Hu [Hc1 Hc2] Hm Hin Hlen. unfold hmac_init. rewrite hmac_pad_ok by done. rewrite bind_ok.
  destruct (reduced mem key key_len) as [mem' key_len']. cbn beta iota.
  destruct (digest_init_ok (IsDigest := D) ctx Hc1 Hc2) as (c1 & E1 & H1). step E1.
  destruct (digest_update_ok (IsDigest := D) [] c1 (xor (Rfc2104.block_key H bs (slice mem key key_len)) (replicate bs 54)) H1)
    as (c2 & E2 & H2); [apply xor_pad_bytes; [by apply slice_bytes | split; [lia | reflexivity]] |].
  step E2. exists c2. split; [done | exact H2].
Qed.

Lemma hmac_final_ok ctx mem key key_len hmac text :
  usable local -> Forall is_byte mem -> inside mem key key_len -> key_len < digest_limit size_bits ->
  inside mem hmac (Z.of_nat ds) -> holds text ctx -> Forall is_byte text -> zlen text < digest_limit size_bits ->
  let '(mem', key_len') := reduced mem key key_len in
  exists ctx', hmac_final size_bits alg local ctx mem key key_len hmac =
    Ok (ctx', splice mem' hmac (H (xor (Rfc2104.block_key H bs (slice mem key key_len)) (Rfc2104.opad bs) ++ H text)), key_len') /\
    usable ctx'.
Proof using Type.
  intros Hu Hm Hin Hlen Hh Ht Htb Htl. pose proof (reduced_key mem key key_len Hm Hin) as Hr. unfold hmac_final.
  rewrite hmac_pad_ok by done. rewrite bind_ok. destruct (reduced mem key key_len) as [mem' key_len'].
  destruct Hr as (_ & _ & Hm' & Hl & _). cbn beta iota.
  pose proof (digest_hash_bytes (IsDigest := D) text Htb) as [Hd1 Hd2].
  destruct Hh as (Hh1 & _ & Hh3). pose proof (digest_sizes (IsDigest := D)) as Hsz.
  destruct (final_at_ok text ctx mem' hmac Ht Htb Htl) as (c1 & E1 & [H1 H1']); [unfold inside; lia |]. step E1.
  destruct (digest_init_ok (IsDigest := D) c1 H1 H1') as (c2 & E2 & H2). step E2.
  set (k := xor _ (replicate bs 92)).
  assert (Hk : Forall is_byte k) by (apply xor_pad_bytes; [by apply slice_bytes | split; [lia | reflexivity]]).
  assert (Hkl : length k = bs) by (by apply length_xor_pad, slice_bytes).
  destruct (digest_update_ok (IsDigest := D) [] c2 k H2 Hk) as (c3 & E3 & H3). step E3.
  rewrite rd_range_slice, bind_ok by (rewrite ?length_splice; lia). rewrite slice_splice_same by lia.
  destruct (digest_update_ok (IsDigest := D) _ c3 (H text) H3 Hd2) as (c4 & E4 & H4). step E4.
  pose proof (digest_limit_min (IsDigest := D)) as Hmin.
  destruct (final_at_ok (k ++ H text) c4 (splice mem' hmac (H text)) hmac H4) as (c5 & E5 & H5).
  { by apply Forall_app. }
  { rewrite length_app, Hkl, Hd1. lia. }
  { unfold inside. rewrite length_splice by lia. lia. }
  step E5. exists c5. split; [| exact H5]. do 3 f_equal. apply splice_overwrite; [lia | lia |].
  rewrite Hd1. exact (proj1 (digest_hash_bytes (IsDigest := D) (k ++ H text) ltac:(by apply Forall_app))).
Qed.

Lemma hmac_update_pieces_ok m ctx pieces :
  holds m ctx -> Forall (Forall is_byte) pieces ->
  exists ctx', hmac_update_pieces size_bits alg ctx pieces = Ok ctx' /\ holds (m ++ concat pieces) ctx'.
Proof using Type.
  assert (E : hmac_update_pieces size_bits alg ctx pieces = update_pieces size_bits alg ctx pieces).
  { revert ctx. induction pieces as [| data pieces IH]; intros ctx; [done |]. cbn [hmac_update_pieces update_pieces].
    unfold hmac_update. destruct (digest_update _ _ _ _) as [c | |]; [rewrite !bind_ok; apply IH | done | done]. }
  rewrite E. apply update_pieces_ok.
Qed.

Lemma short_key_idem K : Forall is_byte K -> Rfc2104.short_key H bs (Rfc2104.short_key H bs K) = Rfc2104.short_key H bs K.
Proof using D.
  intros HK. unfold Rfc2104.short_key at 1. rewrite (proj2 (Nat.ltb_ge _ _)); [done | by apply length_short_key].
Qed.

(** A whole computation: the reduced key stays in place of a long one. *)
Lemma hmac_run_ok ctx mem key key_len pieces hmac :
  usable local -> usable ctx -> Forall is_byte mem -> inside mem key key_len -> inside mem hmac (Z.of_nat ds) ->
  key_len < digest_limit size_bits -> Forall (Forall is_byte) pieces ->
  Z.of_nat bs + zlen (concat pieces) < digest_limit size_bits ->
  exists ctx', hmac_run size_bits alg local ctx mem key key_len pieces hmac =
    Ok (ctx', splice (reduced mem key key_len).1 hmac (Rfc2104.HMAC H bs (slice mem key key_len) (concat pieces)),
        (reduced mem key key_len).2) /\ usable ctx'.
Proof using D.
  intros Hu Hc Hm Hin Hh Hlen Hp Hlim. unfold hmac_run.
  destruct (hmac_init_ok ctx mem key key_len Hu Hc Hm Hin Hlen) as (c1 & E1 & H1). step E1.
  destruct (hmac_update_pieces_ok _ c1 pieces H1 Hp) as (c2 & E2 & H2). step E2.
  pose proof (reduced_key mem key key_len Hm Hin) as Hr. destruct (reduced mem key key_len) as [mem' key_len'] eqn:Er.
  destruct Hr as (Es & Hin' & Hm' & Hl & Hle). cbn [fst snd]. pose proof (slice_bytes mem key key_len Hm) as HK.
  pose proof (digest_limit_min (IsDigest := D)) as Hmin. pose proof (digest_sizes (IsDigest := D)) as Hsz.
  pose proof (hmac_final_ok c2 mem' key key_len' hmac _ Hu Hm' Hin' ltac:(lia) ltac:(unfold inside in *; lia) H2) as Hf.
  unfold reduced in Hf. rewrite (proj2 (Z.ltb_ge _ _)) in Hf by lia.
  destruct Hf as (c3 & E3 & H3).
  - apply Forall_app. split; [| by apply Forall_concat]. apply xor_pad_bytes; [done | split; [lia | reflexivity]].
  - rewrite length_app. unfold Rfc2104.ipad. rewrite length_xor_pad by done. lia.
  - exists c3. split; [| done]. rewrite E3. unfold Rfc2104.HMAC, Rfc2104.block_key. by rewrite Es, short_key_idem.
Qed.

Lemma hmac_bytes K text :
  Forall is_byte K -> Forall is_byte text ->
  length (Rfc2104.HMAC H bs K text) = ds /\ Forall is_byte (Rfc2104.HMAC H bs K text).
Proof using D.
  intros HK Ht. assert (Hx : forall n, is_byte n -> Forall is_byte (xor (Rfc2104.block_key H bs K) (replicate bs n))).
  { intros n Hn. by apply xor_pad_bytes. }
  apply (digest_hash_bytes (IsDigest := D)). apply Forall_app. split; [apply Hx; split; [lia | reflexivity] |].
  apply (digest_hash_bytes (IsDigest := D)). apply Forall_app. split; [apply Hx; split; [lia | reflexivity] | done].
Qed.

(** A key kept in [cap] bytes at [key], perhaps in its reduced form. *)
Definition keyed (K : bytes) (mem : bytes) (key cap key_len : Z) : Prop :=
  Forall is_byte mem /\ 0 <= key /\ 0 <= key_len <= cap /\ key + cap <= zlen mem /\ key_len < digest_limit size_bits /\
  Rfc2104.short_key H bs (slice mem key key_len) = Rfc2104.short_key H bs K.

Lemma keyed_start mem key key_len :
  Forall is_byte mem -> inside mem key key_len -> key_len < digest_limit size_bits ->
  keyed (slice mem key key_len) mem key key_len key_len.
Proof using Type. intros Hm (Hk & Hl & Hin) Hlim. unfold keyed. split_and!; (done || lia). Qed.

(** With the output apart from the key, the key can be used again. *)
Lemma hmac_keyed_ok K ctx mem key cap key_len pieces hmac :
  usable local -> usable ctx -> keyed K mem key cap key_len -> inside mem hmac (Z.of_nat ds) ->
  key + cap <= hmac \/ hmac + Z.of_nat ds <= key -> Forall (Forall is_byte) pieces ->
  Z.of_nat bs + zlen (concat pieces) < digest_limit size_bits ->
  exists ctx' mem' key_len', hmac_run size_bits alg local ctx mem key key_len pieces hmac = Ok (ctx', mem', key_len') /\
    usable ctx' /\ keyed K mem' key cap key_len' /\ length mem' = length mem /\
    slice mem' hmac (Z.of_nat ds) = Rfc2104.HMAC H bs K (concat pieces) /\
    forall o n, 0 <= o -> 0 <= n -> o + n <= key \/ key + cap <= o -> o + n <= hmac \/ hmac + Z.of_nat ds <= o ->
      slice mem' o n = slice mem o n.
Proof using D.
  intros Hu Hc (Hm & Hk & Hcap & Hin & Hlim & Es) Hh Hdis Hp Hpl.
  assert (Hink : inside mem key key_len) by (unfold inside; lia).
  destruct (hmac_run_ok ctx mem key key_len pieces hmac Hu Hc Hm Hink Hh Hlim Hp Hpl) as (c & E & Hc').
  pose proof (reduced_key mem key key_len Hm Hink) as Hr. rewrite E. clear E.
  destruct (reduced mem key key_len) as [mem' key_len'] eqn:Er. destruct Hr as (Es' & (_ & Hkl' & _) & Hm' & Hl & _). cbn [fst snd].
  set (h := Rfc2104.HMAC H bs (slice mem key key_len) (concat pieces)).
  assert (Eh : h = Rfc2104.HMAC H bs K (concat pieces)) by (unfold h, Rfc2104.HMAC, Rfc2104.block_key; by rewrite Es).
  assert (Hhb : length h = ds /\ Forall is_byte h) by (apply hmac_bytes; [by apply slice_bytes | by apply Forall_concat]).
  destruct Hhb as [Hhl Hhb]. destruct Hh as (Hh1 & _ & Hh3).
  pose proof (digest_sizes (IsDigest := D)). pose proof (digest_limit_min (IsDigest := D)).
  assert (Hkl2 : key_len' <= key_len).
  { unfold reduced in Er. destruct (Z.ltb_spec (Z.of_nat bs) key_len); injection Er as _ <-; lia. }
  exists c, (splice mem' hmac h), key_len'. split; [done |]. split; [done |]. split_and!.
  - split_and!; [by apply splice_bytes | done | lia | lia | rewrite length_splice; lia | lia |].
    rewrite slice_splice_ne by lia. rewrite Es', short_key_idem by (by apply slice_bytes). done.
  - rewrite length_splice; lia.
  - rewrite slice_splice_same by lia. done.
  - intros o n Ho Hn Hd1 Hd2. rewrite slice_splice_ne by lia. unfold reduced in Er.
    destruct (Z.ltb_spec (Z.of_nat bs) key_len); injection Er as <- _; [| done].
    pose proof (proj1 (digest_hash_bytes (IsDigest := D) (slice mem key key_len) ltac:(by apply slice_bytes))).
    rewrite slice_splice_ne by lia. done.
Qed.
End Correct.

Lemma digests_are_digests size_bits alg S :
  (alg, S) ∈ digests -> size_bits = 32 \/ size_bits = 64 -> inhabited (IsDigest size_bits alg (Standard.hash S)).
Proof.
  intros Hin Hs. destruct (digests_implement alg S Hin) as (f & iv & -> & Himp & Hsz). constructor. by apply family_is_digest.
Qed.

(** C11. HMAC over any digest of the tree is RFC 2104: from any contexts, a key
    and an output anywhere in memory (they may overlap), and a message in any
    pieces, the computation leaves HMAC(key, message) in the output; a key longer
    than the block is replaced by its digest, and the key length with it, and
    nothing else in memory changes. *)
Theorem hmac_correct size_bits alg S local ctx mem key key_len pieces hmac :
  (alg, S) ∈ digests -> size_bits = 32 \/ size_bits = 64 ->
  usable alg local -> usable alg ctx -> Forall is_byte mem ->
  inside mem key key_len -> inside mem hmac (Z.of_nat (digestsize alg)) -> key_len < digest_limit size_bits ->
  Forall (Forall is_byte) pieces -> Z.of_nat (blocksize alg) + zlen (concat pieces) < digest_limit size_bits ->
  let K := slice mem key key_len in
  let long := Z.of_nat (blocksize alg) <? key_len in
  exists ctx', hmac_run size_bits alg local ctx mem key key_len pieces hmac =
    Ok (ctx',
        splice (if long then splice mem key (Standard.hash S K) else mem) hmac
          (Rfc2104.HMAC (Standard.hash S) (blocksize alg) K (concat pieces)),
        if long then Z.of_nat (digestsize alg) else key_len).
Proof.
  intros Hin Hs Hu Hc Hm Hk Hh Hlen Hp Hlim K long. destruct (digests_are_digests size_bits alg S Hin Hs) as [D].
  destruct (hmac_run_ok size_bits alg local (Standard.hash S) ctx mem key key_len pieces hmac Hu Hc Hm Hk Hh Hlen Hp Hlim)
    as (ctx' & E & _).
  exists ctx'. rewrite E. unfold reduced, long. by destruct (_ <? _).
Qed.

(** RFC 2202, test case 2 for HMAC-MD5: key "Jefe", the output over the key. *)
Definition jefe : bytes := [0x4a; 0x65; 0x66; 0x65].
Definition what : bytes := [0x77; 0x68; 0x61; 0x74; 0x20; 0x64; 0x6f; 0x20; 0x79; 0x61; 0x20].
Definition want : bytes := [0x77; 0x61; 0x6e; 0x74; 0x20; 0x66; 0x6f; 0x72; 0x20; 0x6e; 0x6f; 0x74; 0x68; 0x69; 0x6e; 0x67; 0x3f].

Lemma hmac_correct_witness :
  (exists ctx', hmac_run 32 md5_algorithm (DigestContext 0 0 (replicate 80 0)) (DigestContext 0 0 (replicate 80 0))
      (jefe ++ replicate 12 0) 0 4 [what; want] 0 =
    Ok (ctx', splice (jefe ++ replicate 12 0) 0 (Rfc2104.HMAC (Standard.hash Standard.MD5) 64 jefe (what ++ want ++ [])), 4)) /\
  Rfc2104.HMAC (Standard.hash Standard.MD5) 64 jefe (what ++ want ++ []) = be_bytes 16 0x750c783e6ab0b503eaa86e310a5db738.
Proof.
  split; [| vm_compute; reflexivity].
  assert (Hz : forall n, Forall is_byte (replicate n 0)) by (intros n; apply Forall_replicate; split; [lia | reflexivity]).
  assert (Hj : Forall is_byte (jefe ++ replicate 12 0)).
  { apply Forall_app. split; [| apply Hz]. repeat (apply Forall_cons_2 || apply Forall_nil_2); split; lia || reflexivity. }
  refine (hmac_correct 32 md5_algorithm Standard.MD5 _ _ (jefe ++ replicate 12 0) 0 4 [what; want] 0 _ _ _ _ Hj _ _ _ _ _).
  - right. left.
  - by left.
  - split; [reflexivity | apply Hz].
  - split; [reflexivity | apply Hz].
  - split_and!; vm_compute; discriminate.
  - split_and!; vm_compute; discriminate.
  - reflexivity.
  - repeat (apply Forall_cons_2 || apply Forall_nil_2); split; lia || reflexivity.
  - reflexivity.
Defined.
