(* ===== verification/Sha1extra.v ===== *)
(** * Key derivation with HMAC-SHA-1 ([crypto/sha1extra.c])

    The 802.11 pseudorandom function and PBKDF2.  The modifiable copy of the key
    and the output of the HMAC are two arrays on the stack, one after the other in
    the memory of [hmac_run]; [stack] is the initial content of the output. *)

From Stdlib Require Import ZArith Lia Bool ZifyBool.
From stdpp Require Import base numbers list.
From S2P Require Import Prelude Bits Digest DigestCorrect DigestStandard Hmac.

Local Open Scope Z_scope.

Abbreviation SHA1_DIGEST_SIZE := (20).

(** ** The code *)

Section Code.
Context (size_bits : Z) (local sha1_ctx : digest_context) (stack : bytes).

(** The loop of [prf_sha1]: one block per iteration. *)
Fixpoint prf_loop (fuel : nat) (ctx : digest_context) (mem : bytes) (out key_len : Z) (message : bytes) (blk : Z)
    (prf : bytes) (pos prf_len : Z) : res bytes :=
  match fuel with
  | O => Trap
  | S fuel =>
      '(ctx, mem, key_len) ← hmac_run size_bits sha1_algorithm local ctx mem 0 key_len [message ++ [u8 blk]] out;
      if prf_len <=? SHA1_DIGEST_SIZE then
        block ← rd_range mem out prf_len;
        wr_range prf pos block
      else
        block ← rd_range mem out SHA1_DIGEST_SIZE;
        prf ← wr_range prf pos block;
        prf_loop fuel ctx mem out key_len message (u32 (blk + 1)) prf (pos + SHA1_DIGEST_SIZE) (prf_len - SHA1_DIGEST_SIZE)
  end.

Definition prf_sha1 (key label data prf : bytes) (prf_len : Z) : res bytes :=
  prf_loop (S (Z.to_nat (prf_len / SHA1_DIGEST_SIZE))) sha1_ctx (key ++ stack) (zlen key) (zlen key)
    (label ++ [0] ++ data) 0 prf 0 prf_len.

(** The iterations of [pbkdf2_sha1_f], [n] of them left.  The size of the input is
    an [int], which [hmac_update] takes as a [size_t]. *)
Fixpoint pbkdf2_iterate (n : nat) (ctx : digest_context) (mem : bytes) (last pass_len : Z) (next_in : bytes) (next_size : Z)
    (block : bytes) : res bytes :=
  match n with
  | O => Ok block
  | S n =>
      data ← rd_range next_in 0 (wrap size_bits next_size);
      '(ctx, mem, pass_len) ← hmac_run size_bits sha1_algorithm local ctx mem 0 pass_len [data] last;
      next_in ← rd_range mem last SHA1_DIGEST_SIZE;
      pbkdf2_iterate n ctx mem last pass_len next_in SHA1_DIGEST_SIZE (zip_with Z.lxor block next_in)
  end.

Definition pbkdf2_sha1_f (passphrase salt : bytes) (iterations blocknr : Z) : res bytes :=
  let next_in := salt ++ be_bytes 4 blocknr in
  pbkdf2_iterate (Z.to_nat iterations) sha1_ctx (passphrase ++ stack) (zlen passphrase) (zlen passphrase)
    next_in (to_signed 32 (zlen next_in)) (replicate (Z.to_nat SHA1_DIGEST_SIZE) 0).

Fixpoint pbkdf2_blocks (n : nat) (passphrase salt : bytes) (iterations blk : Z) (key : bytes) (pos key_len : Z) : res bytes :=
  match n with
  | O => Ok key
  | S n =>
      buf ← pbkdf2_sha1_f passphrase salt iterations blk;
      if key_len <=? SHA1_DIGEST_SIZE then
        block ← rd_range buf 0 key_len;
        wr_range key pos block
      else
        key ← wr_range key pos buf;
        pbkdf2_blocks n passphrase salt iterations (u32 (blk + 1)) key (pos + SHA1_DIGEST_SIZE) (key_len - SHA1_DIGEST_SIZE)
  end.

Definition pbkdf2_sha1 (passphrase salt : bytes) (iterations : Z) (key : bytes) (key_len : Z) : res bytes :=
  let blocks := u32 (wrap size_bits (key_len + SHA1_DIGEST_SIZE - 1) / SHA1_DIGEST_SIZE) in
  pbkdf2_blocks (Z.to_nat blocks) passphrase salt iterations 1 key 0 key_len.
End Code.

(** ** The specifications *)

Definition HMAC_SHA1 : bytes -> bytes -> bytes := Rfc2104.HMAC (Standard.hash Standard.SHA1) 64.

(** IEEE 802.11-2007, 8.5.1.1: the first [n] bytes of the blocks. *)
Definition PRF (K A B : bytes) (n : nat) : bytes :=
  take n (concat ((fun i => HMAC_SHA1 K (A ++ [0] ++ B ++ [Z.of_nat i mod 256])) <$> seq 0 (S (n / 20)))).

Module Rfc2898.
(** The terms [U_1 .. U_c]. *)
Fixpoint U (P : bytes) (c : nat) (x : bytes) : list bytes :=
  match c with
  | O => []
  | S c => let u := HMAC_SHA1 P x in u :: U P c u
  end.

Definition F (P S : bytes) (c : nat) (i : Z) : bytes :=
  foldl xor (replicate 20 0) (U P c (S ++ be_bytes 4 i)).

Definition PBKDF2 (P S : bytes) (c n : nat) : bytes :=
  take n (concat ((fun i => F P S c (Z.of_nat i)) <$> seq 1 (n / 20 + 1))).
End Rfc2898.

(** ** Correctness *)

Section Correct.
Context (size_bits : Z) (local ctx0 : digest_context) (stack : bytes).
Hypothesis Hsize : size_bits = 32 \/ size_bits = 64.
Hypothesis Hlocal : usable sha1_algorithm local.
Hypothesis Hctx0 : usable sha1_algorithm ctx0.
Hypothesis Hstack : length stack = 20%nat /\ Forall is_byte stack.

Abbreviation H := (Standard.hash Standard.SHA1).
Abbreviation kept K mem off key_len := (keyed size_bits sha1_algorithm H K mem 0 off key_len).

Lemma sha1_is_digest : inhabited (IsDigest size_bits sha1_algorithm H).
Proof using Hsize. apply digests_are_digests; [do 2 right; left | exact Hsize]. Qed.

(** One HMAC with the kept key. *)
Lemma hmac_sha1_ok K ctx mem off key_len message :
  usable sha1_algorithm ctx -> kept K mem off key_len -> zlen mem = off + 20 -> Forall is_byte message ->
  64 + zlen message < digest_limit size_bits ->
  exists ctx' mem' key_len', hmac_run size_bits sha1_algorithm local ctx mem 0 key_len [message] off = Ok (ctx', mem', key_len') /\
    usable sha1_algorithm ctx' /\ kept K mem' off key_len' /\ zlen mem' = off + 20 /\
    slice mem' off 20 = HMAC_SHA1 K message /\ length (HMAC_SHA1 K message) = 20%nat.
Proof using Hsize Hlocal.
  clear Hstack Hctx0. intros Hc Hk Hl Hm Hlim. destruct sha1_is_digest as [D].
  destruct (hmac_keyed_ok size_bits sha1_algorithm local H K ctx mem 0 off key_len [message] off Hlocal Hc Hk)
    as (c & m & l & E & Hc' & Hk' & Hl' & Es & _).
  - destruct Hk as (_ & _ & Hk & _). unfold inside. cbn. lia.
  - left. lia.
  - by apply Forall_cons_2.
  - cbn [concat]. rewrite app_nil_r. exact Hlim.
  - exists c, m, l. cbn [concat] in Es. rewrite app_nil_r in Es. rewrite Hl'.
    change (Z.of_nat (digestsize sha1_algorithm)) with 20 in Es. refine (conj E (conj Hc' (conj Hk' (conj Hl (conj Es _))))).
    destruct Hk as (_ & _ & Hk & _). pose proof (length_slice m off 20 ltac:(lia) ltac:(lia) ltac:(lia)) as Hs.
    change (length (Rfc2104.HMAC H 64 K message) = 20%nat). change (blocksize sha1_algorithm) with 64%nat in Es. rewrite <- Es. lia.
Qed.

Lemma kept_start K : Forall is_byte K -> zlen K < digest_limit size_bits -> kept K (K ++ stack) (zlen K) (zlen K).
Proof using Hstack.
  intros HK Hl. rewrite <- (take_app_length K stack) at 1.
  replace (take (length K) (K ++ stack)) with (slice (K ++ stack) 0 (zlen K)) by (unfold slice; by rewrite Nat2Z.id).
  apply keyed_start; [apply Forall_app; split; [done | apply Hstack] | | done].
  unfold inside. rewrite length_app. lia.
Qed.

(** *** 802.11 *)

Abbreviation prf_blocks K A B start n := (concat ((fun i => HMAC_SHA1 K (A ++ [0] ++ B ++ [Z.of_nat i mod 256])) <$> seq start n)).

Lemma prf_loop_ok K A B fuel ctx mem off key_len i prf pos prf_len :
  usable sha1_algorithm ctx -> kept K mem off key_len -> zlen mem = off + 20 ->
  Forall is_byte A -> Forall is_byte B -> 66 + zlen A + zlen B < digest_limit size_bits ->
  0 <= pos -> 0 <= prf_len -> pos + prf_len <= zlen prf -> (Z.to_nat (prf_len / 20) < fuel)%nat ->
  prf_loop size_bits local fuel ctx mem off key_len (A ++ [0] ++ B) (u32 (Z.of_nat i)) prf pos prf_len =
    Ok (splice prf pos (take (Z.to_nat prf_len) (prf_blocks K A B i (S (Z.to_nat (prf_len / 20)))))).
Proof using Hsize Hlocal.
  clear Hstack Hctx0. intros Hc Hk Hm HA HB Hlim. revert fuel ctx mem key_len i prf pos prf_len Hc Hk Hm.
  refine (fix IH fuel {struct fuel} := _). intros ctx mem key_len i prf pos prf_len Hc Hk Hm Hpos Hn Hfit Hf.
  destruct fuel as [| fuel]; [lia |]. cbn [prf_loop].
  assert (Eb : u8 (u32 (Z.of_nat i)) = Z.of_nat i mod 256).
  { unfold wrap. change 256 with (2 ^ 8). apply mod_pow2_le. lia. }
  rewrite Eb, <- !app_assoc. set (message := A ++ [0] ++ B ++ [Z.of_nat i mod 256]).
  assert (Hmb : Forall is_byte message).
  { unfold message. rewrite !Forall_app. split_and!; [done | | done |]; (apply Forall_cons_2; [| apply Forall_nil_2]).
    - split; [lia | reflexivity].
    - apply (wrap_range 8). lia. }
  assert (Hml : zlen message = 2 + zlen A + zlen B) by (unfold message; rewrite !length_app; cbn [length]; lia).
  destruct (hmac_sha1_ok K ctx mem off key_len message Hc Hk Hm Hmb ltac:(lia)) as (c & m & l & E & Hc' & Hk' & Hm' & Es & Hh).
  step E. pose proof Hk' as (_ & _ & Hoff & _). cbn [seq fmap list_fmap concat]. fold message.
  set (rest := concat _). destruct (Z.leb_spec prf_len 20).
  - rewrite rd_range_slice, bind_ok by lia.
    assert (Ed : slice m off prf_len = take (Z.to_nat prf_len) (HMAC_SHA1 K message ++ rest)).
    { rewrite take_app_le by lia. rewrite <- Es. unfold slice. rewrite take_take. f_equal. lia. }
    rewrite Ed, wr_range_splice; [done | lia |]. rewrite length_take. lia.
  - rewrite rd_range_slice, bind_ok by lia. rewrite Es, wr_range_splice, bind_ok by lia.
    replace (u32 (u32 (Z.of_nat i) + 1)) with (u32 (Z.of_nat (S i))) by (rewrite wrap_add_idemp_l; f_equal; lia).
    assert (Ediv : prf_len / 20 = (prf_len - 20) / 20 + 1).
    { replace prf_len with (prf_len - 20 + 1 * 20) at 1 by lia. by rewrite Z.div_add by lia. }
    pose proof (Z.div_pos (prf_len - 20) 20 ltac:(lia) ltac:(lia)).
    rewrite (IH fuel c m l (S i)); [| done | done | done | lia | lia | rewrite length_splice by lia; lia | lia].
    f_equal. rewrite take_app_ge by lia. rewrite Hh.
    replace (pos + 20) with (pos + zlen (HMAC_SHA1 K message)) by lia.
    rewrite splice_splice; [| lia |].
    + do 2 f_equal. unfold rest. do 2 f_equal; [lia |]. do 3 f_equal. lia.
    + rewrite length_take. lia.
Qed.

(** *** PBKDF2 *)

Lemma pbkdf2_iterate_ok K n ctx mem off key_len x block :
  usable sha1_algorithm ctx -> kept K mem off key_len -> zlen mem = off + 20 ->
  Forall is_byte x -> 64 + zlen x < digest_limit size_bits -> zlen x < 2 ^ 31 -> length block = 20%nat ->
  pbkdf2_iterate size_bits local n ctx mem off key_len x (zlen x) block = Ok (foldl xor block (Rfc2898.U K n x)) /\
  length (foldl xor block (Rfc2898.U K n x)) = 20%nat.
Proof using Hsize Hlocal.
  clear Hstack Hctx0. revert ctx mem key_len x block. induction n as [| n IH]; intros ctx mem key_len x block Hc Hk Hm Hx Hlim Hint Hb; [done |].
  cbn [pbkdf2_iterate Rfc2898.U foldl].
  assert (Ew : wrap size_bits (zlen x) = zlen x) by (unfold wrap; apply Z.mod_small; destruct Hsize as [-> | ->]; lia).
  rewrite Ew, rd_range_slice, bind_ok by lia.
  replace (slice x 0 (zlen x)) with x by (unfold slice; change (Z.to_nat 0) with 0%nat; by rewrite drop_0, Nat2Z.id, firstn_all).
  destruct (hmac_sha1_ok K ctx mem off key_len x Hc Hk Hm Hx Hlim) as (c & m & l & E & Hc' & Hk' & Hm' & Es & Hh).
  step E. pose proof Hk' as (Hmb & _ & Hoff & _). rewrite rd_range_slice, bind_ok by lia. rewrite Es.
  destruct sha1_is_digest as [D]. pose proof (digest_limit_min (IsDigest := D)).
  replace 20 with (zlen (HMAC_SHA1 K x)) by lia. apply IH; try done.
  - rewrite <- Es. by apply slice_bytes.
  - lia.
  - lia.
  - unfold xor. rewrite length_zip_with. lia.
Qed.

Lemma be_bytes_bytes n v : length (be_bytes n v) = n /\ Forall is_byte (be_bytes n v).
Proof using Type. split; [apply (length_encode true) | apply (encode_word_bytes true)]. Qed.

Lemma pbkdf2_sha1_f_ok P S c i :
  Forall is_byte P -> Forall is_byte S -> zlen P < digest_limit size_bits -> 68 + zlen S < digest_limit size_bits -> zlen S < 2 ^ 31 - 4 ->
  pbkdf2_sha1_f size_bits local ctx0 stack P S c i = Ok (Rfc2898.F P S (Z.to_nat c) i) /\
  length (Rfc2898.F P S (Z.to_nat c) i) = 20%nat.
Proof using Hsize Hlocal Hctx0 Hstack.
  intros HP HS HlP HlS Hint. destruct (be_bytes_bytes 4 i) as [Hb1 Hb2]. unfold pbkdf2_sha1_f.
  assert (Hl : zlen (S ++ be_bytes 4 i) = zlen S + 4) by (rewrite length_app; lia).
  replace (to_signed 32 (zlen (S ++ be_bytes 4 i))) with (zlen (S ++ be_bytes 4 i)) by (rewrite Hl; wrap_lia).
  apply pbkdf2_iterate_ok.
  - done.
  - by apply kept_start.
  - rewrite length_app. lia.
  - by apply Forall_app.
  - lia.
  - lia.
  - done.
Qed.

Abbreviation pbkdf2_terms P S c start n := (concat ((fun i => Rfc2898.F P S c (Z.of_nat i)) <$> seq start n)).

(** [n] iterations cover [key_len] bytes, and perhaps more. *)
Lemma pbkdf2_blocks_ok P S c n i key pos key_len :
  Forall is_byte P -> Forall is_byte S -> zlen P < digest_limit size_bits -> 68 + zlen S < digest_limit size_bits -> zlen S < 2 ^ 31 - 4 ->
  0 <= pos -> 0 < key_len -> pos + key_len <= zlen key -> (Z.of_nat n - 1) * 20 < key_len <= Z.of_nat n * 20 ->
  Z.of_nat (i + n) < 2 ^ 32 ->
  pbkdf2_blocks size_bits local ctx0 stack n P S c (Z.of_nat i) key pos key_len =
    Ok (splice key pos (take (Z.to_nat key_len) (pbkdf2_terms P S (Z.to_nat c) i (Z.to_nat (key_len / 20) + 1)))).
Proof using Hsize Hlocal Hctx0 Hstack.
  intros HP HS HlP HlS Hint. revert i key pos key_len. induction n as [| n IH]; intros i key pos key_len Hpos Hn Hfit Hcover Hi; [lia |].
  cbn [pbkdf2_blocks]. destruct (pbkdf2_sha1_f_ok P S c (Z.of_nat i) HP HS HlP HlS Hint) as [E Hl]. step E.
  rewrite Nat.add_1_r. cbn [seq fmap list_fmap concat]. set (rest := concat _).
  destruct (Z.leb_spec key_len 20).
  - rewrite rd_range_slice, bind_ok by lia.
    assert (Ed : slice (Rfc2898.F P S (Z.to_nat c) (Z.of_nat i)) 0 key_len =
      take (Z.to_nat key_len) (Rfc2898.F P S (Z.to_nat c) (Z.of_nat i) ++ rest)) by (rewrite take_app_le by lia; done).
    rewrite Ed, wr_range_splice; [done | lia |]. rewrite length_take, length_app. lia.
  - rewrite wr_range_splice, bind_ok by lia.
    replace (u32 (Z.of_nat i + 1)) with (Z.of_nat (Datatypes.S i)) by (symmetry; unfold wrap; rewrite Z.mod_small by lia; lia).
    assert (Ediv : key_len / 20 = (key_len - 20) / 20 + 1).
    { replace key_len with (key_len - 20 + 1 * 20) at 1 by lia. by rewrite Z.div_add by lia. }
    pose proof (Z.div_pos (key_len - 20) 20 ltac:(lia) ltac:(lia)).
    rewrite IH; [| lia | lia | rewrite length_splice by lia; lia | lia | lia].
    f_equal. rewrite take_app_ge, Hl by lia.
    replace (pos + 20) with (pos + zlen (Rfc2898.F P S (Z.to_nat c) (Z.of_nat i))) by lia.
    rewrite splice_splice; [| lia |].
    + do 2 f_equal. unfold rest. do 2 f_equal; [lia |]. do 3 f_equal. lia.
    + rewrite length_take. lia.
Qed.

Lemma pbkdf2_sha1_ok P S c key key_len :
  Forall is_byte P -> Forall is_byte S -> zlen P < digest_limit size_bits -> 68 + zlen S < digest_limit size_bits -> zlen S < 2 ^ 31 - 4 ->
  0 <= key_len <= zlen key -> key_len < 2 ^ 32 - 20 ->
  pbkdf2_sha1 size_bits local ctx0 stack P S c key key_len =
    Ok (splice key 0 (Rfc2898.PBKDF2 P S (Z.to_nat c) (Z.to_nat key_len))).
Proof using Hsize Hlocal Hctx0 Hstack.
  intros HP HS HlP HlS Hint Hn Hlim. unfold pbkdf2_sha1.
  assert (Ew : wrap size_bits (key_len + 20 - 1) = key_len + 19) by (unfold wrap; rewrite Z.mod_small by (destruct Hsize as [-> | ->]; lia); lia).
  rewrite Ew. pose proof (Z.div_mod (key_len + 19) 20 ltac:(lia)). pose proof (Z.mod_pos_bound (key_len + 19) 20 ltac:(lia)).
  unfold wrap. rewrite Z.mod_small by lia. unfold Rfc2898.PBKDF2.
  replace (Z.to_nat key_len / 20)%nat with (Z.to_nat (key_len / 20)) by (rewrite Z2Nat.inj_div by lia; done).
  destruct (Z.eq_dec key_len 0) as [-> | Hnz]; [done |].
  apply (pbkdf2_blocks_ok P S c _ 1); try done; lia.
Qed.
End Correct.

(** C32. PBKDF2 with HMAC-SHA-1 is RFC 2898: for every iteration count, and every
    passphrase, salt and output length in the ranges the code can handle (inputs
    whose length in bits the digest can count, a salt shorter than 2^31 - 4 bytes,
    since its length goes through an [int], and less than 2^32 - 20 bytes of
    output), whatever the initial contents of the stack, the first [key_len] bytes
    of the output buffer become PBKDF2 (P, S, c, dkLen), the rest is unchanged; a
    passphrase longer than a block, which the first HMAC replaces by its digest, is
    used correctly by the following ones. *)
Theorem pbkdf2_sha1_correct size_bits local ctx stack P S c key key_len :
  size_bits = 32 \/ size_bits = 64 -> usable sha1_algorithm local -> usable sha1_algorithm ctx ->
  length stack = 20%nat -> Forall is_byte stack -> Forall is_byte P -> Forall is_byte S ->
  zlen P < digest_limit size_bits -> 68 + zlen S < digest_limit size_bits -> zlen S < 2 ^ 31 - 4 ->
  0 <= key_len <= zlen key -> key_len < 2 ^ 32 - 20 ->
  pbkdf2_sha1 size_bits local ctx stack P S c key key_len =
    Ok (splice key 0 (Rfc2898.PBKDF2 P S (Z.to_nat c) (Z.to_nat key_len))).
Proof. intros. by apply pbkdf2_sha1_ok. Qed.

(** RFC 6070, the second test: "password", "salt", two iterations. *)
Lemma pbkdf2_sha1_correct_witness :
  let password := [0x70; 0x61; 0x73; 0x73; 0x77; 0x6f; 0x72; 0x64] in
  let salt := [0x73; 0x61; 0x6c; 0x74] in
  let ctx := DigestContext 0 0 (replicate 84 0) in
  pbkdf2_sha1 32 ctx ctx (replicate 20 0) password salt 2 (replicate 24 0) 20 =
    Ok (splice (replicate 24 0) 0 (Rfc2898.PBKDF2 password salt 2 20)) /\
  Rfc2898.PBKDF2 password salt 2 20 = be_bytes 20 0xea6c014dc72d6f8ccd1ed92ace1d41f0d8de8957.
Proof.
  intros password salt ctx.
  split; [| vm_compute; reflexivity].
  assert (Hz : forall n, Forall is_byte (replicate n 0)) by (intros n; apply Forall_replicate; split; [lia | reflexivity]).
  refine (pbkdf2_sha1_correct 32 ctx ctx (replicate 20 0) password salt 2 (replicate 24 0) 20 _ _ _ _ _ _ _ _ _ _ _ _).
  all: try (split; [reflexivity | apply Hz]); try apply Hz; try reflexivity; try (split; vm_compute; discriminate).
  - by left.
  - repeat (apply Forall_cons_2 || apply Forall_nil_2); split; lia || reflexivity.
  - repeat (apply Forall_cons_2 || apply Forall_nil_2); split; lia || reflexivity.
Defined.

(** The 802.11 pseudorandom function, from any stack. *)
Lemma prf_sha1_correct size_bits local ctx stack K A B prf prf_len :
  size_bits = 32 \/ size_bits = 64 -> usable sha1_algorithm local -> usable sha1_algorithm ctx ->
  length stack = 20%nat -> Forall is_byte stack -> Forall is_byte K -> Forall is_byte A -> Forall is_byte B ->
  zlen K < digest_limit size_bits -> 66 + zlen A + zlen B < digest_limit size_bits -> 0 <= prf_len <= zlen prf ->
  prf_sha1 size_bits local ctx stack K A B prf prf_len = Ok (splice prf 0 (PRF K A B (Z.to_nat prf_len))).
Proof.
  intros Hs Hu Hc Hl Hb HK HA HB HlK Hlim Hn. unfold prf_sha1, PRF.
  replace (Z.to_nat prf_len / 20)%nat with (Z.to_nat (prf_len / 20)) by (rewrite Z2Nat.inj_div by lia; done).
  apply (prf_loop_ok size_bits local Hs Hu K A B _ ctx _ _ _ 0); try done; try lia.
  - by apply kept_start.
  - rewrite length_app. lia.
Qed.
