(* ===== verification/HashDf.v ===== *)
(** * Hash-based derivation ([crypto/hash_df.c])

    [context] and [digest] are the uninitialised arrays on the stack. *)

From Stdlib Require Import ZArith Lia Bool ZifyBool.
From stdpp Require Import base numbers list.
From S2P Require Import Prelude Bits Digest DigestCorrect DigestStandard Hmac.

Local Open Scope Z_scope.

(** ** The code *)

Section Code.
Context (size_bits : Z) (hash : digest_algorithm).

(** The loop, with [remaining] bytes to produce at [temp]; the prefix is the
    counter and the number of bits, without the padding before them. *)
Fixpoint hash_df_loop (fuel : nat) (context : digest_context) (digest : bytes) (counter : Z) (input output : bytes)
    (output_len temp remaining : Z) : res bytes :=
  if 0 <? remaining then
    match fuel with
    | O => Trap
    | S fuel =>
        let prefix := counter :: be_bytes 4 (u32 (wrap size_bits (output_len * 8))) in
        context ← digest_init hash context;
        context ← digest_update hash size_bits context prefix;
        context ← digest_update hash size_bits context input;
        '(context, digest) ← digest_final hash size_bits context digest;
        let counter := u8 (counter + 1) in
        let frag_len := zlen digest in
        let frag_len := if remaining <? frag_len then remaining else frag_len in
        frag ← rd_range digest 0 frag_len;
        output ← wr_range output temp frag;
        hash_df_loop fuel context digest counter input output output_len (temp + frag_len) (remaining - frag_len)
    end
  else Ok output.

(** An iteration produces at least a byte. *)
Definition hash_df (context : digest_context) (digest input output : bytes) (output_len : Z) : res bytes :=
  hash_df_loop (Z.to_nat output_len) context digest 1 input output output_len 0 output_len.
End Code.

(** ** NIST SP 800-90A, 10.3.1 *)

(** The counter is one byte, the number of bits four. *)
Definition Hash_df (H : bytes -> bytes) (outlen : nat) (input : bytes) (n : nat) : bytes :=
  take n (concat ((fun i => H ([Z.of_nat i mod 256] ++ be_bytes 4 (8 * Z.of_nat n mod 2 ^ 32) ++ input)) <$>
    seq 1 (n / outlen + 1))).

(** ** Correctness *)

Section Correct.
Context (size_bits : Z) (alg : digest_algorithm) (H : bytes -> bytes) {D : IsDigest size_bits alg H}.
Context (input : bytes) (output_len : Z).
Hypothesis Hsize : size_bits = 32 \/ size_bits = 64.
Hypothesis Hinput : Forall is_byte input.
Hypothesis Hlimit : 5 + zlen input < digest_limit size_bits.

Abbreviation ds := (Z.of_nat (digestsize alg)).
Abbreviation prefix i := ([Z.of_nat i mod 256] ++ be_bytes 4 (8 * output_len mod 2 ^ 32)).
Abbreviation df_blocks start n := (concat ((fun i => H (prefix i ++ input)) <$> seq start n)).

Lemma prefix_bytes i : Forall is_byte (prefix i ++ input) /\ zlen (prefix i ++ input) = 5 + zlen input.
Proof using Hinput.
  split.
  - rewrite !Forall_app. split_and!; [| apply (encode_word_bytes true) | done].
    apply Forall_cons_2; [apply (wrap_range 8); lia | apply Forall_nil_2].
  - rewrite !length_app. unfold be_bytes. rewrite length_reverse, length_le_bytes. cbn [length]. lia.
Qed.

Lemma hash_df_loop_ok fuel context digest i output temp remaining :
  usable alg context -> zlen digest = ds -> 0 <= temp -> 0 <= remaining -> temp + remaining <= zlen output ->
  (Z.to_nat remaining <= fuel)%nat ->
  hash_df_loop size_bits alg fuel context digest (u8 (Z.of_nat i)) input output output_len temp remaining =
    Ok (splice output temp (take (Z.to_nat remaining) (df_blocks i (Z.to_nat (remaining / ds) + 1)))).
Proof using D Hsize Hinput Hlimit.
  pose proof (digest_sizes (IsDigest := D)) as Hsz.
  revert context digest i output temp remaining. induction fuel as [| fuel IH];
    intros context digest i output temp remaining [Hc1 Hc2] Hd Ht Hr Hfit Hf; cbn [hash_df_loop];
    (destruct (Z.ltb_spec 0 remaining) as [Hpos | Hpos];
      [| replace remaining with 0 by lia; change (Z.to_nat 0) with 0%nat; rewrite take_0; by rewrite splice_nil]); [lia |].
  assert (Eb : u32 (wrap size_bits (output_len * 8)) = 8 * output_len mod 2 ^ 32).
  { rewrite Z.mul_comm. unfold wrap. apply mod_pow2_le. lia. }
  rewrite Eb. destruct (prefix_bytes i) as [Hpb Hpl]. rewrite <- app_assoc in Hpb, Hpl.
  destruct (digest_init_ok (IsDigest := D) context Hc1 Hc2) as (c1 & E1 & H1). step E1.
  destruct (digest_update_ok (IsDigest := D) [] c1 (u8 (Z.of_nat i) :: be_bytes 4 (8 * output_len mod 2 ^ 32)) H1) as (c2 & E2 & H2).
  { rewrite app_assoc in Hpb. apply Forall_app in Hpb. apply Hpb. }
  step E2. destruct (digest_update_ok (IsDigest := D) _ c2 input H2 Hinput) as (c3 & E3 & H3). step E3.
  change (([] ++ u8 (Z.of_nat i) :: be_bytes 4 (8 * output_len mod 2 ^ 32)) ++ input) with (prefix i ++ input) in H3.
  rewrite <- app_assoc in H3.
  destruct (digest_final_ok (IsDigest := D) _ c3 digest H3 Hpb ltac:(lia) ltac:(lia)) as (c4 & E4 & H4). step E4.
  pose proof (proj1 (digest_hash_bytes (IsDigest := D) _ Hpb)) as Hh.
  rewrite (drop_ge digest), app_nil_r by lia. set (h := H _) in *.
  replace (u8 (u8 (Z.of_nat i) + 1)) with (u8 (Z.of_nat (S i))) by (rewrite wrap_add_idemp_l; f_equal; lia).
  rewrite Nat.add_1_r. cbn [seq fmap list_fmap concat]. rewrite <- app_assoc. fold h. set (rest := concat _).
  destruct (Z.ltb_spec remaining (zlen h)) as [Hlt | Hge].
  - rewrite rd_range_slice, bind_ok by lia.
    assert (El : slice h 0 remaining = take (Z.to_nat remaining) (h ++ rest)) by (rewrite take_app_le by lia; done).
    rewrite El, wr_range_splice, bind_ok by (rewrite ?length_take, ?length_app; lia).
    rewrite Z.sub_diag. by destruct fuel.
  - rewrite rd_range_slice, bind_ok by lia. rewrite (slice_whole h) by lia. rewrite wr_range_splice, bind_ok by lia.
    assert (Ediv : remaining / ds = (remaining - ds) / ds + 1).
    { replace remaining with (remaining - ds + 1 * ds) at 1 by lia. by rewrite Z.div_add by lia. }
    pose proof (Z.div_pos (remaining - ds) ds ltac:(lia) ltac:(lia)).
    rewrite (IH c4 h (S i)); [| exact H4 | lia | lia | lia | rewrite length_splice by lia; lia | lia].
    f_equal. rewrite take_app_ge, splice_splice by (rewrite ?length_take; lia).
    do 2 f_equal. unfold rest. f_equal; [lia |]. do 3 f_equal. rewrite Hh. lia.
Qed.
End Correct.

Lemma hash_df_ok size_bits alg H {D : IsDigest size_bits alg H} context digest input output output_len :
  size_bits = 32 \/ size_bits = 64 -> Forall is_byte input -> 5 + zlen input < digest_limit size_bits ->
  usable alg context -> length digest = digestsize alg -> 0 <= output_len <= zlen output ->
  hash_df size_bits alg context digest input output output_len =
    Ok (splice output 0 (Hash_df H (digestsize alg) input (Z.to_nat output_len))).
Proof.
  intros Hs Hi Hlim Hc Hd Ho. unfold hash_df, Hash_df. pose proof (digest_sizes (IsDigest := D)) as Hsz.
  pose proof (hash_df_loop_ok size_bits alg H input output_len Hs Hi Hlim (Z.to_nat output_len) context digest 1 output 0 output_len Hc
    ltac:(lia) ltac:(lia) ltac:(lia) ltac:(lia) ltac:(lia)) as E.
  change (u8 (Z.of_nat 1)) with 1 in E. rewrite E.
  replace (Z.to_nat output_len / digestsize alg)%nat with (Z.to_nat (output_len / Z.of_nat (digestsize alg)))
    by (rewrite Z2Nat.inj_div, Nat2Z.id by lia; done).
  rewrite Z2Nat.id by lia. reflexivity.
Qed.
