(* ===== verification/Entropy.v ===== *)
(** * The entropy source ([crypto/entropy.c], [include/ipxe/entropy.h])

    The static variables of the tests, of the nonce and of the start-up count
    are an [entropy_state]; the noise hardware is an [EntropySource] over a type
    of worlds, whose operations the platform provides.  A computation that fails
    still leaves its static variables changed, which the monad [M] keeps.
    [local] and [uninitialised n] are the contents of arrays on the stack. *)

From Stdlib Require Import ZArith Lia Bool ZifyBool.
From stdpp Require Import base numbers list.
From S2P Require Import Prelude Bits Digest DigestCorrect DigestStandard Hmac HashDf.

Local Open Scope Z_scope.

(** ** Computations with state that fail *)

Inductive outcome (S A : Type) :=
| Done (a : A) (s : S)
| Failed (e : errno) (s : S)
| Stuck.
Arguments Done {S A} a s.
Arguments Failed {S A} e s.
Arguments Stuck {S A}.

Definition M (S A : Type) : Type := S -> outcome S A.

#[global] Instance M_ret S : MRet (M S) := fun A a s => Done a s.
#[global] Instance M_bind S : MBind (M S) := fun A B f m s =>
  match m s with
  | Done a s => f a s
  | Failed e s => Failed e s
  | Stuck => Stuck
  end.

Definition lift {S A} (r : res A) : M S A := fun s =>
  match r with Ok a => Done a s | Err e => Failed e s | Trap => Stuck end.

Lemma M_bind_done {S A B} (f : A -> M S B) (m : M S A) a s s' : m s = Done a s' -> (m ≫= f) s = f a s'.
Proof. intros E. unfold mbind, M_bind. by rewrite E. Qed.

Lemma M_bind_failed {S A B} (f : A -> M S B) (m : M S A) e s s' : m s = Failed e s' -> (m ≫= f) s = Failed e s'.
Proof. intros E. unfold mbind, M_bind. by rewrite E. Qed.

Lemma M_bind_lift {S A B} (f : A -> M S B) (r : res A) a s : r = Ok a -> (lift r ≫= f) s = f a s.
Proof. by intros ->. Qed.

(** ** State *)

Record entropy_state := EntropyState {
  most_recent_sample : Z;
  rct_repetition_count : Z;
  current_counted_sample : Z;
  sample_count : Z;
  apt_repetition_count : Z;
  get_entropy_rc : option errno;
  nonce : Z;
  startup_tested : Z
}.

Abbreviation ADAPTIVE_PROPORTION_WINDOW_SIZE := (64).

(** The static initial values. *)
Definition entropy_state0 : entropy_state := EntropyState 0 0 0 ADAPTIVE_PROPORTION_WINDOW_SIZE 0 None 0 0.

Class EntropySource (W : Type) := {
  min_entropy_per_sample : Z;
  entropy_enable : W -> option errno * W;
  entropy_disable : W -> W;
  get_noise : W -> option errno * Z * W
}.

Abbreviation MIN_ENTROPY_SCALE := (Z.shiftl 1 16).

Abbreviation MIN_ENTROPY bits := (u32 (bits * MIN_ENTROPY_SCALE)).

(** ** Health tests *)

Section Tests.
Context (min_entropy : Z).

(** The quotient is one of integers, so that the conversion to floating point
    and the rounding up after it have nothing left to round. *)
Definition repetition_count_cutoff : Z :=
  let max_repetitions := u32 (1 + MIN_ENTROPY 30 / min_entropy) in
  let cutoff := max_repetitions in
  if cutoff <? max_repetitions then u32 (cutoff + 1) else cutoff.

Abbreviation APC_NA := (0).

(** The rows of the cutoff table, for windows of 16, 64, 256, 4096 and 65536. *)
Definition adaptive_proportion_rows : list (list Z) := [
  [APC_NA; 51; 168; 2240; 33537];
  [APC_NA; 35; 100; 1193; 17053];
  [10; 24; 61; 643; 8705];
  [8; 16; 38; 354; 4473];
  [6; 12; 25; 200; 2321];
  [5; 9; 17; 117; 1220];
  [4; 7; 15; 71; 653];
  [4; 5; 9; 45; 358];
  [3; 4; 7; 30; 202];
  [3; 4; 5; 21; 118];
  [2; 3; 4; 15; 71];
  [2; 3; 4; 11; 45];
  [2; 2; 3; 9; 30];
  [2; 2; 3; 7; 21];
  [1; 2; 2; 6; 15];
  [1; 2; 2; 5; 11];
  [1; 1; 2; 4; 9];
  [1; 1; 2; 4; 7];
  [1; 1; 1; 3; 6];
  [1; 1; 1; 3; 5]].

Abbreviation APC_N_H n h := (Z.lor (u32 (Z.shiftl n 8)) h).

(** The [switch]: the first row and column whose combined value matches. *)
Definition adaptive_proportion_cutoff_lookup (n h : Z) : Z :=
  let key := APC_N_H n h in
  let cases := concat (imap (fun i row => zip_with (fun n c => (APC_N_H n (Z.of_nat i + 1), c)) [16; 64; 256; 4096; 65536] row)
    adaptive_proportion_rows) in
  match List.find (fun kc => kc.1 =? key) cases with
  | Some kc => kc.2
  | None => APC_NA
  end.

Definition adaptive_proportion_cutoff : Z :=
  let n := ADAPTIVE_PROPORTION_WINDOW_SIZE in
  let h := min_entropy / MIN_ENTROPY_SCALE in
  adaptive_proportion_cutoff_lookup n h.

Definition repetition_count_test (st : entropy_state) (sample : Z) : option errno * entropy_state :=
  if (sample =? most_recent_sample st) && (0 <? rct_repetition_count st) then
    let count := u32 (rct_repetition_count st + 1) in
    let st := EntropyState (most_recent_sample st) count (current_counted_sample st) (sample_count st)
                (apt_repetition_count st) (get_entropy_rc st) (nonce st) (startup_tested st) in
    (if repetition_count_cutoff <=? count then Some EPIPE_REPETITION_COUNT_TEST else None, st)
  else
    (None, EntropyState sample 1 (current_counted_sample st) (sample_count st)
             (apt_repetition_count st) (get_entropy_rc st) (nonce st) (startup_tested st)).

Definition adaptive_proportion_test (st : entropy_state) (sample : Z) : option errno * entropy_state :=
  let set counted count repetitions :=
    EntropyState (most_recent_sample st) (rct_repetition_count st) counted count repetitions
      (get_entropy_rc st) (nonce st) (startup_tested st) in
  if sample_count st =? ADAPTIVE_PROPORTION_WINDOW_SIZE then (None, set sample 0 0)
  else
    let count := u32 (sample_count st + 1) in
    if sample =? current_counted_sample st then
      let repetitions := u32 (apt_repetition_count st + 1) in
      (if adaptive_proportion_cutoff <? repetitions then Some EPIPE_ADAPTIVE_PROPORTION_TEST else None,
       set (current_counted_sample st) count repetitions)
    else (None, set (current_counted_sample st) count (apt_repetition_count st)).

Definition startup_test_count : Z :=
  let num_samples := repetition_count_cutoff in
  if num_samples <? adaptive_proportion_cutoff then adaptive_proportion_cutoff else num_samples.
End Tests.

(** ** Gathering *)

Definition set_rc (st : entropy_state) (rc : option errno) : entropy_state :=
  EntropyState (most_recent_sample st) (rct_repetition_count st) (current_counted_sample st) (sample_count st)
    (apt_repetition_count st) rc (nonce st) (startup_tested st).

Section Gather.
Context {W : Type} `{!EntropySource W}.
Context (size_bits : Z) (local : digest_context) (uninitialised : nat -> bytes).

Abbreviation hash_df_sha256 := (hash_df size_bits sha256_algorithm local (uninitialised 32)).

(** Any failure is permanent. *)
Definition get_entropy : M (entropy_state * W) Z := fun '(st, w) =>
  match get_entropy_rc st with
  | Some e => Failed e (st, w)
  | None =>
      let '(rc, noise, w) := get_noise w in
      match rc with
      | Some e => Failed e (set_rc st (Some e), w)
      | None =>
          let '(rc, st) := repetition_count_test min_entropy_per_sample st noise in
          match rc with
          | Some e => Failed e (set_rc st (Some e), w)
          | None =>
              let '(rc, st) := adaptive_proportion_test min_entropy_per_sample st noise in
              match rc with
              | Some e => Failed e (set_rc st (Some e), w)
              | None => Done noise (st, w)
              end
          end
      end
  end.

Definition make_next_nonce : M (entropy_state * W) Z := fun '(st, w) =>
  let n := u32 (nonce st + 1) in
  Done n (EntropyState (most_recent_sample st) (rct_repetition_count st) (current_counted_sample st) (sample_count st)
            (apt_repetition_count st) (get_entropy_rc st) n (startup_tested st), w).

Definition count_startup : M (entropy_state * W) unit := fun '(st, w) =>
  Done tt (EntropyState (most_recent_sample st) (rct_repetition_count st) (current_counted_sample st) (sample_count st)
             (apt_repetition_count st) (get_entropy_rc st) (nonce st) (u32 (startup_tested st + 1)), w).

(** The mandatory tests, if not yet performed. *)
Fixpoint startup_loop (fuel : nat) : M (entropy_state * W) unit := fun '(st, w) =>
  if startup_tested st <? startup_test_count min_entropy_per_sample then
    match fuel with
    | O => Stuck
    | S fuel => (_ ← get_entropy; _ ← count_startup; startup_loop fuel) (st, w)
    end
  else Done tt (st, w).

(** Combine [num_samples] samples into [tmp]. *)
Fixpoint sample_loop (num_samples : nat) (tmp : bytes) : M (entropy_state * W) bytes :=
  match num_samples with
  | O => mret tmp
  | S num_samples =>
      sample ← get_entropy;
      n ← make_next_nonce;
      df_buf ← lift (hash_df_sha256 (le_bytes 4 n ++ [sample]) (uninitialised (length tmp)) (zlen tmp));
      sample_loop num_samples (zip_with Z.lxor tmp df_buf)
  end.

Definition get_entropy_input_tmp (num_samples tmp_len : Z) : M (entropy_state * W) bytes := fun '(st, w) =>
  match entropy_enable w with
  | (Some e, w) => Failed e (st, w)
  | (None, w) =>
      match (_ ← startup_loop (Z.to_nat (startup_test_count min_entropy_per_sample));
             sample_loop (Z.to_nat num_samples) (replicate (Z.to_nat tmp_len) 0)) (st, w) with
      | Done tmp (st, w) => Done tmp (st, entropy_disable w)
      | Failed e (st, w) => Failed e (st, entropy_disable w)
      | Stuck => Stuck
      end
  end.

(** The number of samples: here too the quotient is one of integers. *)
Definition entropy_num_samples (min_entropy_bits : Z) : Z :=
  let min_samples := MIN_ENTROPY min_entropy_bits / min_entropy_per_sample in
  let num_samples := min_samples in
  if num_samples <? min_samples then u32 (num_samples + 1) else num_samples.

(** The buffer [data] after the call and the length of the input; what a failed
    call leaves in the buffer is not modelled. *)
Definition get_entropy_input (min_entropy_bits : Z) (data : bytes) (min_len max_len : Z) : M (entropy_state * W) (bytes * Z) :=
  let tmp_len := (u32 (u32 (min_entropy_bits * 2) + 7)) / 8 in
  let min_entropy_bits := Z.land (u32 (min_entropy_bits + 7)) (u32 (Z.lnot 7)) in
  tmp ← get_entropy_input_tmp (entropy_num_samples min_entropy_bits) tmp_len;
  if tmp_len <? min_len then
    data ← lift (wr_range data 0 tmp);
    data ← lift (wr_range data tmp_len (replicate (Z.to_nat (min_len - tmp_len)) 0));
    mret (data, min_len)
  else if max_len <? tmp_len then
    data ← lift (hash_df_sha256 tmp data max_len);
    mret (data, max_len)
  else
    data ← lift (wr_range data 0 tmp);
    mret (data, tmp_len).
End Gather.

(** ** What the health tests accept *)

Section Health.
Context (min_entropy : Z).

Abbreviation C := (repetition_count_cutoff min_entropy).
Abbreviation cutoff := (adaptive_proportion_cutoff min_entropy).

(** No sample [C] times in a row. *)
Definition repetition_ok (l : list Z) : Prop := forall a x b, l <> a ++ replicate (Z.to_nat C) x ++ b.

(** In windows of a sample and the 64 that follow it, the first one at most
    [cutoff] more times. *)
Definition occurrences (x : Z) (l : list Z) : Z := zlen (List.filter (Z.eqb x) l).

Definition proportion_ok (l : list Z) : Prop :=
  forall k A, l !! (65 * k)%nat = Some A -> occurrences A (take 64 (drop (65 * k + 1) l)) <= cutoff.

(** The tests on a sequence of samples. *)
Definition test_step (st : entropy_state) (x : Z) : option errno * entropy_state :=
  match repetition_count_test min_entropy st x with
  | (Some e, st) => (Some e, set_rc st (Some e))
  | (None, st) =>
      match adaptive_proportion_test min_entropy st x with
      | (Some e, st) => (Some e, set_rc st (Some e))
      | (None, st) => (None, st)
      end
  end.

Fixpoint test_run (st : entropy_state) (l : list Z) : option errno * entropy_state :=
  match l with
  | [] => (None, st)
  | x :: l => match test_step st x with
              | (Some e, st) => (Some e, st)
              | (None, st) => test_run st l
              end
  end.

Lemma test_run_snoc st l x :
  test_run st (l ++ [x]) = match test_run st l with (Some e, st) => (Some e, st) | (None, st) => test_step st x end.
Proof using Type.
  revert st. induction l as [| y l IH]; intros st; cbn [test_run app].
  - by destruct (test_step st x) as [[e |] st'].
  - destruct (test_step st y) as [[e |] st']; [done | apply IH].
Qed.

(** The length of the run of [x] at the end of a reversed sequence. *)
Fixpoint run_length (x : Z) (q : list Z) : nat :=
  match q with
  | y :: q => if x =? y then S (run_length x q) else O
  | [] => O
  end.

Lemma run_length_spec x q n : (n <= run_length x q)%nat <-> exists q', q = replicate n x ++ q'.
Proof using Type.
  revert n. induction q as [| y q IH]; intros n; cbn [run_length].
  - split; [intros Hn; exists []; by replace n with 0%nat by lia |]. intros [q' E]. destruct n; [lia | done].
  - destruct (Z.eqb_spec x y) as [<- | Hxy].
    + destruct n as [| n]; [split; [by exists (x :: q) | lia] |]. rewrite <- Nat.succ_le_mono, IH. cbn [replicate app].
      split; intros [q' E]; exists q'; [by f_equal | by injection E].
    + split; [intros Hn; exists (y :: q); by replace n with 0%nat by lia |]. intros [q' E]. destruct n; [lia |].
      cbn in E. injection E as E _. congruence.
Qed.

Definition repetition_inv (l : list Z) (st : entropy_state) : Prop :=
  match reverse l with
  | [] => rct_repetition_count st = 0
  | x :: _ => most_recent_sample st = x /\ rct_repetition_count st = Z.of_nat (run_length x (reverse l)) /\
      rct_repetition_count st < C
  end.

Lemma repetition_ok_snoc l x :
  1 <= C -> repetition_ok (l ++ [x]) <-> repetition_ok l /\ Z.of_nat (run_length x (reverse (l ++ [x]))) < C.
Proof using Type.
  intros HC. assert (Hrun : C <= Z.of_nat (run_length x (reverse (l ++ [x]))) <-> exists a, l ++ [x] = a ++ replicate (Z.to_nat C) x).
  { rewrite <- (Z2Nat.id C) at 1 by lia. rewrite <- Nat2Z.inj_le, run_length_spec. split; intros [a E].
    - exists (reverse a). rewrite <- (reverse_involutive (l ++ [x])), E, reverse_app, reverse_replicate. done.
    - exists (reverse a). rewrite E, reverse_app, reverse_replicate. done. }
  split.
  - intros H. split.
    + intros a y b ->. apply (H a y (b ++ [x])). by rewrite <- !app_assoc.
    + destruct (Z.lt_ge_cases (Z.of_nat (run_length x (reverse (l ++ [x])))) C) as [| Hge]; [done |].
      apply Hrun in Hge as [a E]. exfalso. apply (H a x []). by rewrite app_nil_r.
  - intros [H Hlt] a y b E. destruct b as [| z b _] using rev_ind.
    + rewrite app_nil_r in E. assert (y = x) as ->.
      { replace (Z.to_nat C) with (S (Z.to_nat C - 1)) in E by lia. rewrite replicate_S_end, app_assoc in E.
        apply app_inj_tail in E as [_ ->]. done. }
      assert (C <= Z.of_nat (run_length x (reverse (l ++ [x])))) by (apply Hrun; by exists a). lia.
    + rewrite !app_assoc in E. apply app_inj_tail in E as [E _]. apply (H a y b). by rewrite <- app_assoc in E.
Qed.

(** One sample through the first test. *)
Lemma repetition_step l st x :
  2 <= C < 2 ^ 32 -> repetition_inv l st ->
  let '(rc, st') := repetition_count_test min_entropy st x in
  if bool_decide (Z.of_nat (run_length x (reverse (l ++ [x]))) < C) then rc = None /\ repetition_inv (l ++ [x]) st'
  else rc = Some EPIPE_REPETITION_COUNT_TEST.
Proof using Type.
  intros HC Hinv. unfold repetition_count_test, repetition_inv in *. rewrite reverse_snoc. cbn [run_length]. rewrite Z.eqb_refl.
  destruct (reverse l) as [| y q].
  - rewrite Hinv. rewrite andb_false_r. cbn [run_length]. rewrite bool_decide_eq_true_2 by lia. cbn. split_and!; (done || lia).
  - destruct Hinv as (E1 & E2 & E3). cbn [run_length] in *. rewrite Z.eqb_refl in E2. rewrite E1.
    destruct (Z.eqb_spec x y) as [<- | Hxy]; cbn [andb].
    + rewrite (proj2 (Z.ltb_lt _ _)) by lia. unfold wrap. rewrite Z.mod_small by lia.
      destruct (Z.leb_spec C (rct_repetition_count st + 1)).
      * rewrite bool_decide_eq_false_2 by lia. done.
      * rewrite bool_decide_eq_true_2 by lia. cbn. split_and!; (done || lia).
    + rewrite bool_decide_eq_true_2 by lia. cbn. split_and!; (done || lia).
Qed.

(** *** The second test *)

Lemma occurrences_snoc A l x : occurrences A (l ++ [x]) = occurrences A l + (if A =? x then 1 else 0).
Proof using Type.
  unfold occurrences. rewrite List.filter_app, length_app. cbn [List.filter]. destruct (A =? x); cbn [length]; lia.
Qed.

(** The samples of the current window after its first. *)
Definition window (l : list Z) : list Z := drop (65 * (length l / 65) + 1) l.

Definition proportion_inv (l : list Z) (st : entropy_state) : Prop :=
  if (length l mod 65 =? 0)%nat then sample_count st = 64
  else sample_count st = Z.of_nat (length l mod 65) - 1 /\ l !! (65 * (length l / 65))%nat = Some (current_counted_sample st) /\
    apt_repetition_count st = occurrences (current_counted_sample st) (window l) /\ apt_repetition_count st <= cutoff.

(** The current window with one more sample. *)
Definition window_ok (l : list Z) (x : Z) : Prop :=
  (length l mod 65 <> 0)%nat -> forall A, l !! (65 * (length l / 65))%nat = Some A -> occurrences A (window l ++ [x]) <= cutoff.

Lemma proportion_ok_snoc l x :
  0 <= cutoff -> proportion_ok (l ++ [x]) <-> proportion_ok l /\ window_ok l x.
Proof using Type.
  intros Hc. set (n := length l). pose proof (Nat.div_mod n 65 ltac:(lia)) as En. pose proof (Nat.mod_upper_bound n 65 ltac:(lia)) as Hn.
  assert (Hlast : (n mod 65 <> 0)%nat -> take 64 (drop (65 * (n / 65) + 1) (l ++ [x])) = window l ++ [x]).
  { intros Hr. rewrite drop_app_le by (fold n; lia). unfold window. fold n. apply take_ge.
    rewrite length_app, length_drop. fold n. cbn [length]. lia. }
  assert (Hold : forall k, (k < n / 65)%nat -> take 64 (drop (65 * k + 1) (l ++ [x])) = take 64 (drop (65 * k + 1) l)).
  { intros k Hk. rewrite drop_app_le, take_app_le by (rewrite ?length_drop; fold n; lia). done. }
  assert (Hcur : take 64 (drop (65 * (n / 65) + 1) l) = window l).
  { unfold window. fold n. apply take_ge. rewrite length_drop. fold n. lia. }
  split.
  - intros H. split.
    + intros k A Hk. pose proof (lookup_lt_Some _ _ _ Hk) as Hlt. fold n in Hlt.
      assert (Hk' : (l ++ [x]) !! (65 * k)%nat = Some A) by (by rewrite lookup_app_l by (fold n; lia)).
      specialize (H k A Hk'). destruct (Nat.lt_ge_cases k (n / 65)) as [Hkn | Hkn]; [by rewrite Hold in H |].
      assert (k = n / 65)%nat as -> by lia. rewrite Hlast in H by lia. rewrite Hcur.
      rewrite occurrences_snoc in H. destruct (A =? x); lia.
    + intros Hr A HA. fold n in Hr, HA. rewrite <- Hlast by done. apply H. by rewrite lookup_app_l by (fold n; lia).
  - intros [H Hw] k A Hk. pose proof (lookup_lt_Some _ _ _ Hk) as Hlt. rewrite length_app in Hlt. fold n in Hlt. cbn [length] in Hlt.
    destruct (Nat.lt_ge_cases k (n / 65)) as [Hkn | Hkn].
    + rewrite Hold by done. apply H. by rewrite lookup_app_l in Hk by (fold n; lia).
    + assert (k = n / 65)%nat as -> by lia. destruct (Nat.eq_dec (n mod 65)%nat 0%nat) as [Hz | Hnz].
      * rewrite drop_ge by (rewrite length_app; fold n; cbn [length]; lia). done.
      * rewrite Hlast by done. apply Hw; [done |]. fold n. by rewrite lookup_app_l in Hk by (fold n; lia).
Qed.

Lemma proportion_step l st x :
  0 <= cutoff < 2 ^ 31 -> proportion_inv l st ->
  let '(rc, st') := adaptive_proportion_test min_entropy st x in
  if rc is None then window_ok l x /\ proportion_inv (l ++ [x]) st' else ~ window_ok l x.
Proof using Type.
  intros Hc Hinv. unfold adaptive_proportion_test, proportion_inv, window_ok in *.
  rewrite length_app. cbn [length]. set (n := length l) in *.
  pose proof (Nat.div_mod n 65 ltac:(lia)) as En. pose proof (Nat.mod_upper_bound n 65 ltac:(lia)) as Hn.
  destruct (Nat.eqb_spec (n mod 65)%nat 0%nat) as [Hz | Hnz].
  - rewrite Hinv. cbn [Z.eqb Pos.eqb]. split; [done |].
    rewrite <- (Nat.mod_unique (n + 1) 65 (n / 65)%nat 1), <- (Nat.div_unique (n + 1) 65 (n / 65)%nat 1) by lia.
    cbn [Nat.eqb sample_count current_counted_sample apt_repetition_count].
    replace (65 * (n / 65))%nat with n by lia. split_and!; [done | rewrite lookup_app_r by (fold n; lia); fold n; by rewrite Nat.sub_diag | | lia].
    unfold window. rewrite drop_ge; [done |]. rewrite length_app. fold n. cbn [length].
    rewrite <- (Nat.div_unique (n + 1) 65 (n / 65)%nat 1) by lia. lia.
  - destruct Hinv as (Ec & EA & Er & Hle). rewrite Ec, (proj2 (Z.eqb_neq _ _)) by lia.
    assert (Hlt : (65 * (n / 65) < n)%nat) by lia.
    assert (Ew : (n mod 65 <> 64)%nat -> window (l ++ [x]) = window l ++ [x]).
    { intros H64. unfold window. rewrite length_app. fold n. cbn [length].
      rewrite <- (Nat.div_unique (n + 1) 65 (n / 65)%nat (n mod 65 + 1)%nat) by lia. rewrite drop_app_le by (fold n; lia). done. }
    assert (Hnext : forall st', sample_count st' = Z.of_nat (n mod 65) -> current_counted_sample st' = current_counted_sample st ->
        apt_repetition_count st' = occurrences (current_counted_sample st) (window l ++ [x]) -> apt_repetition_count st' <= cutoff ->
        if ((n + 1) mod 65 =? 0)%nat then sample_count st' = 64
        else sample_count st' = Z.of_nat ((n + 1) mod 65) - 1 /\ (l ++ [x]) !! (65 * ((n + 1) / 65))%nat = Some (current_counted_sample st') /\
          apt_repetition_count st' = occurrences (current_counted_sample st') (window (l ++ [x])) /\ apt_repetition_count st' <= cutoff).
    { intros st' E1 E2 E3 E4. destruct (Nat.eq_dec (n mod 65)%nat 64%nat) as [H64 | H64].
      - rewrite <- (Nat.mod_unique (n + 1) 65 (n / 65 + 1)%nat 0) by lia. cbn [Nat.eqb]. lia.
      - rewrite <- (Nat.mod_unique (n + 1) 65 (n / 65)%nat (n mod 65 + 1)%nat), <- (Nat.div_unique (n + 1) 65 (n / 65)%nat (n mod 65 + 1)%nat) by lia.
        rewrite (proj2 (Nat.eqb_neq _ _)) by lia. rewrite Ew by done. rewrite E2.
        split_and!; [lia | by rewrite lookup_app_l by (fold n; lia) | done | done]. }
    assert (Ecnt : u32 (Z.of_nat (n mod 65) - 1 + 1) = Z.of_nat (n mod 65)) by (unfold wrap; rewrite Z.mod_small; lia).
    rewrite Ecnt. pose proof (occurrences_snoc (current_counted_sample st) (window l) x) as Eo.
    rewrite (Z.eqb_sym x). destruct (current_counted_sample st =? x) eqn:Ex.
    + assert (Erep : u32 (apt_repetition_count st + 1) = apt_repetition_count st + 1).
      { unfold wrap. apply Z.mod_small. unfold occurrences in Er. lia. }
      rewrite Erep. destruct (Z.ltb_spec cutoff (apt_repetition_count st + 1)).
      * intros H'. specialize (H' Hnz _ EA). lia.
      * split; [intros _ A HA; assert (A = current_counted_sample st) as -> by congruence; lia |].
        apply Hnext; cbn [sample_count current_counted_sample apt_repetition_count]; (done || lia).
    + split; [intros _ A HA; assert (A = current_counted_sample st) as -> by congruence; lia |].
      apply Hnext; cbn [sample_count current_counted_sample apt_repetition_count]; (done || lia).
Qed.

(** *** Both *)

Definition health_inv (l : list Z) (st : entropy_state) : Prop :=
  repetition_inv l st /\ proportion_inv l st /\ get_entropy_rc st = None.

Lemma health_start : health_inv [] entropy_state0.
Proof using Type. done. Qed.

Lemma test_step_ok l st x :
  2 <= C < 2 ^ 32 -> 0 <= cutoff < 2 ^ 31 -> repetition_ok l -> proportion_ok l -> health_inv l st ->
  let '(rc, st') := test_step st x in
  if rc is None then repetition_ok (l ++ [x]) /\ proportion_ok (l ++ [x]) /\ health_inv (l ++ [x]) st'
  else get_entropy_rc st' = rc /\ ~ (repetition_ok (l ++ [x]) /\ proportion_ok (l ++ [x])).
Proof using Type.
  intros HC Hc Hr Hp (Hi1 & Hi2 & Hrc). unfold test_step.
  pose proof (repetition_ok_snoc l x ltac:(lia)) as E1. pose proof (proportion_ok_snoc l x ltac:(lia)) as E2.
  pose proof (repetition_step l st x HC Hi1) as H1.
  assert (Hkeep : let '(_, st') := repetition_count_test min_entropy st x in
    get_entropy_rc st' = None /\ proportion_inv l st').
  { unfold repetition_count_test. destruct (_ && _); cbn; done. }
  destruct (repetition_count_test min_entropy st x) as [rc1 st1]. destruct Hkeep as [Hrc1 Hi2'].
  destruct (bool_decide_reflect (Z.of_nat (run_length x (reverse (l ++ [x]))) < C)) as [Hlt | Hge].
  2: { subst rc1. split; [done |]. rewrite E1. intros [[_ H'] _]. lia. }
  destruct H1 as [-> Hi1']. pose proof (proportion_step l st1 x Hc Hi2') as H2.
  assert (Hkeep : let '(_, st') := adaptive_proportion_test min_entropy st1 x in
    get_entropy_rc st' = None /\ repetition_inv (l ++ [x]) st').
  { unfold adaptive_proportion_test. repeat case_match; simplify_eq; done. }
  destruct (adaptive_proportion_test min_entropy st1 x) as [[e |] st2].
  - split; [done |]. rewrite E2. intros [_ [_ H']]. by apply H2.
  - destruct H2 as [Hw Hi2'']. destruct Hkeep as [Hrc2 Hi1'']. rewrite E1, E2. split_and!; done.
Qed.

Lemma test_run_ok l :
  2 <= C < 2 ^ 32 -> 0 <= cutoff < 2 ^ 31 ->
  let '(rc, st) := test_run entropy_state0 l in
  if rc is None then repetition_ok l /\ proportion_ok l /\ health_inv l st
  else get_entropy_rc st = rc /\ ~ (repetition_ok l /\ proportion_ok l).
Proof using Type.
  intros HC Hc. induction l as [| x l IH] using rev_ind.
  - cbn [test_run]. split_and!; [| | apply health_start].
    + intros a x b E. apply (f_equal length) in E. rewrite !length_app, length_replicate in E. cbn in E. lia.
    + intros k A HA. done.
  - rewrite test_run_snoc. destruct (test_run entropy_state0 l) as [[e |] st].
    + destruct IH as [IH1 IH2]. split; [done |]. rewrite repetition_ok_snoc, proportion_ok_snoc by lia.
      intros [[H1 _] [H2 _]]. by apply IH2.
    + destruct IH as (H1 & H2 & H3). exact (test_step_ok l st x HC Hc H1 H2 H3).
Qed.
End Health.

(** The cutoffs for sources of one to eight bits a sample, which the link-time
    assertions ask for. *)
Lemma cutoff_ranges m :
  2 ^ 16 <= m <= 2 ^ 19 ->
  4 <= repetition_count_cutoff m <= 31 /\ 5 <= adaptive_proportion_cutoff m <= 51.
Proof.
  intros Hm. split.
  - unfold repetition_count_cutoff. rewrite Z.ltb_irrefl. change (MIN_ENTROPY 30) with 1966080.
    assert (3 <= 1966080 / m <= 30).
    { split; [apply Z.div_le_lower_bound; lia | apply Z.div_le_upper_bound; lia]. }
    unfold wrap. rewrite Z.mod_small; lia.
  - unfold adaptive_proportion_cutoff. change MIN_ENTROPY_SCALE with (2 ^ 16).
    assert (Hh : 1 <= m / 2 ^ 16 <= 8).
    { split; [apply Z.div_le_lower_bound; lia | apply Z.div_le_upper_bound; lia]. }
    assert (m / 2 ^ 16 = 1 \/ m / 2 ^ 16 = 2 \/ m / 2 ^ 16 = 3 \/ m / 2 ^ 16 = 4 \/ m / 2 ^ 16 = 5 \/ m / 2 ^ 16 = 6 \/
      m / 2 ^ 16 = 7 \/ m / 2 ^ 16 = 8) as Hcases by lia.
    repeat destruct Hcases as [-> | Hcases]; [.. | rewrite Hcases]; vm_compute; split; discriminate.
Qed.

(** ** Drawing samples *)

Section Draw.
Context {W : Type} `{!EntropySource W}.

(** The next [n] samples of a source that does not fail. *)
Fixpoint noise_run (n : nat) (w : W) : option (list Z * W) :=
  match n with
  | O => Some ([], w)
  | S n =>
      match get_noise w with
      | (None, x, w) => '(l, w) ← noise_run n w; Some (x :: l, w)
      | (Some _, _, _) => None
      end
  end.

Fixpoint draw (n : nat) : M (entropy_state * W) (list Z) :=
  match n with
  | O => mret []
  | S n => x ← get_entropy; l ← draw n; mret (x :: l)
  end.

Lemma get_entropy_step st w x w' :
  get_entropy_rc st = None -> get_noise w = (None, x, w') ->
  get_entropy (st, w) = match test_step min_entropy_per_sample st x with
                        | (None, st) => Done x (st, w')
                        | (Some e, st) => Failed e (st, w')
                        end.
Proof using Type.
  intros Hrc En. unfold get_entropy, test_step. rewrite Hrc, En.
  destruct (repetition_count_test _ _ _) as [[e |] st1]; [done |].
  by destruct (adaptive_proportion_test _ _ _) as [[e |] st2].
Qed.

Lemma test_step_rc st x :
  get_entropy_rc st = None ->
  get_entropy_rc (test_step min_entropy_per_sample st x).2 = (test_step min_entropy_per_sample st x).1.
Proof using Type.
  intros Hrc. unfold test_step, repetition_count_test, adaptive_proportion_test. repeat case_match; simplify_eq; done.
Qed.

Lemma draw_ok n st w l w' :
  get_entropy_rc st = None -> noise_run n w = Some (l, w') ->
  match test_run min_entropy_per_sample st l with
  | (None, st') => draw n (st, w) = Done l (st', w')
  | (Some e, st') => exists w'', draw n (st, w) = Failed e (st', w'')
  end.
Proof using Type.
  revert st w l. induction n as [| n IH]; intros st w l Hrc En; cbn [noise_run draw] in *.
  { injection En as <- <-. done. }
  destruct (get_noise w) as [[[e |] x] w1] eqn:Ew; [done |].
  destruct (noise_run n w1) as [[l1 w2] |] eqn:E1; [| done]. cbn in En. injection En as <- <-.
  pose proof (get_entropy_step st w x w1 Hrc Ew) as Eg. pose proof (test_step_rc st x Hrc) as Hrc1. cbn [test_run].
  destruct (test_step min_entropy_per_sample st x) as [[e |] st1]; cbn [fst snd] in Hrc1.
  - exists w1. by apply M_bind_failed.
  - rewrite (M_bind_done _ _ _ _ _ Eg). specialize (IH st1 w1 l1 Hrc1 E1).
    destruct (test_run min_entropy_per_sample st1 l1) as [[e |] st2].
    + destruct IH as [w'' IH]. exists w''. by apply M_bind_failed.
    + by rewrite (M_bind_done _ _ _ _ _ IH).
Qed.

(** C17. The continuous health tests are exact.  Over a working noise source of
    one to eight bits a sample, from the initial state, [n] calls of
    [get_entropy] all succeed, and return the samples of the source, exactly when
    no sample appears as often in a row as the repetition count cutoff and, in
    every window of a sample and the 64 after it, the first one recurs at most as
    often as the adaptive proportion cutoff; otherwise some call fails, and then
    every later call fails with the same error without asking the source. *)
Theorem health_tests_correct n w l w' :
  2 ^ 16 <= min_entropy_per_sample <= 2 ^ 19 -> noise_run n w = Some (l, w') ->
  let ok := repetition_ok min_entropy_per_sample l /\ proportion_ok min_entropy_per_sample l in
  (ok -> exists st, draw n (entropy_state0, w) = Done l (st, w')) /\
  (~ ok -> exists e st w'', draw n (entropy_state0, w) = Failed e (st, w'') /\
    forall w, get_entropy (st, w) = Failed e (st, w)).
Proof using Type.
  intros Hm En ok. destruct (cutoff_ranges _ Hm) as [HC Hc].
  assert (HC' : 2 <= repetition_count_cutoff min_entropy_per_sample < 2 ^ 32) by lia.
  assert (Hc' : 0 <= adaptive_proportion_cutoff min_entropy_per_sample < 2 ^ 31) by lia.
  pose proof (test_run_ok _ l HC' Hc') as Ht.
  pose proof (draw_ok n entropy_state0 w l w' eq_refl En) as Hd.
  destruct (test_run min_entropy_per_sample entropy_state0 l) as [[e |] st].
  - destruct Ht as [Hrc Hnot], Hd as [w'' Hd]. split; [by intros |]. intros _. exists e, st, w''.
    split; [done |]. intros w0. unfold get_entropy. by rewrite Hrc.
  - destruct Ht as (H1 & H2 & _). split; [by exists st |]. intros Hno. by destruct Hno.
Qed.
End Draw.

(** A source that replays a list, and fails at its end. *)
Definition replay (min_entropy : Z) : EntropySource (list Z) := {|
  min_entropy_per_sample := min_entropy;
  entropy_enable w := (None, w);
  entropy_disable w := w;
  get_noise w := match w with [] => (Some ENOENT, 0, []) | x :: w => (None, x, w) end
|}.

(** Four bits a sample. *)
#[global] Instance replay_source : EntropySource (list Z) := replay (2 ^ 18).

(** Eight equal samples are one too many: the cutoff is 1 + 30/4, rounded down. *)
Lemma health_tests_correct_witness :
  repetition_count_cutoff 262144 = 8 /\
  (exists st, draw 7 (entropy_state0, replicate 7 1) = Done (replicate 7 1) (st, [])) /\
  (exists e st w, draw 8 (entropy_state0, replicate 8 1) = Failed e (st, w) /\ forall w, get_entropy (st, w) = Failed e (st, w)).
Proof.
  assert (Hm : 2 ^ 16 <= min_entropy_per_sample (W := list Z) <= 2 ^ 19) by (split; vm_compute; discriminate).
  split; [reflexivity |]. split.
  - apply (proj1 (health_tests_correct 7 (replicate 7 1) (replicate 7 1) [] Hm eq_refl)). split.
    + intros a x b E. apply (f_equal length) in E. rewrite !length_app, !length_replicate in E.
      change (Z.to_nat (repetition_count_cutoff min_entropy_per_sample)) with 8%nat in E. lia.
    + intros [| k] A HA; [| apply lookup_lt_Some in HA; rewrite length_replicate in HA; lia].
      cbn in HA. injection HA as <-. vm_compute. discriminate.
  - apply (proj2 (health_tests_correct 8 (replicate 8 1) (replicate 8 1) [] Hm eq_refl)).
    intros [H _]. apply (H [] 1 []). vm_compute. reflexivity.
Defined.

(** ** Entropy input *)

(** The condensed samples: every one hashed with its own nonce. *)
Fixpoint condensed (H : bytes -> bytes) (n : Z) (samples : list Z) (tmp : bytes) : bytes :=
  match samples with
  | [] => tmp
  | x :: samples =>
      condensed H (u32 (n + 1)) samples (xor tmp (Hash_df H 32 (le_bytes 4 (u32 (n + 1)) ++ [x]) (length tmp)))
  end.

Section Input.
Context {W : Type} `{!EntropySource W}.
Context (size_bits : Z) (local : digest_context) (uninitialised : nat -> bytes).
Hypothesis Hsize : size_bits = 32 \/ size_bits = 64.
Hypothesis Hlocal : usable sha256_algorithm local.
Hypothesis Huninit : forall n, length (uninitialised n) = n.
Hypothesis Hmin : 2 ^ 16 <= min_entropy_per_sample <= 2 ^ 19.

Abbreviation hash256 := (Standard.hash Standard.SHA256).

Definition healthy (l : list Z) : Prop :=
  repetition_ok min_entropy_per_sample l /\ proportion_ok min_entropy_per_sample l.

(** The state after the samples [p], all accepted. *)
Definition gathered (p : list Z) (st : entropy_state) : Prop := healthy p /\ health_inv min_entropy_per_sample p st.

Lemma healthy_prefix p l : healthy (p ++ l) -> healthy p.
Proof using Hmin.
  destruct (cutoff_ranges _ Hmin) as [HC Hc].
  induction l as [| x l IH] using rev_ind; [by rewrite app_nil_r |].
  unfold healthy. rewrite app_assoc, repetition_ok_snoc, proportion_ok_snoc by lia. intros [[H1 _] [H2 _]]. by apply IH.
Qed.

Lemma get_entropy_ok p st w x w' :
  gathered p st -> get_noise w = (None, x, w') ->
  (exists st', get_entropy (st, w) = Done x (st', w') /\ gathered (p ++ [x]) st' /\
    nonce st' = nonce st /\ startup_tested st' = startup_tested st) \/
  (~ healthy (p ++ [x]) /\ exists e st', get_entropy (st, w) = Failed e (st', w') /\ get_entropy_rc st' = Some e).
Proof using Hmin.
  intros [[Hr Hp] Hinv] En. destruct (cutoff_ranges _ Hmin) as [HC Hc].
  assert (HC' : 2 <= repetition_count_cutoff min_entropy_per_sample < 2 ^ 32) by lia.
  assert (Hc' : 0 <= adaptive_proportion_cutoff min_entropy_per_sample < 2 ^ 31) by lia.
  pose proof (test_step_ok _ p st x HC' Hc' Hr Hp Hinv) as Ht.
  pose proof (get_entropy_step st w x w' (proj2 (proj2 Hinv)) En) as Eg.
  assert (Hkeep : nonce (test_step min_entropy_per_sample st x).2 = nonce st /\
    startup_tested (test_step min_entropy_per_sample st x).2 = startup_tested st).
  { unfold test_step, repetition_count_test, adaptive_proportion_test. repeat case_match; simplify_eq; done. }
  destruct (test_step min_entropy_per_sample st x) as [[e |] st1]; cbn [fst snd] in Hkeep.
  - right. destruct Ht as [Hrc Hno]. split; [exact Hno |]. by exists e, st1.
  - left. destruct Ht as (H1 & H2 & H3). exists st1. split; [done |]. split; [split; [split |]; done |]. done.
Qed.

(** The loops draw the samples of the source while these are accepted. *)
Lemma startup_loop_ok fuel p st w l w' :
  gathered p st -> 0 <= startup_tested st ->
  startup_test_count min_entropy_per_sample - startup_tested st <= Z.of_nat fuel ->
  noise_run (Z.to_nat (startup_test_count min_entropy_per_sample - startup_tested st)) w = Some (l, w') ->
  (exists st', startup_loop fuel (st, w) = Done tt (st', w') /\ gathered (p ++ l) st' /\ nonce st' = nonce st /\
    startup_tested st' = Z.max (startup_tested st) (startup_test_count min_entropy_per_sample)) \/
  (~ healthy (p ++ l) /\ exists e st' w'', startup_loop fuel (st, w) = Failed e (st', w'') /\ get_entropy_rc st' = Some e).
Proof using Hmin.
  destruct (cutoff_ranges _ Hmin) as [HC Hc].
  assert (Hsc : 0 <= startup_test_count min_entropy_per_sample < 2 ^ 31).
  { unfold startup_test_count. destruct (_ <? _); lia. }
  set (sc := startup_test_count min_entropy_per_sample) in *.
  revert p st w l. induction fuel as [| fuel IH]; intros p st w l Hg Ht Hf En; cbn [startup_loop]; fold sc;
    destruct (Z.ltb_spec (startup_tested st) sc) as [Hlt | Hge]; try lia.
  1, 3: replace (Z.to_nat (sc - startup_tested st)) with 0%nat in En by lia; cbn [noise_run] in En; injection En as <- <-;
    left; exists st; rewrite app_nil_r; split_and!; try done; lia.
  replace (Z.to_nat (sc - startup_tested st)) with (S (Z.to_nat (sc - (startup_tested st + 1)))) in En by lia. cbn [noise_run] in En.
  destruct (get_noise w) as [[[e |] x] w1] eqn:Ew; [done |].
  destruct (noise_run _ w1) as [[l1 w2] |] eqn:E1; [| done]. cbn in En. injection En as <- <-.
  destruct (get_entropy_ok p st w x w1 Hg Ew) as [(st1 & Eg & Hg1 & Hn1 & Ht1) | (Hno & e & st1 & Eg & Hrc)].
  - rewrite (M_bind_done _ _ _ _ _ Eg). unfold count_startup. cbn [mbind M_bind]. unfold mbind, M_bind.
    set (st2 := EntropyState _ _ _ _ _ _ _ _).
    assert (Ht2 : startup_tested st2 = startup_tested st + 1).
    { unfold st2. cbn. rewrite Ht1. unfold wrap. apply Z.mod_small. lia. }
    assert (Hg2 : gathered (p ++ [x]) st2) by exact Hg1.
    destruct (IH (p ++ [x]) st2 w1 l1 Hg2 ltac:(lia) ltac:(lia)) as [(st3 & E3 & Hg3 & Hn3 & Ht3) | (Hno & e & st3 & w3 & E3 & Hrc)].
    + by rewrite Ht2.
    + left. exists st3. rewrite <- app_assoc in Hg3. refine (conj E3 (conj Hg3 (conj _ _))); [by rewrite Hn3 | lia].
    + right. rewrite <- app_assoc in Hno. split; [exact Hno |]. by exists e, st3, w3.
  - right. split.
    + intros Hh. apply Hno. apply (healthy_prefix (p ++ [x]) l1). by rewrite <- app_assoc.
    + exists e, st1, w1. split; [| done]. by apply M_bind_failed.
Qed.

Lemma sha256_is_digest : inhabited (IsDigest size_bits sha256_algorithm hash256).
Proof using Hsize. apply digests_are_digests; [do 4 right; left | exact Hsize]. Qed.

Lemma hash_df_sha256_ok input output n :
  Forall is_byte input -> zlen input < 2 ^ 16 -> 0 <= n <= zlen output ->
  hash_df size_bits sha256_algorithm local (uninitialised 32) input output n =
    Ok (splice output 0 (Hash_df hash256 32 input (Z.to_nat n))).
Proof using Hsize Hlocal Huninit.
  intros Hb Hl Hn. destruct sha256_is_digest as [D]. pose proof (digest_limit_min (IsDigest := D)).
  apply (hash_df_ok size_bits sha256_algorithm hash256); [done | done | lia | done | apply Huninit | done].
Qed.

Lemma length_Hash_df input n : Forall is_byte input -> length (Hash_df hash256 32 input n) = n.
Proof using Hsize.
  intros Hb. destruct sha256_is_digest as [D]. unfold Hash_df. rewrite length_take, (length_concat_same _ 32).
  - rewrite length_fmap, length_seq. pose proof (Nat.div_mod n 32 ltac:(lia)). pose proof (Nat.mod_upper_bound n 32 ltac:(lia)). lia.
  - apply Forall_fmap, Forall_forall. intros i _. apply (digest_hash_bytes (IsDigest := D)).
    apply Forall_cons_2; [apply (wrap_range 8); lia |]. apply Forall_app. split; [apply (encode_word_bytes true) | done].
Qed.

Lemma Hash_df_bytes input n : Forall is_byte input -> Forall is_byte (Hash_df hash256 32 input n).
Proof using Hsize.
  intros Hb. destruct sha256_is_digest as [D]. unfold Hash_df. apply Forall_take, Forall_concat, Forall_fmap, Forall_forall.
  intros i _. apply (digest_hash_bytes (IsDigest := D)).
  apply Forall_cons_2; [apply (wrap_range 8); lia |]. apply Forall_app. split; [apply (encode_word_bytes true) | done].
Qed.

Lemma sample_loop_ok k p st w l w' tmp :
  gathered p st -> noise_run k w = Some (l, w') -> Forall is_byte l ->
  (exists st', sample_loop size_bits local uninitialised k tmp (st, w) = Done (condensed hash256 (nonce st) l tmp) (st', w') /\
    gathered (p ++ l) st' /\ startup_tested st' = startup_tested st) \/
  (~ healthy (p ++ l) /\ exists e st' w'', sample_loop size_bits local uninitialised k tmp (st, w) = Failed e (st', w'') /\
    get_entropy_rc st' = Some e).
Proof using Hsize Hlocal Huninit Hmin.
  revert p st w l tmp. induction k as [| k IH]; intros p st w l tmp Hg En Hl; cbn [noise_run sample_loop] in *.
  { injection En as <- <-. left. exists st. rewrite app_nil_r. done. }
  destruct (get_noise w) as [[[e |] x] w1] eqn:Ew; [done |].
  destruct (noise_run k w1) as [[l1 w2] |] eqn:E1; [| done]. cbn in En. injection En as <- <-.
  apply Forall_cons_1 in Hl as [Hx Hl].
  destruct (get_entropy_ok p st w x w1 Hg Ew) as [(st1 & Eg & Hg1 & Hn1 & Ht1) | (Hno & e & st1 & Eg & Hrc)].
  - rewrite (M_bind_done _ _ _ _ _ Eg). erewrite (M_bind_done _ make_next_nonce) by reflexivity.
    set (st2 := EntropyState _ _ _ _ _ _ _ _). rewrite Hn1.
    assert (Hib : Forall is_byte (le_bytes 4 (u32 (nonce st + 1)) ++ [x])).
    { apply Forall_app. split; [apply le_bytes_bytes | by apply Forall_cons_2]. }
    rewrite (M_bind_done _ _ (Hash_df hash256 32 (le_bytes 4 (u32 (nonce st + 1)) ++ [x]) (length tmp)) _ (st2, w1)).
    2: { unfold lift. rewrite hash_df_sha256_ok; [| done | | rewrite Huninit; lia].
      - rewrite splice_whole by (rewrite length_Hash_df by done; rewrite Huninit, Nat2Z.id; done). by rewrite Nat2Z.id.
      - rewrite length_app, length_le_bytes. cbn [length]. lia. }
    assert (Hn2 : nonce st2 = u32 (nonce st + 1)) by (unfold st2; cbn; by rewrite Hn1).
    cbn [condensed]. fold (xor tmp (Hash_df hash256 32 (le_bytes 4 (u32 (nonce st + 1)) ++ [x]) (length tmp))).
    assert (Hg2 : gathered (p ++ [x]) st2) by exact Hg1.
    destruct (IH (p ++ [x]) st2 w1 l1 (xor tmp (Hash_df hash256 32 (le_bytes 4 (u32 (nonce st + 1)) ++ [x]) (length tmp))) Hg2 E1 Hl)
      as [(st3 & E3 & Hg3 & Ht3) | (Hno & e & st3 & w3 & E3 & Hrc)].
    + left. exists st3. rewrite Hn2 in E3. rewrite <- app_assoc in Hg3. split; [exact E3 |]. split; [exact Hg3 |]. by rewrite Ht3.
    + right. rewrite <- app_assoc in Hno. split; [exact Hno |]. exists e, st3, w3. split; [exact E3 | done].
  - right. split.
    + intros Hh. apply Hno. apply (healthy_prefix (p ++ [x]) l1). by rewrite <- app_assoc.
    + exists e, st1, w1. split; [| done]. by apply M_bind_failed.
Qed.

Lemma noise_run_app a b w l w' :
  noise_run (a + b) w = Some (l, w') ->
  exists l1 w1 l2, l = l1 ++ l2 /\ length l1 = a /\ noise_run a w = Some (l1, w1) /\ noise_run b w1 = Some (l2, w').
Proof using Type.
  revert w l. induction a as [| a IH]; intros w l E; cbn [Nat.add noise_run] in *; [by exists [], w, l |].
  destruct (get_noise w) as [[[e |] x] w1]; [done |].
  destruct (noise_run (a + b) w1) as [[l' w2] |] eqn:E1; [| done]. cbn in E. injection E as <- <-.
  destruct (IH _ _ E1) as (l1 & w3 & l2 & -> & Hl & E2 & E3). exists (x :: l1), w3, l2. cbn. rewrite E2. cbn.
  split_and!; [done | lia | done | done].
Qed.

Lemma condensed_bytes n l tmp :
  Forall is_byte l -> Forall is_byte tmp ->
  length (condensed hash256 n l tmp) = length tmp /\ Forall is_byte (condensed hash256 n l tmp).
Proof using Hsize.
  intros Hl. revert n tmp. induction Hl as [| x l Hx Hl IH]; intros n tmp Ht; cbn [condensed]; [done |].
  set (df := Hash_df _ _ _ _).
  assert (Hi : Forall is_byte (le_bytes 4 (u32 (n + 1)) ++ [x])).
  { apply Forall_app. split; [apply le_bytes_bytes | by apply Forall_cons_2]. }
  assert (Hdl : length df = length tmp) by (by apply length_Hash_df).
  assert (Hdb : Forall is_byte df) by (by apply Hash_df_bytes).
  assert (Hxl : length (xor tmp df) = length tmp) by (unfold xor; rewrite length_zip_with; lia).
  rewrite <- Hxl. by apply IH, xor_bytes.
Qed.

(** The samples a call needs: start-up tests not yet done, and the entropy. *)
Definition startup_left (st : entropy_state) : nat :=
  Z.to_nat (startup_test_count min_entropy_per_sample - startup_tested st).

Lemma input_tmp_ok p st w w1 num_samples tmp_len l w2 :
  gathered p st -> 0 <= startup_tested st -> entropy_enable w = (None, w1) ->
  noise_run (startup_left st + Z.to_nat num_samples) w1 = Some (l, w2) -> Forall is_byte l ->
  (exists st', get_entropy_input_tmp size_bits local uninitialised num_samples tmp_len (st, w) =
      Done (condensed hash256 (nonce st) (drop (startup_left st) l) (replicate (Z.to_nat tmp_len) 0)) (st', entropy_disable w2) /\
    gathered (p ++ l) st' /\ startup_tested st' = Z.max (startup_tested st) (startup_test_count min_entropy_per_sample)) \/
  (~ healthy (p ++ l) /\ exists e st' w3, get_entropy_input_tmp size_bits local uninitialised num_samples tmp_len (st, w) =
      Failed e (st', entropy_disable w3) /\ get_entropy_rc st' = Some e).
Proof using Hsize Hlocal Huninit Hmin.
  intros Hg Ht Ee En Hl. destruct (noise_run_app _ _ _ _ _ En) as (l1 & w3 & l2 & -> & Hll & E1 & E2).
  apply Forall_app in Hl as [Hl1 Hl2]. unfold get_entropy_input_tmp. rewrite Ee.
  rewrite drop_app_length' by done. rewrite app_assoc.
  assert (Hfuel : startup_test_count min_entropy_per_sample - startup_tested st <=
    Z.of_nat (Z.to_nat (startup_test_count min_entropy_per_sample))) by lia.
  destruct (startup_loop_ok _ p st w1 l1 w3 Hg Ht Hfuel E1)
    as [(st1 & Es & Hg1 & Hn1 & Ht1) | (Hno & e & st1 & w4 & Es & Hrc)].
  - rewrite (M_bind_done _ _ _ _ _ Es).
    destruct (sample_loop_ok (Z.to_nat num_samples) (p ++ l1) st1 w3 l2 w2 (replicate (Z.to_nat tmp_len) 0) Hg1 E2 Hl2)
      as [(st2 & Ea & Hg2 & Ht2) | (Hno & e & st2 & w4 & Ea & Hrc)]; rewrite Ea.
    + left. exists st2. rewrite Hn1. split; [done |]. split; [exact Hg2 |]. by rewrite Ht2.
    + right. split; [exact Hno |]. by exists e, st2, w4.
  - rewrite (M_bind_failed _ _ _ _ _ Es). right. split; [| by exists e, st1, w4].
    intros Hh. apply Hno. exact (healthy_prefix _ _ Hh).
Qed.

(** The entropy input of a call, from its samples. *)
Definition entropy_input (n : Z) (samples : list Z) (bits min_len max_len : Z) : bytes :=
  let tmp_len := bits / 4 in
  let tmp := condensed hash256 n samples (replicate (Z.to_nat tmp_len) 0) in
  if tmp_len <? min_len then tmp ++ replicate (Z.to_nat (min_len - tmp_len)) 0
  else if max_len <? tmp_len then Hash_df hash256 32 tmp (Z.to_nat max_len)
  else tmp.

Lemma entropy_lengths bits :
  0 < bits <= 256 -> bits mod 8 = 0 ->
  u32 (u32 (bits * 2) + 7) / 8 = bits / 4 /\ Z.land (u32 (bits + 7)) (u32 (Z.lnot 7)) = bits.
Proof using Type.
  intros Hb Hm. pose proof (Z.div_mod bits 8 ltac:(lia)) as Hd.
  assert (Hk : In (Z.to_nat (bits / 8)) (seq 1 32)) by (apply in_seq; lia).
  replace bits with (8 * Z.of_nat (Z.to_nat (bits / 8))) by lia. revert Hk. generalize (Z.to_nat (bits / 8)). clear.
  intros k Hk. assert (Hall : forallb (fun k => let b := 8 * Z.of_nat k in
    (u32 (u32 (b * 2) + 7) / 8 =? b / 4) && (Z.land (u32 (b + 7)) (u32 (Z.lnot 7)) =? b)) (seq 1 32) = true) by reflexivity.
  rewrite forallb_forall in Hall. specialize (Hall k Hk). cbn beta zeta in Hall.
  apply andb_true_iff in Hall as [H1 H2]. by apply Z.eqb_eq in H1, H2.
Qed.

Lemma length_entropy_input n samples bits min_len max_len :
  Forall is_byte samples -> 0 < bits -> 0 <= min_len <= max_len ->
  zlen (entropy_input n samples bits min_len max_len) =
    (if bits / 4 <? min_len then min_len else if max_len <? bits / 4 then max_len else bits / 4) /\
  Forall is_byte (entropy_input n samples bits min_len max_len).
Proof using Hsize.
  intros Hs Hb Hl. unfold entropy_input. pose proof (Z.div_pos bits 4 ltac:(lia) ltac:(lia)).
  destruct (condensed_bytes n samples (replicate (Z.to_nat (bits / 4)) 0) Hs) as [Hc1 Hc2].
  { apply Forall_replicate. split; [lia | reflexivity]. }
  rewrite length_replicate in Hc1. destruct (Z.ltb_spec (bits / 4) min_len); [| destruct (Z.ltb_spec max_len (bits / 4))].
  - rewrite length_app, Hc1, length_replicate. split; [lia |]. apply Forall_app. split; [done |].
    apply Forall_replicate. split; [lia | reflexivity].
  - rewrite length_Hash_df by done. split; [lia | by apply Hash_df_bytes].
  - split; [lia | done].
Qed.

Lemma get_entropy_input_ok bits data min_len max_len p st w w1 l w2 :
  0 < bits <= 256 -> bits mod 8 = 0 -> 0 <= min_len <= max_len -> max_len <= zlen data ->
  gathered p st -> 0 <= startup_tested st -> entropy_enable w = (None, w1) ->
  noise_run (startup_left st + Z.to_nat (entropy_num_samples bits)) w1 = Some (l, w2) -> Forall is_byte l ->
  (exists st', get_entropy_input size_bits local uninitialised bits data min_len max_len (st, w) =
      (let input := entropy_input (nonce st) (drop (startup_left st) l) bits min_len max_len in
       Done (splice data 0 input, zlen input) (st', entropy_disable w2)) /\
    gathered (p ++ l) st' /\ startup_tested st' = Z.max (startup_tested st) (startup_test_count min_entropy_per_sample)) \/
  (~ healthy (p ++ l) /\ exists e st' w3, get_entropy_input size_bits local uninitialised bits data min_len max_len (st, w) =
      Failed e (st', entropy_disable w3) /\ get_entropy_rc st' = Some e).
Proof using Hsize Hlocal Huninit Hmin.
  intros Hb Hm8 Hlen Hdata Hg Ht Ee En Hl. destruct (entropy_lengths bits Hb Hm8) as [E1 E2].
  pose proof (Z.div_pos bits 4 ltac:(lia) ltac:(lia)) as Hpos.
  assert (Hle : bits / 4 <= 64) by (apply Z.div_le_upper_bound; lia).
  assert (Hdl : Forall is_byte (drop (startup_left st) l)) by (by apply Forall_drop).
  destruct (length_entropy_input (nonce st) _ bits min_len max_len Hdl ltac:(lia) Hlen) as [El _].
  unfold get_entropy_input. rewrite E1, E2.
  destruct (input_tmp_ok p st w w1 (entropy_num_samples bits) (bits / 4) l w2 Hg Ht Ee En Hl)
    as [(st' & E & Hg' & Ht') | (Hno & e & st' & w3 & E & Hrc)].
  2: { right. split; [done |]. exists e, st', w3. split; [| done]. by apply M_bind_failed. }
  left. exists st'. rewrite (M_bind_done _ _ _ _ _ E). split; [| done]. cbn zeta. rewrite El. clear El. unfold entropy_input.
  set (tmp := condensed _ _ _ _) in *.
  destruct (condensed_bytes (nonce st) (drop (startup_left st) l) (replicate (Z.to_nat (bits / 4)) 0) Hdl) as [Hc1 Hc2].
  { apply Forall_replicate. split; [lia | reflexivity]. }
  fold tmp in Hc1, Hc2. rewrite length_replicate in Hc1.
  destruct (Z.ltb_spec (bits / 4) min_len); [| destruct (Z.ltb_spec max_len (bits / 4))].
  - unfold lift. rewrite wr_range_splice by lia. unfold mbind, M_bind at 1. unfold M_bind.
    replace (bits / 4) with (0 + zlen tmp) at 1 by lia.
    rewrite wr_range_splice by (rewrite ?length_splice, ?length_replicate; lia).
    rewrite splice_splice by (rewrite ?length_replicate; lia). done.
  - unfold lift. rewrite hash_df_sha256_ok by (done || lia). done.
  - unfold lift. rewrite wr_range_splice by lia. done.
Qed.
End Input.

(** C34. Entropy input.  Over a working noise source of one to eight bits a sample,
    in a state reached by accepted samples [p], a request of [bits] (a multiple of
    8, at most 256) draws the start-up samples that are still missing and the
    samples of the request, [l] in all, switches the source off again, and
    - if the health tests accept [p ++ l], returns the exclusive or of the
      Hash_df of every sample with its own nonce, of twice [bits], zero-padded to
      [min_len] or condensed by Hash_df to [max_len];
    - otherwise fails, for good. *)
Theorem get_entropy_input_correct {W : Type} `{!EntropySource W} size_bits local uninitialised bits data min_len max_len p st w w1 l w2 :
  size_bits = 32 \/ size_bits = 64 -> usable sha256_algorithm local -> (forall n, length (uninitialised n) = n) ->
  2 ^ 16 <= min_entropy_per_sample <= 2 ^ 19 ->
  0 < bits <= 256 -> bits mod 8 = 0 -> 0 <= min_len <= max_len -> max_len <= zlen data ->
  gathered p st -> 0 <= startup_tested st -> entropy_enable w = (None, w1) ->
  noise_run (startup_left st + Z.to_nat (entropy_num_samples bits)) w1 = Some (l, w2) -> Forall is_byte l ->
  (healthy (p ++ l) -> exists st', get_entropy_input size_bits local uninitialised bits data min_len max_len (st, w) =
      (let input := entropy_input (nonce st) (drop (startup_left st) l) bits min_len max_len in
       Done (splice data 0 input, zlen input) (st', entropy_disable w2)) /\ gathered (p ++ l) st') /\
  (~ healthy (p ++ l) -> exists e st' w3,
      get_entropy_input size_bits local uninitialised bits data min_len max_len (st, w) = Failed e (st', entropy_disable w3) /\
      forall w, get_entropy (st', w) = Failed e (st', w)).
Proof.
  intros Hs Hu Hun Hm Hb Hm8 Hlen Hdata Hg Ht Ee En Hl.
  destruct (get_entropy_input_ok size_bits local uninitialised Hs Hu Hun Hm bits data min_len max_len p st w w1 l w2
    Hb Hm8 Hlen Hdata Hg Ht Ee En Hl) as [(st' & E & Hg' & _) | (Hno & e & st' & w3 & E & Hrc)].
  - split; [by exists st' |]. intros Hno. exfalso. apply Hno, Hg'.
  - split; [done |]. intros _. exists e, st', w3. split; [exact E |]. intros w0. unfold get_entropy. by rewrite Hrc.
Qed.

(** 128 bits from a source that counts, with sixteen samples of start-up tests. *)
Definition counting : list Z := Z.of_nat <$> seq 0 48.

Lemma replay_healthy l : (test_run (2 ^ 18) entropy_state0 l).1 = None -> healthy l.
Proof.
  assert (HC : 2 <= repetition_count_cutoff (2 ^ 18) < 2 ^ 32) by (vm_compute; split; (discriminate || reflexivity)).
  assert (Hc : 0 <= adaptive_proportion_cutoff (2 ^ 18) < 2 ^ 31) by (vm_compute; split; (discriminate || reflexivity)).
  pose proof (test_run_ok (2 ^ 18) l HC Hc) as Ht. destruct (test_run (2 ^ 18) entropy_state0 l) as [rc st]. cbn [fst].
  intros ->. destruct Ht as (H1 & H2 & _). exact (conj H1 H2).
Qed.

Lemma counting_healthy : healthy ([] ++ counting).
Proof. apply replay_healthy. vm_compute. reflexivity. Qed.

Lemma counting_run :
  noise_run (startup_left entropy_state0 + Z.to_nat (entropy_num_samples 128)) counting = Some (counting, []).
Proof. vm_compute. reflexivity. Qed.

Lemma counting_min : 2 ^ 16 <= min_entropy_per_sample (W := list Z) <= 2 ^ 19.
Proof. split; vm_compute; discriminate. Qed.

Lemma get_entropy_input_correct_witness :
  let local := DigestContext 0 0 (replicate 96 0) in
  startup_left entropy_state0 = 16%nat /\
  exists st', get_entropy_input 32 local (fun n => replicate n 0) 128 (replicate 32 0) 16 32 (entropy_state0, counting) =
    (let input := entropy_input (nonce entropy_state0) (drop (startup_left entropy_state0) counting) 128 16 32 in
     Done (splice (replicate 32 0) 0 input, zlen input) (st', entropy_disable [])) /\ gathered ([] ++ counting) st'.
Proof.
  intros local. split; [reflexivity |].
  assert (Hl : usable sha256_algorithm local) by (split; [reflexivity | apply Forall_replicate; split; [lia | reflexivity]]).
  assert (Hg : gathered [] entropy_state0) by (split; [exact (healthy_prefix counting_min [] counting counting_healthy) | apply health_start]).
  assert (Hb : Forall is_byte counting).
  { apply Forall_fmap, Forall_forall. intros n Hn. apply elem_of_seq in Hn. unfold in_range. cbn. lia. }
  exact (proj1 (get_entropy_input_correct 32 local (fun n => replicate n 0) 128 (replicate 32 0) 16 32 [] entropy_state0
    counting counting counting [] (or_introl eq_refl) Hl (fun n => length_replicate n 0) counting_min ltac:(lia) eq_refl
    ltac:(lia) ltac:(vm_compute; discriminate) Hg ltac:(vm_compute; discriminate) eq_refl counting_run Hb) counting_healthy).
Defined.

(** C35. How much entropy the samples of a request hold.  The number of samples is
    rounded down, not up: the samples never hold more than the requested amount,
    and they hold all of it exactly when the entropy of a sample divides it.  (A
    source of 1.3 bits a sample, as the RTC and EFI sources are, is asked for 98
    samples, of less than 127.5 bits, when 128 bits are requested.) *)
Theorem entropy_num_samples_rounding {W : Type} `{!EntropySource W} bits :
  0 < min_entropy_per_sample -> 0 <= bits < 2 ^ 16 ->
  let n := entropy_num_samples bits in
  n * min_entropy_per_sample <= bits * MIN_ENTROPY_SCALE /\
  (bits * MIN_ENTROPY_SCALE <= n * min_entropy_per_sample <-> (min_entropy_per_sample | bits * MIN_ENTROPY_SCALE)).
Proof.
  intros Hm Hb n. set (m := min_entropy_per_sample) in *. set (e := bits * MIN_ENTROPY_SCALE).
  assert (En : n = e / m).
  { unfold n, entropy_num_samples. rewrite Z.ltb_irrefl. unfold wrap. rewrite Z.mod_small; [done |].
    change MIN_ENTROPY_SCALE with (2 ^ 16). lia. }
  pose proof (Z.div_mod e m ltac:(lia)) as Hd. pose proof (Z.mod_pos_bound e m Hm) as Hr. rewrite En. split; [lia |].
  rewrite <- Z.mod_divide by lia. lia.
Qed.

Lemma entropy_num_samples_rounding_witness :
  let n := @entropy_num_samples _ (replay 85196) 128 in
  n = 98 /\ n * 85196 <= 128 * MIN_ENTROPY_SCALE /\ ~ (128 * MIN_ENTROPY_SCALE <= n * 85196).
Proof.
  intros n. split; [reflexivity |].
  destruct (@entropy_num_samples_rounding _ (replay 85196) 128 ltac:(cbn; lia) ltac:(lia)) as [H1 H2]. split; [exact H1 |].
  intros H3. apply H2 in H3. apply Z.mod_divide in H3; [| discriminate]. vm_compute in H3. discriminate.
Defined.
