(* ===== verification/Drbg.v ===== *)
(** * The random bit generator ([crypto/hmac_drbg.c], [crypto/drbg.c],
      [include/ipxe/hmac_drbg.h], [include/ipxe/drbg.h], [crypto/rbg.c])

    The value and the key of the generator are two arrays of one structure, on
    which the HMAC works in place.  Contexts and arrays on the stack start with
    arbitrary contents ([local], [context], [uninitialised]). *)

From Stdlib Require Import ZArith Lia Bool ZifyBool.
From stdpp Require Import base numbers list.
From S2P Require Import Prelude Bits Digest DigestCorrect DigestStandard Hmac HashDf Entropy.

Local Open Scope Z_scope.

(** ** HMAC_DRBG *)

Abbreviation HMAC_DRBG_MAX_OUTLEN_BYTES := (512 / 8).
Abbreviation HMAC_DRBG_RESEED_INTERVAL := (1024).

(** [state_mem] holds the value and then the key. *)
Record hmac_drbg_state := HmacDrbgState { state_mem : bytes; reseed_counter : Z }.

Abbreviation VALUE := (0).
Abbreviation KEY := (HMAC_DRBG_MAX_OUTLEN_BYTES).

Section HmacDrbg.
Context (size_bits : Z) (local context : digest_context) (hash : digest_algorithm).

Abbreviation outlen := (Z.of_nat (digestsize hash)).

(** K = HMAC ( K, V || single || provided_data ); the output is the key itself. *)
Definition hmac_drbg_update_key (mem : bytes) (data : bytes) (single : Z) : res bytes :=
  '(ctx, mem, out_len) ← hmac_init size_bits hash local context mem KEY outlen;
  value ← rd_range mem VALUE out_len;
  ctx ← hmac_update size_bits hash ctx value;
  ctx ← hmac_update size_bits hash ctx [single];
  ctx ← hmac_update size_bits hash ctx data;
  '(_, mem, _) ← hmac_final size_bits hash local ctx mem KEY out_len KEY;
  Ok mem.

(** V = HMAC ( K, V ) *)
Definition hmac_drbg_update_value (mem : bytes) : res bytes :=
  '(ctx, mem, out_len) ← hmac_init size_bits hash local context mem KEY outlen;
  value ← rd_range mem VALUE out_len;
  ctx ← hmac_update size_bits hash ctx value;
  '(_, mem, _) ← hmac_final size_bits hash local ctx mem KEY out_len VALUE;
  Ok mem.

Definition hmac_drbg_update (mem : bytes) (data : bytes) : res bytes :=
  mem ← hmac_drbg_update_key mem data 0x00;
  mem ← hmac_drbg_update_value mem;
  if zlen data =? 0 then Ok mem
  else
    mem ← hmac_drbg_update_key mem data 0x01;
    hmac_drbg_update_value mem.

Definition hmac_drbg_reseed (state : hmac_drbg_state) (entropy additional : bytes) : res hmac_drbg_state :=
  let seed_material := entropy ++ additional in
  mem ← hmac_drbg_update (state_mem state) seed_material;
  Ok (HmacDrbgState mem 1).

Definition hmac_drbg_instantiate (state : hmac_drbg_state) (entropy personal : bytes) : res hmac_drbg_state :=
  mem ← wr_range (state_mem state) KEY (replicate (Z.to_nat outlen) 0x00);
  mem ← wr_range mem VALUE (replicate (Z.to_nat outlen) 0x01);
  hmac_drbg_reseed (HmacDrbgState mem (reseed_counter state)) entropy personal.

(** The loop of the generation, with [len] bytes to write at [pos]. *)
Fixpoint hmac_drbg_generate_loop (fuel : nat) (mem data : bytes) (pos len : Z) : res (bytes * bytes) :=
  if len =? 0 then Ok (mem, data)
  else
    match fuel with
    | O => Trap
    | S fuel =>
        mem ← hmac_drbg_update_value mem;
        let frag_len := if outlen <? len then outlen else len in
        frag ← rd_range mem VALUE frag_len;
        data ← wr_range data pos frag;
        hmac_drbg_generate_loop fuel mem data (pos + frag_len) (len - frag_len)
    end.

(** The state and the output buffer after the call; an iteration writes at least
    a byte. *)
Definition hmac_drbg_generate (state : hmac_drbg_state) (additional data : bytes) (len : Z) : res (hmac_drbg_state * bytes) :=
  if HMAC_DRBG_RESEED_INTERVAL <? reseed_counter state then Err ESTALE
  else
    mem ← (if zlen additional =? 0 then Ok (state_mem state) else hmac_drbg_update (state_mem state) additional);
    '(mem, data) ← hmac_drbg_generate_loop (Z.to_nat len) mem data 0 len;
    mem ← hmac_drbg_update mem additional;
    Ok (HmacDrbgState mem (u32 (reseed_counter state + 1)), data).
End HmacDrbg.

(** ** NIST SP 800-90A, 10.1.2 *)

Module Sp800_90.
Section HMAC_DRBG.
Context (HMAC : bytes -> bytes -> bytes) (outlen : nat).

Record working_state := State { Key : bytes; V : bytes; counter : Z }.

Definition Update (provided_data : bytes) (K V : bytes) : bytes * bytes :=
  let K := HMAC K (V ++ [0x00] ++ provided_data) in
  let V := HMAC K V in
  if decide (provided_data = []) then (K, V)
  else
    let K := HMAC K (V ++ [0x01] ++ provided_data) in
    let V := HMAC K V in
    (K, V).

Definition Instantiate (entropy_input personalization_string : bytes) : working_state :=
  let '(K, V) := Update (entropy_input ++ personalization_string) (replicate outlen 0x00) (replicate outlen 0x01) in
  State K V 1.

Definition Reseed (s : working_state) (entropy_input additional_input : bytes) : working_state :=
  let '(K, V) := Update (entropy_input ++ additional_input) (Key s) (V s) in
  State K V 1.

(** The values produced by [n] rounds, concatenated, and the last one. *)
Fixpoint rounds (n : nat) (K V : bytes) : bytes * bytes :=
  match n with
  | O => ([], V)
  | S n =>
      let V := HMAC K V in
      let '(temp, V') := rounds n K V in
      (V ++ temp, V')
  end.

(** [None]: a reseed is required. *)
Definition Generate (s : working_state) (n : nat) (additional_input : bytes) : option (bytes * working_state) :=
  if HMAC_DRBG_RESEED_INTERVAL <? counter s then None
  else
    let '(K, V) := if decide (additional_input = []) then (Key s, V s) else Update additional_input (Key s) (V s) in
    let '(temp, V) := rounds ((n + outlen - 1) / outlen) K V in
    let '(K, V) := Update additional_input K V in
    Some (take n temp, State K V (counter s + 1)).
End HMAC_DRBG.
End Sp800_90.

(** ** HMAC_DRBG refines the standard *)

Section Refine.
Context (size_bits : Z) (local context : digest_context) (alg : digest_algorithm) (H : bytes -> bytes).
Context {D : IsDigest size_bits alg H}.
Hypothesis Hlocal : usable alg local.
Hypothesis Hcontext : usable alg context.
Hypothesis Hout : (digestsize alg <= 64)%nat.

Abbreviation ds := (digestsize alg).
Abbreviation HMAC := (Rfc2104.HMAC H (blocksize alg)).

(** The structure holds the key and the value. *)
Definition holds_kv (mem K V : bytes) : Prop :=
  length mem = 128%nat /\ Forall is_byte mem /\ slice mem KEY (Z.of_nat ds) = K /\ slice mem VALUE (Z.of_nat ds) = V.

Lemma holds_kv_bytes mem K V :
  holds_kv mem K V -> length K = ds /\ Forall is_byte K /\ length V = ds /\ Forall is_byte V.
Proof using Hout.
  intros (Hl & Hb & <- & <-).
  pose proof (length_slice mem (512 / 8) (Z.of_nat ds)) as H1. pose proof (length_slice mem 0 (Z.of_nat ds)) as H2.
  change (512 / 8) with 64 in *. split_and!; [lia | by apply slice_bytes | lia | by apply slice_bytes].
Qed.

(** Writing either part. *)
Lemma holds_kv_key mem K V K' :
  holds_kv mem K V -> length K' = ds -> Forall is_byte K' -> holds_kv (splice mem KEY K') K' V.
Proof using Hout.
  intros (Hl & Hb & HK & HV) Hl' Hb'. unfold holds_kv in *. change (512 / 8) with 64 in *.
  split_and!; [rewrite length_splice; lia | by apply splice_bytes | apply slice_splice_same; lia |].
  rewrite slice_splice_ne by lia. done.
Qed.

Lemma holds_kv_value mem K V V' :
  holds_kv mem K V -> length V' = ds -> Forall is_byte V' -> holds_kv (splice mem VALUE V') K V'.
Proof using Hout.
  intros (Hl & Hb & HK & HV) Hl' Hb'. unfold holds_kv in *. change (512 / 8) with 64 in *.
  split_and!; [rewrite length_splice; lia | by apply splice_bytes | | apply slice_splice_same; lia].
  rewrite slice_splice_ne by lia. done.
Qed.

(** One HMAC with the key, over the value and further data, into the key or
    the value. *)
Lemma kv_init mem K V :
  holds_kv mem K V ->
  exists ctx, hmac_init size_bits alg local context mem KEY (Z.of_nat ds) = Ok (ctx, mem, Z.of_nat ds) /\
    digest_holds (IsDigest := D) (xor (Rfc2104.block_key H (blocksize alg) K) (Rfc2104.ipad (blocksize alg))) ctx.
Proof using D Hlocal Hcontext Hout.
  intros (Hl & Hb & HK & HV). pose proof (digest_sizes (IsDigest := D)) as Hsz. pose proof (digest_limit_min (IsDigest := D)) as Hmin.
  destruct (hmac_init_ok size_bits alg local H context mem KEY (Z.of_nat ds) Hlocal Hcontext Hb) as (ctx & E & Hc).
  { unfold inside. change (512 / 8) with 64. lia. }
  { lia. }
  exists ctx. rewrite E. unfold reduced. rewrite (proj2 (Z.ltb_ge _ _)) by lia. rewrite <- HK. done.
Qed.

Lemma kv_final mem K V ctx text out :
  holds_kv mem K V -> Forall is_byte text -> 128 + zlen text < digest_limit size_bits -> 0 <= out <= 64 ->
  digest_holds (IsDigest := D) (xor (Rfc2104.block_key H (blocksize alg) K) (Rfc2104.ipad (blocksize alg)) ++ text) ctx ->
  exists ctx', hmac_final size_bits alg local ctx mem KEY (Z.of_nat ds) out = Ok (ctx', splice mem out (HMAC K text), Z.of_nat ds).
Proof using D Hlocal Hout.
  intros Hkv Ht Htl Ho Hc. pose proof (holds_kv_bytes _ _ _ Hkv) as (_ & HKb & _). destruct Hkv as (Hl & Hb & HK & HV).
  pose proof (digest_sizes (IsDigest := D)) as Hsz. pose proof (digest_limit_min (IsDigest := D)) as Hmin.
  assert (Hkey : inside mem KEY (Z.of_nat ds)) by (unfold inside; change (512 / 8) with 64; lia).
  pose proof (hmac_final_ok size_bits alg local H ctx mem KEY (Z.of_nat ds) out _ Hlocal Hb Hkey ltac:(lia)
    ltac:(unfold inside; lia) Hc) as Hf.
  unfold reduced in Hf. rewrite (proj2 (Z.ltb_ge _ _)) in Hf by lia. destruct Hf as (ctx' & E & _).
  - apply Forall_app. split; [| done]. exact (xor_pad_bytes size_bits alg H K 54 HKb ltac:(split; [lia | reflexivity])).
  - rewrite length_app. unfold Rfc2104.ipad. rewrite (length_xor_pad size_bits alg H K 54 HKb). lia.
  - exists ctx'. rewrite E, HK. done.
Qed.

Lemma update_key_ok mem K V data single :
  holds_kv mem K V -> Forall is_byte data -> is_byte single -> 256 + zlen data < digest_limit size_bits ->
  exists mem', hmac_drbg_update_key size_bits local context alg mem data single = Ok mem' /\
    holds_kv mem' (HMAC K (V ++ [single] ++ data)) V.
Proof using D Hlocal Hcontext Hout.
  intros Hkv Hd Hs Hlim. pose proof (holds_kv_bytes _ _ _ Hkv) as (HKl & HKb & HVl & HVb). unfold hmac_drbg_update_key.
  destruct (kv_init mem K V Hkv) as (c0 & E0 & H0). step E0.
  assert (Er : rd_range mem VALUE (Z.of_nat ds) = Ok V).
  { destruct Hkv as (Hl & _ & _ & <-). apply rd_range_slice; lia. }
  step Er. unfold hmac_update.
  destruct (digest_update_ok (IsDigest := D) _ c0 V H0 HVb) as (c1 & E1 & H1). step E1.
  destruct (digest_update_ok (IsDigest := D) _ c1 [single] H1 ltac:(by apply Forall_cons_2)) as (c2 & E2 & H2). step E2.
  destruct (digest_update_ok (IsDigest := D) _ c2 data H2 Hd) as (c3 & E3 & H3). step E3.
  rewrite <- !app_assoc in H3.
  assert (Htb : Forall is_byte (V ++ [single] ++ data)) by (rewrite !Forall_app; split_and!; [done | by apply Forall_cons_2 | done]).
  destruct (kv_final mem K V c3 (V ++ [single] ++ data) KEY Hkv Htb) as (c4 & E4).
  - rewrite !length_app. cbn [length]. lia.
  - change (512 / 8) with 64. lia.
  - exact H3.
  - step E4. eexists. split; [done |]. destruct (hmac_bytes size_bits alg H K _ HKb Htb). by apply (holds_kv_key mem K V).
Qed.

Lemma update_value_ok mem K V :
  holds_kv mem K V ->
  exists mem', hmac_drbg_update_value size_bits local context alg mem = Ok mem' /\ holds_kv mem' K (HMAC K V).
Proof using D Hlocal Hcontext Hout.
  intros Hkv. pose proof (holds_kv_bytes _ _ _ Hkv) as (HKl & HKb & HVl & HVb). unfold hmac_drbg_update_value.
  pose proof (digest_limit_min (IsDigest := D)) as Hmin.
  destruct (kv_init mem K V Hkv) as (c0 & E0 & H0). step E0.
  assert (Er : rd_range mem VALUE (Z.of_nat ds) = Ok V).
  { destruct Hkv as (Hl & _ & _ & <-). apply rd_range_slice; lia. }
  step Er. unfold hmac_update. destruct (digest_update_ok (IsDigest := D) _ c0 V H0 HVb) as (c1 & E1 & H1). step E1.
  destruct (kv_final mem K V c1 V VALUE Hkv HVb) as (c4 & E4); [lia | lia | exact H1 |].
  step E4. eexists. split; [done |]. destruct (hmac_bytes size_bits alg H K V HKb HVb). by apply (holds_kv_value mem K V).
Qed.

Lemma update_ok mem K V data :
  holds_kv mem K V -> Forall is_byte data -> 256 + zlen data < digest_limit size_bits ->
  exists mem', hmac_drbg_update size_bits local context alg mem data = Ok mem' /\
    holds_kv mem' (Sp800_90.Update HMAC data K V).1 (Sp800_90.Update HMAC data K V).2.
Proof using D Hlocal Hcontext Hout.
  intros Hkv Hd Hlim. unfold hmac_drbg_update, Sp800_90.Update.
  destruct (update_key_ok mem K V data 0 Hkv Hd ltac:(split; [lia | reflexivity]) Hlim) as (m1 & E1 & H1). step E1.
  destruct (update_value_ok m1 _ _ H1) as (m2 & E2 & H2). step E2.
  destruct (decide (data = [])) as [-> | Hne]; [by exists m2 |].
  rewrite (proj2 (Z.eqb_neq _ _)) by (destruct data; [done | cbn [length]; lia]).
  destruct (update_key_ok m2 _ _ data 1 H2 Hd ltac:(split; [lia | reflexivity]) Hlim) as (m3 & E3 & H3). step E3.
  exact (update_value_ok m3 _ _ H3).
Qed.

(** The states of the code and of the standard. *)
Definition refines (st : hmac_drbg_state) (s : Sp800_90.working_state) : Prop :=
  holds_kv (state_mem st) (Sp800_90.Key s) (Sp800_90.V s) /\ reseed_counter st = Sp800_90.counter s.

Lemma reseed_ok st s entropy additional :
  refines st s -> Forall is_byte entropy -> Forall is_byte additional ->
  256 + zlen entropy + zlen additional < digest_limit size_bits ->
  exists st', hmac_drbg_reseed size_bits local context alg st entropy additional = Ok st' /\
    refines st' (Sp800_90.Reseed HMAC s entropy additional).
Proof using D Hlocal Hcontext Hout.
  intros [Hkv Hc] He Ha Hlim. unfold hmac_drbg_reseed, Sp800_90.Reseed.
  destruct (update_ok (state_mem st) _ _ (entropy ++ additional) Hkv) as (m & E & Hm).
  { by apply Forall_app. }
  { rewrite length_app. lia. }
  step E. destruct (Sp800_90.Update _ _ _ _) as [K V]. by eexists.
Qed.

Lemma instantiate_ok st entropy personal :
  length (state_mem st) = 128%nat -> Forall is_byte (state_mem st) -> Forall is_byte entropy -> Forall is_byte personal ->
  256 + zlen entropy + zlen personal < digest_limit size_bits ->
  exists st', hmac_drbg_instantiate size_bits local context alg st entropy personal = Ok st' /\
    refines st' (Sp800_90.Instantiate HMAC ds entropy personal).
Proof using D Hlocal Hcontext Hout.
  intros Hl Hb He Hp Hlim. unfold hmac_drbg_instantiate. rewrite Nat2Z.id.
  assert (Hrep : forall b, is_byte b -> length (replicate ds b) = ds /\ Forall is_byte (replicate ds b)).
  { intros b Hb'. split; [apply length_replicate | by apply Forall_replicate]. }
  assert (H0 : is_byte 0) by (split; [lia | reflexivity]). assert (H1 : is_byte 1) by (split; [lia | reflexivity]).
  destruct (Hrep 0 H0) as [Hr0 Hr0']. destruct (Hrep 1 H1) as [Hr1 Hr1'].
  assert (Hkv : holds_kv (state_mem st) (slice (state_mem st) KEY (Z.of_nat ds)) (slice (state_mem st) VALUE (Z.of_nat ds))) by done.
  pose proof (holds_kv_key _ _ _ _ Hkv Hr0 Hr0') as Hkv1. pose proof (holds_kv_value _ _ _ _ Hkv1 Hr1 Hr1') as Hkv2.
  rewrite wr_range_splice, bind_ok by (change (512 / 8) with 64; lia).
  rewrite wr_range_splice, bind_ok by (destruct Hkv1 as [Hl1 _]; lia).
  apply (reseed_ok _ (Sp800_90.State (replicate ds 0) (replicate ds 1) (reseed_counter st))); [by split | done | done | done].
Qed.

Lemma generate_loop_ok fuel mem K V data pos len :
  holds_kv mem K V -> 0 <= pos -> 0 <= len -> pos + len <= zlen data -> (Z.to_nat len <= fuel)%nat ->
  exists mem', hmac_drbg_generate_loop size_bits local context alg fuel mem data pos len =
      Ok (mem', splice data pos (take (Z.to_nat len) (Sp800_90.rounds HMAC ((Z.to_nat len + ds - 1) / ds) K V).1)) /\
    holds_kv mem' K (Sp800_90.rounds HMAC ((Z.to_nat len + ds - 1) / ds) K V).2.
Proof using D Hlocal Hcontext Hout.
  pose proof (digest_sizes (IsDigest := D)) as Hsz.
  revert mem V data pos len. induction fuel as [| fuel IH]; intros mem V data pos len Hkv Hp Hl Hfit Hf; cbn [hmac_drbg_generate_loop];
    (destruct (Z.eqb_spec len 0) as [-> | Hnz];
      [exists mem; rewrite (Nat.div_small (Z.to_nat 0 + ds - 1) ds) by lia; cbn [Sp800_90.rounds fst snd];
       rewrite take_nil; by rewrite splice_nil |]); [lia |].
  destruct (update_value_ok mem K V Hkv) as (m1 & E1 & H1). step E1.
  pose proof (holds_kv_bytes _ _ _ H1) as (_ & _ & HVl & HVb). pose proof H1 as (Hml & _ & _ & HV1).
  destruct (Z.ltb_spec (Z.of_nat ds) len) as [Hlt | Hge].
  - rewrite rd_range_slice, bind_ok by (lia). rewrite HV1, wr_range_splice, bind_ok by lia.
    assert (Ediv : ((Z.to_nat len + ds - 1) / ds = S ((Z.to_nat (len - Z.of_nat ds) + ds - 1) / ds))%nat).
    { replace (Z.to_nat len + ds - 1)%nat with (1 * ds + (Z.to_nat (len - Z.of_nat ds) + ds - 1))%nat by lia.
      rewrite Nat.div_add_l by lia. lia. }
    rewrite Ediv. cbn [Sp800_90.rounds].
    destruct (IH m1 (HMAC K V) (splice data pos (HMAC K V)) (pos + Z.of_nat ds) (len - Z.of_nat ds) H1) as (m2 & E2 & H2).
    { lia. } { lia. } { rewrite length_splice; lia. } { lia. }
    rewrite E2. destruct (Sp800_90.rounds HMAC _ K (HMAC K V)) as [temp V'] eqn:Er. cbn [fst snd] in *. exists m2. split; [| done].
    do 2 f_equal. rewrite take_app_ge by lia.
    replace (pos + Z.of_nat ds) with (pos + zlen (HMAC K V)) by lia. rewrite splice_splice; [| lia |].
    + do 3 f_equal. lia.
    + rewrite length_take. lia.
  - assert (Ediv : ((Z.to_nat len + ds - 1) / ds = 1)%nat).
    { symmetry. apply (Nat.div_unique _ _ _ (Z.to_nat len - 1)); lia. }
    rewrite Ediv. cbn [Sp800_90.rounds fst snd]. rewrite app_nil_r.
    rewrite rd_range_slice, bind_ok by (lia).
    assert (Es : slice m1 VALUE len = take (Z.to_nat len) (HMAC K V)).
    { rewrite <- HV1. unfold slice. rewrite take_take. f_equal. lia. }
    rewrite Es, wr_range_splice, bind_ok by (rewrite ?length_take; lia). rewrite Z.sub_diag. exists m1. split; [| done]. by destruct fuel.
Qed.

Lemma generate_ok st s additional data len :
  refines st s -> Forall is_byte additional -> 256 + zlen additional < digest_limit size_bits -> 0 <= len <= zlen data ->
  0 <= reseed_counter st ->
  match Sp800_90.Generate HMAC ds s (Z.to_nat len) additional with
  | None => hmac_drbg_generate size_bits local context alg st additional data len = Err ESTALE
  | Some (bits, s') => exists st', hmac_drbg_generate size_bits local context alg st additional data len = Ok (st', splice data 0 bits) /\
      refines st' s'
  end.
Proof using D Hlocal Hcontext Hout.
  intros [Hkv Hc] Ha Hlim Hl Hpos. unfold hmac_drbg_generate, Sp800_90.Generate. rewrite Hc in *.
  destruct (Z.ltb_spec HMAC_DRBG_RESEED_INTERVAL (Sp800_90.counter s)) as [| Hle]; [done |].
 
  assert (Ecnt : u32 (Sp800_90.counter s + 1) = Sp800_90.counter s + 1) by (unfold wrap; apply Z.mod_small; lia).
  assert (E1 : exists m1, (if zlen additional =? 0 then Ok (state_mem st) else hmac_drbg_update size_bits local context alg (state_mem st) additional) = Ok m1 /\
    let '(K, V) := if decide (additional = []) then (Sp800_90.Key s, Sp800_90.V s)
                   else Sp800_90.Update HMAC additional (Sp800_90.Key s) (Sp800_90.V s) in holds_kv m1 K V).
  { destruct (decide (additional = [])) as [-> | Hne]; [by exists (state_mem st) |].
    rewrite (proj2 (Z.eqb_neq _ _)) by (destruct additional; [done | cbn [length]; lia]).
    destruct (update_ok (state_mem st) _ _ additional Hkv Ha Hlim) as (m1 & E1 & H1). exists m1. split; [done |].
    by destruct (Sp800_90.Update _ _ _ _). }
  destruct E1 as (m1 & E1 & H1). step E1. destruct (if decide _ then _ else _) as [K1 V1].
  destruct (generate_loop_ok (Z.to_nat len) m1 K1 V1 data 0 len H1) as (m2 & E2 & H2); [lia | lia | lia | lia |]. step E2.
  destruct (Sp800_90.rounds HMAC _ K1 V1) as [temp V2]. cbn [fst snd] in *.
  destruct (update_ok m2 K1 V2 additional H2 Ha Hlim) as (m3 & E3 & H3). step E3.
  destruct (Sp800_90.Update HMAC additional K1 V2) as [K3 V3]. eexists. split; [done |]. split; [exact H3 | exact Ecnt].
Qed.
End Refine.

(** ** The mechanism *)

Abbreviation DRBG_SECURITY_STRENGTH := (128).
Abbreviation DRBG_MAX_SECURITY_STRENGTH := (256).
Abbreviation DRBG_MIN_ENTROPY_LEN_BYTES := (DRBG_SECURITY_STRENGTH / 8).
Abbreviation DRBG_MAX_ENTROPY_LEN_BYTES := (32).
Abbreviation DRBG_MAX_PERSONAL_LEN_BYTES := (0xffffffff).
Abbreviation DRBG_MAX_ADDITIONAL_LEN_BYTES := (0xffffffff).
Abbreviation DRBG_MAX_GENERATED_LEN_BYTES := (0xffff).

Record drbg_state := DrbgState { internal : hmac_drbg_state; reseed_required : bool; valid : bool }.

Section Drbg.
Context {W : Type} `{!EntropySource W}.
Context (size_bits : Z) (local context : digest_context) (uninitialised : nat -> bytes).

Abbreviation world := (drbg_state * (entropy_state * W))%type.

Definition on_entropy {A} (m : M (entropy_state * W) A) : M world A := fun '(st, es) =>
  match m es with
  | Done a es => Done a (st, es)
  | Failed e es => Failed e (st, es)
  | Stuck => Stuck
  end.

Definition get_drbg : M world drbg_state := fun '(st, es) => Done st (st, es).
Definition set_drbg (st : drbg_state) : M world unit := fun '(_, es) => Done tt (st, es).
Definition fail {A} (e : errno) : M world A := fun s => Failed e s.

Definition drbg_instantiate (personal : bytes) : M world unit :=
  let entropy_bits := (3 * DRBG_SECURITY_STRENGTH + 1) / 2 in
  if DRBG_MAX_SECURITY_STRENGTH <? DRBG_SECURITY_STRENGTH then fail ENOTSUP
  else if DRBG_MAX_PERSONAL_LEN_BYTES <? zlen personal then fail ERANGE
  else
    '(data, len) ← on_entropy (get_entropy_input size_bits local uninitialised entropy_bits
       (uninitialised (Z.to_nat DRBG_MAX_ENTROPY_LEN_BYTES)) DRBG_MIN_ENTROPY_LEN_BYTES DRBG_MAX_ENTROPY_LEN_BYTES);
    st ← get_drbg;
    entropy ← lift (rd_range data 0 len);
    inner ← lift (hmac_drbg_instantiate size_bits local context sha256_algorithm (internal st) entropy personal);
    set_drbg (DrbgState inner false true).

Definition drbg_reseed (additional : bytes) : M world unit :=
  let entropy_bits := DRBG_SECURITY_STRENGTH in
  st ← get_drbg;
  if negb (valid st) then fail EINVAL
  else if DRBG_MAX_ADDITIONAL_LEN_BYTES <? zlen additional then fail ERANGE
  else
    '(data, len) ← on_entropy (get_entropy_input size_bits local uninitialised entropy_bits
       (uninitialised (Z.to_nat DRBG_MAX_ENTROPY_LEN_BYTES)) DRBG_MIN_ENTROPY_LEN_BYTES DRBG_MAX_ENTROPY_LEN_BYTES);
    entropy ← lift (rd_range data 0 len);
    inner ← lift (hmac_drbg_reseed size_bits local context sha256_algorithm (internal st) entropy additional);
    set_drbg (DrbgState inner (reseed_required st) (valid st)).

(** From [step_7]: the jump back is the recursive call. *)
Fixpoint drbg_step_7 (fuel : nat) (additional : bytes) (prediction_resist : bool) (data : bytes) (len : Z) : M world bytes :=
  match fuel with
  | O => fun _ => Stuck
  | S fuel =>
      st ← get_drbg;
      additional ← (if reseed_required st || prediction_resist then
                      _ ← drbg_reseed additional;
                      st ← get_drbg;
                      _ ← set_drbg (DrbgState (internal st) false (valid st));
                      mret []
                    else mret additional);
      st ← get_drbg;
      match hmac_drbg_generate size_bits local context sha256_algorithm (internal st) additional data len with
      | Ok (inner, data) =>
          _ ← set_drbg (DrbgState inner (reseed_required st) (valid st));
          mret data
      | Err _ =>
          _ ← set_drbg (DrbgState (internal st) true (valid st));
          drbg_step_7 fuel additional true data len
      | Trap => fun _ => Stuck
      end
  end.

(** The output buffer after the call; two rounds of the jump are enough. *)
Definition drbg_generate (additional : bytes) (prediction_resist : bool) (data : bytes) (len : Z) : M world bytes :=
  st ← get_drbg;
  if negb (valid st) then fail EINVAL
  else if DRBG_MAX_GENERATED_LEN_BYTES <? len then fail ERANGE
  else if DRBG_MAX_ADDITIONAL_LEN_BYTES <? zlen additional then fail ERANGE
  else
    _ ← set_drbg (DrbgState (internal st) false (valid st));
    drbg_step_7 2 additional prediction_resist data len.

Definition drbg_uninstantiate : M world unit :=
  st ← get_drbg;
  set_drbg (DrbgState (HmacDrbgState (replicate (length (state_mem (internal st))) 0) 0) false false).

(** [fetch_uuid] is the outcome of [fetch_uuid_setting]. *)
Definition rbg_startup (fetch_uuid : res bytes) : M world unit :=
  let personal := match fetch_uuid with Ok uuid => uuid | _ => [] end in
  drbg_instantiate personal.

Definition rbg_shutdown : M world unit := drbg_uninstantiate.

Definition rbg_generate : bytes -> bool -> bytes -> Z -> M world bytes := drbg_generate.
End Drbg.

(** ** The mechanism refines the standard *)

Section Mechanism.
Context {W : Type} `{!EntropySource W}.
Context (size_bits : Z) (local context : digest_context) (uninitialised : nat -> bytes).
Hypothesis Hsize : size_bits = 32 \/ size_bits = 64.
Hypothesis Hlocal : usable sha256_algorithm local.
Hypothesis Hcontext : usable sha256_algorithm context.
Hypothesis Huninit : forall n, length (uninitialised n) = n.
Hypothesis Hmin : 2 ^ 16 <= min_entropy_per_sample <= 2 ^ 19.

Definition HMAC_SHA256 : bytes -> bytes -> bytes := Rfc2104.HMAC (Standard.hash Standard.SHA256) 64.

Definition drbg_refines (st : drbg_state) (s : Sp800_90.working_state) : Prop :=
  valid st = true /\ refines sha256_algorithm (internal st) s /\ 0 <= Sp800_90.counter s.

(** The entropy input of a reseed, as the code asks for it. *)
Abbreviation seed_input bits es := (get_entropy_input size_bits local uninitialised bits
  (uninitialised (Z.to_nat DRBG_MAX_ENTROPY_LEN_BYTES)) DRBG_MIN_ENTROPY_LEN_BYTES DRBG_MAX_ENTROPY_LEN_BYTES es).

Definition good_seed (d : bytes) (k : Z) : Prop := 0 <= k <= 64 /\ k <= zlen d /\ Forall is_byte (slice d 0 k).

Lemma drbg_reseed_ok st s es additional :
  drbg_refines st s -> Forall is_byte additional -> 512 + zlen additional < digest_limit size_bits ->
  zlen additional <= DRBG_MAX_ADDITIONAL_LEN_BYTES ->
  (forall d k es', seed_input DRBG_SECURITY_STRENGTH es = Done (d, k) es' -> good_seed d k ->
    exists inner, drbg_reseed size_bits local context uninitialised additional (st, es) =
        Done tt (DrbgState inner (reseed_required st) (valid st), es') /\
      refines sha256_algorithm inner (Sp800_90.Reseed HMAC_SHA256 s (slice d 0 k) additional)) /\
  (forall e es', seed_input DRBG_SECURITY_STRENGTH es = Failed e es' ->
    drbg_reseed size_bits local context uninitialised additional (st, es) = Failed e (st, es')).
Proof using Hsize Hlocal Hcontext.
  intros (Hv & Href & _) Ha Hlim Hmax. destruct (sha256_is_digest size_bits Hsize) as [D].
  unfold drbg_reseed. erewrite (M_bind_done _ get_drbg) by reflexivity. rewrite Hv. cbn [negb].
  rewrite (proj2 (Z.ltb_ge _ _)) by done. split.
  - intros d k es' E (Hk & Hkd & Hb). erewrite (M_bind_done _ (on_entropy _)) by (unfold on_entropy; rewrite E; reflexivity).
    cbn beta iota. rewrite (M_bind_lift _ _ (slice d 0 k)) by (apply rd_range_slice; lia).
    destruct (reseed_ok size_bits local context sha256_algorithm (Standard.hash Standard.SHA256) Hlocal Hcontext
      ltac:(apply Nat.leb_le; reflexivity) (internal st) s (slice d 0 k) additional Href Hb Ha) as (inner & E2 & H2).
    { pose proof (length_slice d 0 k). lia. }
    exists inner. split; [| exact H2]. by rewrite (M_bind_lift _ _ _ _ E2).
  - intros e es' E. apply M_bind_failed. unfold on_entropy. by rewrite E.
Qed.

(** Generation with a counter that is not exhausted. *)
Lemma generate_ready st s additional data len :
  drbg_refines st s -> Forall is_byte additional -> 512 + zlen additional < digest_limit size_bits -> 0 <= len <= zlen data ->
  Sp800_90.counter s <= HMAC_DRBG_RESEED_INTERVAL ->
  exists bits s' inner, Sp800_90.Generate HMAC_SHA256 32 s (Z.to_nat len) additional = Some (bits, s') /\
    hmac_drbg_generate size_bits local context sha256_algorithm (internal st) additional data len = Ok (inner, splice data 0 bits) /\
    drbg_refines (DrbgState inner (reseed_required st) (valid st)) s'.
Proof using Hsize Hlocal Hcontext.
  intros (Hv & Href & Hpos) Ha Hlim Hl Hc. destruct (sha256_is_digest size_bits Hsize) as [D].
  pose proof (generate_ok size_bits local context sha256_algorithm (Standard.hash Standard.SHA256) Hlocal Hcontext
    ltac:(apply Nat.leb_le; reflexivity) (internal st) s additional data len Href Ha ltac:(lia) Hl
    ltac:(rewrite (proj2 Href); lia)) as Hg.
  change (Sp800_90.Generate (Rfc2104.HMAC (Standard.hash Standard.SHA256) (blocksize sha256_algorithm)) (digestsize sha256_algorithm))
    with (Sp800_90.Generate HMAC_SHA256 32) in Hg.
  destruct (Sp800_90.Generate HMAC_SHA256 32 s (Z.to_nat len) additional) as [[bits s'] |] eqn:E.
  - destruct Hg as (inner & Eg & Hr). exists bits, s', inner. split; [done |]. split; [exact Eg |].
    split; [done |]. split; [exact Hr |]. unfold Sp800_90.Generate in E. destruct (_ <? _); [done |].
    repeat case_match; simplify_eq; cbn [Sp800_90.counter]; lia.
  - exfalso. unfold Sp800_90.Generate in E. rewrite (proj2 (Z.ltb_ge _ _)) in E by done. repeat case_match; done.
Qed.

(** One round that reseeds. *)
Lemma step_7_reseed fuel st s es additional pr data len :
  drbg_refines st s -> Forall is_byte additional -> 512 + zlen additional < digest_limit size_bits ->
  zlen additional <= DRBG_MAX_ADDITIONAL_LEN_BYTES -> 0 <= len <= zlen data -> reseed_required st || pr = true ->
  (forall d k es', seed_input DRBG_SECURITY_STRENGTH es = Done (d, k) es' -> good_seed d k ->
    exists bits s' st', Sp800_90.Generate HMAC_SHA256 32 (Sp800_90.Reseed HMAC_SHA256 s (slice d 0 k) additional) (Z.to_nat len) [] = Some (bits, s') /\
      drbg_step_7 size_bits local context uninitialised (S fuel) additional pr data len (st, es) = Done (splice data 0 bits) (st', es') /\
      drbg_refines st' s') /\
  (forall e es', seed_input DRBG_SECURITY_STRENGTH es = Failed e es' ->
    drbg_step_7 size_bits local context uninitialised (S fuel) additional pr data len (st, es) = Failed e (st, es')).
Proof using Hsize Hlocal Hcontext.
  intros Href Ha Hlim Hmax Hl Hpr. destruct (drbg_reseed_ok st s es additional Href Ha Hlim Hmax) as [Hok Hfail].
  cbn [drbg_step_7]. erewrite (M_bind_done _ get_drbg) by reflexivity. rewrite Hpr. split.
  - intros d k es' E Hs. destruct (Hok d k es' E Hs) as (inner & Er & Hr).
    set (st1 := DrbgState inner (reseed_required st) (valid st)) in *. set (st2 := DrbgState inner false (valid st)).
    erewrite (M_bind_done _ _ [] _ (st2, es')).
    2: { rewrite (M_bind_done _ _ _ _ _ Er). reflexivity. }
    erewrite (M_bind_done _ get_drbg) by reflexivity.
    assert (Href2 : drbg_refines st2 (Sp800_90.Reseed HMAC_SHA256 s (slice d 0 k) additional)).
    { split; [apply Href |]. split; [exact Hr |]. unfold Sp800_90.Reseed. destruct (Sp800_90.Update _ _ _ _). cbn. lia. }
    assert (Hc1 : Sp800_90.counter (Sp800_90.Reseed HMAC_SHA256 s (slice d 0 k) additional) <= HMAC_DRBG_RESEED_INTERVAL).
    { unfold Sp800_90.Reseed. destruct (Sp800_90.Update _ _ _ _). cbn. discriminate. }
    destruct (sha256_is_digest size_bits Hsize) as [D]. pose proof (digest_limit_min (IsDigest := D)) as Hmn.
    destruct (generate_ready st2 _ [] data len Href2 ltac:(constructor) ltac:(cbn [length]; lia) Hl Hc1)
      as (bits & s' & inner2 & Eg & Ec & Hr2).
    exists bits, s', (DrbgState inner2 (reseed_required st2) (valid st2)). split; [exact Eg |]. split; [| exact Hr2].
    rewrite Ec. done.
  - intros e es' E. apply M_bind_failed, M_bind_failed. by apply Hfail.
Qed.

(** A round that finds the counter exhausted jumps back. *)
Lemma step_7_stale fuel st s es additional data len :
  drbg_refines st s -> HMAC_DRBG_RESEED_INTERVAL < Sp800_90.counter s -> reseed_required st = false ->
  drbg_step_7 size_bits local context uninitialised (S fuel) additional false data len (st, es) =
    drbg_step_7 size_bits local context uninitialised fuel additional true data len (DrbgState (internal st) true (valid st), es).
Proof using Type.
  intros (_ & [_ Href] & _) Hc Hr. cbn [drbg_step_7]. erewrite (M_bind_done _ get_drbg) by reflexivity. rewrite Hr. cbn [orb].
  erewrite (M_bind_done _ (mret additional)) by reflexivity. erewrite (M_bind_done _ get_drbg) by reflexivity.
  unfold hmac_drbg_generate. rewrite Href, (proj2 (Z.ltb_lt _ _)) by done. done.
Qed.

Lemma drbg_generate_ok st s es additional pr data len :
  drbg_refines st s -> Forall is_byte additional -> 512 + zlen additional < digest_limit size_bits ->
  zlen additional <= DRBG_MAX_ADDITIONAL_LEN_BYTES -> 0 <= len <= zlen data -> len <= DRBG_MAX_GENERATED_LEN_BYTES ->
  (pr = false -> Sp800_90.counter s <= HMAC_DRBG_RESEED_INTERVAL ->
    exists bits s' st', Sp800_90.Generate HMAC_SHA256 32 s (Z.to_nat len) additional = Some (bits, s') /\
      drbg_generate size_bits local context uninitialised additional pr data len (st, es) = Done (splice data 0 bits) (st', es) /\
      drbg_refines st' s') /\
  (pr = true \/ HMAC_DRBG_RESEED_INTERVAL < Sp800_90.counter s ->
    (forall d k es', seed_input DRBG_SECURITY_STRENGTH es = Done (d, k) es' -> good_seed d k ->
      exists bits s' st', Sp800_90.Generate HMAC_SHA256 32 (Sp800_90.Reseed HMAC_SHA256 s (slice d 0 k) additional) (Z.to_nat len) [] = Some (bits, s') /\
        drbg_generate size_bits local context uninitialised additional pr data len (st, es) = Done (splice data 0 bits) (st', es') /\
        drbg_refines st' s') /\
    (forall e es', seed_input DRBG_SECURITY_STRENGTH es = Failed e es' ->
      exists st', drbg_generate size_bits local context uninitialised additional pr data len (st, es) = Failed e (st', es') /\
        drbg_refines st' s)).
Proof using Hsize Hlocal Hcontext.
  intros Href Ha Hlim Hmax Hl Hgen. unfold drbg_generate. erewrite (M_bind_done _ get_drbg) by reflexivity.
  rewrite (proj1 Href). cbn [negb]. rewrite !(proj2 (Z.ltb_ge _ _)) by done.
  set (st0 := DrbgState (internal st) false true). erewrite (M_bind_done _ (set_drbg st0)) by reflexivity.
  assert (Href0 : drbg_refines st0 s) by (split; [done | apply Href]).
  destruct pr.
  - split; [done |]. intros _. destruct (step_7_reseed 1 st0 s es additional true data len Href0 Ha Hlim Hmax Hl eq_refl) as [H1 H2].
    split; [exact H1 |]. intros e es' E. exists st0. split; [by apply H2 | done].
  - split.
    + intros _ Hc. destruct (generate_ready st0 s additional data len Href0 Ha Hlim Hl Hc) as (bits & s' & inner & Eg & Ec & Hr).
      exists bits, s', (DrbgState inner false true). split; [exact Eg |]. split; [| exact Hr].
      cbn [drbg_step_7]. erewrite (M_bind_done _ get_drbg) by reflexivity. cbn [reseed_required orb st0].
      erewrite (M_bind_done _ (mret additional)) by reflexivity. erewrite (M_bind_done _ get_drbg) by reflexivity.
      change (internal st) with (internal st0). rewrite Ec. done.
    + intros [? | Hc]; [done |]. set (st1 := DrbgState (internal st) true true).
      assert (Href1 : drbg_refines st1 s) by (split; [done | apply Href]).
      assert (Eu : drbg_step_7 size_bits local context uninitialised 2 additional false data len (st0, es) =
        drbg_step_7 size_bits local context uninitialised 1 additional true data len (st1, es)).
      { exact (step_7_stale 1 st0 s es additional data len Href0 Hc eq_refl). }
      rewrite Eu.
      destruct (step_7_reseed 0 st1 s es additional true data len Href1 Ha Hlim Hmax Hl eq_refl) as [H1 H2].
      split; [exact H1 |]. intros e es' E. exists st1. split; [by apply H2 | done].
Qed.

(** The seed from the samples of the source. *)
Lemma seed_ok bits p est w w1 l w2 :
  0 < bits <= 256 -> bits mod 8 = 0 -> gathered p est -> 0 <= startup_tested est -> entropy_enable w = (None, w1) ->
  noise_run (startup_left est + Z.to_nat (entropy_num_samples bits)) w1 = Some (l, w2) -> Forall is_byte l ->
  (exists d k est', seed_input bits (est, w) = Done (d, k) (est', entropy_disable w2) /\ good_seed d k /\
    slice d 0 k = entropy_input (nonce est) (drop (startup_left est) l) bits 16 32 /\ gathered (p ++ l) est') \/
  (~ healthy (p ++ l) /\ exists e est' w3, seed_input bits (est, w) = Failed e (est', entropy_disable w3)).
Proof using Hsize Hlocal Huninit Hmin.
  intros Hb Hm Hg Ht Ee En Hl.
  destruct (get_entropy_input_ok size_bits local uninitialised Hsize Hlocal Huninit Hmin bits
    (uninitialised (Z.to_nat DRBG_MAX_ENTROPY_LEN_BYTES)) DRBG_MIN_ENTROPY_LEN_BYTES DRBG_MAX_ENTROPY_LEN_BYTES p est w w1 l w2 Hb Hm)
    as [(est' & E & Hg' & _) | (Hno & e & est' & w3 & E & _)]; try done.
  - rewrite Huninit. vm_compute. discriminate.
  - left. cbn zeta in E. change DRBG_MIN_ENTROPY_LEN_BYTES with 16 in E. change DRBG_MAX_ENTROPY_LEN_BYTES with 32 in E.
    assert (Hdl : Forall is_byte (drop (startup_left est) l)) by (by apply Forall_drop).
    destruct (length_entropy_input size_bits Hsize (nonce est) _ bits 16 32 Hdl ltac:(lia) ltac:(lia)) as [Hil Hib].
    set (input := entropy_input _ _ _ _ _) in *.
    assert (Hi64 : 0 <= zlen input <= 32) by (rewrite Hil; repeat case_match; lia).
    assert (Hs : slice (splice (uninitialised (Z.to_nat 32)) 0 input) 0 (zlen input) = input).
    { apply slice_splice_same; [lia | rewrite Huninit; lia | done]. }
    do 3 eexists. split; [exact E |]. split; [| split; [exact Hs | exact Hg']].
    unfold good_seed. rewrite Hs, length_splice by (rewrite ?Huninit; lia). rewrite Huninit. split_and!; [lia | lia | lia | done].
  - right. split; [done |]. by exists e, est', w3.
Qed.

Lemma drbg_instantiate_ok st es personal :
  length (state_mem (internal st)) = 128%nat -> Forall is_byte (state_mem (internal st)) -> Forall is_byte personal ->
  512 + zlen personal < digest_limit size_bits -> zlen personal <= DRBG_MAX_PERSONAL_LEN_BYTES ->
  (forall d k es', seed_input 192 es = Done (d, k) es' -> good_seed d k ->
    exists st', drbg_instantiate size_bits local context uninitialised personal (st, es) = Done tt (st', es') /\
      drbg_refines st' (Sp800_90.Instantiate HMAC_SHA256 32 (slice d 0 k) personal)) /\
  (forall e es', seed_input 192 es = Failed e es' ->
    drbg_instantiate size_bits local context uninitialised personal (st, es) = Failed e (st, es')).
Proof using Hsize Hlocal Hcontext.
  intros Hl Hb Hp Hlim Hmax. destruct (sha256_is_digest size_bits Hsize) as [D]. unfold drbg_instantiate.
  change (DRBG_MAX_SECURITY_STRENGTH <? DRBG_SECURITY_STRENGTH) with false. cbn beta iota.
  rewrite (proj2 (Z.ltb_ge _ _)) by done. change ((3 * DRBG_SECURITY_STRENGTH + 1) / 2) with 192. split.
  - intros d k es' E (Hk & Hkd & Hsb). erewrite (M_bind_done _ (on_entropy _)) by (unfold on_entropy; rewrite E; reflexivity).
    cbn beta iota. erewrite (M_bind_done _ get_drbg) by reflexivity.
    rewrite (M_bind_lift _ _ (slice d 0 k)) by (apply rd_range_slice; lia).
    destruct (instantiate_ok size_bits local context sha256_algorithm (Standard.hash Standard.SHA256) Hlocal Hcontext
      ltac:(apply Nat.leb_le; reflexivity) (internal st) (slice d 0 k) personal Hl Hb Hsb Hp) as (inner & E2 & H2).
    { pose proof (length_slice d 0 k). lia. }
    rewrite (M_bind_lift _ _ _ _ E2). eexists. split; [done |]. split; [done |]. split; [exact H2 |].
    unfold Sp800_90.Instantiate. destruct (Sp800_90.Update _ _ _ _). cbn. lia.
  - intros e es' E. apply M_bind_failed. unfold on_entropy. by rewrite E.
Qed.
End Mechanism.

(** C9. Random bits are those of HMAC_DRBG with SHA-256.  From a state that
    represents the working state [s] of the standard,
    - without prediction resistance, below the reseed interval, a request returns
      the bits of HMAC_DRBG_Generate and does not touch the entropy source;
    - with prediction resistance, or past the interval (after one jump back), it
      reseeds with the entropy input of fresh samples and the additional input,
      and then generates with a null additional input; if the health tests reject
      the samples the request fails and the generator keeps its working state.
    In particular the jump back is taken at most once. *)
Theorem drbg_generate_correct {W : Type} `{!EntropySource W} size_bits local context uninitialised st s additional pr data len es :
  size_bits = 32 \/ size_bits = 64 -> usable sha256_algorithm local -> usable sha256_algorithm context ->
  (forall n, length (uninitialised n) = n) -> 2 ^ 16 <= min_entropy_per_sample <= 2 ^ 19 ->
  drbg_refines st s -> Forall is_byte additional -> 512 + zlen additional < digest_limit size_bits ->
  zlen additional <= DRBG_MAX_ADDITIONAL_LEN_BYTES -> 0 <= len <= zlen data -> len <= DRBG_MAX_GENERATED_LEN_BYTES ->
  let generate := drbg_generate size_bits local context uninitialised additional pr data len (st, es) in
  (pr = false -> Sp800_90.counter s <= HMAC_DRBG_RESEED_INTERVAL ->
    exists bits s' st', Sp800_90.Generate HMAC_SHA256 32 s (Z.to_nat len) additional = Some (bits, s') /\
      generate = Done (splice data 0 bits) (st', es) /\ drbg_refines st' s') /\
  (pr = true \/ HMAC_DRBG_RESEED_INTERVAL < Sp800_90.counter s ->
    forall p est w w1 l w2, es = (est, w) -> gathered p est -> 0 <= startup_tested est -> entropy_enable w = (None, w1) ->
    noise_run (startup_left est + Z.to_nat (entropy_num_samples 128)) w1 = Some (l, w2) -> Forall is_byte l ->
    let seed := entropy_input (nonce est) (drop (startup_left est) l) 128 16 32 in
    (healthy (p ++ l) ->
      exists bits s' st' est', Sp800_90.Generate HMAC_SHA256 32 (Sp800_90.Reseed HMAC_SHA256 s seed additional) (Z.to_nat len) [] = Some (bits, s') /\
        generate = Done (splice data 0 bits) (st', (est', entropy_disable w2)) /\ drbg_refines st' s' /\ gathered (p ++ l) est') /\
    (~ healthy (p ++ l) -> exists e st' es', generate = Failed e (st', es') /\ drbg_refines st' s)).
Proof.
  intros Hs Hu Hc Hun Hm Href Ha Hlim Hmax Hl Hgen generate.
  destruct (drbg_generate_ok size_bits local context uninitialised Hs Hu Hc st s es additional pr data len Href Ha Hlim Hmax Hl Hgen)
    as [Hnow Hre].
  split; [exact Hnow |]. intros Hcase p est w w1 l w2 -> Hg Ht Ee En Hlb seed. destruct (Hre Hcase) as [Hok Hfail].
  destruct (seed_ok size_bits local uninitialised Hs Hu Hun Hm 128 p est w w1 l w2 ltac:(lia) eq_refl Hg Ht Ee En Hlb)
    as [(d & k & est' & E & Hgs & Es & Hg') | (Hno & e & est' & w3 & E)].
  - split; [intros _ | intros Hno; exfalso; apply Hno, Hg'].
    destruct (Hok d k _ E Hgs) as (bits & s' & st' & Eg & Ed & Hr). rewrite Es in Eg. exists bits, s', st', est'. done.
  - split; [done |]. intros _. destruct (Hfail e _ E) as (st' & Ef & Hr). by exists e, st', (est', entropy_disable w3).
Qed.

(** C33. Start-up of the random bit generator.  From the zeroed generator, with or
    without a system UUID, [rbg_startup] either reaches the state of
    HMAC_DRBG_Instantiate with the entropy input of 192 bits and the UUID as
    personalisation string, or, when the health tests reject the samples, fails
    and leaves a generator that refuses every request with [EINVAL]. *)
Theorem rbg_startup_correct {W : Type} `{!EntropySource W} size_bits local context uninitialised fetch_uuid p est w w1 l w2 :
  size_bits = 32 \/ size_bits = 64 -> usable sha256_algorithm local -> usable sha256_algorithm context ->
  (forall n, length (uninitialised n) = n) -> 2 ^ 16 <= min_entropy_per_sample <= 2 ^ 19 ->
  (forall uuid, fetch_uuid = Ok uuid -> length uuid = 16%nat /\ Forall is_byte uuid) ->
  gathered p est -> 0 <= startup_tested est -> entropy_enable w = (None, w1) ->
  noise_run (startup_left est + Z.to_nat (entropy_num_samples 192)) w1 = Some (l, w2) -> Forall is_byte l ->
  let zeroed := DrbgState (HmacDrbgState (replicate 128 0) 0) false false in
  let personal := match fetch_uuid with Ok uuid => uuid | _ => [] end in
  let seed := entropy_input (nonce est) (drop (startup_left est) l) 192 16 32 in
  let startup := rbg_startup size_bits local context uninitialised fetch_uuid (zeroed, (est, w)) in
  (healthy (p ++ l) -> exists st' est', startup = Done tt (st', (est', entropy_disable w2)) /\
    drbg_refines st' (Sp800_90.Instantiate HMAC_SHA256 32 seed personal)) /\
  (~ healthy (p ++ l) -> exists e st' es', startup = Failed e (st', es') /\
    forall additional pr data len es, drbg_generate size_bits local context uninitialised additional pr data len (st', es) = Failed EINVAL (st', es)).
Proof.
  intros Hs Hu Hc Hun Hm Huuid Hg Ht Ee En Hlb zeroed personal seed startup.
  assert (Hp : (length personal <= 16)%nat /\ Forall is_byte personal).
  { unfold personal. destruct fetch_uuid as [uuid | |]; [destruct (Huuid uuid eq_refl); split; [lia | done] | split; [cbn; lia | constructor] ..]. }
  destruct Hp as [Hpl Hpb]. destruct (sha256_is_digest size_bits Hs) as [D]. pose proof (digest_limit_min (IsDigest := D)) as Hmn.
  assert (Hzb : Forall is_byte (replicate 128 0)) by (apply Forall_replicate; split; [lia | reflexivity]).
  destruct (drbg_instantiate_ok size_bits local context uninitialised Hs Hu Hc zeroed (est, w) personal eq_refl Hzb Hpb
    ltac:(lia) ltac:(lia)) as [Hok Hfail].
  destruct (seed_ok size_bits local uninitialised Hs Hu Hun Hm 192 p est w w1 l w2 ltac:(lia) eq_refl Hg Ht Ee En Hlb)
    as [(d & k & est' & E & Hgs & Es & Hg') | (Hno & e & est' & w3 & E)].
  - split; [intros _ | intros Hno; exfalso; apply Hno, Hg'].
    destruct (Hok d k _ E Hgs) as (st' & Ed & Hr). rewrite Es in Hr. by exists st', est'.
  - split; [done |]. intros _. exists e, zeroed, (est', entropy_disable w3). split; [exact (Hfail e _ E) | done].
Qed.

(** ** Runs over the counting source *)

Definition zero_context : digest_context := DigestContext 0 0 (replicate 96 0).

Lemma zero_usable : usable sha256_algorithm zero_context.
Proof. split; [reflexivity |]. apply Forall_replicate. split; [lia | reflexivity]. Qed.

Lemma gathered_start : gathered [] entropy_state0.
Proof. split; [exact (healthy_prefix counting_min [] counting counting_healthy) | apply health_start]. Qed.

Lemma counting_bytes n : (n <= 256)%nat -> Forall is_byte (Z.of_nat <$> seq 0 n).
Proof. intros Hn. apply Forall_fmap, Forall_forall. intros i Hi. apply elem_of_seq in Hi. unfold in_range. cbn. lia. Qed.

(** A generator with a key and value of ones. *)
Definition ones_state : drbg_state := DrbgState (HmacDrbgState (replicate 128 1) 1) false true.
Definition ones_working : Sp800_90.working_state := Sp800_90.State (replicate 32 1) (replicate 32 1) 1.

Lemma ones_refines : drbg_refines ones_state ones_working.
Proof.
  split; [reflexivity |]. split; [| cbn; lia]. split; [| reflexivity]. split; [reflexivity |].
  split; [apply Forall_replicate; split; [lia | reflexivity] |]. split; reflexivity.
Qed.

Lemma drbg_generate_correct_witness :
  (exists bits s' st', Sp800_90.Generate HMAC_SHA256 32 ones_working 5 [7] = Some (bits, s') /\
    drbg_generate 32 zero_context zero_context (fun n => replicate n 0) [7] false (replicate 8 0) 5 (ones_state, (entropy_state0, counting)) =
      Done (splice (replicate 8 0) 0 bits) (st', (entropy_state0, counting)) /\ drbg_refines st' s') /\
  (exists bits st' est',
    drbg_generate 32 zero_context zero_context (fun n => replicate n 0) [7] true (replicate 8 0) 5 (ones_state, (entropy_state0, counting)) =
      Done (splice (replicate 8 0) 0 bits) (st', (est', entropy_disable []))).
Proof.
  assert (Ha : Forall is_byte [7]) by (apply Forall_cons_2; [split; [lia | reflexivity] | apply Forall_nil_2]).
  pose proof (fun pr => drbg_generate_correct 32 zero_context zero_context (fun n => replicate n 0) ones_state ones_working [7] pr
    (replicate 8 0) 5 (entropy_state0, counting) (or_introl eq_refl) zero_usable zero_usable (fun n => length_replicate n 0)
    counting_min ones_refines Ha ltac:(vm_compute; reflexivity) ltac:(vm_compute; discriminate)
    ltac:(split; vm_compute; discriminate) ltac:(vm_compute; discriminate)) as T.
  split.
  - exact (proj1 (T false) eq_refl ltac:(vm_compute; discriminate)).
  - destruct (proj1 (proj2 (T true) (or_introl eq_refl) [] entropy_state0 counting counting counting [] eq_refl gathered_start
      ltac:(vm_compute; discriminate) eq_refl counting_run (counting_bytes 48 ltac:(lia))) counting_healthy)
      as (bits & s' & st' & est' & _ & E & _).
    exists bits, st', est'. exact E.
Defined.

Definition counting_64 : list Z := Z.of_nat <$> seq 0 64.

Lemma counting_64_healthy : healthy ([] ++ counting_64).
Proof. apply replay_healthy. vm_compute. reflexivity. Qed.

Lemma counting_64_run :
  noise_run (startup_left entropy_state0 + Z.to_nat (entropy_num_samples 192)) counting_64 = Some (counting_64, []).
Proof. vm_compute. reflexivity. Qed.

Lemma rbg_startup_correct_witness :
  exists st' est', rbg_startup 32 zero_context zero_context (fun n => replicate n 0) (Err ENOENT)
      (DrbgState (HmacDrbgState (replicate 128 0) 0) false false, (entropy_state0, counting_64)) = Done tt (st', (est', entropy_disable [])) /\
    valid st' = true.
Proof.
  destruct (proj1 (rbg_startup_correct 32 zero_context zero_context (fun n => replicate n 0) (Err ENOENT) [] entropy_state0
    counting_64 counting_64 counting_64 [] (or_introl eq_refl) zero_usable zero_usable (fun n => length_replicate n 0)
    counting_min ltac:(discriminate) gathered_start ltac:(vm_compute; discriminate) eq_refl counting_64_run
    (counting_bytes 64 ltac:(lia))) counting_64_healthy) as (st' & est' & E & Hv & _).
  exists st', est'. split; [exact E | exact Hv].
Defined.
