(* ===== verification/Calendar.v ===== *)
(** * Dates and times ([core/time.c], [include/time.h])

    [mktime] and its helpers on C integers: division truncates towards zero, a
    result outside [int] and an access outside a table are a [Trap].  The
    reference is the Gregorian calendar counted day by day. *)

From Stdlib Require Import ZArith Lia Bool ZifyBool.
From stdpp Require Import base numbers list.
From S2P Require Import Prelude.

Local Open Scope Z_scope.

(** ** The code *)

Record tm := Tm {
  tm_sec : Z;
  tm_min : Z;
  tm_hour : Z;
  tm_mday : Z;
  tm_mon : Z;    (* [0,11] *)
  tm_year : Z;    (* years since 1900 *)
  tm_wday : Z;
  tm_yday : Z;
  tm_isdst : Z
}.

(** The result of signed arithmetic; overflow is undefined. *)
Definition sint (x : Z) : res Z := if (- 2 ^ 31 <=? x) && (x <? 2 ^ 31) then Ok x else Trap.

Definition is_leap_year (tm_year : Z) : bool :=
  let leap_year := false in
  let leap_year := if Z.rem tm_year 4 =? 0 then true else leap_year in
  let leap_year := if Z.rem tm_year 100 =? 0 then false else leap_year in
  if Z.rem tm_year 400 =? 100 then true else leap_year.

Definition leap_years_to_end (tm_year : Z) : Z :=
  let leap_years := 0 in
  let leap_years := leap_years + Z.quot tm_year 4 in
  let leap_years := leap_years - Z.quot tm_year 100 in
  leap_years + Z.quot (tm_year + 300) 400.

Abbreviation day_of_week_offset := [1; 4; 3; 6; 1; 4; 6; 2; 5; 0; 3; 5].

Definition day_of_week (tm_year tm_mon tm_mday : Z) : res Z :=
  let pseudo_year := if tm_mon <? 2 then tm_year - 1 else tm_year in
  offset ← rd day_of_week_offset tm_mon;
  sum ← sint (pseudo_year + leap_years_to_end pseudo_year + offset + tm_mday);
  Ok (Z.rem sum 7).

Abbreviation days_to_month_start := [0; 31; 59; 90; 120; 151; 181; 212; 243; 273; 304; 334].

(** [mktime]: the seconds since the Epoch, and the fields it fills in. *)
Definition mktime (t : tm) : res (Z * tm) :=
  start ← rd days_to_month_start (tm_mon t);
  yday ← sint (tm_mday t - 1 + start);
  let yday := if (2 <=? tm_mon t) && is_leap_year (tm_year t) then yday + 1 else yday in
  wday ← day_of_week (tm_year t) (tm_mon t) (tm_mday t);
  year_days ← sint (365 * tm_year t);
  days_since_epoch ← sint (yday + year_days - 25567 + leap_years_to_end (tm_year t - 1));
  seconds_since_day ← sint ((tm_hour t * 60 + tm_min t) * 60 + tm_sec t);
  Ok (days_since_epoch * 86400 + seconds_since_day,
      Tm (tm_sec t) (tm_min t) (tm_hour t) (tm_mday t) (tm_mon t) (tm_year t) wday yday (tm_isdst t)).

(** ** The calendar

    A date is a year of the common era, a month and a day. *)

Definition gregorian_leap (y : Z) : bool := (y mod 4 =? 0) && negb (y mod 100 =? 0) || (y mod 400 =? 0).

Definition days_in_month (y m : Z) : Z :=
  if m =? 2 then (if gregorian_leap y then 29 else 28)
  else if (m =? 4) || (m =? 6) || (m =? 9) || (m =? 11) then 30 else 31.

Definition next_day (date : Z * Z * Z) : Z * Z * Z :=
  let '(y, m, d) := date in
  if d <? days_in_month y m then (y, m, d + 1)
  else if m <? 12 then (y, m + 1, 1)
  else (y + 1, 1, 1).

(** The date [n] days after Monday, 1 January 1900; 1 January 1970 is 25567 days
    later. *)
Definition date_of (n : nat) : Z * Z * Z := Nat.iter n next_day (1900, 1, 1).

(** ** The day numbers of the code *)

(** Days from 1 January 1900, as the code computes them. *)
Definition day_number (y m d : Z) : Z :=
  365 * (y - 1900) + leap_years_to_end (y - 1901) + nth (Z.to_nat (m - 1)) days_to_month_start 0
  + (if (2 <=? m - 1) && gregorian_leap y then 1 else 0) + d - 1.

Lemma is_leap_year_spec y : 1900 <= y -> is_leap_year (y - 1900) = gregorian_leap y.
Proof.
  intros. unfold is_leap_year, gregorian_leap. rewrite !Z.rem_mod_nonneg by lia.
  repeat case_if; Z.div_mod_to_equations; lia.
Qed.

Lemma leap_years_step y :
  1900 <= y -> leap_years_to_end (y - 1900) = leap_years_to_end (y - 1901) + Z.b2z (gregorian_leap y).
Proof.
  intros. destruct (decide (y = 1900)) as [-> | ?]; [reflexivity |].
  unfold leap_years_to_end, gregorian_leap. rewrite !Z.quot_div_nonneg by lia.
  destruct (y mod 4 =? 0) eqn:?, (y mod 100 =? 0) eqn:?, (y mod 400 =? 0) eqn:?; cbn;
    Z.div_mod_to_equations; lia.
Qed.

Lemma leap_years_bounds y : 1900 <= y -> 0 <= leap_years_to_end (y - 1901) <= y - 1900.
Proof.
  intros. destruct (decide (y = 1900)) as [-> | ?]; [vm_compute; split; discriminate |].
  unfold leap_years_to_end. rewrite !Z.quot_div_nonneg by lia. Z.div_mod_to_equations. lia.
Qed.

(** A property of the months follows from its twelve instances. *)
Lemma month_cases (P : Z -> Prop) :
  P 1 -> P 2 -> P 3 -> P 4 -> P 5 -> P 6 -> P 7 -> P 8 -> P 9 -> P 10 -> P 11 -> P 12 ->
  forall m, 1 <= m <= 12 -> P m.
Proof.
  intros. assert (m = 1 \/ m = 2 \/ m = 3 \/ m = 4 \/ m = 5 \/ m = 6 \/ m = 7 \/ m = 8 \/ m = 9 \/
    m = 10 \/ m = 11 \/ m = 12) as Hm by lia. naive_solver.
Qed.

Definition date_ok (date : Z * Z * Z) : Prop :=
  let '(y, m, d) := date in 1900 <= y /\ 1 <= m <= 12 /\ 1 <= d <= days_in_month y m.

Lemma days_in_month_bounds y m : 28 <= days_in_month y m <= 31.
Proof. unfold days_in_month. repeat case_if; lia. Qed.

Lemma next_day_ok date : date_ok date -> date_ok (next_day date).
Proof.
  destruct date as [[y m] d]. intros (Hy & Hm & Hd). unfold next_day.
  destruct (d <? days_in_month y m) eqn:?; [repeat split; lia |].
  pose proof (days_in_month_bounds y (m + 1)). pose proof (days_in_month_bounds (y + 1) 1).
  destruct (m <? 12) eqn:?; repeat split; lia.
Qed.

(** Evaluate the table lookups and the tests of a concrete month. *)
Ltac tables :=
  repeat match goal with
  | |- context [nth ?i ?l 0] => let r := eval vm_compute in (nth i l 0) in change (nth i l 0) with r
  | |- context [if ?b then _ else _] => let r := eval vm_compute in b in change b with r; cbv iota
  end; cbn [Z.b2z].

(** The length of a month is the distance of the starts of two months. *)
Lemma month_step y m :
  1 <= m < 12 -> day_number y (m + 1) 1 = day_number y m (days_in_month y m) + 1.
Proof.
  intros Hm. assert (1 <= m <= 12) as Hm' by lia. revert Hm. pattern m. apply month_cases; [.. | exact Hm'];
    intros; try lia; unfold day_number, days_in_month; destruct (gregorian_leap y);
    set (L := leap_years_to_end _); set (Y := 365 * _); clearbody L Y; tables; lia.
Qed.

Lemma year_step y :
  1900 <= y -> day_number (y + 1) 1 1 = day_number y 12 (days_in_month y 12) + 1.
Proof.
  intros. unfold day_number, days_in_month. replace (y + 1 - 1901) with (y - 1900) by lia.
  rewrite leap_years_step by done. replace (365 * (y + 1 - 1900)) with (365 * (y - 1900) + 365) by lia.
  destruct (gregorian_leap y), (gregorian_leap (y + 1));
    set (L := leap_years_to_end _); set (Y := 365 * _); clearbody L Y; tables; lia.
Qed.

Lemma next_day_number date :
  date_ok date ->
  (let '(y, m, d) := next_day date in day_number y m d) = (let '(y, m, d) := date in day_number y m d) + 1.
Proof.
  destruct date as [[y m] d]. intros (Hy & Hm & Hd). unfold next_day.
  destruct (d <? days_in_month y m) eqn:?; [unfold day_number; lia |].
  replace d with (days_in_month y m) by lia.
  destruct (m <? 12) eqn:?; [by apply month_step; lia |].
  replace m with 12 by lia. by apply year_step.
Qed.

Lemma date_of_ok n :
  date_ok (date_of n) /\ (let '(y, m, d) := date_of n in day_number y m d) = Z.of_nat n.
Proof.
  induction n as [| n [IH1 IH2]]; [split; [vm_compute; intuition discriminate | reflexivity] |].
  change (date_of (S n)) with (next_day (date_of n)).
  split; [by apply next_day_ok |]. rewrite next_day_number, IH2 by done. lia.
Qed.

(** ** Correctness *)

Lemma sint_ok x : - 2 ^ 31 <= x < 2 ^ 31 -> sint x = Ok x.
Proof. intros. unfold sint. case_if; [done | lia]. Qed.

Lemma rd_month (l : list Z) m : length l = 12%nat -> 1 <= m <= 12 -> rd l (m - 1) = Ok (nth (Z.to_nat (m - 1)) l 0).
Proof.
  intros Hl Hm. unfold rd. replace (m - 1 <? 0) with false by lia.
  destruct (lookup_lt_is_Some_2 l (Z.to_nat (m - 1))) as [x Hx]; [lia |].
  rewrite Hx. cbn. f_equal. symmetry. by apply nth_lookup_Some.
Qed.

(** The day of the week from the day number, 1 January 1900 being a Monday. *)
Lemma day_of_week_spec y m d :
  1900 <= y <= 100000 -> 1 <= m <= 12 -> 1 <= d <= 31 ->
  day_of_week (y - 1900) (m - 1) d = Ok ((1 + day_number y m d) mod 7).
Proof.
  intros Hy Hm Hd. unfold day_of_week. rewrite rd_month by done. rewrite bind_ok.
  set (p := if m - 1 <? 2 then _ else _).
  assert (HL : 0 <= leap_years_to_end p <= y - 1900 + 1).
  { subst p. pose proof (leap_years_bounds y). pose proof (leap_years_step y).
    destruct (m - 1 <? 2); [replace (y - 1900 - 1) with (y - 1901) by lia |];
      destruct (gregorian_leap y); cbn in *; lia. }
  assert (Ho : 0 <= nth (Z.to_nat (m - 1)) day_of_week_offset 0 <= 6)
    by (pattern m; apply month_cases; [.. | exact Hm]; tables; lia).
  assert (Hp : y - 1901 <= p <= y - 1900) by (subst p; case_if; lia).
  assert (0 < p + leap_years_to_end p + nth (Z.to_nat (m - 1)) day_of_week_offset 0 + d).
  { destruct (decide (p = -1)); [| lia]. subst p.
    destruct (m - 1 <? 2) eqn:?; [| lia]. assert (m = 1 \/ m = 2) as [-> | ->] by lia; tables; lia. }
  rewrite sint_ok, bind_ok by lia. f_equal. rewrite Z.rem_mod_nonneg by lia. subst p. unfold day_number.
  pose proof (leap_years_step y ltac:(lia)) as Hs. replace (y - 1900 - 1) with (y - 1901) in * by lia.
  clear - Hm Hs. revert Hs. set (L := leap_years_to_end (y - 1901)). set (L' := leap_years_to_end (y - 1900)).
  destruct (gregorian_leap y); pattern m; (apply month_cases; [.. | exact Hm]); cbn [Z.b2z]; intros; tables;
    fold L L'; Z.div_mod_to_equations; lia.
Qed.

(** The day of the year is the length of the months before plus the day. *)
Lemma day_of_year_spec y m :
  1 <= m <= 12 ->
  nth (Z.to_nat (m - 1)) days_to_month_start 0 + (if (2 <=? m - 1) && gregorian_leap y then 1 else 0) =
  foldr Z.add 0 (days_in_month y <$> seqZ 1 (m - 1)).
Proof.
  intros Hm. unfold days_in_month. destruct (gregorian_leap y); pattern m; (apply month_cases; [.. | exact Hm]);
    vm_compute; reflexivity.
Qed.

(** [mktime] on the [n]-th day. *)
Lemma mktime_spec (n : nat) (y m d hour minute second : Z) (wday yday isdst : Z) :
  date_of n = (y, m, d) -> Z.of_nat n < 2 ^ 24 ->
  0 <= hour < 24 -> 0 <= minute < 60 -> 0 <= second <= 60 ->
  mktime (Tm second minute hour d (m - 1) (y - 1900) wday yday isdst) =
  Ok ((Z.of_nat n - 25567) * 86400 + hour * 3600 + minute * 60 + second,
      Tm second minute hour d (m - 1) (y - 1900)
         ((1 + Z.of_nat n) mod 7) (foldr Z.add 0 (days_in_month y <$> seqZ 1 (m - 1)) + d - 1) isdst).
Proof.
  intros Hdate Hn Hh Hmi Hs. destruct (date_of_ok n) as [Hok Hnum]. rewrite Hdate in Hok, Hnum.
  destruct Hok as (Hy & Hm & Hd). pose proof (days_in_month_bounds y m).
  rewrite <- day_of_year_spec by done. pose proof (leap_years_bounds y Hy).
  unfold mktime; cbn [tm_mon tm_mday tm_year tm_hour tm_min tm_sec tm_isdst].
  rewrite rd_month, bind_ok by done.
  assert (Hstart : 0 <= nth (Z.to_nat (m - 1)) days_to_month_start 0 <= 334)
    by (pattern m; apply month_cases; [.. | exact Hm]; tables; lia).
  assert (y <= 100000) by (unfold day_number in Hnum; case_if; lia).
  rewrite (sint_ok (d - 1 + _)), bind_ok by lia. cbv beta zeta. rewrite is_leap_year_spec by done.
  rewrite day_of_week_spec, bind_ok by lia. rewrite (sint_ok (365 * _)), bind_ok by lia. rewrite Hnum. unfold day_number in Hnum.
  replace (y - 1900 - 1) with (y - 1901) by lia.
  set (S := nth _ _ _) in *. destruct ((2 <=? m - 1) && gregorian_leap y);
    rewrite !sint_ok, !bind_ok by lia; (f_equal; f_equal; [lia | f_equal; lia]).
Qed.

(** Days of years of four digits. *)
Lemma date_of_bound n y m d : date_of n = (y, m, d) -> y <= 9999 -> Z.of_nat n < 2 ^ 24.
Proof.
  intros Hdate Hy. destruct (date_of_ok n) as [Hok Hnum]. rewrite Hdate in Hok, Hnum.
  destruct Hok as (Hy' & Hm & Hd). pose proof (days_in_month_bounds y m). pose proof (leap_years_bounds y Hy').
  assert (Hstart : 0 <= nth (Z.to_nat (m - 1)) days_to_month_start 0 <= 334)
    by (pattern m; apply month_cases; [.. | exact Hm]; tables; lia).
  unfold day_number in Hnum. case_if; lia.
Qed.

(** C20. [mktime] counts days as the Gregorian calendar does: for the [n]-th day after
    1 January 1900, found by going from each day to the next, and a time of day, it
    returns the seconds since 1 January 1970 (day 25567), the right day of the week
    (1 January 1900 being a Monday) and the right day of the year, without overflow
    for more than forty thousand years. *)
Theorem mktime_correct (n : nat) (y m d hour minute second : Z) (wday yday isdst : Z) :
  date_of n = (y, m, d) -> Z.of_nat n < 2 ^ 24 ->
  0 <= hour < 24 -> 0 <= minute < 60 -> 0 <= second <= 60 ->
  mktime (Tm second minute hour d (m - 1) (y - 1900) wday yday isdst) =
  Ok ((Z.of_nat n - 25567) * 86400 + hour * 3600 + minute * 60 + second,
      Tm second minute hour d (m - 1) (y - 1900)
         ((1 + Z.of_nat n) mod 7) (foldr Z.add 0 (days_in_month y <$> seqZ 1 (m - 1)) + d - 1) isdst).
Proof. apply mktime_spec. Qed.

(** 16 November 2026 is 46340 days later, a Monday. *)
Lemma mktime_correct_witness :
  mktime (Tm 5 4 3 16 (11 - 1) (2026 - 1900) 0 0 0) =
  Ok ((Z.of_nat 46340 - 25567) * 86400 + 3 * 3600 + 4 * 60 + 5,
      Tm 5 4 3 16 (11 - 1) (2026 - 1900)
         ((1 + Z.of_nat 46340) mod 7) (foldr Z.add 0 (days_in_month 2026 <$> seqZ 1 (11 - 1)) + 16 - 1) 0).
Proof.
  apply (mktime_correct 46340 2026 11 16 3 4 5 0 0 0); [vm_compute; reflexivity | vm_compute; reflexivity | lia | lia | lia].
Defined.
