(* ===== verification/Asn1.v ===== *)
(** * ASN.1 ([crypto/asn1.c], [include/ipxe/asn1.h])

    Cursors over encoded objects and builders of them.  A cursor is an offset and
    a length in one memory object [mem]; every read outside the object is a
    [Trap].  An operation returns its C [int] together with the cursor it leaves,
    because a failed operation also moves the cursor. *)

From Stdlib Require Import ZArith Lia Bool ZifyBool.
From stdpp Require Import base numbers list strings.
From S2P Require Import Prelude Bits Heap Strings Digest Calendar.

Local Open Scope Z_scope.

(** ** Constants *)

Abbreviation ASN1_END := 0x00.
Abbreviation ASN1_BOOLEAN := 0x01.
Abbreviation ASN1_INTEGER := 0x02.
Abbreviation ASN1_BIT_STRING := 0x03.
Abbreviation ASN1_OCTET_STRING := 0x04.
Abbreviation ASN1_NULL := 0x05.
Abbreviation ASN1_OID := 0x06.
Abbreviation ASN1_UTC_TIME := 0x17.
Abbreviation ASN1_GENERALIZED_TIME := 0x18.
Abbreviation ASN1_SEQUENCE := 0x30.
Abbreviation ASN1_ANY := 0xffffffff.

(** ** Cursors *)

Record asn1_cursor := Cursor { cur_data : Z; cur_len : Z }.

(** A C [int] that is an error if negative: an error number or a value. *)
Definition int_rc : Type := errno + Z.

Definition failed (rc : int_rc) : bool := match rc with inl _ => true | inr n => n <? 0 end.

Definition asn1_invalidate_cursor (cursor : asn1_cursor) : asn1_cursor := Cursor (cur_data cursor) 0.

Record asn1_bit_string_t := BitString { bits_data : Z; bits_len : Z; bits_unused : Z }.

(** An entry of the table of algorithms; [oid] is an object of its own. *)
Record asn1_algorithm_t := Algorithm {
  alg_name : string;
  alg_oid : bytes;
  alg_pubkey : bool;    (* has a public-key algorithm *)
  alg_digest : option digest_algorithm
}.

Section Reader.
Context {P : Platform} (mem : bytes).

Abbreviation size_t := (wrap word_bits).

Definition asn1_type (cursor : asn1_cursor) : res Z :=
  if 1 <=? cur_len cursor then rd mem (cur_data cursor) else Ok ASN1_END.

(** [cursor->data++; cursor->len--]. *)
Definition advance (cursor : asn1_cursor) (n : Z) : asn1_cursor :=
  Cursor (cur_data cursor + n) (cur_len cursor - n).

(** The bytes of the length field, most significant first, into an [unsigned
    int]. *)
Fixpoint length_loop (len_len : nat) (len : Z) (cursor : asn1_cursor) : res (Z * asn1_cursor) :=
  match len_len with
  | O => Ok (len, cursor)
  | S len_len =>
      b ← rd mem (cur_data cursor);
      length_loop len_len (Z.lor (u32 (Z.shiftl len 8)) b) (advance cursor 1)
  end.

Definition asn1_start (cursor : asn1_cursor) (type extra : Z) : res (int_rc * asn1_cursor) :=
  if cur_len cursor <? 2 then Ok (inl EINVAL_ASN1_EMPTY, cursor)
  else
    actual ← asn1_type cursor;
    if negb (type =? ASN1_ANY) && negb (type =? actual) then Ok (inl ENXIO, cursor)
    else
      let cursor := advance cursor 1 in
      len_len ← rd mem (cur_data cursor);
      let '(len_len, cursor) :=
        if negb (Z.land len_len 0x80 =? 0) then (Z.land len_len 0x7f, advance cursor 1) else (1, cursor) in
      if cur_len cursor <? len_len then Ok (inl EINVAL_ASN1_LEN_LEN, cursor)
      else
        '(len, cursor) ← length_loop (Z.to_nat len_len) 0 cursor;
        if size_t (cur_len cursor + extra) <? len then Ok (inl EINVAL_ASN1_LEN, cursor)
        else Ok (inr (to_signed 32 len), cursor).

Definition asn1_enter (cursor : asn1_cursor) (type : Z) : res (int_rc * asn1_cursor) :=
  '(len, cursor) ← asn1_start cursor type 0;
  match len with
  | inr n => if n <? 0 then Ok (len, asn1_invalidate_cursor cursor)
             else Ok (inr 0, Cursor (cur_data cursor) n)
  | inl _ => Ok (len, asn1_invalidate_cursor cursor)
  end.

Definition asn1_skip_if_exists (cursor : asn1_cursor) (type : Z) : res (int_rc * asn1_cursor) :=
  '(len, cursor) ← asn1_start cursor type 0;
  match len with
  | inr n =>
      if n <? 0 then Ok (len, cursor)
      else
        let cursor := advance cursor n in
        if cur_len cursor =? 0 then Ok (inl ENOENT, cursor) else Ok (inr 0, cursor)
  | inl _ => Ok (len, cursor)
  end.

Definition asn1_skip (cursor : asn1_cursor) (type : Z) : res (int_rc * asn1_cursor) :=
  '(rc, cursor) ← asn1_skip_if_exists cursor type;
  match rc with
  | inr 0 => Ok (inr 0, cursor)
  | _ => Ok (rc, asn1_invalidate_cursor cursor)
  end.

Definition asn1_shrink (cursor : asn1_cursor) (type : Z) : res (int_rc * asn1_cursor) :=
  '(len, temp) ← asn1_start cursor type 0;
  match len with
  | inr n => if n <? 0 then Ok (len, asn1_invalidate_cursor cursor)
             else Ok (inr 0, Cursor (cur_data cursor) (cur_data temp + n - cur_data cursor))
  | inl _ => Ok (len, asn1_invalidate_cursor cursor)
  end.

Definition asn1_enter_any (cursor : asn1_cursor) := asn1_enter cursor ASN1_ANY.
Definition asn1_skip_any (cursor : asn1_cursor) := asn1_skip cursor ASN1_ANY.
Definition asn1_shrink_any (cursor : asn1_cursor) := asn1_shrink cursor ASN1_ANY.

Definition asn1_boolean (cursor : asn1_cursor) : res int_rc :=
  '(_, contents) ← asn1_enter cursor ASN1_BOOLEAN;
  if negb (cur_len contents =? 1) then Ok (inl EINVAL_ASN1_BOOLEAN)
  else value ← rd mem (cur_data contents); Ok (inr value).

(** The loop of [asn1_integer]; the shift of a negative [int] is that of the
    compiler, which keeps the low bits. *)
Fixpoint integer_loop (n : nat) (value data : Z) : res (errno + Z) :=
  match n with
  | O => Ok (inr value)
  | S n =>
      let high_byte := u8 (Z.shiftr value 24) in
      if negb (high_byte =? 0x00) && negb (high_byte =? 0xff) then Ok (inl EINVAL_ASN1_INTEGER)
      else
        b ← rd mem data;
        integer_loop n (Z.lor (to_signed 32 (Z.shiftl value 8)) b) (data + 1)
  end.

(** The return code, and the value if it is zero. *)
Definition asn1_integer (cursor : asn1_cursor) : res (int_rc * option Z) :=
  '(rc, contents) ← asn1_enter cursor ASN1_INTEGER;
  match rc with
  | inr 0 =>
      if cur_len contents <? 1 then Ok (inl EINVAL_ASN1_INTEGER, None)
      else
        sign ← rd mem (cur_data contents);
        r ← integer_loop (Z.to_nat (cur_len contents - 1)) (to_signed 8 sign) (cur_data contents + 1);
        match r with
        | inl e => Ok (inl e, None)
        | inr value => Ok (inr 0, Some value)
        end
  | _ => Ok (rc, None)
  end.

(** The mask of the unused bits is shifted by [8 - unused], as an [unsigned int],
    before [unused] is checked: for [unused > 8] the shift is undefined. *)
Definition asn1_bit_string (cursor : asn1_cursor) : res (int_rc * option asn1_bit_string_t) :=
  '(rc, contents) ← asn1_enter cursor ASN1_BIT_STRING;
  match rc with
  | inr 0 =>
      if cur_len contents <? 1 then Ok (inl EINVAL_BIT_STRING, None)
      else
        let len := cur_len contents - 1 in
        let data := cur_data contents + 1 in
        unused ← rd mem (cur_data contents);
        if 32 <=? u32 (8 - unused) then Trap else
        let unused_mask := u8 (Z.shiftr 0xff (u32 (8 - unused))) in
        if (8 <=? unused) || ((0 <? unused) && (len =? 0)) then Ok (inl EINVAL_BIT_STRING, None)
        else
          last ← rd mem (data + len - 1);
          if negb (Z.land last unused_mask =? 0) then Ok (inl EINVAL_BIT_STRING, None)
          else Ok (inr 0, Some (BitString data len unused))
  | _ => Ok (rc, None)
  end.

Definition asn1_integral_bit_string (cursor : asn1_cursor) : res (int_rc * option asn1_bit_string_t) :=
  '(rc, bits) ← asn1_bit_string cursor;
  match rc, bits with
  | inr 0, Some bits =>
      if negb (bits_unused bits =? 0) then Ok (inl EINVAL_BIT_STRING, None) else Ok (rc, Some bits)
  | _, _ => Ok (rc, None)
  end.

(** ** Algorithms *)

(** Comparison of two objects in the memory objects [mem1] and [mem2]; the
    difference of the lengths is truncated to an [int]. *)
Definition asn1_compare (mem1 : bytes) (cursor1 : asn1_cursor) (mem2 : bytes) (cursor2 : asn1_cursor) : res Z :=
  let difference := to_signed 32 (size_t (cur_len cursor2 - cur_len cursor1)) in
  if negb (difference =? 0) then Ok difference
  else memcmp (drop (Z.to_nat (cur_data cursor1)) mem1) (drop (Z.to_nat (cur_data cursor2)) mem2)
         (Z.to_nat (cur_len cursor1)).

(** The table is assembled by the linker. *)
Fixpoint asn1_find_algorithm (algorithms : list asn1_algorithm_t) (cursor : asn1_cursor)
    : res (option asn1_algorithm_t) :=
  match algorithms with
  | [] => Ok None
  | algorithm :: algorithms =>
      difference ← asn1_compare (alg_oid algorithm) (Cursor 0 (zlen (alg_oid algorithm))) mem cursor;
      if difference =? 0 then Ok (Some algorithm) else asn1_find_algorithm algorithms cursor
  end.

Definition asn1_algorithm (algorithms : list asn1_algorithm_t) (cursor : asn1_cursor)
    : res (errno + asn1_algorithm_t) :=
  '(_, contents) ← asn1_enter cursor ASN1_SEQUENCE;
  '(rc, contents) ← asn1_enter contents ASN1_OID;
  match rc with
  | inr 0 =>
      algorithm ← asn1_find_algorithm algorithms contents;
      match algorithm with
      | None => Ok (inl ENOTSUP_ALGORITHM)
      | Some algorithm => Ok (inr algorithm)
      end
  | _ => Ok (inl EINVAL_ASN1_ALGORITHM)
  end.

Definition asn1_pubkey_algorithm (algorithms : list asn1_algorithm_t) (cursor : asn1_cursor)
    : res (errno + asn1_algorithm_t) :=
  algorithm ← asn1_algorithm algorithms cursor;
  match algorithm with
  | inr a => if negb (alg_pubkey a) then Ok (inl ENOTTY_ALGORITHM) else Ok algorithm
  | inl _ => Ok algorithm
  end.

Definition asn1_digest_algorithm (algorithms : list asn1_algorithm_t) (cursor : asn1_cursor)
    : res (errno + asn1_algorithm_t) :=
  algorithm ← asn1_algorithm algorithms cursor;
  match algorithm with
  | inr a => match alg_digest a with None => Ok (inl ENOTTY_ALGORITHM) | Some _ => Ok algorithm end
  | inl _ => Ok algorithm
  end.

Definition asn1_signature_algorithm (algorithms : list asn1_algorithm_t) (cursor : asn1_cursor)
    : res (errno + asn1_algorithm_t) :=
  algorithm ← asn1_algorithm algorithms cursor;
  match algorithm with
  | inr a =>
      if negb (alg_pubkey a) then Ok (inl ENOTTY_ALGORITHM)
      else match alg_digest a with None => Ok (inl ENOTTY_ALGORITHM) | Some _ => Ok algorithm end
  | inl _ => Ok algorithm
  end.

(** ** Times *)

(** The digit pairs from index [7 - n] on; [None] is an invalid time. *)
Fixpoint pairs_loop (n : nat) (pairs : list Z) (data remaining : Z) : res (option (list Z * Z * Z)) :=
  match n with
  | O => Ok (Some (pairs, data, remaining))
  | S n' =>
      if remaining <? 2 then
        (if (n =? 1)%nat then Ok (Some (pairs, data, remaining)) else Ok None)
      else
        tens ← rd mem data;
        units ← rd mem (data + 1);
        if negb (isdigit tens && isdigit units) then Ok None
        else
          pairs ← wr pairs (Z.of_nat (7 - n)) (u8 (10 * (tens - ch "0") + (units - ch "0")));
          pairs_loop n' pairs (data + 2) (remaining - 2)
  end.

(** The fields of [struct tm] that [mktime] does not read start out as zero. *)
Definition asn1_generalized_time (cursor : asn1_cursor) : res (int_rc * option Z) :=
  type ← asn1_type cursor;
  if negb (type =? ASN1_UTC_TIME) && negb (type =? ASN1_GENERALIZED_TIME) then Ok (inl EINVAL_ASN1_TIME, None)
  else
    let have_century := type =? ASN1_GENERALIZED_TIME in
    '(rc, contents) ← asn1_enter cursor type;
    match rc with
    | inr 0 =>
        r ← pairs_loop (if have_century then 7 else 6) (replicate 7 0) (cur_data contents) (cur_len contents);
        match r with
        | None => Ok (inl EINVAL_ASN1_TIME, None)
        | Some (pairs, data, remaining) =>
            let pairs :=
              if negb have_century then <[0%nat := if 50 <=? nth 1 pairs 0 then 19 else 20]> pairs else pairs in
            z ← (if negb (remaining =? 1) then Ok 0 else rd mem data);
            if negb (remaining =? 1) || negb (z =? ch "Z") then Ok (inl EINVAL_ASN1_TIME, None)
            else
              let t := Tm (nth 6 pairs 0) (nth 5 pairs 0) (nth 4 pairs 0) (nth 3 pairs 0) (nth 2 pairs 0 - 1)
                          ((nth 0 pairs 0 - 19) * 100 + nth 1 pairs 0) 0 0 0 in
              '(time, _) ← mktime t;
              Ok (inr 0, Some time)
        end
    | _ => Ok (rc, None)
    end.

End Reader.

(** ** Builders *)

(** The allocator as the builder uses it: [realloc] keeps the bytes that fit and
    gives the length asked for, or returns NULL and leaves the block alone. *)
Class Allocator (H : Type) := {
  alloc_realloc : H -> option bytes -> Z -> option bytes * H;
  alloc_free : H -> option bytes -> H;
  alloc_realloc_ok h old n new h' :
    alloc_realloc h old n = (Some new, h') -> 0 <= n ->
    zlen new = n /\ forall k, (k <= length (default [] old))%nat -> (k <= Z.to_nat n)%nat ->
                    take k new = take k (default [] old);
  alloc_realloc_bytes h old n new h' :
    alloc_realloc h old n = (Some new, h') -> Forall is_byte (default [] old) -> Forall is_byte new
}.

Record asn1_builder := Builder { bld_data : option bytes; bld_len : Z }.

Section Builder.
Context {P : Platform} {H : Type} {A : Allocator H}.

Abbreviation size_t := (wrap word_bits).

(** Number of bytes of a length; [temp] is at most a [size_t]. *)
Fixpoint len_len_loop (fuel : nat) (temp len_len : Z) : Z :=
  match fuel with
  | O => len_len
  | S fuel => if temp =? 0 then len_len else len_len_loop fuel (Z.shiftr temp 8) (len_len + 1)
  end.

(** Store the bytes of [temp] from index [len_len] down. *)
Fixpoint store_len_loop (fuel : nat) (temp len_len : Z) (length : bytes) : res bytes :=
  match fuel with
  | O => Ok length
  | S fuel =>
      if temp =? 0 then Ok length
      else
        length ← wr length len_len (Z.land temp 0xff);
        store_len_loop fuel (Z.shiftr temp 8) (len_len - 1) length
  end.

(** [asn1_header]: the header, whose first bytes up to the returned length are
    set; [length0] is the array on the stack. *)
Definition asn1_header (length0 : bytes) (type len : Z) : res (bytes * Z) :=
  let header_len := 2 in
  let bits := Z.to_nat word_bits in
  if len <? 0x80 then
    length ← wr length0 0 len; Ok (u8 type :: length, header_len)
  else
    let len_len := len_len_loop bits len 0 in
    length ← wr length0 0 (Z.lor 0x80 len_len);
    length ← store_len_loop bits len len_len length;
    Ok (u8 type :: length, header_len + len_len).

Definition asn1_grow (builder : asn1_builder) (extra : Z) (h : H) : res (int_rc * asn1_builder * H) :=
  if negb (bld_len builder =? 0) && bool_decide (bld_data builder = None) then Ok (inl ENOMEM, builder, h)
  else
    let new_len := size_t (bld_len builder + extra) in
    let '(new, h) := alloc_realloc h (bld_data builder) new_len in
    match new with
    | None => Ok (inl ENOMEM, Builder None (bld_len builder), alloc_free h (bld_data builder))
    | Some new =>
        existing ← rd_range new 0 (bld_len builder);
        new ← wr_range new extra existing;
        Ok (inr 0, Builder (Some new) new_len, h)
    end.

(** Copy [data] to the start of the builder, as [memcpy] does. *)
Definition populate (builder : asn1_builder) (off : Z) (data : bytes) : res asn1_builder :=
  match bld_data builder with
  | None => Trap
  | Some b => b ← wr_range b off data; Ok (Builder (Some b) (bld_len builder))
  end.

Definition asn1_prepend_raw (builder : asn1_builder) (data : bytes) (h : H) : res (int_rc * asn1_builder * H) :=
  '(rc, builder, h) ← asn1_grow builder (zlen data) h;
  match rc with
  | inr 0 => builder ← populate builder 0 data; Ok (rc, builder, h)
  | _ => Ok (rc, builder, h)
  end.

Definition asn1_prepend (length0 : bytes) (builder : asn1_builder) (type : Z) (data : bytes) (h : H)
    : res (int_rc * asn1_builder * H) :=
  '(header, header_len) ← asn1_header length0 type (zlen data);
  '(rc, builder, h) ← asn1_grow builder (header_len + zlen data) h;
  match rc with
  | inr 0 =>
      header ← rd_range header 0 header_len;
      builder ← populate builder 0 header;
      builder ← populate builder header_len data;
      Ok (rc, builder, h)
  | _ => Ok (rc, builder, h)
  end.

Definition asn1_wrap (length0 : bytes) (builder : asn1_builder) (type : Z) (h : H)
    : res (int_rc * asn1_builder * H) :=
  '(header, header_len) ← asn1_header length0 type (bld_len builder);
  '(rc, builder, h) ← asn1_grow builder header_len h;
  match rc with
  | inr 0 =>
      header ← rd_range header 0 header_len;
      builder ← populate builder 0 header;
      Ok (rc, builder, h)
  | _ => Ok (rc, builder, h)
  end.

End Builder.
