(* ===== verification/Copies.v ===== *)
(** * Copying memory and strings ([core/string.c], [arch/x86/core/x86_string.c],
    [arch/x86/include/bits/string.h])

    The generic byte loops and the x86 versions with string instructions, which a
    build for x86 uses, over one memory in which the regions may overlap; and the
    string functions that write.  A move that does not stay in the memory is a
    [Trap]. *)

From Stdlib Require Import ZArith Lia Bool ZifyBool.
From stdpp Require Import base numbers list strings.
From S2P Require Import Prelude Bits Heap Strings Asn1.

Local Open Scope Z_scope.

(** ** Generic byte loops *)

Fixpoint generic_memset (mem : bytes) (dest_bytes character : Z) (len : nat) : res bytes :=
  match len with
  | O => Ok mem
  | S len => mem ← wr mem dest_bytes (u8 character); generic_memset mem (dest_bytes + 1) character len
  end.

Fixpoint generic_memcpy (mem : bytes) (dest_bytes src_bytes : Z) (len : nat) : res bytes :=
  match len with
  | O => Ok mem
  | S len =>
      byte ← rd mem src_bytes;
      mem ← wr mem dest_bytes byte;
      generic_memcpy mem (dest_bytes + 1) (src_bytes + 1) len
  end.

(** From the pointers past the ends of the regions. *)
Fixpoint reverse_loop (mem : bytes) (dest_bytes src_bytes : Z) (len : nat) : res bytes :=
  match len with
  | O => Ok mem
  | S len =>
      let src_bytes := src_bytes - 1 in
      let dest_bytes := dest_bytes - 1 in
      byte ← rd mem src_bytes;
      mem ← wr mem dest_bytes byte;
      reverse_loop mem dest_bytes src_bytes len
  end.

Definition generic_memcpy_reverse (mem : bytes) (dest src : Z) (len : nat) : res bytes :=
  reverse_loop mem (dest + Z.of_nat len) (src + Z.of_nat len) len.

Definition generic_memmove (mem : bytes) (dest src : Z) (len : nat) : res bytes :=
  if dest <? src then generic_memcpy mem dest src len else generic_memcpy_reverse mem dest src len.

Fixpoint memswap (mem : bytes) (first second : Z) (len : nat) : res bytes :=
  match len with
  | O => Ok mem
  | S len =>
      temp ← rd mem first;
      byte ← rd mem second;
      mem ← wr mem first byte;
      mem ← wr mem second temp;
      memswap mem (first + 1) (second + 1) len
  end.

(** ** String instructions *)

(** A move of [k] bytes: the source is read before the destination is written. *)
Definition mov (mem : bytes) (dest src k : Z) : res bytes := v ← rd_range mem src k; wr_range mem dest v.

(** [movsb], [movsw] or [movsl] on the memory, [edi] and [esi], with the direction flag. *)
Definition movs (df : bool) (k : Z) (s : bytes * Z * Z) : res (bytes * Z * Z) :=
  let '(mem, edi, esi) := s in
  mem ← mov mem edi esi k;
  let step := if df then - k else k in
  Ok (mem, edi + step, esi + step).

Fixpoint rep_movs (df : bool) (k : Z) (ecx : nat) (s : bytes * Z * Z) : res (bytes * Z * Z) :=
  match ecx with
  | O => Ok s
  | S ecx => s ← movs df k s; rep_movs df k ecx s
  end.

Definition __memcpy (mem : bytes) (dest src len : Z) : res bytes :=
  s ← rep_movs false 4 (Z.to_nat (Z.shiftr len 2)) (mem, dest, src);
  '(mem, _, _) ← rep_movs false 1 (Z.to_nat (Z.land len 3)) s;
  Ok mem.

(** [unsafe_std]: the build must not set the direction flag. *)
Definition __memcpy_reverse (unsafe_std : bool) (mem : bytes) (dest src len : Z) : res bytes :=
  let edi := dest + len - 1 in
  let esi := src + len - 1 in
  if unsafe_std then generic_memcpy_reverse mem dest src (Z.to_nat len)
  else
    '(mem, _, _) ← rep_movs true 1 (Z.to_nat len) (mem, edi, esi);
    Ok mem.

Definition __memmove (unsafe_std : bool) (mem : bytes) (dest src len : Z) : res bytes :=
  if dest <=? src then __memcpy mem dest src len else __memcpy_reverse unsafe_std mem dest src len.

(** An instruction that is compiled in only for some lengths. *)
Abbreviation when c s f := (if c then f s else Ok s).

Definition __constant_memcpy (mem : bytes) (dest src len : Z) : res bytes :=
  if len =? 0 then Ok mem
  else if len =? 1 then mov mem dest src 1
  else if len =? 2 then mov mem dest src 2
  else if len =? 4 then mov mem dest src 4
  else if len =? 3 then mem ← mov mem dest src 2; mov mem (dest + 2) (src + 2) 1
  else if len =? 5 then mem ← mov mem dest src 4; mov mem (dest + 4) (src + 4) 1
  else if len =? 6 then mem ← mov mem dest src 4; mov mem (dest + 4) (src + 4) 2
  else if len =? 8 then mem ← mov mem dest src 4; mov mem (dest + 4) (src + 4) 4
  else if 26 <=? len then __memcpy mem dest src len
  else
    s ← when (6 * 4 <=? len) (mem, dest, src) (movs false 4);
    s ← when (5 * 4 <=? len) s (movs false 4);
    s ← when (4 * 4 <=? len) s (movs false 4);
    s ← when (3 * 4 <=? len) s (movs false 4);
    s ← when (2 * 4 <=? len) s (movs false 4);
    s ← when (1 * 4 <=? len) s (movs false 4);
    s ← when (2 <=? len mod 4) s (movs false 2);
    '(mem, _, _) ← when (1 <=? len mod 2) s (movs false 1);
    Ok mem.

(** [constant]: the compiler knows the length. *)
Definition memcpy (constant : bool) (mem : bytes) (dest src len : Z) : res bytes :=
  if constant then __constant_memcpy mem dest src len else __memcpy mem dest src len.

(** [constant_offset]: the compiler knows the distance of the regions. *)
Definition memmove (unsafe_std constant_offset constant : bool) (mem : bytes) (dest src len : Z) : res bytes :=
  let offset := dest - src in
  if constant_offset then
    if offset <=? 0 then memcpy constant mem dest src len else __memcpy_reverse unsafe_std mem dest src len
  else __memmove unsafe_std mem dest src len.

(** [stosb], [stosw] or [stosl] of [k] bytes of [eax] on the memory and [edi]. *)
Definition stos (eax : bytes) (s : bytes * Z) : res (bytes * Z) :=
  let '(mem, edi) := s in
  mem ← wr_range mem edi eax;
  Ok (mem, edi + zlen eax).

Fixpoint rep_stos (eax : bytes) (ecx : nat) (s : bytes * Z) : res (bytes * Z) :=
  match ecx with
  | O => Ok s
  | S ecx => s ← stos eax s; rep_stos eax ecx s
  end.

Definition __memset (mem : bytes) (dest fill len : Z) : res bytes :=
  '(mem, _) ← rep_stos [u8 fill] (Z.to_nat len) (mem, dest);
  Ok mem.

Definition __constant_memset_zero (mem : bytes) (dest len : Z) : res bytes :=
  let b := [0] in let w := [0; 0] in let l := [0; 0; 0; 0] in
  if len =? 0 then Ok mem
  else if len =? 1 then wr_range mem dest b
  else if len =? 2 then wr_range mem dest w
  else if len =? 4 then wr_range mem dest l
  else if len =? 3 then mem ← wr_range mem dest w; wr_range mem (dest + 2) b
  else if len =? 5 then mem ← wr_range mem dest l; wr_range mem (dest + 4) b
  else if len =? 6 then mem ← wr_range mem dest l; wr_range mem (dest + 4) w
  else if len =? 8 then mem ← wr_range mem dest l; wr_range mem (dest + 4) l
  else if 26 <=? len then __memset mem dest 0 len
  else
    s ← when (6 * 4 <=? len) (mem, dest) (stos l);
    s ← when (5 * 4 <=? len) s (stos l);
    s ← when (4 * 4 <=? len) s (stos l);
    s ← when (3 * 4 <=? len) s (stos l);
    s ← when (2 * 4 <=? len) s (stos l);
    s ← when (1 * 4 <=? len) s (stos l);
    s ← when (2 <=? len mod 4) s (stos w);
    '(mem, _) ← when (1 <=? len mod 2) s (stos b);
    Ok mem.

(** [constant_fill], [constant]: the compiler knows the pattern, the length. *)
Definition memset (constant_fill constant : bool) (mem : bytes) (dest fill len : Z) : res bytes :=
  if constant_fill && (fill =? 0) && constant then __constant_memset_zero mem dest len else __memset mem dest fill len.

(** ** Strings *)

(** Compares strings that start the objects [first] and [second]. *)
Fixpoint strcasecmp (first second : bytes) : res Z :=
  match first, second with
  | a :: first, b :: second =>
      let diff := toupper a - toupper b in
      if negb (diff =? 0) then Ok diff else if a =? 0 then Ok 0 else strcasecmp first second
  | _, _ => Trap
  end.

(** Every round moves on in the memory, so its size bounds the rounds. *)
Fixpoint strcpy_loop (fuel : nat) (mem : bytes) (dest_bytes src_bytes : Z) : res bytes :=
  match fuel with
  | O => Trap
  | S fuel =>
      byte ← rd mem src_bytes;
      mem ← wr mem dest_bytes byte;
      byte ← rd mem dest_bytes;
      if byte =? 0 then Ok mem else strcpy_loop fuel mem (dest_bytes + 1) (src_bytes + 1)
  end.

Definition strcpy (mem : bytes) (dest src : Z) : res bytes := strcpy_loop (length mem) mem dest src.

(** The loop [while ( max-- )] fills the rest. *)
Fixpoint strncpy (mem : bytes) (dest_bytes src_bytes : Z) (max : nat) : res bytes :=
  match max with
  | O => Ok mem
  | S max' =>
      byte ← rd mem src_bytes;
      mem ← wr mem dest_bytes byte;
      byte ← rd mem dest_bytes;
      if byte =? 0 then generic_memset mem dest_bytes 0 max
      else strncpy mem (dest_bytes + 1) (src_bytes + 1) max'
  end.

Definition strcat (mem : bytes) (dest src : Z) : res bytes :=
  len ← strlen mem dest;
  strcpy mem (dest + len) src.

(** The length of the string that starts [src], at most [max]. *)
Fixpoint strnlen (src : bytes) (max : Z) : res Z :=
  if max =? 0 then Ok 0
  else
    match src with
    | [] => Trap
    | c :: src => if c =? 0 then Ok 0 else len ← strnlen src (max - 1); Ok (len + 1)
    end.

Section Duplicate.
Context {P : Platform} {H : Type} {A : Allocator H}.

Definition strndup (src : bytes) (max : Z) (h : H) : res (option bytes * H) :=
  len ← strnlen src max;
  let '(dup, h) := alloc_realloc h None (wrap word_bits (len + 1)) in
  match dup with
  | None => Ok (None, h)
  | Some dup =>
      data ← rd_range src 0 len;
      dup ← wr_range dup 0 data;
      dup ← wr dup len 0;
      Ok (Some dup, h)
  end.

Definition strdup (src : bytes) (h : H) : res (option bytes * H) := strndup src (2 ^ word_bits - 1) h.
End Duplicate.

(** ** Moves *)

(** The memory after [n] bytes have been copied. *)
Abbreviation copied mem dest src n := (splice mem dest (slice mem src n)).

Lemma rd_slice mem i b : rd mem i = Ok b -> 0 <= i < zlen mem /\ slice mem i 1 = [b].
Proof.
  unfold rd. destruct (Z.ltb_spec i 0) as [| Hi]; [done |]. destruct (mem !! Z.to_nat i) as [x |] eqn:E; [| done].
  intros [= ->]. pose proof (lookup_lt_Some _ _ _ E). split; [lia |]. unfold slice. rewrite (drop_S _ b) by done. done.
Qed.

Lemma rd_in mem i : 0 <= i < zlen mem -> exists b, rd mem i = Ok b.
Proof.
  intros Hi. unfold rd. rewrite (proj2 (Z.ltb_ge _ _)) by lia.
  destruct (lookup_lt_is_Some_2 mem (Z.to_nat i)) as [b ->]; [lia |]. by exists b.
Qed.

Lemma wr_splice mem i b : wr mem i b = wr_range mem i [b].
Proof.
  unfold wr, wr_range. cbn [length]. destruct (Z.leb_spec 0 i); [| done]. cbn [andb].
  destruct (Z.ltb_spec i (zlen mem)), (Z.leb_spec (i + Z.of_nat 1) (zlen mem)); try lia; [| done].
  f_equal. unfold splice. rewrite insert_take_drop by lia. cbn [app length]. by rewrite Nat.add_1_r.
Qed.

(** A byte read and written is a move of one byte. *)
Lemma mov_byte mem dest src : 0 <= src < zlen mem -> (b ← rd mem src; wr mem dest b) = mov mem dest src 1.
Proof.
  intros Hi. unfold mov. destruct (rd_in mem src Hi) as [b E]. rewrite E, rd_range_slice, !bind_ok by lia.
  apply rd_slice in E as [_ ->]. apply wr_splice.
Qed.

Lemma splice_before {A} (m d e : list A) off :
  0 <= off -> off + zlen e + zlen d <= zlen m -> splice (splice m (off + zlen e) d) off e = splice m off (e ++ d).
Proof.
  intros Ho Hb. unfold splice. rewrite take_app_le, take_take by (rewrite length_take; lia).
  rewrite Nat.min_l, <- !app_assoc by lia. do 3 f_equal.
  replace (Z.to_nat (off + zlen e)) with (Z.to_nat off + length e)%nat by lia.
  rewrite drop_app_length' by (rewrite length_take; lia). rewrite length_app. do 2 f_equal. lia.
Qed.

(** A longer write over a shorter one. *)
Lemma splice_over {A} (m d e : list A) off :
  0 <= off -> off + zlen d <= zlen m -> (length d <= length e)%nat -> splice (splice m off d) off e = splice m off e.
Proof.
  intros Ho Hb Hl. unfold splice. rewrite take_app_length' by (rewrite length_take; lia). do 2 f_equal.
  replace (Z.to_nat off + length e)%nat with (Z.to_nat off + length d + (length e - length d))%nat by lia.
  rewrite <- !drop_drop. rewrite (drop_app_length' _ _ (Z.to_nat off)) by (rewrite length_take; lia). by rewrite drop_app_length.
Qed.

Section Forward.
Context (mem : bytes) (dest src total : Z).
Hypothesis Hdest : 0 <= dest /\ dest + total <= zlen mem.
Hypothesis Hsrc : 0 <= src /\ src + total <= zlen mem.
Hypothesis Horder : dest <= src \/ src + total <= dest.

Abbreviation here n := (copied mem dest src n, dest + n, src + n).

Lemma length_copied n : 0 <= n <= total -> zlen (slice mem src n) = n /\ length (copied mem dest src n) = length mem.
Proof using Hdest Hsrc.
  intros. pose proof (length_slice mem src n). split; [lia |]. apply length_splice; lia.
Qed.

Lemma rd_ahead n k : 0 <= n -> 0 <= k -> n + k <= total -> slice (copied mem dest src n) (src + n) k = slice mem (src + n) k.
Proof using Hdest Hsrc Horder. intros. pose proof (length_copied n). apply slice_splice_ne; lia. Qed.

Lemma mov_next n k :
  0 <= n -> 0 <= k -> n + k <= total -> mov (copied mem dest src n) (dest + n) (src + n) k = Ok (copied mem dest src (n + k)).
Proof using Hdest Hsrc Horder.
  intros. pose proof (length_copied n). pose proof (length_copied (n + k)). unfold mov.
  rewrite rd_range_slice, bind_ok, rd_ahead by lia. pose proof (length_slice mem (src + n) k).
  rewrite wr_range_splice by lia. rewrite slice_add by lia. f_equal.
  replace (dest + n) with (dest + zlen (slice mem src n)) by lia. apply splice_splice; lia.
Qed.

Lemma movs_next n k : 0 <= n -> 0 <= k -> n + k <= total -> movs false k (here n) = Ok (here (n + k)).
Proof using Hdest Hsrc Horder. intros. unfold movs. rewrite mov_next, bind_ok by lia. by rewrite !Z.add_assoc. Qed.

Lemma rep_movs_next k count n :
  0 <= n -> 0 <= k -> n + k * Z.of_nat count <= total -> rep_movs false k count (here n) = Ok (here (n + k * Z.of_nat count)).
Proof using Hdest Hsrc Horder.
  revert n. induction count as [| count IH]; intros n Hn Hk Ht; cbn [rep_movs].
  - by rewrite Z.mul_0_r, Z.add_0_r.
  - rewrite movs_next, bind_ok, IH by nia. replace (n + k + _) with (n + k * Z.of_nat (S count)) by lia. done.
Qed.

Lemma when_next (c : bool) n k :
  0 <= n -> 0 <= k -> (c = true -> n + k <= total) -> when c (here n) (movs false k) = Ok (here (if c then n + k else n)).
Proof using Hdest Hsrc Horder. intros ? ? Hc. destruct c; [apply movs_next; auto | done]. Qed.

Lemma here_0 : (mem, dest, src) = here 0.
Proof using. change (slice mem src 0) with (@nil Z). by rewrite splice_nil, !Z.add_0_r. Qed.

Lemma memcpy_ok : 0 <= total -> __memcpy mem dest src total = Ok (copied mem dest src total).
Proof using Hdest Hsrc Horder.
  intros. unfold __memcpy. change 3 with (2 ^ 2 - 1). rewrite land_mask, Z.shiftr_div_pow2, here_0 by lia. change (2 ^ 2) with 4.
  rewrite rep_movs_next, bind_ok by (Z.div_mod_to_equations; lia).
  rewrite rep_movs_next, bind_ok by (Z.div_mod_to_equations; lia).
  do 3 f_equal. Z.div_mod_to_equations. lia.
Qed.

Lemma generic_memcpy_ok len n :
  0 <= n -> n + Z.of_nat len <= total -> generic_memcpy (copied mem dest src n) (dest + n) (src + n) len = Ok (copied mem dest src (n + Z.of_nat len)).
Proof using Hdest Hsrc Horder.
  revert n. induction len as [| len IH]; intros n Hn Ht; cbn [generic_memcpy]; [by rewrite Z.add_0_r |].
  pose proof (length_copied n). pose proof (mov_next n 1) as E. rewrite <- mov_byte in E by lia.
  destruct (rd_in (copied mem dest src n) (src + n)) as [b Eb]; [lia |]. rewrite Eb, bind_ok in *. rewrite E, bind_ok by lia.
  rewrite <- !Z.add_assoc, IH by lia. do 3 f_equal. lia.
Qed.

(** Two moves of the switch. *)
Lemma mov_twice k l : 0 <= k -> 0 <= l -> total = k + l ->
  (mem ← mov mem dest src k; mov mem (dest + k) (src + k) l) = Ok (copied mem dest src total).
Proof using Hdest Hsrc Horder.
  intros Hk Hl Ht. pose proof (mov_next 0 k) as E. pose proof here_0 as [= E0 _ _]. rewrite <- E0, !Z.add_0_r in E.
  rewrite E, bind_ok, mov_next by lia. by rewrite Ht.
Qed.

Lemma constant_memcpy_ok : 0 <= total -> __constant_memcpy mem dest src total = Ok (copied mem dest src total).
Proof using Hdest Hsrc Horder.
  intros Ht. pose proof here_0 as [= E0 _ _]. pose proof (mov_next 0 total) as E1. rewrite <- E0, !Z.add_0_r, Z.add_0_l in E1.
  unfold __constant_memcpy.
  destruct (Z.eqb_spec total 0) as [E |]; [by rewrite E, <- E0 |]. destruct (Z.eqb_spec total 1) as [E |]; [rewrite E in *; by apply E1 |].
  destruct (Z.eqb_spec total 2) as [E |]; [rewrite E in *; by apply E1 |]. destruct (Z.eqb_spec total 4) as [E |]; [rewrite E in *; by apply E1 |].
  destruct (Z.eqb_spec total 3); [by apply mov_twice |]. destruct (Z.eqb_spec total 5); [by apply mov_twice |].
  destruct (Z.eqb_spec total 6); [by apply mov_twice |]. destruct (Z.eqb_spec total 8); [by apply mov_twice |].
  destruct (Z.leb_spec 26 total); [by apply memcpy_ok |]. rewrite here_0.
  do 8 (rewrite when_next by (intros; repeat case_match; Z.div_mod_to_equations; lia); rewrite bind_ok).
  do 3 f_equal. repeat case_match; Z.div_mod_to_equations; lia.
Qed.
End Forward.

Section Backward.
Context (mem : bytes) (dest src total : Z).
Hypothesis Hdest : 0 <= dest /\ dest + total <= zlen mem.
Hypothesis Hsrc : 0 <= src /\ src + total <= zlen mem.
Hypothesis Horder : src <= dest \/ dest + total <= src.

(** The memory after the last [n] bytes have been copied. *)
Abbreviation done_last n := (splice mem (dest + total - n) (slice mem (src + total - n) n)).

Lemma mov_last n :
  0 <= n < total -> mov (done_last n) (dest + total - n - 1) (src + total - n - 1) 1 = Ok (done_last (n + 1)).
Proof using Hdest Hsrc Horder.
  intros Hn. pose proof (length_slice mem (src + total - n) n) as Hl.
  assert (Hlm : length (done_last n) = length mem) by (apply length_splice; lia).
  pose proof (length_slice mem (src + total - n - 1) 1) as Hl1. unfold mov.
  rewrite rd_range_slice, bind_ok, slice_splice_ne by lia. rewrite wr_range_splice by lia. f_equal.
  replace (splice mem (dest + total - n)) with (splice mem (dest + total - n - 1 + zlen (slice mem (src + total - n - 1) 1)))
    by (f_equal; lia).
  rewrite splice_before by lia. replace (dest + total - (n + 1)) with (dest + total - n - 1) by lia. f_equal.
  replace (src + total - (n + 1)) with (src + total - n - 1) by lia. rewrite (Z.add_comm n 1), slice_add by lia.
  do 2 f_equal. lia.
Qed.

Lemma done_last_0 : done_last 0 = mem.
Proof using. change (slice mem _ 0) with (@nil Z). apply splice_nil. Qed.

Lemma done_last_all : done_last total = copied mem dest src total.
Proof using. f_equal; [lia |]. f_equal. lia. Qed.

Lemma rep_movs_last count n :
  0 <= n -> n + Z.of_nat count = total ->
  rep_movs true 1 count (done_last n, dest + total - n - 1, src + total - n - 1) =
  Ok (done_last total, dest - 1, src - 1).
Proof using Hdest Hsrc Horder.
  revert n. induction count as [| count IH]; intros n Hn Ht; cbn [rep_movs].
  - replace n with total by lia. replace (dest + total - total - 1) with (dest - 1) by lia.
    by replace (src + total - total - 1) with (src - 1) by lia.
  - unfold movs. rewrite mov_last, !bind_ok by lia.
    replace (dest + total - n - 1 + _) with (dest + total - (n + 1) - 1) by lia.
    replace (src + total - n - 1 + _) with (src + total - (n + 1) - 1) by lia. apply IH; lia.
Qed.

Lemma reverse_loop_last count n :
  0 <= n -> n + Z.of_nat count = total ->
  reverse_loop (done_last n) (dest + total - n) (src + total - n) count = Ok (done_last total).
Proof using Hdest Hsrc Horder.
  revert n. induction count as [| count IH]; intros n Hn Ht; cbn [reverse_loop]; [by replace n with total by lia |].
  assert (Hlm : length (done_last n) = length mem).
  { pose proof (length_slice mem (src + total - n) n). apply length_splice; lia. }
  pose proof (mov_last n ltac:(lia)) as E. rewrite <- mov_byte in E by lia.
  destruct (rd_in (done_last n) (src + total - n - 1)) as [b Eb]; [lia |]. rewrite Eb, bind_ok in *.
  rewrite E, bind_ok. replace (dest + total - n - 1) with (dest + total - (n + 1)) by lia.
  replace (src + total - n - 1) with (src + total - (n + 1)) by lia. apply IH; lia.
Qed.

Lemma generic_memcpy_reverse_ok :
  0 <= total -> generic_memcpy_reverse mem dest src (Z.to_nat total) = Ok (copied mem dest src total).
Proof using Hdest Hsrc Horder.
  intros. unfold generic_memcpy_reverse. rewrite Z2Nat.id by lia.
  pose proof (reverse_loop_last (Z.to_nat total) 0) as E. rewrite done_last_0, !Z.sub_0_r, done_last_all in E. apply E; lia.
Qed.

Lemma memcpy_reverse_ok unsafe_std :
  0 <= total -> __memcpy_reverse unsafe_std mem dest src total = Ok (copied mem dest src total).
Proof using Hdest Hsrc Horder.
  intros. unfold __memcpy_reverse. destruct unsafe_std; [by apply generic_memcpy_reverse_ok |].
  pose proof (rep_movs_last (Z.to_nat total) 0) as E. rewrite done_last_0, !Z.sub_0_r, done_last_all in E.
  by rewrite E by lia.
Qed.
End Backward.

(** ** Fills *)

Section Fill.
Context (mem : bytes) (dest c total : Z).
Hypothesis Hdest : 0 <= dest /\ dest + total <= zlen mem.

Abbreviation filled n := (splice mem dest (replicate (Z.to_nat n) c)).

Lemma fill_next n d k :
  0 <= n -> n + Z.of_nat k <= total -> d = replicate k c -> wr_range (filled n) (dest + n) d = Ok (filled (n + Z.of_nat k)).
Proof using Hdest.
  intros Hn Ht ->. assert (Hl : zlen (replicate (Z.to_nat n) c) = n) by (rewrite length_replicate; lia).
  rewrite wr_range_splice by (rewrite ?length_splice, ?length_replicate by lia; lia).
  f_equal. rewrite <- Hl at 2. rewrite splice_splice by (rewrite ?length_replicate; lia). f_equal.
  rewrite Z2Nat.inj_add, Nat2Z.id, replicate_add by lia. done.
Qed.

Lemma stos_next n d k :
  0 <= n -> n + Z.of_nat k <= total -> d = replicate k c -> stos d (filled n, dest + n) = Ok (filled (n + Z.of_nat k), dest + (n + Z.of_nat k)).
Proof using Hdest.
  intros Hn Ht Hd. unfold stos. rewrite (fill_next n d k), bind_ok by done. do 2 f_equal. subst d. rewrite length_replicate. lia.
Qed.

Lemma filled_none : filled 0 = mem.
Proof using. change (replicate (Z.to_nat 0) c) with (@nil Z). apply splice_nil. Qed.

Lemma filled_0 : (mem, dest) = (filled 0, dest + 0).
Proof using. by rewrite filled_none, Z.add_0_r. Qed.

Lemma rep_stos_next count n :
  0 <= n -> n + Z.of_nat count <= total -> rep_stos [c] count (filled n, dest + n) = Ok (filled (n + Z.of_nat count), dest + (n + Z.of_nat count)).
Proof using Hdest.
  revert n. induction count as [| count IH]; intros n Hn Ht; cbn [rep_stos]; [by rewrite Z.add_0_r |].
  rewrite (stos_next n [c] 1), bind_ok, IH by (done || lia).
  replace (n + Z.of_nat 1 + Z.of_nat count) with (n + Z.of_nat (S count)) by lia. done.
Qed.

Lemma generic_memset_ok character count n :
  u8 character = c -> 0 <= n -> n + Z.of_nat count <= total ->
  generic_memset (filled n) (dest + n) character count = Ok (filled (n + Z.of_nat count)).
Proof using Hdest.
  intros Hc. revert n. induction count as [| count IH]; intros n Hn Ht; cbn [generic_memset]; [by rewrite Z.add_0_r |].
  rewrite Hc, wr_splice, (fill_next n [c] 1), bind_ok by (done || lia).
  replace (dest + n + 1) with (dest + (n + Z.of_nat 1)) by lia. rewrite IH by lia.
  replace (n + Z.of_nat 1 + Z.of_nat count) with (n + Z.of_nat (S count)) by lia. done.
Qed.

Lemma memset_ok fill : u8 fill = c -> 0 <= total -> __memset mem dest fill total = Ok (filled total).
Proof using Hdest.
  intros Hc Ht. unfold __memset. rewrite Hc, filled_0, rep_stos_next, bind_ok by lia. do 3 f_equal. lia.
Qed.
End Fill.

Section Zero.
Context (mem : bytes) (dest total : Z).
Hypothesis Hdest : 0 <= dest /\ dest + total <= zlen mem.

Abbreviation zeroed n := (splice mem dest (replicate (Z.to_nat n) 0)).

Lemma when_zero (c : bool) n d k :
  0 <= n -> (c = true -> n + Z.of_nat k <= total) -> d = replicate k 0 ->
  when c (zeroed n, dest + n) (stos d) = Ok (zeroed (if c then n + Z.of_nat k else n), dest + (if c then n + Z.of_nat k else n)).
Proof using Hdest. intros ? Hc ?. destruct c; [apply (stos_next mem dest 0 total); auto | done]. Qed.

Lemma fill_twice k l : total = Z.of_nat k + Z.of_nat l ->
  (mem ← wr_range mem dest (replicate k 0); wr_range mem (dest + Z.of_nat k) (replicate l 0)) = Ok (zeroed total).
Proof using Hdest.
  intros Ht. pose proof (fill_next mem dest 0 total Hdest 0 (replicate k 0) k) as E.
  rewrite filled_none, Z.add_0_r, Z.add_0_l in E.
  rewrite E, bind_ok, (fill_next mem dest 0 total Hdest _ _ l) by (done || lia). by rewrite Ht.
Qed.

Lemma constant_memset_zero_ok : 0 <= total -> __constant_memset_zero mem dest total = Ok (zeroed total).
Proof using Hdest.
  intros Ht. assert (E1 : forall k, Z.of_nat k = total -> wr_range mem dest (replicate k 0) = Ok (zeroed total)).
  { intros k <-. pose proof (fill_next mem dest 0 _ Hdest 0 (replicate k 0) k) as E.
    rewrite filled_none, Z.add_0_r, Z.add_0_l in E. apply E; done || lia. }
  unfold __constant_memset_zero.
  destruct (Z.eqb_spec total 0) as [E |]; [by rewrite E, filled_none |].
  destruct (Z.eqb_spec total 1); [by apply (E1 1%nat) |].
  destruct (Z.eqb_spec total 2); [by apply (E1 2%nat) |].
  destruct (Z.eqb_spec total 4); [by apply (E1 4%nat) |].
  destruct (Z.eqb_spec total 3); [by apply (fill_twice 2 1) |]. destruct (Z.eqb_spec total 5); [by apply (fill_twice 4 1) |].
  destruct (Z.eqb_spec total 6); [by apply (fill_twice 4 2) |]. destruct (Z.eqb_spec total 8); [by apply (fill_twice 4 4) |].
  destruct (Z.leb_spec 26 total); [by apply memset_ok |]. rewrite (filled_0 mem dest 0).
  do 6 (rewrite (when_zero _ _ [0; 0; 0; 0] 4) by (done || (intros; repeat case_match; Z.div_mod_to_equations; lia)); rewrite bind_ok).
  rewrite (when_zero _ _ [0; 0] 2), bind_ok by (done || (intros; repeat case_match; Z.div_mod_to_equations; lia)).
  rewrite (when_zero _ _ [0] 1), bind_ok by (done || (intros; repeat case_match; Z.div_mod_to_equations; lia)).
  do 4 f_equal. repeat case_match; Z.div_mod_to_equations; lia.
Qed.
End Zero.

(** ** Swaps *)

Lemma rd_of_slice m i b : 0 <= i < zlen m -> slice m i 1 = [b] -> rd m i = Ok b.
Proof. intros Hi Hs. destruct (rd_in m i Hi) as [b' E]. rewrite E. apply rd_slice in E as [_ E]. congruence. Qed.

Lemma slice_byte (m : bytes) i : 0 <= i < zlen m -> exists b, slice m i 1 = [b].
Proof. intros Hi. destruct (rd_in m i Hi) as [b E]. exists b. by apply rd_slice in E as [_ ?]. Qed.

(** Regions that do not meet. *)
Definition apart (o1 k1 o2 k2 : Z) : Prop := o1 + k1 <= o2 \/ o2 + k2 <= o1.

Lemma memswap_ok len : forall m first second,
  0 <= first -> first + Z.of_nat len <= zlen m -> 0 <= second -> second + Z.of_nat len <= zlen m ->
  apart first (Z.of_nat len) second (Z.of_nat len) ->
  exists m', memswap m first second len = Ok m' /\ length m' = length m /\
    slice m' first (Z.of_nat len) = slice m second (Z.of_nat len) /\
    slice m' second (Z.of_nat len) = slice m first (Z.of_nat len) /\
    forall o k, 0 <= o -> 0 <= k -> apart o k first (Z.of_nat len) -> apart o k second (Z.of_nat len) ->
      slice m' o k = slice m o k.
Proof.
  unfold apart. induction len as [| len IH]; intros m first second H1 H2 H3 H4 Hd; cbn [memswap]; [by exists m |].
  destruct (slice_byte m first) as [x Hx]; [lia |]. destruct (slice_byte m second) as [y Hy]; [lia |].
  rewrite (rd_of_slice m first x), (rd_of_slice m second y), !bind_ok by (done || lia).
  rewrite wr_splice, wr_range_splice, bind_ok by (cbn [length]; lia). set (m1 := splice m first [y]).
  assert (L1 : length m1 = length m) by (apply length_splice; cbn [length]; lia).
  rewrite wr_splice, wr_range_splice, bind_ok by (cbn [length]; lia). set (m2 := splice m1 second [x]).
  assert (L2 : length m2 = length m) by (unfold m2; rewrite length_splice; cbn [length]; lia).
  assert (Hkeep : forall o k, 0 <= o -> 0 <= k -> apart o k first 1 -> apart o k second 1 -> slice m2 o k = slice m o k).
  { unfold apart. intros. unfold m2, m1. rewrite !slice_splice_ne by (rewrite ?length_splice by (cbn [length]; lia); cbn [length]; lia). done. }
  unfold apart in Hkeep.
  destruct (IH m2 (first + 1) (second + 1)) as (m' & E & L' & S1 & S2 & S3); [lia.. |]. exists m'. split; [done |].
  rewrite Nat2Z.inj_succ, <- Z.add_1_l. split; [lia |]. split_and!.
  - rewrite slice_add, S1, (slice_add m), S3, (Hkeep (second + 1)) by lia. f_equal.
    unfold m2. rewrite slice_splice_ne by (cbn [length]; lia). rewrite Hy. by apply slice_splice_same; cbn [length]; lia.
  - rewrite slice_add, S2, (slice_add m), S3, (Hkeep (first + 1)) by lia. f_equal.
    rewrite Hx. by apply slice_splice_same; cbn [length]; lia.
  - intros o k ? ? ? ?. rewrite S3, Hkeep by lia. done.
Qed.

(** ** Strings *)

Lemma toupper_zero c : 0 <= c -> toupper c = 0 -> c = 0.
Proof. unfold toupper, islower. destruct (_ && _) eqn:E; [| done]. change (ch "a") with 97 in *. change (ch "A") with 65. lia. Qed.

Lemma strcasecmp_ok a b R R' :
  Forall (fun c => 0 < c) a -> Forall (fun c => 0 < c) b ->
  exists diff, strcasecmp (a ++ 0 :: R) (b ++ 0 :: R') = Ok diff /\ (diff = 0 <-> toupper <$> a = toupper <$> b).
Proof.
  intros Ha. revert b. induction Ha as [| x a Hx Ha IH]; intros b Hb; (destruct Hb as [| y b Hy Hb]; cbn [app strcasecmp]).
  - by exists 0.
  - change (toupper 0) with 0. destruct (Z.eqb_spec (0 - toupper y) 0) as [E |]; cbn [negb].
    + pose proof (toupper_zero y). lia.
    + eexists. split; [done |]. split; [lia | done].
  - change (toupper 0) with 0. destruct (Z.eqb_spec (toupper x - 0) 0) as [E |]; cbn [negb].
    + pose proof (toupper_zero x). lia.
    + eexists. split; [done |]. split; [lia | done].
  - destruct (Z.eqb_spec (toupper x - toupper y) 0) as [E |]; cbn [negb].
    + rewrite (proj2 (Z.eqb_neq x 0)) by lia. destruct (IH b Hb) as (d & Ed & Hiff). exists d. split; [done |].
      rewrite Hiff. cbn. split; [intros ->; f_equal; lia | by intros [= _ ?]].
    + eexists. split; [done |]. split; [lia |]. cbn. intros [= ? _]. lia.
Qed.

(** One byte of a copy that stops at a terminator. *)
Lemma next_byte mem dest src total n b :
  0 <= dest /\ dest + total <= zlen mem -> 0 <= src /\ src + total <= zlen mem -> dest <= src \/ src + total <= dest ->
  0 <= n < total -> slice mem (src + n) 1 = [b] ->
  rd (copied mem dest src n) (src + n) = Ok b /\
  wr (copied mem dest src n) (dest + n) b = Ok (copied mem dest src (n + 1)) /\
  rd (copied mem dest src (n + 1)) (dest + n) = Ok b.
Proof.
  intros Hd Hs Ho Hn Hb. pose proof (length_copied mem dest src total Hd Hs n ltac:(lia)) as [L1 L2].
  pose proof (length_copied mem dest src total Hd Hs (n + 1) ltac:(lia)) as [L3 L4].
  assert (E1 : rd (copied mem dest src n) (src + n) = Ok b).
  { apply rd_of_slice; [lia |]. by rewrite (rd_ahead mem dest src total) by (done || lia). }
  pose proof (mov_next mem dest src total Hd Hs Ho n 1 ltac:(lia) ltac:(lia) ltac:(lia)) as E2.
  rewrite <- mov_byte, E1, bind_ok in E2 by lia. split_and!; [done | done |]. apply rd_of_slice; [lia |].
  rewrite slice_add by lia. rewrite <- splice_splice by (rewrite ?Hb; cbn [length]; lia). rewrite L1, Hb.
  apply slice_splice_same; [lia | | done]. rewrite L2. cbn [length]. lia.
Qed.

Lemma str_at_slice mem off s : str_at mem off s -> 0 <= off /\ off + zlen s + 1 <= zlen mem /\ slice mem off (zlen s + 1) = s ++ [0].
Proof.
  intros (Ho & _ & R & E). assert (Hl : length (drop (Z.to_nat off) mem) = length (s ++ 0 :: R)) by (by rewrite E).
  rewrite length_drop, length_app in Hl. cbn [length] in Hl. split; [done |]. split; [lia |].
  unfold slice. rewrite E, cons_middle, app_assoc. apply take_app_length'. rewrite length_app. cbn [length]. lia.
Qed.

Section Strings.
Context (mem : bytes) (dest src : Z) (s : bytes) (total : Z).
Hypothesis Hstr : str_at mem src s.
Hypothesis Htotal : 0 <= total <= zlen s + 1.
Hypothesis Hdest : 0 <= dest /\ dest + total <= zlen mem.
Hypothesis Horder : dest <= src \/ src + total <= dest.

Lemma source_in : 0 <= src /\ src + total <= zlen mem.
Proof using Hstr Htotal. clear Hdest Horder. pose proof (str_at_slice mem src s Hstr). lia. Qed.

Lemma source_byte pre b post : s ++ [0] = pre ++ b :: post -> slice mem (src + zlen pre) 1 = [b].
Proof using Hstr.
  clear Hdest Horder Htotal. intros E. destruct (str_at_slice mem src s Hstr) as (Ho & Hl & Hs). rewrite E in Hs. apply (f_equal length) in E.
  rewrite !length_app in E. cbn [length] in E. apply (f_equal (fun l => slice l (zlen pre) 1)) in Hs.
  unfold slice in *. rewrite (Nat2Z.id (length pre)), drop_app_length in Hs.
  change (Z.to_nat 1) with 1%nat in *. change (take 1 (b :: post)) with [b] in Hs. rewrite <- Hs.
  replace (Z.to_nat (zlen s + 1)) with (length pre + (length s + 1 - length pre))%nat by lia.
  rewrite <- take_drop_commute, take_take, Nat.min_l by lia. rewrite Z2Nat.inj_add, Nat2Z.id, <- drop_drop by lia. done.
Qed.

Lemma source_prefix n : 0 <= n <= zlen s -> slice mem src n = take (Z.to_nat n) s.
Proof using Hstr.
  clear Hdest Horder Htotal. intros Hn. destruct (str_at_slice mem src s Hstr) as (Ho & Hl & Hs).
  apply (f_equal (take (Z.to_nat n))) in Hs. unfold slice in *. rewrite take_take, Nat.min_l, take_app_le in Hs by lia. done.
Qed.

Lemma strcpy_loop_ok rest : forall pre fuel, total = zlen s + 1 -> s = pre ++ rest -> (length rest < fuel)%nat ->
  strcpy_loop fuel (copied mem dest src (zlen pre)) (dest + zlen pre) (src + zlen pre) = Ok (copied mem dest src total).
Proof using Hstr Htotal Hdest Horder.
  induction rest as [| b rest IH]; intros pre fuel Ht Hs Hf; (destruct fuel as [| fuel]; [cbn in Hf; lia |]); cbn [strcpy_loop].
  - rewrite app_nil_r in Hs. pose proof (source_byte pre 0 [] ltac:(by rewrite Hs)) as Hb.
    destruct (next_byte mem dest src total (zlen pre) 0 Hdest source_in Horder ltac:(rewrite Ht, Hs; lia) Hb) as (E1 & E2 & E3).
    rewrite E1, bind_ok, E2, bind_ok, E3, bind_ok. cbn [Z.eqb]. do 3 f_equal. rewrite Ht, Hs. done.
  - pose proof (source_byte pre b (rest ++ [0]) ltac:(by rewrite Hs, <- app_assoc)) as Hb.
    assert (Hls : (length s = length pre + S (length rest))%nat) by (rewrite Hs, length_app; done).
    destruct (next_byte mem dest src total (zlen pre) b Hdest source_in Horder ltac:(lia) Hb) as (E1 & E2 & E3).
    rewrite E1, bind_ok, E2, bind_ok, E3, bind_ok.
    assert (Hnz : b <> 0). { destruct Hstr as (_ & Hnz & _). rewrite Hs in Hnz. by apply Forall_app in Hnz as [_ [? _]%Forall_cons]. }
    rewrite (proj2 (Z.eqb_neq _ _)) by done. cbn [length] in Hf.
    specialize (IH (pre ++ [b]) fuel Ht ltac:(by rewrite Hs, <- app_assoc) ltac:(lia)). rewrite length_app, Nat2Z.inj_add in IH.
    cbn [length] in IH. by rewrite !Z.add_assoc in IH.
Qed.

Lemma strcpy_ok : total = zlen s + 1 -> strcpy mem dest src = Ok (splice mem dest (s ++ [0])).
Proof using Hstr Htotal Hdest Horder.
  intros Ht. pose proof (strcpy_loop_ok s [] (length mem) Ht eq_refl) as E. change (zlen []) with 0 in E.
  change (slice mem src 0) with (@nil Z) in E. rewrite splice_nil, !Z.add_0_r in E.
  destruct (str_at_slice mem src s Hstr) as (Ho & Hl & Hsl). unfold strcpy. rewrite E by lia. by rewrite Ht, Hsl.
Qed.
Lemma strncpy_loop_ok rest : forall pre max, s = pre ++ rest -> total = Z.min (zlen pre + Z.of_nat max) (zlen s + 1) ->
  dest + zlen pre + Z.of_nat max <= zlen mem ->
  strncpy (copied mem dest src (zlen pre)) (dest + zlen pre) (src + zlen pre) max =
  Ok (splice mem dest (take (length pre + max) s ++ replicate (max - length rest) 0)).
Proof using Hstr Htotal Hdest Horder.
  induction rest as [| b rest IH]; intros pre max Hs Ht Hm; (destruct max as [| max]; cbn [strncpy]);
    pose proof (f_equal length Hs) as Hls; rewrite length_app in Hls; cbn [length] in Hls.
  - rewrite source_prefix, Nat2Z.id, Nat.add_0_r, app_nil_r by (cbn [length] in *; lia). done.
  - rewrite app_nil_r in Hs. pose proof (source_byte pre 0 [] ltac:(by rewrite Hs)) as Hb.
    destruct (next_byte mem dest src total (zlen pre) 0 Hdest source_in Horder ltac:(rewrite Ht, Hs; lia) Hb) as (E1 & E2 & E3).
    rewrite E1, bind_ok, E2, bind_ok, E3, bind_ok. cbn [Z.eqb]. destruct (str_at_slice mem src s Hstr) as (Ho & Hl & Hsl).
    rewrite Hs in *. rewrite Hsl. set (m := splice mem dest (pre ++ [0])).
    assert (Hlm : length m = length mem) by (apply length_splice; rewrite ?length_app; cbn [length]; lia).
    pose proof (generic_memset_ok m (dest + zlen pre) 0 (Z.of_nat (S max)) ltac:(lia) 0 (S max) 0 eq_refl) as E.
    rewrite filled_none, Z.add_0_r, Z.add_0_l, Nat2Z.id in E. rewrite E by lia. f_equal. unfold m.
    rewrite <- splice_splice by (cbn [length]; lia). rewrite splice_over
      by (rewrite ?length_replicate, ?length_splice by lia; cbn [length]; lia).
    rewrite splice_splice by (rewrite ?length_replicate; lia). rewrite take_ge by lia. by rewrite Nat.sub_0_r.
  - rewrite source_prefix, Nat2Z.id, Nat.add_0_r, app_nil_r by lia. done.
  - pose proof (source_byte pre b (rest ++ [0]) ltac:(by rewrite Hs, <- app_assoc)) as Hb.
    destruct (next_byte mem dest src total (zlen pre) b Hdest source_in Horder ltac:(lia) Hb) as (E1 & E2 & E3).
    rewrite E1, bind_ok, E2, bind_ok, E3, bind_ok.
    assert (Hnz : b <> 0). { destruct Hstr as (_ & Hnz & _). rewrite Hs in Hnz. by apply Forall_app in Hnz as [_ [? _]%Forall_cons]. }
    rewrite (proj2 (Z.eqb_neq _ _)) by done.
    specialize (IH (pre ++ [b]) max). rewrite length_app, Nat2Z.inj_add in IH. cbn [length] in IH.
    change (Z.of_nat 1) with 1 in IH. rewrite <- !app_assoc, !Z.add_assoc in IH. rewrite IH by (done || lia). do 3 f_equal. f_equal. lia.
Qed.

Lemma strncpy_ok max : total = Z.min (Z.of_nat max) (zlen s + 1) -> dest + Z.of_nat max <= zlen mem ->
  strncpy mem dest src max = Ok (splice mem dest (take max s ++ replicate (max - length s) 0)).
Proof using Hstr Htotal Hdest Horder.
  intros Ht Hm. pose proof (strncpy_loop_ok s [] max eq_refl) as E. change (zlen []) with 0 in E.
  change (slice mem src 0) with (@nil Z) in E. rewrite splice_nil, !Z.add_0_r, Z.add_0_l in E. by apply E.
Qed.
End Strings.

Lemma strcat_ok mem dest src a b :
  str_at mem dest a -> str_at mem src b -> dest + zlen a + zlen b + 1 <= zlen mem ->
  dest + zlen a <= src \/ src + zlen b + 1 <= dest + zlen a ->
  exists mem', strcat mem dest src = Ok mem' /\ length mem' = length mem /\ str_at mem' dest (a ++ b).
Proof.
  intros Ha Hb Hl Ho. unfold strcat. rewrite (strlen_str _ _ _ Ha), bind_ok.
  rewrite (strcpy_ok mem (dest + zlen a) src b (zlen b + 1)) by (done || destruct Ha; lia). eexists. split; [done |].
  assert (0 <= dest) by apply Ha. split; [apply length_splice; rewrite ?length_app; cbn [length]; lia |].
  destruct Ha as (_ & Hna & R & HR), Hb as (_ & Hnb & _). split; [done |]. split; [by apply Forall_app |].
  exists (drop (Z.to_nat (dest + zlen a) + length (b ++ [0])) mem). unfold splice.
  rewrite drop_app_le by (rewrite length_take; lia). rewrite Z2Nat.inj_add, Nat2Z.id, <- take_drop_commute by lia.
  rewrite HR, take_app_length. by rewrite <- !app_assoc.
Qed.

Lemma strnlen_ok s R max :
  Forall (fun c => c <> 0) s -> 0 <= max -> strnlen (s ++ 0 :: R) max = Ok (Z.min max (zlen s)).
Proof.
  intros Hs. revert max. induction Hs as [| c s Hc Hs IH]; intros max Hm; cbn [app strnlen];
    (destruct (Z.eqb_spec max 0) as [-> | Hnz]; [f_equal; lia |]).
  - cbn [Z.eqb length]. f_equal. lia.
  - rewrite (proj2 (Z.eqb_neq c 0)), IH, bind_ok by (done || lia). cbn [length]. f_equal. lia.
Qed.

Lemma strndup_ok {P : Platform} {H : Type} {A : Allocator H} s R max (h : H) :
  Forall (fun c => c <> 0) s -> 0 <= max -> zlen s + 1 < 2 ^ word_bits ->
  exists dup h', strndup (s ++ 0 :: R) max h = Ok (dup, h') /\ (dup = None \/ dup = Some (take (Z.to_nat max) s ++ [0])).
Proof.
  intros Hs Hm Hw. unfold strndup. rewrite strnlen_ok, bind_ok by done. set (n := Z.min max (zlen s)).
  rewrite wrap_small by (unfold in_range; lia). destruct (alloc_realloc h None (n + 1)) as [[dup |] h'] eqn:E; [| by exists None, h'; auto].
  destruct (alloc_realloc_ok _ _ _ _ _ E ltac:(lia)) as [Hl _].
  rewrite rd_range_slice, bind_ok by (rewrite ?length_app; cbn [length]; lia).
  assert (Hsl : slice (s ++ 0 :: R) 0 n = take (Z.to_nat max) s).
  { unfold slice. change (drop (Z.to_nat 0) ?l) with l. rewrite take_app_le by lia.
    destruct (Z.le_gt_cases max (zlen s)); unfold n; [by rewrite Z.min_l by lia |]. rewrite Z.min_r, !take_ge by lia. done. }
  rewrite Hsl. assert (Hlt : zlen (take (Z.to_nat max) s) = n) by (rewrite length_take; lia).
  rewrite wr_range_splice, bind_ok by lia.
  assert (Hls : length (splice dup 0 (take (Z.to_nat max) s)) = length dup) by (apply length_splice; lia).
  rewrite wr_splice, wr_range_splice, bind_ok by (cbn [length]; lia). do 2 eexists. split; [done |]. right. f_equal.
  rewrite <- Hlt at 1. rewrite <- (Z.add_0_l (zlen _)), splice_splice by (cbn [length]; lia). apply splice_whole.
  rewrite length_app. cbn [length]. lia.
Qed.

(** C21. Copies and fills, as the generic loops and as the x86 string instructions make
    them, give the same memory, whatever the compiler knows of their arguments.
    [memmove] is right for regions that overlap in any way, also where it moves four
    bytes at a time; [memcpy] for regions that do not meet or whose destination comes
    first; [memset] fills exactly the region. *)
Theorem memmove_correct (mem : bytes) (dest src len fill : Z) :
  0 <= len -> 0 <= dest -> dest + len <= zlen mem -> 0 <= src -> src + len <= zlen mem ->
  let moved := Ok (splice mem dest (slice mem src len)) in
  let filled := Ok (splice mem dest (replicate (Z.to_nat len) (u8 fill))) in
  generic_memmove mem dest src (Z.to_nat len) = moved /\
  (forall unsafe_std constant_offset constant, memmove unsafe_std constant_offset constant mem dest src len = moved) /\
  (dest <= src \/ src + len <= dest ->
   generic_memcpy mem dest src (Z.to_nat len) = moved /\ forall constant, memcpy constant mem dest src len = moved) /\
  generic_memset mem dest fill (Z.to_nat len) = filled /\
  (forall constant_fill constant, memset constant_fill constant mem dest fill len = filled).
Proof.
  intros Hn Hd1 Hd2 Hs1 Hs2 moved filled.
  assert (Hd : 0 <= dest /\ dest + len <= zlen mem) by done. assert (Hs : 0 <= src /\ src + len <= zlen mem) by done.
  assert (Hgen : dest <= src \/ src + len <= dest -> generic_memcpy mem dest src (Z.to_nat len) = moved).
  { intros Ho. pose proof (generic_memcpy_ok mem dest src len Hd Hs Ho (Z.to_nat len) 0) as E.
    change (slice mem src 0) with (@nil Z) in E. rewrite splice_nil, !Z.add_0_r, Z.add_0_l, Z2Nat.id in E by lia. apply E; lia. }
  assert (Hcpy : dest <= src \/ src + len <= dest -> forall constant, memcpy constant mem dest src len = moved).
  { intros Ho []; [by apply constant_memcpy_ok | by apply memcpy_ok]. }
  split_and!; [| | by auto | |].
  - unfold generic_memmove. destruct (Z.ltb_spec dest src); [apply Hgen; lia | apply generic_memcpy_reverse_ok; lia].
  - intros unsafe_std [] constant; unfold memmove, __memmove.
    + destruct (Z.leb_spec (dest - src) 0); [apply Hcpy; lia | apply memcpy_reverse_ok; lia].
    + destruct (Z.leb_spec dest src); [apply (Hcpy ltac:(lia) false) | apply memcpy_reverse_ok; lia].
  - pose proof (generic_memset_ok mem dest (u8 fill) len Hd fill (Z.to_nat len) 0 eq_refl) as E.
    rewrite filled_none, Z.add_0_r, Z.add_0_l, Z2Nat.id in E by lia. apply E; lia.
  - intros constant_fill constant. unfold memset. destruct (constant_fill && (fill =? 0) && constant) eqn:E; [| by apply memset_ok].
    assert (fill = 0) as -> by lia. by apply constant_memset_zero_ok.
Qed.

Lemma memmove_correct_witness :
  generic_memmove [1; 2; 3; 4; 5; 6; 7; 8; 9] 1 0 8 = Ok [1; 1; 2; 3; 4; 5; 6; 7; 8] /\
  memmove false false false [1; 2; 3; 4; 5; 6; 7; 8; 9] 1 0 8 = Ok [1; 1; 2; 3; 4; 5; 6; 7; 8].
Proof.
  destruct (memmove_correct [1; 2; 3; 4; 5; 6; 7; 8; 9] 1 0 8 0) as (E1 & E2 & _).
  - discriminate.
  - discriminate.
  - discriminate.
  - discriminate.
  - discriminate.
  - split; [exact E1 | exact (E2 false false false)].
Defined.

(** C39. Copies of strings.  For a string [s] and a destination that does not lie inside
    it, [strcpy] writes the string and its terminator and nothing else; [strncpy]
    writes exactly [max] bytes, the string cut or filled up with zeros; [strcat]
    leaves the concatenation at the destination; [strndup] gives a terminated copy of
    at most [max] characters, or nothing if memory runs out. *)
Theorem string_copy_correct {P : Platform} {H : Type} {A : Allocator H} (mem : bytes) (dest src : Z) (s : bytes) (max : nat) (h : H) :
  str_at mem src s -> 0 <= dest -> dest <= src \/ src + zlen s + 1 <= dest ->
  (dest + zlen s + 1 <= zlen mem -> strcpy mem dest src = Ok (splice mem dest (s ++ [0]))) /\
  (dest + Z.of_nat max <= zlen mem ->
   strncpy mem dest src max = Ok (splice mem dest (take max s ++ replicate (max - length s) 0))) /\
  (forall a, str_at mem dest a -> dest + zlen a <= src \/ src + zlen s + 1 <= dest -> dest + zlen a + zlen s + 1 <= zlen mem ->
   exists mem', strcat mem dest src = Ok mem' /\ length mem' = length mem /\ str_at mem' dest (a ++ s)) /\
  (zlen s + 1 < 2 ^ word_bits ->
   exists dup h', strndup (drop (Z.to_nat src) mem) (Z.of_nat max) h = Ok (dup, h') /\ (dup = None \/ dup = Some (take max s ++ [0]))).
Proof.
  intros Hs Hd Ho. split_and!.
  - intros Hl. apply (strcpy_ok mem dest src s (zlen s + 1)); done || lia.
  - intros Hl. apply (strncpy_ok mem dest src s (Z.min (Z.of_nat max) (zlen s + 1))); done || lia.
  - intros a Ha Hoa Hl. apply strcat_ok; [done | done | done |]. lia.
  - intros Hw. destruct Hs as (_ & Hnz & R & ->).
    destruct (strndup_ok s R (Z.of_nat max) h Hnz ltac:(lia) Hw) as (dup & h' & E & Hdup). rewrite Nat2Z.id in Hdup.
    by exists dup, h'.
Qed.

(** The string "iP" at offset 4 and an empty one at 0. *)
Lemma string_copy_correct_witness :
  strcpy [0; 9; 9; 9; 105; 80; 0] 0 4 = Ok [105; 80; 0; 9; 105; 80; 0] /\
  strncpy [0; 9; 9; 9; 105; 80; 0] 0 4 4 = Ok [105; 80; 0; 0; 105; 80; 0].
Proof.
  destruct (@string_copy_correct i386_pcbios unit (Build_Allocator unit (fun h _ _ => (None, h)) (fun h _ => h)
      ltac:(discriminate) ltac:(discriminate)) [0; 9; 9; 9; 105; 80; 0] 0 4 [105; 80] 4 tt) as (E1 & E2 & _).
  - split; [discriminate |]. split; [repeat constructor; discriminate |]. exists []. reflexivity.
  - discriminate.
  - left. discriminate.
  - split; [apply E1; discriminate | apply E2; discriminate].
Defined.
