(* ===== verification/Asn1Correct.v ===== *)
(** * Correctness of the ASN.1 reader and builder

    Safety of the reader on arbitrary bytes, the encoding rules as a reference
    ([der]), the effect of the reader on encoded objects and of the builder on
    its contents, and the values of integers and times. *)

From Stdlib Require Import ZArith Lia Bool ZifyBool.
From stdpp Require Import base numbers list strings.
From S2P Require Import Prelude Bits Heap Strings Digest Calendar Asn1.

Local Open Scope Z_scope.

(** ** Safety of the reader *)

(** The cursor lies inside the object. *)
Definition cursor_ok (mem : bytes) (c : asn1_cursor) : Prop :=
  0 <= cur_data c /\ 0 <= cur_len c /\ cur_data c + cur_len c <= zlen mem.

(** [c'] covers a part of [c]. *)
Definition within (c c' : asn1_cursor) : Prop :=
  cur_data c <= cur_data c' /\ 0 <= cur_len c' /\ cur_data c' + cur_len c' <= cur_data c + cur_len c.

Lemma within_refl c : 0 <= cur_len c -> within c c.
Proof. unfold within. lia. Qed.

Lemma within_trans c1 c2 c3 : within c1 c2 -> within c2 c3 -> within c1 c3.
Proof. unfold within. lia. Qed.

Lemma within_ok mem c c' : cursor_ok mem c -> within c c' -> cursor_ok mem c'.
Proof. unfold cursor_ok, within. lia. Qed.

Lemma within_invalid c c' : within c c' -> within c (asn1_invalidate_cursor c').
Proof. unfold within, asn1_invalidate_cursor. cbn. lia. Qed.

#[export] Hint Resolve within_refl within_ok within_invalid : ipxe.

(** One byte of a length field. *)
Lemma length_byte len b :
  is_byte b -> Z.lor (u32 (Z.shiftl len 8)) b = u32 (len * 2 ^ 8 + b).
Proof.
  intros Hb. rewrite Z.shiftl_mul_pow2 by lia. unfold wrap.
  replace (len * 2 ^ 8) with (len * 2 ^ 8 + 0) at 1 by lia.
  change (2 ^ 32) with (2 ^ 24 * 2 ^ 8). rewrite Z.add_0_r, Zmult_mod_distr_r.
  rewrite lor_disjoint by (done || lia).
  rewrite <- (Z.mod_small b (2 ^ 8)) at 2 by done. symmetry. rewrite Z.mul_comm at 1.
  unfold in_range in Hb. Z.div_mod_to_equations. lia.
Qed.

Section Reader.
Context {P : Platform} (mem : bytes) (Hmem : Forall is_byte mem).

(** The value of the bytes of a length field. *)
Lemma length_loop_spec k len c :
  cursor_ok mem c -> Z.of_nat k <= cur_len c -> in_range 32 len ->
  length_loop mem k len c =
  Ok (u32 (len * 2 ^ (8 * Z.of_nat k) + be_value (slice mem (cur_data c) (Z.of_nat k))),
      Cursor (cur_data c + Z.of_nat k) (cur_len c - Z.of_nat k)).
Proof using Hmem.
  revert len c. induction k as [| k IH]; intros len c Hc Hk Hl; cbn [length_loop].
  - change (slice mem (cur_data c) (Z.of_nat 0)) with (@nil Z). change (be_value []) with 0.
    change (2 ^ (8 * Z.of_nat 0)) with 1. rewrite Z.mul_1_r, Z.add_0_r, Z.add_0_r, Z.sub_0_r, wrap_small by done.
    by destruct c.
  - destruct Hc as (Hd & Hlen & Hend). destruct (rd_ok mem (cur_data c)) as [b Eb]; [lia |].
    pose proof (rd_byte _ _ _ Hmem Eb) as Hb. step Eb. rewrite length_byte by done.
    rewrite IH; [| unfold cursor_ok, advance; cbn; lia | cbn; lia | apply wrap_range; lia].
    cbn [cur_data cur_len advance]. do 2 f_equal; [| f_equal; lia].
    replace (slice mem (cur_data c) (Z.of_nat (S k))) with (b :: slice mem (cur_data c + 1) (Z.of_nat k)).
    + rewrite be_value_cons, length_slice by lia.
      replace (8 * Z.of_nat (S k)) with (8 + 8 * Z.of_nat k) by lia. rewrite Z.pow_add_r by lia.
      unfold wrap. rewrite <- (Zplus_mod_idemp_l (_ * _)), Zmult_mod_idemp_l, Zplus_mod_idemp_l. f_equal. lia.
    + replace (Z.of_nat (S k)) with (1 + Z.of_nat k) by lia. rewrite slice_add by lia.
      unfold rd in Eb. rewrite (proj2 (Z.ltb_ge _ _)) in Eb by lia.
      destruct (mem !! Z.to_nat (cur_data c)) as [b' |] eqn:E; [| done]. injection Eb as ->.
      unfold slice at 2. rewrite (drop_S _ b) by done. done.
Qed.

(** A cursor further on in the same object. *)
Definition further (c c' : asn1_cursor) : Prop :=
  cur_data c <= cur_data c' /\ 0 <= cur_len c' /\ cur_data c' + cur_len c' = cur_data c + cur_len c.

Lemma further_within c c' : further c c' -> within c c'.
Proof. unfold further, within. lia. Qed.

Lemma land_0x7f b : Z.land b 0x7f = b mod 2 ^ 7.
Proof. exact (land_mask b 7 ltac:(lia)). Qed.

Lemma asn1_start_ok c type extra :
  cursor_ok mem c ->
  exists rc c', asn1_start mem c type extra = Ok (rc, c') /\ further c c' /\
    match rc with
    | inl _ => True
    | inr n => exists len, in_range 32 len /\ n = to_signed 32 len /\ len <= wrap word_bits (cur_len c' + extra)
    end.
Proof using Hmem.
  intros Hc. pose proof Hc as (Hd & Hlen & Hend). unfold asn1_start, asn1_type.
  destruct (Z.ltb_spec (cur_len c) 2); [exists (inl EINVAL_ASN1_EMPTY), c; unfold further; auto with lia |].
  rewrite (proj2 (Z.leb_le 1 _)) by lia. destruct (rd_ok mem (cur_data c)) as [t Et]; [lia |]. step Et.
  destruct (_ && _); [exists (inl ENXIO), c; unfold further; auto with lia |].
  cbn [cur_data advance]. destruct (rd_ok mem (cur_data c + 1)) as [b Eb]; [lia |]. step Eb.
  set (next := if negb _ then _ else _).
  assert (Hnext : exists k c1, next = (Z.of_nat k, c1) /\ further c c1 /\ cursor_ok mem c1).
  { subst next. destruct (negb _).
    - exists (Z.to_nat (b mod 2 ^ 7)), (advance (advance c 1) 1). unfold further, cursor_ok, advance. cbn.
      rewrite land_0x7f, Z2Nat.id by (apply Z.mod_pos_bound; lia). split; [done | lia].
    - exists 1%nat, (advance c 1). unfold further, cursor_ok, advance. cbn. split; [done | lia]. }
  destruct Hnext as (k & c1 & -> & Hf & Hc1).
  destruct (Z.ltb_spec (cur_len c1) (Z.of_nat k)); [exists (inl EINVAL_ASN1_LEN_LEN), c1; auto |].
  rewrite Nat2Z.id, length_loop_spec, bind_ok by (done || unfold in_range; lia). cbn beta iota.
  set (len := u32 _). set (c2 := Cursor _ _).
  assert (further c c2) by (unfold further, c2 in *; cbn; lia).
  destruct (Z.ltb_spec (wrap word_bits (cur_len c2 + extra)) len); [exists (inl EINVAL_ASN1_LEN), c2; auto |].
  exists (inr (to_signed 32 len)), c2. split_and!; [done | done |]. exists len.
  split_and!; [apply wrap_range; lia | done | lia].
Qed.

(** The length of an object is at most what remains of the cursor. *)
Lemma asn1_start_len c type :
  zlen mem < 2 ^ word_bits -> cursor_ok mem c ->
  exists rc c', asn1_start mem c type 0 = Ok (rc, c') /\ further c c' /\
    match rc with inl _ => True | inr n => n < 0 \/ 0 <= n <= cur_len c' end.
Proof using Hmem.
  intros Hw Hc. destruct (asn1_start_ok c type 0 Hc) as (rc & c' & E & Hf & Hrc). exists rc, c'.
  split_and!; [done | done |]. destruct rc as [e | n]; [done |]. destruct Hrc as (len & Hr & -> & Hle).
  rewrite Z.add_0_r, wrap_small in Hle by (unfold further, cursor_ok in *; unfold in_range; lia).
  unfold to_signed. rewrite wrap_small by done. destruct (len <? 2 ^ (32 - 1)); unfold in_range in Hr; lia.
Qed.

(** What an operation on a cursor may do to it. *)
Definition op_safe (op : asn1_cursor -> Z -> res (int_rc * asn1_cursor)) : Prop :=
  forall c type, cursor_ok mem c -> exists rc c', op c type = Ok (rc, c') /\ within c c'.

Hypothesis Hsize : zlen mem < 2 ^ word_bits.

Lemma asn1_enter_safe : op_safe (asn1_enter mem).
Proof using Hmem Hsize.
  intros c type Hc. destruct (asn1_start_len c type Hsize Hc) as (rc & c' & E & Hf & Hrc).
  unfold asn1_enter. step E. apply further_within in Hf. destruct rc as [e | n]; [eauto with ipxe |].
  destruct (Z.ltb_spec n 0); [eauto with ipxe |]. do 2 eexists. split; [done |].
  unfold within in *. cbn. lia.
Qed.

Lemma asn1_skip_if_exists_safe : op_safe (asn1_skip_if_exists mem).
Proof using Hmem Hsize.
  intros c type Hc. destruct (asn1_start_len c type Hsize Hc) as (rc & c' & E & Hf & Hrc).
  unfold asn1_skip_if_exists. step E. apply further_within in Hf. destruct rc as [e | n]; [eauto with ipxe |].
  destruct (Z.ltb_spec n 0); [eauto with ipxe |].
  assert (within c (advance c' n)) by (unfold within, advance in *; cbn; lia).
  destruct (cur_len _ =? 0); eauto.
Qed.

Lemma asn1_skip_safe : op_safe (asn1_skip mem).
Proof using Hmem Hsize.
  intros c type Hc. destruct (asn1_skip_if_exists_safe c type Hc) as (rc & c' & E & Hw).
  unfold asn1_skip. step E. destruct rc as [e | [| |]]; eauto with ipxe.
Qed.

Lemma asn1_shrink_safe : op_safe (asn1_shrink mem).
Proof using Hmem Hsize.
  intros c type Hc. destruct (asn1_start_len c type Hsize Hc) as (rc & c' & E & Hf & Hrc).
  assert (within c c) by (apply within_refl, Hc).
  unfold asn1_shrink. step E. destruct rc as [e | n]; [eauto with ipxe |].
  destruct (Z.ltb_spec n 0); [eauto with ipxe |]. do 2 eexists. split; [done |].
  unfold further, within in *. cbn. lia.
Qed.

(** ** Reading values is safe *)

Lemma asn1_boolean_safe c : cursor_ok mem c -> exists rc, asn1_boolean mem c = Ok rc.
Proof using Hmem Hsize.
  intros Hc. destruct (asn1_enter_safe c ASN1_BOOLEAN Hc) as (rc & c' & E & Hw). unfold asn1_boolean. step E.
  destruct (Z.eqb_spec (cur_len c') 1); cbn [negb]; [| eauto].
  destruct (rd_ok mem (cur_data c')) as [v Ev]; [unfold cursor_ok, within in *; lia |]. step Ev. eauto.
Qed.

Lemma integer_loop_safe n value data :
  0 <= data -> data + Z.of_nat n <= zlen mem -> exists r, integer_loop mem n value data = Ok r.
Proof using P.
  clear Hsize. revert value data. induction n as [| n IH]; intros value data Hd Hn; cbn [integer_loop]; [eauto |].
  destruct (_ && _); [eauto |]. destruct (rd_ok mem data) as [b Eb]; [lia |]. step Eb. apply IH; lia.
Qed.

Lemma asn1_integer_safe c : cursor_ok mem c -> exists r, asn1_integer mem c = Ok r.
Proof using Hmem Hsize.
  intros Hc. destruct (asn1_enter_safe c ASN1_INTEGER Hc) as (rc & c' & E & Hw). unfold asn1_integer. step E.
  destruct rc as [e | [| |]]; eauto. destruct (Z.ltb_spec (cur_len c') 1); [eauto |].
  unfold cursor_ok, within in *. destruct (rd_ok mem (cur_data c')) as [v Ev]; [lia |]. step Ev.
  destruct (integer_loop_safe (Z.to_nat (cur_len c' - 1)) (to_signed 8 v) (cur_data c' + 1)) as [r Er]; [lia.. |].
  step Er. destruct r; eauto.
Qed.

(** The object under the cursor is a bit string that claims more than eight unused
    bits. *)
Definition bad_unused (c : asn1_cursor) : Prop :=
  exists c' u, asn1_enter mem c ASN1_BIT_STRING = Ok (inr 0, c') /\ 1 <= cur_len c' /\
    rd mem (cur_data c') = Ok u /\ 8 < u.

(** What reading a bit string gives. *)
Definition bits_read (c : asn1_cursor) (r : res (int_rc * option asn1_bit_string_t)) : Prop :=
  exists rc bits, r = Ok (rc, bits) /\
    (rc = inr 0 <-> is_Some bits) /\
    forall b, bits = Some b -> within c (Cursor (bits_data b) (bits_len b)) /\ 0 <= bits_unused b < 8.

Lemma bits_read_none c (rc : int_rc) : rc <> inr 0 -> bits_read c (Ok (rc, None)).
Proof using Type. intros Hrc. exists rc, None. split_and!; [done | split; [done | by intros []] | done]. Qed.

Lemma asn1_bit_string_safe c :
  cursor_ok mem c ->
  bits_read c (asn1_bit_string mem c) \/ (asn1_bit_string mem c = Trap /\ bad_unused c).
Proof using Hmem Hsize.
  intros Hc. destruct (asn1_enter_safe c ASN1_BIT_STRING Hc) as (rc & c' & E & Hw). unfold asn1_bit_string. step E.
  destruct rc as [e | [| |]]; try by (left; apply bits_read_none).
  destruct (Z.ltb_spec (cur_len c') 1); [by left; apply bits_read_none |].
  unfold cursor_ok, within in *. destruct (rd_ok mem (cur_data c')) as [u Eu]; [lia |]. step Eu.
  pose proof (rd_byte _ _ _ Hmem Eu) as Hu. unfold in_range in Hu.
  destruct (Z.leb_spec 32 (u32 (8 - u))) as [Hbad | Hgood].
  { right. split; [done |]. exists c', u. split_and!; [done | lia | done |].
    apply Z.nle_gt. intros Hle. rewrite wrap_small in Hbad by (unfold in_range; lia). lia. }
  left. destruct (_ || _) eqn:Eor; [by apply bits_read_none |].
  destruct (rd_ok mem (cur_data c' + 1 + (cur_len c' - 1) - 1)) as [v Ev]; [lia |]. step Ev.
  destruct (negb _); [by apply bits_read_none |]. do 2 eexists. split; [done |]. split; [split; eauto |].
  intros b [= <-]. unfold within. cbn. lia.
Qed.

Lemma asn1_integral_bit_string_safe c :
  cursor_ok mem c ->
  bits_read c (asn1_integral_bit_string mem c) \/ (asn1_integral_bit_string mem c = Trap /\ bad_unused c).
Proof using Hmem Hsize.
  intros Hc. unfold asn1_integral_bit_string.
  destruct (asn1_bit_string_safe c Hc) as [(rc & bits & E & Hiff & Hbits) | [E Hbad]]; [left | by right; rewrite E].
  step E. destruct rc as [e | [| |]], bits as [b |]; try by apply bits_read_none.
  - destruct (negb _); [by apply bits_read_none |]. by exists (inr 0), (Some b).
  - by destruct (proj1 Hiff eq_refl).
Qed.

(** *** Times *)

Definition pairs_ok (r : option (list Z * Z * Z)) : Prop :=
  match r with
  | None => True
  | Some (pairs, data, remaining) =>
      length pairs = 7%nat /\ Forall (fun x => 0 <= x <= 99) pairs /\
      0 <= data /\ 0 <= remaining /\ data + remaining <= zlen mem
  end.

Lemma pairs_loop_safe n pairs data remaining :
  (n <= 7)%nat -> pairs_ok (Some (pairs, data, remaining)) ->
  exists r, pairs_loop mem n pairs data remaining = Ok r /\ pairs_ok r.
Proof using Type.
  clear Hmem Hsize. revert pairs data remaining. induction n as [| n IH]; intros pairs data remaining Hn Hok; cbn [pairs_loop]; [by eexists |].
  destruct Hok as (Hl & Hp & Hd & Hr & Hm).
  destruct (Z.ltb_spec remaining 2).
  { destruct (S n =? 1)%nat; by eexists. }
  destruct (rd_ok mem data) as [t Et]; [lia |]. step Et. destruct (rd_ok mem (data + 1)) as [v Ev]; [lia |]. step Ev.
  destruct (isdigit t && isdigit v) eqn:Ed; cbn [negb]; [| by eexists].
  unfold isdigit in Ed. change (ch "0") with 48 in *. change (ch "9") with 57 in Ed. unfold wr.
  rewrite (proj2 (Z.leb_le 0 _)), (proj2 (Z.ltb_lt _ _)) by lia. cbn [andb].
  rewrite bind_ok. apply IH; [lia |]. split_and!; [by rewrite length_insert | | lia..].
  apply Forall_insert; [done |]. rewrite wrap_small by (unfold in_range; lia). lia.
Qed.

(** An element of a table. *)
Lemma rd_Forall (Q : Z -> Prop) l i v : Forall Q l -> rd l i = Ok v -> Q v.
Proof using Type.
  intros Hl. unfold rd. case_if; [done |]. destruct (l !! _) as [x |] eqn:Ex; [| done].
  intros [= <-]. by eapply Forall_lookup_1.
Qed.

Lemma leap_years_small y : - 10000 <= y <= 10000 -> - 10000 <= leap_years_to_end y <= 10000.
Proof using Type. clear Hmem Hsize. intros. unfold leap_years_to_end. Z.quot_rem_to_equations. lia. Qed.

Lemma mktime_safe s mi h d mo y a b e :
  0 <= s <= 99 -> 0 <= mi <= 99 -> 0 <= h <= 99 -> 0 <= d <= 99 -> 0 <= mo <= 11 -> - 1900 <= y <= 8199 ->
  exists r, mktime (Tm s mi h d mo y a b e) = Ok r.
Proof using Type.
  clear Hmem Hsize. intros. unfold mktime. cbn [tm_sec tm_min tm_hour tm_mday tm_mon tm_year].
  destruct (rd_ok days_to_month_start mo) as [st Est]; [cbn; lia |]. step Est.
  assert (0 <= st <= 334) by (apply (rd_Forall (fun x => 0 <= x <= 334) _ _ _) in Est; [done | repeat constructor; lia]).
  destruct (rd_ok day_of_week_offset mo) as [o Eo]; [cbn; lia |].
  assert (0 <= o <= 6) by (apply (rd_Forall (fun x => 0 <= x <= 6) _ _ _) in Eo; [done | repeat constructor; lia]).
  pose proof (leap_years_small y ltac:(lia)). pose proof (leap_years_small (y - 1) ltac:(lia)).
  assert (Hs : forall x, - 10000000 <= x <= 10000000 -> sint x = Ok x).
  { intros x Hx. unfold sint. by rewrite (proj2 (Z.leb_le _ _)), (proj2 (Z.ltb_lt _ _)) by lia. }
  assert (Ew : exists w, day_of_week y mo d = Ok w).
  { unfold day_of_week. step Eo. rewrite Hs by (case_if; lia). by eexists. }
  destruct Ew as [w Ew]. rewrite (Hs (d - 1 + st)), bind_ok by lia. step Ew.
  rewrite (Hs (365 * y)), bind_ok by lia. rewrite (Hs (_ + 365 * y - 25567 + _)), bind_ok by (case_if; lia).
  rewrite (Hs ((h * 60 + mi) * 60 + s)), bind_ok by lia. eauto.
Qed.

(** The object under the cursor is a time whose digits give a month that does not
    exist. *)
Definition bad_month (c : asn1_cursor) : Prop :=
  exists type c' pairs data, asn1_enter mem c type = Ok (inr 0, c') /\
    pairs_loop mem (if type =? ASN1_GENERALIZED_TIME then 7 else 6) (replicate 7 0) (cur_data c') (cur_len c') =
      Ok (Some (pairs, data, 1)) /\ ~ 1 <= nth 2 pairs 0 <= 12.

Lemma asn1_generalized_time_safe c :
  cursor_ok mem c ->
  (exists r, asn1_generalized_time mem c = Ok r) \/ (asn1_generalized_time mem c = Trap /\ bad_month c).
Proof using Hmem Hsize.
  intros Hc. unfold asn1_generalized_time.
  assert (Et : exists type, asn1_type mem c = Ok type).
  { unfold asn1_type. destruct (Z.leb_spec 1 (cur_len c)); [| by eexists]. apply rd_ok. unfold cursor_ok in Hc. lia. }
  destruct Et as [type Et]. step Et. destruct (_ && _); [by left; eexists |].
  destruct (asn1_enter_safe c type Hc) as (rc & c' & E & Hw). step E.
  destruct rc as [e | [| |]]; try by (left; eexists).
  destruct (pairs_loop_safe (if type =? ASN1_GENERALIZED_TIME then 7 else 6) (replicate 7 0) (cur_data c') (cur_len c'))
    as (r & Ep & Hr).
  { case_if; lia. }
  { split_and!; [done | by apply Forall_replicate | unfold cursor_ok, within in *; lia..]. }
  step Ep. destruct r as [[[pairs data] remaining] |]; [| by left; eexists].
  destruct Hr as (Hl & Hp & Hd & Hrem & Hm).
  destruct pairs as [| ce [| y [| mo [| d [| h [| mi [| s [|]]]]]]]]; try done. rewrite !Forall_cons in Hp.
  destruct (Z.eqb_spec remaining 1) as [-> |]; cbn [negb orb]; [| rewrite bind_ok; by left; eexists].
  destruct (rd_ok mem data) as [z Ez]; [lia |]. step Ez. destruct (negb _); [by left; eexists |].
  destruct (decide (1 <= mo <= 12)) as [Hmo | Hmo].
  - left. set (cent := if negb _ then _ else _).
    destruct (mktime_safe (nth 6 cent 0) (nth 5 cent 0) (nth 4 cent 0) (nth 3 cent 0) (nth 2 cent 0 - 1)
      ((nth 0 cent 0 - 19) * 100 + nth 1 cent 0) 0 0 0) as [[t tm] ->]; subst cent;
      destruct (type =? ASN1_GENERALIZED_TIME); cbn [negb nth insert list_insert]; try lia; try by eexists.
    case_if; lia.
  - right. split; [| by exists type, c', [ce; y; mo; d; h; mi; s], data].
    assert (Hrd : rd days_to_month_start (mo - 1) = Trap).
    { unfold rd. case_if; [done |]. by rewrite lookup_ge_None_2 by (cbn; lia). }
    unfold mktime. destruct (type =? ASN1_GENERALIZED_TIME); cbn [negb nth insert list_insert tm_mon]; by rewrite Hrd.
Qed.

End Reader.

(** ** Comparison and lookup *)

Section Lookup.
Context {P : Platform}.

Lemma asn1_compare_spec mem1 c1 mem2 c2 :
  cursor_ok mem1 c1 -> cursor_ok mem2 c2 -> zlen mem1 < 2 ^ 31 -> zlen mem2 < 2 ^ 31 ->
  exists d, asn1_compare mem1 c1 mem2 c2 = Ok d /\
    (d = 0 <-> slice mem1 (cur_data c1) (cur_len c1) = slice mem2 (cur_data c2) (cur_len c2)).
Proof.
  intros (Hd1 & Hl1 & He1) (Hd2 & Hl2 & He2) H1 H2. unfold asn1_compare.
  assert (Hdiff : to_signed 32 (wrap word_bits (cur_len c2 - cur_len c1)) = cur_len c2 - cur_len c1).
  { unfold to_signed, wrap. rewrite mod_pow2_le by (destruct word_bits_ok; lia).
    change (2 ^ (32 - 1)) with (2 ^ 31). case_if; Z.div_mod_to_equations; lia. }
  rewrite Hdiff. destruct (Z.eqb_spec (cur_len c2 - cur_len c1) 0) as [E | E]; cbn [negb].
  - destruct (memcmp_spec (Z.to_nat (cur_len c1)) (drop (Z.to_nat (cur_data c1)) mem1)
      (drop (Z.to_nat (cur_data c2)) mem2)) as (d & Ed & Hiff); [rewrite length_drop; lia.. |].
    exists d. split; [done |]. unfold slice. by replace (cur_len c2) with (cur_len c1) by lia.
  - exists (cur_len c2 - cur_len c1). split; [done |]. split; [done |]. intros Hs.
    apply (f_equal (fun l => zlen l)) in Hs. rewrite !length_slice in Hs by lia. lia.
Qed.

(** The first algorithm of the table with the object identifier under the cursor. *)
Lemma asn1_find_algorithm_spec mem algorithms c :
  cursor_ok mem c -> zlen mem < 2 ^ 31 -> Forall (fun a => zlen (alg_oid a) < 2 ^ 31) algorithms ->
  asn1_find_algorithm mem algorithms c =
  Ok (head (filter (fun a => alg_oid a = slice mem (cur_data c) (cur_len c)) algorithms)).
Proof.
  intros Hc Hm. induction algorithms as [| a algorithms IH]; intros Ha; [done |].
  apply Forall_cons in Ha as [Ha Has]. cbn [asn1_find_algorithm].
  destruct (asn1_compare_spec (alg_oid a) (Cursor 0 (zlen (alg_oid a))) mem c) as (d & Ed & Hiff);
    [unfold cursor_ok; cbn; lia | done | done | done |].
  step Ed. cbn [cur_data cur_len] in Hiff. rewrite slice_whole in Hiff by done.
  rewrite filter_cons. destruct (Z.eqb_spec d 0); case_decide; [done | naive_solver | naive_solver | by apply IH].
Qed.

Lemma asn1_algorithm_safe mem algorithms c :
  Forall is_byte mem -> cursor_ok mem c -> zlen mem < 2 ^ 31 ->
  Forall (fun a => zlen (alg_oid a) < 2 ^ 31) algorithms ->
  exists r, asn1_algorithm mem algorithms c = Ok r.
Proof.
  intros Hb Hc Hm Ha. assert (Hsize : zlen mem < 2 ^ word_bits)
    by (destruct word_bits_ok as [-> | ->]; lia).
  unfold asn1_algorithm. destruct (asn1_enter_safe mem Hb Hsize c ASN1_SEQUENCE Hc) as (rc1 & c1 & E1 & W1). step E1.
  apply (within_ok mem) in W1; [| done].
  destruct (asn1_enter_safe mem Hb Hsize c1 ASN1_OID W1) as (rc2 & c2 & E2 & W2). step E2.
  apply (within_ok mem) in W2; [| done]. destruct rc2 as [e | [| |]]; eauto.
  step (asn1_find_algorithm_spec mem algorithms c2 W2 Hm Ha). destruct (head _); eauto.
Qed.

(** C5. On arbitrary bytes the ASN.1 reader stays inside its memory: every operation on
    a cursor inside the object returns, and leaves a cursor that covers a part of
    the one it was given (so no sequence of them can leave the object); reading a
    boolean, an integer or an algorithm returns too.  Reading a bit string returns,
    and its data lies under the cursor, unless it claims more than eight unused
    bits, when the code shifts by more than the width; reading a time returns unless
    the month in it does not exist, when [mktime] reads outside its tables. *)
Theorem asn1_reader_safe (mem : bytes) (algorithms : list asn1_algorithm_t) (c : asn1_cursor) :
  Forall is_byte mem -> zlen mem < 2 ^ 31 -> Forall (fun a => zlen (alg_oid a) < 2 ^ 31) algorithms ->
  cursor_ok mem c ->
  (forall op, op ∈ [asn1_enter; asn1_skip_if_exists; asn1_skip; asn1_shrink] ->
     forall type, exists rc c', op mem c type = Ok (rc, c') /\ within c c' /\ cursor_ok mem c') /\
  (exists rc, asn1_boolean mem c = Ok rc) /\
  (exists r, asn1_integer mem c = Ok r) /\
  (exists r, asn1_signature_algorithm mem algorithms c = Ok r) /\
  (bits_read c (asn1_integral_bit_string mem c) \/ (asn1_integral_bit_string mem c = Trap /\ bad_unused mem c)) /\
  ((exists r, asn1_generalized_time mem c = Ok r) \/ (asn1_generalized_time mem c = Trap /\ bad_month mem c)).
Proof.
  intros Hb Hm Ha Hc. assert (Hsize : zlen mem < 2 ^ word_bits) by (destruct word_bits_ok as [-> | ->]; lia).
  assert (Hop : forall op, op_safe mem op ->
    forall type, exists rc c', op c type = Ok (rc, c') /\ within c c' /\ cursor_ok mem c').
  { intros op Hop type. destruct (Hop c type Hc) as (rc & c' & E & W). eauto 6 with ipxe. }
  split_and!.
  - intros op Hin. rewrite !elem_of_cons in Hin.
    destruct Hin as [-> | [-> | [-> | [-> | []%not_elem_of_nil]]]]; apply Hop.
    + by apply asn1_enter_safe.
    + by apply asn1_skip_if_exists_safe.
    + by apply asn1_skip_safe.
    + by apply asn1_shrink_safe.
  - by apply asn1_boolean_safe.
  - by apply asn1_integer_safe.
  - destruct (asn1_algorithm_safe mem algorithms c) as [r E]; [done.. |].
    unfold asn1_signature_algorithm. step E. destruct r as [e | a]; [eauto |].
    destruct (alg_pubkey a), (alg_digest a); cbn [negb]; eauto.
  - by apply asn1_integral_bit_string_safe.
  - by apply asn1_generalized_time_safe.
Qed.

End Lookup.

(** ** Encoded objects

    The distinguished encoding of an object: its type, its length (one byte below
    128, otherwise the number of length bytes and these, most significant first)
    and its content. *)

Definition der_length (n : Z) : bytes :=
  if n <? 0x80 then [n]
  else let k := Z.log2 n / 8 + 1 in (0x80 + k) :: be_repr (Z.to_nat k) n.

Definition der (type : Z) (content : bytes) : bytes := type :: der_length (zlen content) ++ content.

Lemma der_len_len n : 0x80 <= n -> 0 < Z.log2 n / 8 + 1 /\ 2 ^ (8 * (Z.log2 n / 8)) <= n < 2 ^ (8 * (Z.log2 n / 8 + 1)).
Proof.
  intros Hn. pose proof (Z.log2_spec n ltac:(lia)) as [Hl Hu]. pose proof (Z.log2_nonneg n).
  assert (0 <= Z.log2 n / 8) by (apply Z.div_pos; lia). split; [lia |]. split.
  - etrans; [| exact Hl]. apply Z.pow_le_mono_r; [lia | Z.div_mod_to_equations; lia].
  - eapply Z.lt_le_trans; [exact Hu |]. apply Z.pow_le_mono_r; [lia | Z.div_mod_to_equations; lia].
Qed.

Lemma der_len_len_small n w : 0x80 <= n < 2 ^ (8 * w) -> 0 <= w -> Z.log2 n / 8 + 1 <= w.
Proof.
  intros Hn Hw. pose proof (proj2 (der_len_len n ltac:(lia))) as [Hl _].
  assert (2 ^ (8 * (Z.log2 n / 8)) < 2 ^ (8 * w)) as Hlt by lia. apply Z.pow_lt_mono_r_iff in Hlt; lia.
Qed.

Lemma der_length_bytes n : 0 <= n < 2 ^ 64 -> Forall is_byte (der_length n).
Proof.
  intros Hn. unfold der_length. destruct (Z.ltb_spec n 0x80).
  - constructor; [unfold in_range; lia | constructor].
  - pose proof (der_len_len_small n 8 ltac:(lia) ltac:(lia)). pose proof (der_len_len n ltac:(lia)).
    constructor; [unfold in_range; lia | apply be_repr_bytes].
Qed.

(** The top bit tells the two forms of a length apart. *)
Lemma land_0x80_short n : 0 <= n < 0x80 -> Z.land n 0x80 = 0.
Proof.
  intros Hn. change 0x80 with (2 ^ 7). apply Z.bits_inj'. intros i Hi. rewrite Z.land_spec, Z.bits_0.
  rewrite Z.pow2_bits_eqb by lia. destruct (Z.eqb_spec 7 i) as [<- |]; [| by rewrite andb_false_r].
  rewrite andb_true_r. destruct (Z.eq_dec n 0) as [-> |]; [done |].
  apply Z.bits_above_log2; [lia |]. apply Z.log2_lt_pow2; lia.
Qed.

Lemma land_0x80_long k : 0 <= k < 0x80 -> Z.land (0x80 + k) 0x80 = 0x80.
Proof.
  intros Hk. replace (0x80 + k) with (1 * 2 ^ 7 + k) by lia. rewrite <- lor_disjoint by lia.
  by rewrite Z.land_lor_distr_l, (land_0x80_short k) by lia.
Qed.

Section Der.
Context {P : Platform} (mem : bytes) (Hmem : Forall is_byte mem) (Hsize : zlen mem < 2 ^ word_bits).

(** Reading the header of an encoded object that starts at the cursor and is
    followed by [m] more bytes. *)
Lemma asn1_start_der pre type content post m want :
  mem = pre ++ der type content ++ post -> 0 <= m <= zlen post -> zlen content < 2 ^ 31 ->
  want = type \/ want = ASN1_ANY ->
  asn1_start mem (Cursor (zlen pre) (zlen (der type content) + m)) want 0 =
  Ok (inr (zlen content), Cursor (zlen pre + 1 + zlen (der_length (zlen content))) (zlen content + m)).
Proof using Hmem Hsize.
  intros Em Hm Hlen Hwant. pose proof (der_len_len (zlen content)) as Hk.
  pose proof (der_len_len_small (zlen content) 4) as Hk4.
  assert (Hder : zlen (der type content) = 1 + zlen (der_length (zlen content)) + zlen content)
    by (unfold der; cbn [length]; rewrite length_app; lia).
  assert (Hzm : zlen mem = zlen pre + zlen (der type content) + zlen post) by (rewrite Em, !length_app; lia).
  assert (Hl0 : 1 <= zlen (der_length (zlen content)))
    by (unfold der_length; case_if; cbn [length]; lia).
  unfold asn1_start. cbn [cur_len]. rewrite (proj2 (Z.ltb_ge _ 2)) by lia.
  unfold asn1_type. cbn [cur_len cur_data]. rewrite (proj2 (Z.leb_le 1 _)) by lia.
  assert (Et : rd mem (zlen pre) = Ok type).
  { rewrite Em. unfold der. rewrite <- app_comm_cons. by rewrite rd_app_r by app_side. }
  step Et. replace (negb (want =? ASN1_ANY) && negb (want =? type)) with false by lia.
  unfold advance. cbn [cur_data cur_len].
  assert (Eb : rd mem (zlen pre + 1) = Ok (hd 0 (der_length (zlen content)))).
  { replace mem with ((pre ++ [type]) ++ der_length (zlen content) ++ content ++ post)
      by (rewrite Em; unfold der; by app_norm).
    unfold der_length. case_if; rewrite <- app_comm_cons; by rewrite rd_app_r by app_side. }
  step Eb. unfold der_length in *. destruct (Z.ltb_spec (zlen content) 0x80) as [Hs | Hs]; cbn [hd].
  - rewrite land_0x80_short by lia.
    cbn [Z.eqb negb cur_len]. cbn [length] in *. rewrite (proj2 (Z.ltb_ge _ 1)) by lia.
    change (Z.to_nat 1) with 1%nat. cbn [length_loop cur_data]. step Eb. cbn [hd]. cbn [mbind res_bind].
    change (u32 (Z.shiftl 0 8)) with 0. rewrite Z.lor_0_l. unfold advance. cbn [cur_len cur_data].
    rewrite wrap_small by (unfold in_range; lia). rewrite (proj2 (Z.ltb_ge _ _)) by lia.
    do 2 f_equal; [f_equal; unfold to_signed; rewrite wrap_small by (unfold in_range; lia); case_if; lia |].
    f_equal; lia.
  - specialize (Hk Hs). specialize (Hk4 ltac:(lia) ltac:(lia)).
    set (k := Z.log2 (zlen content) / 8 + 1) in *. cbn [length] in *. rewrite length_be_repr in *.
    rewrite land_0x80_long by lia.
    cbn [Z.eqb negb cur_len cur_data]. rewrite land_0x7f.
    replace ((128 + k) mod 2 ^ 7) with k by (clearbody k; Z.div_mod_to_equations; lia).
    rewrite (proj2 (Z.ltb_ge _ k)) by lia.
    rewrite (length_loop_spec mem Hmem), bind_ok by (unfold cursor_ok, in_range; cbn [cur_data cur_len]; lia).
    cbn [cur_data cur_len]. rewrite Z2Nat.id by lia.
    replace (slice mem (zlen pre + 1 + 1) k) with (be_repr (Z.to_nat k) (zlen content)).
    2:{ replace mem with ((pre ++ [type; 128 + k]) ++ be_repr (Z.to_nat k) (zlen content) ++ content ++ post)
          by (rewrite Em; unfold der, der_length; rewrite (proj2 (Z.ltb_ge _ 0x80)) by lia; by app_norm).
        unfold slice. rewrite drop_app_length' by (rewrite length_app; cbn; lia).
        by rewrite take_app_length' by (rewrite length_be_repr; lia). }
    rewrite be_value_be_repr, Z.mul_0_l, Z.add_0_l by (rewrite Z2Nat.id; lia).
    rewrite !wrap_small by (unfold in_range; lia). rewrite (proj2 (Z.ltb_ge _ _)) by lia.
    do 2 f_equal; [f_equal; unfold to_signed; rewrite wrap_small by (unfold in_range; lia); case_if; lia |].
    f_equal; lia.
Qed.

(** The cursor covers the bytes [b]. *)
Definition shows (c : asn1_cursor) (b : bytes) : Prop :=
  cursor_ok mem c /\ slice mem (cur_data c) (cur_len c) = b.

Lemma shows_split c b :
  shows c b ->
  mem = take (Z.to_nat (cur_data c)) mem ++ b ++ drop (Z.to_nat (cur_data c) + length b) mem /\
  zlen (take (Z.to_nat (cur_data c)) mem) = cur_data c /\ cur_len c = zlen b.
Proof using.
  clear Hmem Hsize. intros [(Hd & Hl & He) <-].
  assert (Hb : zlen (slice mem (cur_data c) (cur_len c)) = cur_len c) by (apply length_slice; lia).
  split_and!; [| rewrite length_take; lia | done].
  unfold slice. rewrite length_take, length_drop, <- drop_drop.
  replace (Z.to_nat (cur_len c) `min` (length mem - Z.to_nat (cur_data c)))%nat with (Z.to_nat (cur_len c)) by lia.
  by rewrite !take_drop.
Qed.

Lemma shows_part c a b d : shows c (a ++ b ++ d) -> shows (Cursor (cur_data c + zlen a) (zlen b)) b.
Proof using.
  clear Hmem Hsize. intros H. pose proof H as [(Hd & Hl & He) Hs].
  destruct (shows_split _ _ H) as (_ & _ & Hlen). rewrite !length_app in Hlen.
  split; [unfold cursor_ok; cbn; lia |]. cbn [cur_data cur_len].
  replace (cur_len c) with (zlen a + (zlen b + zlen d)) in Hs by lia. rewrite !slice_add in Hs by lia.
  apply app_inj_1 in Hs as [_ Hs]; [| enough (zlen (slice mem (cur_data c) (zlen a)) = zlen a) by lia;
    apply length_slice; lia].
  by apply app_inj_1 in Hs as [Hs _]; [| enough (zlen (slice mem (cur_data c + zlen a) (zlen b)) = zlen b) by lia;
    apply length_slice; lia].
Qed.

Lemma shows_start c type content rest want :
  shows c (der type content ++ rest) -> zlen content < 2 ^ 31 -> want = type \/ want = ASN1_ANY ->
  asn1_start mem c want 0 =
  Ok (inr (zlen content), Cursor (cur_data c + 1 + zlen (der_length (zlen content))) (zlen content + zlen rest)).
Proof using Hmem Hsize.
  intros H Hlen Hwant. destruct (shows_split _ _ H) as (Em & Hpre & Hcl).
  destruct c as [d l]. cbn [cur_data cur_len] in *. rewrite <- app_assoc in Em.
  rewrite <- Hpre, Hcl, length_app, Nat2Z.inj_add. eapply asn1_start_der; [exact Em | | done | done].
  rewrite length_app. lia.
Qed.

Lemma asn1_enter_shows c type content rest want :
  shows c (der type content ++ rest) -> zlen content < 2 ^ 31 -> want = type \/ want = ASN1_ANY ->
  exists c', asn1_enter mem c want = Ok (inr 0, c') /\ shows c' content.
Proof using Hmem Hsize.
  intros H Hlen Hwant. unfold asn1_enter. step (shows_start c type content rest want H Hlen Hwant).
  rewrite (proj2 (Z.ltb_ge _ _)) by lia. eexists. split; [done |]. cbn [cur_data].
  replace (der type content ++ rest) with ((type :: der_length (zlen content)) ++ content ++ rest) in H
    by (unfold der; by app_norm).
  apply shows_part in H. cbn [length] in H.
  by replace (cur_data c + 1 + zlen (der_length (zlen content)))
    with (cur_data c + Z.of_nat (S (length (der_length (zlen content))))) by lia.
Qed.

Lemma asn1_skip_shows c type content rest want :
  shows c (der type content ++ rest) -> zlen content < 2 ^ 31 -> want = type \/ want = ASN1_ANY -> rest <> [] ->
  exists c', asn1_skip mem c want = Ok (inr 0, c') /\ shows c' rest.
Proof using Hmem Hsize.
  intros H Hlen Hwant Hrest. unfold asn1_skip, asn1_skip_if_exists.
  rewrite (shows_start c type content rest want H Hlen Hwant), bind_ok. cbn beta iota.
  rewrite (proj2 (Z.ltb_ge _ _)) by lia. unfold advance. cbn [cur_data cur_len].
  destruct (Z.eqb_spec (zlen content + zlen rest - zlen content) 0); [destruct rest; [done | cbn [length] in *; lia] |].
  rewrite bind_ok. eexists. split; [done |].
  rewrite <- (app_nil_r rest) in H. apply shows_part in H. unfold der in H. cbn [length] in H.
  rewrite length_app in H.
  replace (cur_data c + 1 + zlen (der_length (zlen content)) + zlen content)
    with (cur_data c + Z.of_nat (S (length (der_length (zlen content)) + length content))) by lia.
  by replace (zlen content + zlen rest - zlen content) with (zlen rest) by lia.
Qed.

(** Skipping the last object is an error, and leaves an empty cursor. *)
Lemma asn1_skip_last c type content want :
  shows c (der type content) -> zlen content < 2 ^ 31 -> want = type \/ want = ASN1_ANY ->
  exists c', asn1_skip mem c want = Ok (inl ENOENT, c') /\ cur_len c' = 0.
Proof using Hmem Hsize.
  intros H Hlen Hwant. unfold asn1_skip, asn1_skip_if_exists. rewrite <- (app_nil_r (der _ _)) in H.
  rewrite (shows_start c type content [] want H Hlen Hwant), bind_ok. cbn beta iota.
  rewrite (proj2 (Z.ltb_ge _ _)) by lia. unfold advance. cbn [cur_data cur_len length].
  rewrite (proj2 (Z.eqb_eq _ 0)), bind_ok by lia. eexists. split; done.
Qed.

Lemma asn1_shrink_shows c type content rest want :
  shows c (der type content ++ rest) -> zlen content < 2 ^ 31 -> want = type \/ want = ASN1_ANY ->
  exists c', asn1_shrink mem c want = Ok (inr 0, c') /\ shows c' (der type content).
Proof using Hmem Hsize.
  intros H Hlen Hwant. unfold asn1_shrink. step (shows_start c type content rest want H Hlen Hwant).
  rewrite (proj2 (Z.ltb_ge _ _)) by lia. eexists. split; [done |]. cbn [cur_data].
  apply (shows_part c [] (der type content) rest) in H. cbn [length] in H. rewrite Z.add_0_r in H.
  unfold der in *. cbn [length] in *. rewrite length_app in *.
  by replace (cur_data c + 1 + zlen (der_length (zlen content)) + zlen content - cur_data c)
    with (Z.of_nat (S (length (der_length (zlen content)) + length content))) by lia.
Qed.

End Der.

(** ** The builder *)

(** Number of bytes of a number. *)
Definition nbytes (n : Z) : Z := if n =? 0 then 0 else Z.log2 n / 8 + 1.

Lemma nbytes_step n : 0 < n -> nbytes n = nbytes (n / 2 ^ 8) + 1.
Proof.
  intros Hn. unfold nbytes. rewrite (proj2 (Z.eqb_neq n 0)) by lia.
  rewrite <- Z.shiftr_div_pow2 by lia. destruct (Z.eqb_spec (Z.shiftr n 8) 0) as [E | E].
  - rewrite Z.shiftr_div_pow2 in E by lia. assert (n < 2 ^ 8) by (Z.div_mod_to_equations; lia).
    rewrite Z.div_small; [lia |]. split; [apply Z.log2_nonneg | apply Z.log2_lt_pow2; lia].
  - rewrite Z.log2_shiftr by lia. rewrite Z.shiftr_div_pow2 in E by lia.
    assert (2 ^ 8 <= n) as Hge by (Z.div_mod_to_equations; lia).
    apply Z.log2_le_pow2 in Hge; [| lia]. rewrite Z.max_r by lia.
    replace (Z.log2 n) with (Z.log2 n - 8 + 1 * 8) at 1 by lia. rewrite Z.div_add by lia. lia.
Qed.

Lemma nbytes_nonneg n : 0 <= n -> 0 <= nbytes n.
Proof.
  intros. unfold nbytes. case_if; [lia |]. pose proof (Z.div_pos (Z.log2 n) 8 (Z.log2_nonneg n)). lia.
Qed.

Lemma len_len_loop_spec fuel temp acc :
  0 <= temp < 2 ^ Z.of_nat fuel -> len_len_loop fuel temp acc = acc + nbytes temp.
Proof.
  revert temp acc. induction fuel as [| fuel IH]; intros temp acc Ht; cbn [len_len_loop].
  - change (2 ^ Z.of_nat 0) with 1 in Ht. replace temp with 0 by lia. cbn. lia.
  - destruct (Z.eqb_spec temp 0) as [-> | Hn]; [cbn; lia |].
    rewrite Nat2Z.inj_succ, Z.pow_succ_r in Ht by lia. rewrite Z.shiftr_div_pow2 by lia.
    rewrite IH, (nbytes_step temp) by (Z.div_mod_to_equations; lia). lia.
Qed.

(** Storing the length bytes over an array, from the last one down. *)
Lemma store_len_loop_spec fuel temp a l rest :
  0 <= temp < 2 ^ Z.of_nat fuel -> zlen l = nbytes temp ->
  store_len_loop fuel temp (zlen l) (a :: l ++ rest) = Ok (a :: be_repr (length l) temp ++ rest).
Proof.
  revert temp l rest. induction fuel as [| fuel IH]; intros temp l rest Ht Hl; cbn [store_len_loop].
  - change (2 ^ Z.of_nat 0) with 1 in Ht. assert (temp = 0) as -> by lia.
    destruct l; [done | cbn in Hl; lia].
  - destruct (Z.eqb_spec temp 0) as [-> | Hn]; [destruct l; [done | cbn in Hl; lia] |].
    rewrite nbytes_step in Hl by lia. pose proof (nbytes_nonneg (temp / 2 ^ 8) ltac:(Z.div_mod_to_equations; lia)).
    destruct l as [| x l _] using rev_ind; [cbn in Hl; lia |]. rewrite length_app in *. cbn [length] in *.
    replace (a :: (l ++ [x]) ++ rest) with ((a :: l) ++ x :: rest) by (by app_norm).
    rewrite wr_app_r, bind_ok by app_side.
    change 255 with (2 ^ 8 - 1). rewrite (land_mask temp 8), Z.shiftr_div_pow2 by lia. rewrite <- app_comm_cons.
    replace (Z.of_nat (length l + 1) - 1) with (zlen l) by lia.
    rewrite Nat2Z.inj_succ, Z.pow_succ_r in Ht by lia.
    rewrite IH by (Z.div_mod_to_equations; lia). rewrite Nat.add_1_r. cbn [be_repr]. by app_norm.
Qed.

Section Build.
Context {P : Platform} {H : Type} {A : Allocator H}.

Lemma asn1_header_spec length0 type len :
  zlen length0 = 1 + word_bits / 8 -> is_byte type -> 0 <= len < 2 ^ word_bits ->
  exists header, asn1_header length0 type len = Ok (header, 1 + zlen (der_length len)) /\
    rd_range header 0 (1 + zlen (der_length len)) = Ok (type :: der_length len).
Proof.
  intros Hl0 Ht Hlen. assert (Hw : 0 < word_bits /\ word_bits mod 8 = 0)
    by (destruct word_bits_ok as [-> | ->]; done).
  assert (1 <= word_bits / 8) by (Z.div_mod_to_equations; lia).
  unfold asn1_header, der_length. rewrite (wrap_small 8 type) by done.
  destruct length0 as [| a l]; [cbn [length] in Hl0; lia |]. cbn [length] in Hl0.
  destruct (Z.ltb_spec len 0x80).
  - unfold wr. cbn [length]. rewrite (proj2 (Z.ltb_lt _ _)) by lia. cbn [Z.leb andb mbind res_bind].
    eexists. split; [done |]. change (<[Z.to_nat 0 := len]> (a :: l)) with (len :: l).
    by apply (rd_range_app [] [type; len] l).
  - assert (Hk : nbytes len <= word_bits / 8).
    { unfold nbytes. rewrite (proj2 (Z.eqb_neq _ _)) by lia. apply der_len_len_small; [| lia].
      replace (8 * (word_bits / 8)) with word_bits by (Z.div_mod_to_equations; lia). lia. }
    pose proof (nbytes_nonneg len ltac:(lia)).
    rewrite len_len_loop_spec by (rewrite Z2Nat.id; lia). rewrite Z.add_0_l.
    change (wr (a :: l) 0) with (wr ([] ++ a :: l) 0). rewrite wr_app_r, bind_ok by done. cbn [app].
    rewrite <- (take_drop (Z.to_nat (nbytes len)) l).
    assert (Hk' : zlen (take (Z.to_nat (nbytes len)) l) = nbytes len) by (rewrite length_take; lia).
    pose proof (store_len_loop_spec (Z.to_nat word_bits) len (Z.lor 128 (nbytes len))
      (take (Z.to_nat (nbytes len)) l) (drop (Z.to_nat (nbytes len)) l)) as Es.
    rewrite Hk', Z2Nat.id in Es by lia. step (Es Hlen eq_refl).
    replace (length (take (Z.to_nat (nbytes len)) l)) with (Z.to_nat (nbytes len)) by lia.
    eexists. replace (Z.log2 len / 8 + 1) with (nbytes len)
      by (unfold nbytes; by rewrite (proj2 (Z.eqb_neq _ _)) by lia).
    cbn [length]. rewrite length_be_repr.
    replace (1 + Z.of_nat (S (Z.to_nat (nbytes len)))) with (2 + nbytes len) by lia. split; [done |].
    replace (Z.lor 128 (nbytes len)) with (128 + nbytes len).
    2:{ symmetry. apply (lor_disjoint 7 1); [lia |]. assert (word_bits / 8 <= 8); [| lia].
        destruct word_bits_ok as [-> | ->]; vm_compute; discriminate. }
    apply (rd_range_app [] (type :: 128 + nbytes len :: be_repr _ _) (drop (Z.to_nat (nbytes len)) l)); [done |].
    cbn [length]. rewrite length_be_repr. lia.
Qed.

(** The contents of a builder. *)
Definition built (b : asn1_builder) (contents : bytes) : Prop :=
  bld_len b = zlen contents /\ default [] (bld_data b) = contents.

(** A failed allocation loses the data, and is remembered by the length if there
    was any. *)
Definition lost (b b' : asn1_builder) : Prop := bld_data b' = None /\ bld_len b' = bld_len b.

Lemma asn1_grow_spec b old extra h :
  built b old -> 0 <= extra -> zlen old + extra < 2 ^ word_bits ->
  (exists b' h', asn1_grow b extra h = Ok (inl ENOMEM, b', h') /\ lost b b') \/
  (exists room b' h', asn1_grow b extra h = Ok (inr 0, b', h') /\ zlen room = extra /\
     bld_data b' = Some (room ++ old) /\ bld_len b' = zlen (room ++ old)).
Proof.
  intros [Hl Hd] He Hw. unfold asn1_grow. rewrite Hl.
  destruct (negb _ && bool_decide _) eqn:Ed.
  { left. exists b, h. apply andb_true_iff in Ed as [_ Ed%bool_decide_eq_true]. by repeat split. }
  rewrite wrap_small by (unfold in_range; lia).
  destruct (alloc_realloc h (bld_data b) (zlen old + extra)) as [[new |] h'] eqn:Er.
  2:{ left. exists (Builder None (zlen old)), (alloc_free h' (bld_data b)). by repeat split. }
  right. apply alloc_realloc_ok in Er as [Hn Ht]; [| lia]. rewrite Hd in Ht.
  specialize (Ht (length old) ltac:(lia) ltac:(lia)). rewrite firstn_all in Ht.
  rewrite rd_range_slice, bind_ok by lia. unfold slice. rewrite Nat2Z.id. change (Z.to_nat 0) with 0%nat. rewrite drop_0, Ht.
  rewrite wr_range_splice, bind_ok by lia. exists (take (Z.to_nat extra) new). do 2 eexists. split; [done |].
  unfold splice. rewrite (drop_ge new), app_nil_r by lia. cbn [bld_data bld_len].
  rewrite length_app, length_take. split_and!; [lia | done | lia].
Qed.

Lemma populate_spec room old len d off a z :
  room = a ++ d ++ z -> off = zlen a ->
  forall d', length d' = length d ->
  populate (Builder (Some (room ++ old)) len) off d' = Ok (Builder (Some (a ++ d' ++ z ++ old)) len).
Proof.
  intros -> -> d' Hd. unfold populate. cbn [bld_data]. rewrite <- !app_assoc.
  rewrite wr_range_app by (done || lia). done.
Qed.

Lemma asn1_prepend_raw_spec b old data h :
  built b old -> zlen old + zlen data < 2 ^ word_bits ->
  exists rc b' h', asn1_prepend_raw b data h = Ok (rc, b', h') /\
    ((rc = inl ENOMEM /\ lost b b') \/ (rc = inr 0 /\ built b' (data ++ old))).
Proof.
  intros Hb Hw. unfold asn1_prepend_raw.
  destruct (asn1_grow_spec b old (zlen data) h Hb) as [(b' & h' & E & Hl) | (room & b' & h' & E & Hr & Hd & Hlen)];
    [lia.. | |].
  - step E. eauto 8.
  - step E. destruct b' as [d l]. cbn [bld_data bld_len] in *. subst d l.
    rewrite (populate_spec room old _ room 0 [] []), bind_ok by (rewrite ?app_nil_r; done || lia).
    do 3 eexists. split; [done |]. right. split; [done |]. unfold built. cbn [bld_data bld_len default app].
    split; [| done]. rewrite !length_app. lia.
Qed.

Lemma asn1_prepend_spec length0 b old type data h :
  zlen length0 = 1 + word_bits / 8 -> is_byte type -> built b old ->
  zlen old + zlen (der type data) < 2 ^ word_bits ->
  exists rc b' h', asn1_prepend length0 b type data h = Ok (rc, b', h') /\
    ((rc = inl ENOMEM /\ lost b b') \/ (rc = inr 0 /\ built b' (der type data ++ old))).
Proof.
  intros Hl0 Ht Hb Hw. unfold asn1_prepend.
  assert (Hder : zlen (der type data) = 1 + zlen (der_length (zlen data)) + zlen data)
    by (unfold der; cbn [length]; rewrite length_app; lia).
  destruct (asn1_header_spec length0 type (zlen data)) as (header & Eh & Er); [done | done | lia |]. step Eh.
  destruct (asn1_grow_spec b old (1 + zlen (der_length (zlen data)) + zlen data) h Hb)
    as [(b' & h' & E & Hl) | (room & b' & h' & E & Hr & Hd & Hlen)]; [lia.. | |].
  - step E. eauto 8.
  - step E. step Er. destruct b' as [d l]. cbn [bld_data bld_len] in *. subst d l.
    set (n := S (length (der_length (zlen data)))).
    rewrite (populate_spec room old _ (take n room) 0 [] (drop n room)), bind_ok
      by (done || (cbn [app length]; rewrite ?take_drop; done) || (rewrite length_take; cbn [length]; lia)).
    cbn [app]. rewrite app_assoc.
    rewrite (populate_spec ((type :: der_length (zlen data)) ++ drop n room) old _ (drop n room)
      (1 + zlen (der_length (zlen data))) (type :: der_length (zlen data)) []), bind_ok
      by (rewrite ?app_nil_r, ?length_drop; cbn [length]; done || lia).
    do 3 eexists. split; [done |]. right. split; [done |]. unfold built, der. cbn [bld_data bld_len default].
    split; [| by app_norm]. cbn [app length]. rewrite !length_app. lia.
Qed.

Lemma asn1_wrap_spec length0 b old type h :
  zlen length0 = 1 + word_bits / 8 -> is_byte type -> built b old -> zlen (der type old) < 2 ^ word_bits ->
  exists rc b' h', asn1_wrap length0 b type h = Ok (rc, b', h') /\
    ((rc = inl ENOMEM /\ lost b b') \/ (rc = inr 0 /\ built b' (der type old))).
Proof.
  intros Hl0 Ht Hb Hw. unfold asn1_wrap. pose proof Hb as [-> _].
  assert (Hder : zlen (der type old) = 1 + zlen (der_length (zlen old)) + zlen old)
    by (unfold der; cbn [length]; rewrite length_app; lia).
  destruct (asn1_header_spec length0 type (zlen old)) as (header & Eh & Er); [done | done | lia |]. step Eh.
  destruct (asn1_grow_spec b old (1 + zlen (der_length (zlen old))) h Hb)
    as [(b' & h' & E & Hl) | (room & b' & h' & E & Hr & Hd & Hlen)]; [lia.. | |].
  - step E. eauto 8.
  - step E. step Er. destruct b' as [d l]. cbn [bld_data bld_len] in *. subst d l.
    rewrite (populate_spec room old _ room 0 [] []), bind_ok by (rewrite ?app_nil_r; done || cbn [length]; lia).
    do 3 eexists. split; [done |]. right. split; [done |]. unfold built, der. cbn [bld_data bld_len default app].
    split; [| done]. cbn [length]. rewrite !length_app. lia.
Qed.

Lemma built_shows c contents : c = Cursor 0 (zlen contents) -> shows contents c contents.
Proof.
  intros ->. split; [unfold cursor_ok; cbn; lia |]. cbn [cur_data cur_len]. by apply slice_whole.
Qed.

Lemma der_bytes type content :
  is_byte type -> Forall is_byte content -> zlen content < 2 ^ 64 -> Forall is_byte (der type content).
Proof.
  intros. unfold der. constructor; [done |]. apply Forall_app. split; [apply der_length_bytes; lia | done].
Qed.

(** C18. Building and parsing agree.  Prepending an object to a builder either fails for
    want of memory, or leaves the encoding of the object in front of what was there:
    entering it gives exactly the data, and skipping it exactly the former contents.
    Wrapping a builder leaves one object, and entering that gives exactly the former
    contents. *)
Theorem asn1_build_parse (length0 : bytes) (b : asn1_builder) (old data : bytes) (type : Z) (h : H) :
  zlen length0 = 1 + word_bits / 8 -> is_byte type -> Forall is_byte data -> Forall is_byte old -> built b old ->
  zlen (der type data) + zlen old < 2 ^ 31 -> zlen (der type old) < 2 ^ 31 ->
  (exists rc b' h', asn1_prepend length0 b type data h = Ok (rc, b', h') /\
     ((rc = inl ENOMEM /\ lost b b') \/
      (rc = inr 0 /\ exists mem, built b' mem /\
         (exists c, asn1_enter mem (Cursor 0 (bld_len b')) type = Ok (inr 0, c) /\ shows mem c data) /\
         (old <> [] -> exists c, asn1_skip mem (Cursor 0 (bld_len b')) type = Ok (inr 0, c) /\ shows mem c old)))) /\
  (exists rc b' h', asn1_wrap length0 b type h = Ok (rc, b', h') /\
     ((rc = inl ENOMEM /\ lost b b') \/
      (rc = inr 0 /\ exists mem, built b' mem /\
         exists c, asn1_enter mem (Cursor 0 (bld_len b')) type = Ok (inr 0, c) /\ shows mem c old))).
Proof.
  intros Hl0 Ht Hd Ho Hb Hs1 Hs2. assert (Hw : 2 ^ 31 < 2 ^ word_bits) by (destruct word_bits_ok as [-> | ->]; lia).
  assert (zlen data < 2 ^ 31 /\ zlen old < 2 ^ 31)
    by (unfold der in *; cbn [length] in *; rewrite length_app in *; lia).
  split.
  - destruct (asn1_prepend_spec length0 b old type data h) as (rc & b' & h' & E & Hrc); [done.. | lia |].
    exists rc, b', h'. split; [done |]. destruct Hrc as [? | [-> Hb']]; [by left | right]. split; [done |].
    exists (der type data ++ old). split; [done |]. destruct Hb' as [-> _].
    assert (Hm : Forall is_byte (der type data ++ old)) by (apply Forall_app; split; [apply der_bytes; done || lia | done]).
    assert (Hz : zlen (der type data ++ old) < 2 ^ word_bits) by (rewrite length_app; lia).
    pose proof (built_shows _ (der type data ++ old) eq_refl) as Hsh. split.
    + apply (asn1_enter_shows _ Hm Hz _ type data old type); [done | lia | by left].
    + intros. apply (asn1_skip_shows _ Hm Hz _ type data old type); [done | lia | by left | done].
  - destruct (asn1_wrap_spec length0 b old type h) as (rc & b' & h' & E & Hrc); [done.. | lia |].
    exists rc, b', h'. split; [done |]. destruct Hrc as [? | [-> Hb']]; [by left | right]. split; [done |].
    exists (der type old). split; [done |]. destruct Hb' as [-> _].
    assert (Hm : Forall is_byte (der type old)) by (apply der_bytes; done || lia).
    assert (Hz : zlen (der type old) < 2 ^ word_bits) by lia.
    apply (asn1_enter_shows _ Hm Hz _ type old []); [| lia | by left].
    rewrite app_nil_r. by apply built_shows.
Qed.

End Build.

(** ** Examples *)

(** An allocator that hands out blocks of up to 4096 bytes. *)
#[program] Definition small_blocks : Allocator unit := {|
  alloc_realloc h old n :=
    if n <=? 4096 then (Some (resize (Z.to_nat n) 0 (default [] old)), h) else (None, h);
  alloc_free h _ := h
|}.
Next Obligation.
  intros h old n new h' E Hn. cbv beta in E. destruct (n <=? 4096); [| done]. injection E as <- <-.
  rewrite length_resize. split; [lia |]. intros k Hk Hkn.
  destruct (decide (Z.to_nat n <= length (default [] old))%nat).
  - rewrite resize_le, take_take by lia. f_equal. lia.
  - rewrite resize_ge, take_app_le by lia. done.
Qed.
Next Obligation.
  intros h old n new h' E Hb. cbv beta in E. destruct (n <=? 4096); [| done]. injection E as <- <-.
  apply Forall_resize; [unfold in_range; lia | done].
Qed.

(** A sequence of a small integer and a null. *)
Definition ex_object : bytes := [0x30; 0x05; 0x02; 0x01; 0x07; 0x05; 0x00].

Lemma ex_object_bytes : Forall is_byte ex_object.
Proof. repeat constructor; discriminate. Qed.

Lemma asn1_reader_safe_witness :
  (forall op, op ∈ [@asn1_enter i386_pcbios; @asn1_skip_if_exists i386_pcbios; @asn1_skip i386_pcbios;
                    @asn1_shrink i386_pcbios] ->
     forall type, exists rc c', op ex_object (Cursor 0 7) type = Ok (rc, c') /\ within (Cursor 0 7) c' /\
       cursor_ok ex_object c') /\
  (exists rc, @asn1_boolean i386_pcbios ex_object (Cursor 0 7) = Ok rc) /\
  (exists r, @asn1_integer i386_pcbios ex_object (Cursor 0 7) = Ok r) /\
  (exists r, @asn1_signature_algorithm i386_pcbios ex_object [] (Cursor 0 7) = Ok r) /\
  (bits_read (Cursor 0 7) (@asn1_integral_bit_string i386_pcbios ex_object (Cursor 0 7)) \/
   (@asn1_integral_bit_string i386_pcbios ex_object (Cursor 0 7) = Trap /\ @bad_unused i386_pcbios ex_object (Cursor 0 7))) /\
  ((exists r, @asn1_generalized_time i386_pcbios ex_object (Cursor 0 7) = Ok r) \/
   (@asn1_generalized_time i386_pcbios ex_object (Cursor 0 7) = Trap /\ @bad_month i386_pcbios ex_object (Cursor 0 7))).
Proof.
  apply (@asn1_reader_safe i386_pcbios ex_object []).
  - exact ex_object_bytes.
  - reflexivity.
  - constructor.
  - unfold cursor_ok. cbn. lia.
Defined.

Lemma asn1_build_parse_witness :
  (exists rc b' h', @asn1_prepend i386_pcbios unit small_blocks (replicate 5 0) (Builder (Some [5; 0]) 2) 2 [7] tt =
       Ok (rc, b', h') /\
     ((rc = inl ENOMEM /\ lost (Builder (Some [5; 0]) 2) b') \/
      (rc = inr 0 /\ exists mem, built b' mem /\
         (exists c, @asn1_enter i386_pcbios mem (Cursor 0 (bld_len b')) 2 = Ok (inr 0, c) /\ shows mem c [7]) /\
         ([5; 0] <> [] ->
          exists c, @asn1_skip i386_pcbios mem (Cursor 0 (bld_len b')) 2 = Ok (inr 0, c) /\ shows mem c [5; 0])))) /\
  (exists rc b' h', @asn1_wrap i386_pcbios unit small_blocks (replicate 5 0) (Builder (Some [5; 0]) 2) 2 tt =
       Ok (rc, b', h') /\
     ((rc = inl ENOMEM /\ lost (Builder (Some [5; 0]) 2) b') \/
      (rc = inr 0 /\ exists mem, built b' mem /\
         exists c, @asn1_enter i386_pcbios mem (Cursor 0 (bld_len b')) 2 = Ok (inr 0, c) /\ shows mem c [5; 0]))).
Proof.
  apply (@asn1_build_parse i386_pcbios unit small_blocks (replicate 5 0) (Builder (Some [5; 0]) 2) [5; 0] [7] 2 tt).
  - reflexivity.
  - split; [discriminate | reflexivity].
  - repeat constructor; discriminate.
  - repeat constructor; discriminate.
  - split; reflexivity.
  - reflexivity.
  - reflexivity.
Defined.
