(* ===== verification/Asn1Values.v ===== *)
(** * Values read from ASN.1 objects

    Integers, which are exact as long as they fit an [int], and times, which agree
    with the calendar of [Calendar]. *)

From Stdlib Require Import ZArith Lia Bool ZifyBool.
From stdpp Require Import base numbers list strings.
From S2P Require Import Prelude Bits Heap Strings Digest Calendar Asn1 Asn1Correct.

Local Open Scope Z_scope.

(** ** Integers *)

(** The two's complement value of a content, most significant byte first. *)
Definition be_signed (b : bytes) : Z :=
  be_value b - (if 0x80 <=? hd 0 b then 2 ^ (8 * zlen b) else 0).

Lemma be_signed_cons x b : is_byte x -> be_signed (x :: b) = to_signed 8 x * 2 ^ (8 * zlen b) + be_value b.
Proof.
  intros Hx. unfold be_signed, to_signed. rewrite be_value_cons, wrap_small by done. cbn [hd length].
  replace (8 * Z.of_nat (S (length b))) with (8 + 8 * zlen b) by lia. rewrite Z.pow_add_r by lia.
  change (2 ^ (8 - 1)) with 0x80. destruct (Z.leb_spec 0x80 x), (Z.ltb_spec x 0x80); lia.
Qed.

Lemma to_signed_small v : - 2 ^ 31 <= v < 2 ^ 31 -> to_signed 32 v = v.
Proof. intros. unfold to_signed, wrap. change (2 ^ (32 - 1)) with (2 ^ 31). case_if; Z.div_mod_to_equations; lia. Qed.

Lemma to_signed_eqm v : to_signed 32 v mod 2 ^ 32 = v mod 2 ^ 32.
Proof.
  unfold to_signed, wrap. case_if; [by rewrite Zmod_mod |].
  replace (v mod 2 ^ 32 - 2 ^ 32) with (v mod 2 ^ 32 + (-1) * 2 ^ 32) by lia.
  by rewrite Z_mod_plus_full, Zmod_mod.
Qed.

(** One step of the loop, for a value that passes its test. *)
Lemma integer_step value b :
  is_byte b -> Z.lor (to_signed 32 (Z.shiftl value 8)) b = to_signed 32 (value * 2 ^ 8 + b).
Proof.
  intros Hb. rewrite Z.shiftl_mul_pow2 by lia.
  assert (Hd : exists q, to_signed 32 (value * 2 ^ 8) = q * 2 ^ 8 /\ to_signed 32 (value * 2 ^ 8 + b) = q * 2 ^ 8 + b).
  { unfold to_signed, wrap, in_range in *. change (2 ^ (32 - 1)) with (2 ^ 31).
    exists (if value mod 2 ^ 24 <? 2 ^ 23 then value mod 2 ^ 24 else value mod 2 ^ 24 - 2 ^ 24).
    assert ((value * 2 ^ 8) mod 2 ^ 32 = value mod 2 ^ 24 * 2 ^ 8) as -> by (Z.div_mod_to_equations; lia).
    assert ((value * 2 ^ 8 + b) mod 2 ^ 32 = value mod 2 ^ 24 * 2 ^ 8 + b) as -> by (Z.div_mod_to_equations; lia).
    pose proof (Z.mod_pos_bound value (2 ^ 24)). repeat case_if; lia. }
  destruct Hd as (q & -> & ->). apply lor_disjoint; [lia | done].
Qed.

Lemma high_byte_ok value :
  - 2 ^ 24 <= value < 2 ^ 24 ->
  negb (u8 (Z.shiftr value 24) =? 0x00) && negb (u8 (Z.shiftr value 24) =? 0xff) = false.
Proof.
  intros. rewrite Z.shiftr_div_pow2 by lia. unfold wrap.
  assert (value / 2 ^ 24 = 0 \/ value / 2 ^ 24 = -1) as [-> | ->] by (Z.div_mod_to_equations; lia); done.
Qed.

Section Integers.
Context (mem : bytes) (Hmem : Forall is_byte mem).

Lemma integer_loop_step n value data :
  - 2 ^ 24 <= value < 2 ^ 24 -> 0 <= data < zlen mem ->
  exists b, is_byte b /\ mem !! Z.to_nat data = Some b /\
    integer_loop mem (S n) value data = integer_loop mem n (to_signed 32 (value * 2 ^ 8 + b)) (data + 1).
Proof using Hmem.
  intros Hv Hd. destruct (rd_ok mem data Hd) as [b Eb]. pose proof (rd_byte _ _ _ Hmem Eb) as Hb.
  exists b. split_and!; [done | |].
  - unfold rd in Eb. rewrite (proj2 (Z.ltb_ge _ _)) in Eb by lia.
    destruct (mem !! Z.to_nat data); [by injection Eb as -> | done].
  - cbn [integer_loop]. rewrite high_byte_ok by done. step Eb. by rewrite integer_step.
Qed.

Lemma slice_cons data n b :
  0 <= data -> mem !! Z.to_nat data = Some b ->
  slice mem data (Z.of_nat (S n)) = b :: slice mem (data + 1) (Z.of_nat n).
Proof using.
  clear Hmem. intros Hd Hb. replace (Z.of_nat (S n)) with (1 + Z.of_nat n) by lia. rewrite slice_add by lia.
  unfold slice at 1. by rewrite (drop_S _ b) by done.
Qed.

(** Values that fit are exact. *)
Lemma integer_loop_exact n value data :
  0 <= data -> data + Z.of_nat n <= zlen mem ->
  - 2 ^ 31 <= value * 2 ^ (8 * Z.of_nat n) + be_value (slice mem data (Z.of_nat n)) < 2 ^ 31 ->
  integer_loop mem n value data =
  Ok (inr (value * 2 ^ (8 * Z.of_nat n) + be_value (slice mem data (Z.of_nat n)))).
Proof using Hmem.
  revert value data. induction n as [| n IH]; intros value data Hd Hn Hv.
  - cbn [integer_loop]. do 2 f_equal. change (slice mem data (Z.of_nat 0)) with (@nil Z).
    change (be_value []) with 0. change (2 ^ (8 * Z.of_nat 0)) with 1. lia.
  - pose proof (be_value_range _ (slice_bytes mem data (Z.of_nat (S n)) Hmem)) as Hr.
    rewrite length_slice in Hr by lia. revert Hv Hr. set (v := be_value _).
    replace (8 * Z.of_nat (S n)) with (8 + 8 * Z.of_nat n) by lia. rewrite Z.pow_add_r by lia. intros Hv Hr.
    assert (1 <= 2 ^ (8 * Z.of_nat n)) by (pose proof (pow2_pos (8 * Z.of_nat n)); lia).
    assert (- 2 ^ 23 <= value < 2 ^ 23) by nia.
    destruct (integer_loop_step n value data) as (b & Hb & Eb & ->); [lia.. |].
    unfold in_range in Hb. rewrite to_signed_small by lia.
    unfold v in *. rewrite (slice_cons data n b), be_value_cons, length_slice in * by (done || lia).
    rewrite IH by lia. do 2 f_equal. lia.
Qed.

(** Whatever is returned agrees with the value modulo the width of an [int]. *)
Lemma integer_loop_eqm n value data v :
  0 <= data -> data + Z.of_nat n <= zlen mem -> integer_loop mem n value data = Ok (inr v) ->
  v mod 2 ^ 32 = (value * 2 ^ (8 * Z.of_nat n) + be_value (slice mem data (Z.of_nat n))) mod 2 ^ 32.
Proof using Hmem.
  revert value data. induction n as [| n IH]; intros value data Hd Hn E; cbn [integer_loop] in E.
  - injection E as ->. change (slice mem data (Z.of_nat 0)) with (@nil Z). change (be_value []) with 0.
    change (2 ^ (8 * Z.of_nat 0)) with 1. f_equal. lia.
  - destruct (_ && _); [done |]. destruct (rd_ok mem data) as [b Eb]; [lia |].
    pose proof (rd_byte _ _ _ Hmem Eb) as Hb. rewrite Eb, bind_ok, integer_step in E by done.
    apply IH in E; [| lia..]. rewrite E.
    unfold rd in Eb. rewrite (proj2 (Z.ltb_ge _ _)) in Eb by lia.
    rewrite (slice_cons data n b), be_value_cons, length_slice by
      (lia || (destruct (mem !! Z.to_nat data); [by injection Eb as -> | done])).
    rewrite <- Zplus_mod_idemp_l, <- Zmult_mod_idemp_l, to_signed_eqm, Zmult_mod_idemp_l, Zplus_mod_idemp_l.
    replace (8 * Z.of_nat (S n)) with (8 + 8 * Z.of_nat n) by lia. rewrite Z.pow_add_r by lia. f_equal. lia.
Qed.

Lemma integer_loop_app n m value data :
  integer_loop mem (n + m) value data =
  (r ← integer_loop mem n value data;
   match r with inl e => Ok (inl e) | inr v => integer_loop mem m v (data + Z.of_nat n) end).
Proof using.
  clear Hmem. revert value data. induction n as [| n IH]; intros value data; cbn [Nat.add integer_loop].
  - rewrite bind_ok. by rewrite Z.add_0_r.
  - destruct (_ && _); [done |]. destruct (rd mem data) as [b | |]; [| done..]. rewrite !bind_ok, IH.
    by replace (data + 1 + Z.of_nat n) with (data + Z.of_nat (S n)) by lia.
Qed.

(** An unsigned 32-bit value with its leading zero byte becomes negative. *)
Lemma integer_loop_wraps v data :
  2 ^ 31 <= v < 2 ^ 32 -> 0 <= data -> data + 4 <= zlen mem -> slice mem data 4 = be_repr 4 v ->
  integer_loop mem 4 0 data = Ok (inr (v - 2 ^ 32)).
Proof using Hmem.
  intros Hv Hd Hn Hs. change 4 with (3 + 1) in Hs. rewrite slice_add in Hs by lia.
  cbn [be_repr] in Hs. apply app_inj_2 in Hs as [Hs1 Hs2];
    [| enough (zlen (slice mem (data + 3) 1) = 1) by (cbn [length]; lia); apply length_slice; lia].
  change (_ ++ [v / 2 ^ 8 mod 2 ^ 8]) with (be_repr 3 (v / 2 ^ 8)) in Hs1.
  change 4%nat with (3 + 1)%nat. rewrite integer_loop_app, integer_loop_exact.
  2-3: lia.
  all: change (Z.of_nat 3) with 3; rewrite Hs1, be_value_be_repr by (Z.div_mod_to_equations; cbn; lia).
  2: Z.div_mod_to_equations; lia.
  rewrite bind_ok, Z.mul_0_l, Z.add_0_l.
  destruct (integer_loop_step 0 (v / 2 ^ 8) (data + 3)) as (b & Hb & Eb & ->); [Z.div_mod_to_equations; lia | lia |].
  cbn [integer_loop]. pose proof (slice_cons (data + 3) 0 b ltac:(lia) Eb) as Hc.
  change (Z.of_nat 1) with 1 in Hc. rewrite Hs2 in Hc. injection Hc as <-.
  replace (v / 2 ^ 8 * 2 ^ 8 + v mod 2 ^ 8) with v by (Z.div_mod_to_equations; lia).
  do 2 f_equal. unfold to_signed. rewrite wrap_small by (unfold in_range; lia).
  change (2 ^ (32 - 1)) with (2 ^ 31). case_if; lia.
Qed.

End Integers.

(** C38. The integer of an ASN.1 object is read exactly if it fits an [int], and whatever
    is returned agrees with it modulo 2^32; but the test for overflow looks only at the
    high byte before the last shift, so that a positive value of 32 bits, with the zero
    byte its encoding needs, is returned as a negative number. *)
Theorem asn1_integer_value {P : Platform} (mem : bytes) (c : asn1_cursor) (content rest : bytes) :
  Forall is_byte mem -> zlen mem < 2 ^ word_bits -> shows mem c (der ASN1_INTEGER content ++ rest) ->
  content <> [] -> zlen content < 2 ^ 31 ->
  (- 2 ^ 31 <= be_signed content < 2 ^ 31 -> asn1_integer mem c = Ok (inr 0, Some (be_signed content))) /\
  (forall v, asn1_integer mem c = Ok (inr 0, Some v) -> v mod 2 ^ 32 = be_signed content mod 2 ^ 32) /\
  (forall v, 2 ^ 31 <= v < 2 ^ 32 -> content = 0 :: be_repr 4 v -> asn1_integer mem c = Ok (inr 0, Some (v - 2 ^ 32))).
Proof.
  intros Hm Hz Hs Hne Hlen. destruct content as [| x content]; [done |]. clear Hne.
  destruct (asn1_enter_shows mem Hm Hz c ASN1_INTEGER (x :: content) rest ASN1_INTEGER) as (c' & E & Hs');
    [done | done | by left |].
  pose proof Hs' as [(Hd & Hl & He) Hsl]. destruct (shows_split mem _ _ Hs') as (_ & _ & Hcl). cbn [length] in Hcl.
  assert (Hx : mem !! Z.to_nat (cur_data c') = Some x).
  { apply (f_equal head) in Hsl. unfold slice in Hsl. rewrite Hcl, Nat2Z.id in Hsl.
    destruct (lookup_lt_is_Some_2 mem (Z.to_nat (cur_data c'))) as [y Hy]; [lia |].
    rewrite (drop_S _ y) in Hsl by done. cbn in Hsl. by injection Hsl as <-. }
  rewrite Hcl, (slice_cons mem (cur_data c') (length content) x) in Hsl by done. injection Hsl as Hsl.
  assert (Hb : is_byte x) by (eapply Forall_lookup_1; eauto).
  assert (Er : rd mem (cur_data c') = Ok x) by (unfold rd; rewrite (proj2 (Z.ltb_ge _ _)), Hx by lia; done).
  unfold asn1_integer. rewrite E, bind_ok. cbn beta iota. rewrite (proj2 (Z.ltb_ge _ 1)) by lia.
  rewrite Er, bind_ok. replace (Z.to_nat (cur_len c' - 1)) with (length content) by lia.
  rewrite be_signed_cons by done. split_and!.
  - intros Hv. rewrite (integer_loop_exact mem Hm), Hsl, bind_ok by (rewrite ?Hsl; lia). done.
  - intros v. destruct (integer_loop _ _ _ _) as [[|v'] | |] eqn:El; cbn [mbind res_bind]; [done | | done | done].
    intros [= ->]. apply (integer_loop_eqm mem Hm) in El; [| lia..]. by rewrite Hsl in El.
  - intros v Hv Ec. injection Ec as -> Ec. assert (Hl4 : length content = 4%nat) by (by rewrite Ec).
    rewrite Hl4 in *. change (to_signed 8 0) with 0. rewrite Ec in Hsl.
    rewrite (integer_loop_wraps mem Hm v) by (done || lia). done.
Qed.

(** ** Times *)

(** Two decimal digits. *)
Definition dd (n : Z) : bytes := [ch "0" + n / 10; ch "0" + n mod 10].

Definition two_digits (n : Z) : Prop := 0 <= n <= 99.

Lemma dd_digits n :
  two_digits n -> isdigit (ch "0" + n / 10) && isdigit (ch "0" + n mod 10) = true /\
    u8 (10 * (ch "0" + n / 10 - ch "0") + (ch "0" + n mod 10 - ch "0")) = n.
Proof.
  unfold two_digits. intros Hn. unfold isdigit. change (ch "0") with 48. change (ch "9") with 57.
  rewrite wrap_small by (unfold in_range; Z.div_mod_to_equations; lia). split; Z.div_mod_to_equations; lia.
Qed.

Lemma length_dds xs : length (xs ≫= dd) = (2 * length xs)%nat.
Proof. induction xs as [| x xs IH]; [done |]. cbn [mbind list_bind dd app length]. rewrite IH. lia. Qed.

(** The loop reads the pairs [xs]; at the last position it may find less than two
    characters left. *)
Lemma pairs_loop_spec xs : forall mem pre tail post a b e,
  mem = pre ++ (xs ≫= dd) ++ tail ++ post -> Forall two_digits xs ->
  (length a + length b + length e = 7)%nat -> length b = length xs ->
  e = [] \/ (length e = 1%nat /\ (length tail < 2)%nat) ->
  pairs_loop mem (length b + length e) (a ++ b ++ e) (zlen pre) (2 * zlen xs + zlen tail) =
  Ok (Some (a ++ xs ++ e, zlen pre + 2 * zlen xs, zlen tail)).
Proof.
  induction xs as [| x xs IH]; intros mem pre tail post a b e Em Hx H7 Hb He.
  - destruct b; [| done]. cbn [length app Nat.add]. rewrite Z.add_0_l.
    destruct He as [-> | [H1 Ht]]; [by rewrite Z.add_0_r |]. rewrite H1. cbn [pairs_loop].
    rewrite (proj2 (Z.ltb_lt _ 2)) by lia. cbn [Nat.eqb]. by rewrite Z.add_0_r.
  - destruct b as [| y b]; [done |]. injection Hb as Hb. apply Forall_cons in Hx as [Hx Hxs].
    cbn [length] in *. cbn [Nat.add pairs_loop].
    rewrite (proj2 (Z.ltb_ge _ 2)) by lia.
    assert (Et : rd mem (zlen pre) = Ok (ch "0" + x / 10)).
    { rewrite Em. cbn [mbind list_bind dd app]. by rewrite rd_app_r by app_side. }
    assert (Eu : rd mem (zlen pre + 1) = Ok (ch "0" + x mod 10)).
    { rewrite Em. cbn [mbind list_bind dd app]. rewrite cons_middle, app_assoc. by rewrite rd_app_r by app_side. }
    step Et. step Eu. destruct (dd_digits x Hx) as [-> Ev]. cbn [negb]. rewrite Ev.
    rewrite <- app_comm_cons, wr_app_r, bind_ok by lia. rewrite cons_middle, app_assoc.
    replace (zlen pre + 2) with (zlen (pre ++ dd x)) by (rewrite length_app; cbn [length dd]; lia).
    replace (2 * Z.of_nat (S (length xs)) + zlen tail - 2) with (2 * zlen xs + zlen tail) by lia.
    rewrite (IH mem (pre ++ dd x) tail post (a ++ [x]) b e); try done.
    + do 4 f_equal; [by rewrite <- app_assoc |]. rewrite length_app. cbn [length dd]. lia.
    + rewrite Em. cbn [mbind list_bind]. by rewrite <- !app_assoc.
    + rewrite length_app. cbn [length]. lia.
Qed.

(** The content of a time object: the date and time of day in decimal digits, with
    or without the century and the seconds. *)
Definition time_content (century : bool) (y m d hour minute : Z) (second : option Z) : bytes :=
  ((if century then [y / 100] else []) ++ [y mod 100; m; d; hour; minute] ++
   match second with Some s => [s] | None => [] end) ≫= dd.

Definition time_type (century : bool) : Z := if century then ASN1_GENERALIZED_TIME else ASN1_UTC_TIME.

(** The loop on the content of a time object. *)
Lemma time_pairs mem pre post century y m d hour minute second :
  mem = pre ++ time_content century y m d hour minute second ++ [ch "Z"] ++ post ->
  0 <= y <= 9999 -> two_digits m -> two_digits d -> two_digits hour -> two_digits minute ->
  two_digits (default 0 second) ->
  pairs_loop mem (if century then 7 else 6) (replicate 7 0) (zlen pre)
    (zlen (time_content century y m d hour minute second) + 1) =
  Ok (Some ([if century then y / 100 else 0; y mod 100; m; d; hour; minute; default 0 second],
            zlen pre + zlen (time_content century y m d hour minute second), 1)).
Proof.
  unfold time_content. intros Em Hy Hm Hd Hh Hmi Hs. rewrite length_dds in *.
  set (xs := _ ++ _ ++ match second with Some s => [s] | None => [] end) in *.
  assert (Hxs : Forall two_digits xs).
  { unfold xs, two_digits in *. destruct century, second as [s |]; cbn in *;
      repeat constructor; Z.div_mod_to_equations; lia. }
  pose proof (pairs_loop_spec xs mem pre [ch "Z"] post (if century then [] else [0])
    (replicate (length xs) 0) (if second then [] else [0]) Em Hxs) as Hp.
  unfold xs in *. clear xs.
  destruct century, second as [s |]; (etrans; [apply Hp; by auto |]); do 4 f_equal; cbn; lia || done.
Qed.

(** What is passed to [mktime] for a time object. *)
Lemma time_read {P : Platform} mem c rest century y m d hour minute second :
  Forall is_byte mem -> zlen mem < 2 ^ word_bits ->
  shows mem c (der (time_type century) (time_content century y m d hour minute second ++ [ch "Z"]) ++ rest) ->
  0 <= y <= 9999 -> two_digits m -> two_digits d -> two_digits hour -> two_digits minute ->
  two_digits (default 0 second) ->
  asn1_generalized_time mem c =
  ('(time, _) ← mktime (Tm (default 0 second) minute hour d (m - 1)
      (((if century then y / 100 else if 50 <=? y mod 100 then 19 else 20) - 19) * 100 + y mod 100) 0 0 0);
   Ok (inr 0, Some time)).
Proof.
  intros Hm Hz Hs Hy Hmo Hd Hh Hmi Hsec. set (content := time_content century y m d hour minute second) in *.
  assert (Hlen : zlen (content ++ [ch "Z"]) < 2 ^ 31).
  { unfold content, time_content. rewrite length_app, length_dds. destruct century, second; cbn; lia. }
  destruct (asn1_enter_shows mem Hm Hz c _ _ rest (time_type century) Hs Hlen) as (c' & E & Hs'); [by left |].
  assert (Et : asn1_type mem c = Ok (time_type century)).
  { destruct (shows_split mem _ _ Hs) as (Em & Hpre & Hcl). unfold asn1_type. rewrite Hcl, length_app.
    unfold der at 1. cbn [length]. rewrite (proj2 (Z.leb_le 1 _)), <- Hpre by lia. rewrite Em at 1.
    unfold der. rewrite <- app_comm_cons. by rewrite rd_app_r by app_side. }
  destruct (shows_split mem _ _ Hs') as (Em & Hpre & Hcl). rewrite <- app_assoc in Em.
  unfold asn1_generalized_time. step Et.
  replace (negb (time_type century =? ASN1_UTC_TIME) && negb (time_type century =? ASN1_GENERALIZED_TIME))
    with false by (by destruct century).
  replace (time_type century =? ASN1_GENERALIZED_TIME) with century by (by destruct century).
  step E. rewrite Hcl, length_app. cbn [length]. rewrite Nat2Z.inj_add, <- Hpre.
  pose proof (time_pairs mem _ _ century y m d hour minute second Em Hy Hmo Hd Hh Hmi Hsec) as Ep.
  fold content in Ep. change (Z.of_nat 1) with 1. step Ep. cbn [Z.eqb negb Pos.eqb].
  assert (Ez : rd mem (zlen (take (Z.to_nat (cur_data c')) mem) + zlen content) = Ok (ch "Z")).
  { rewrite Em at 1. rewrite app_assoc, rd_app_r; [done | rewrite length_app; lia | done]. }
  step Ez. change (ch "Z" =? ch "Z") with true. cbn [negb orb].
  destruct century; cbn [negb nth insert list_insert]; [done |]. by destruct (50 <=? y mod 100).
Qed.

(** Reading a UTCTime or GeneralizedTime object of a date of the calendar gives the
    seconds since 1970, for the years 1950 to 2049 without and 1900 to 9999 with the
    century, and with or without the seconds. *)
Lemma asn1_time_value {P : Platform} (mem : bytes) (c : asn1_cursor) (rest : bytes) (century : bool)
    (n : nat) (y m d hour minute : Z) (second : option Z) :
  Forall is_byte mem -> zlen mem < 2 ^ word_bits ->
  shows mem c (der (time_type century) (time_content century y m d hour minute second ++ [ch "Z"]) ++ rest) ->
  date_of n = (y, m, d) -> (if century then y <= 9999 else 1950 <= y <= 2049) ->
  0 <= hour < 24 -> 0 <= minute < 60 -> 0 <= default 0 second <= 60 ->
  asn1_generalized_time mem c =
  Ok (inr 0, Some ((Z.of_nat n - 25567) * 86400 + hour * 3600 + minute * 60 + default 0 second)).
Proof.
  intros Hm Hz Hs Hdate Hy Hh Hmi Hsec. destruct (date_of_ok n) as [Hok _]. rewrite Hdate in Hok.
  destruct Hok as (Hy' & Hmo & Hd). pose proof (days_in_month_bounds y m).
  assert (Hy9 : y <= 9999) by (destruct century; lia).
  rewrite (time_read mem c rest century y m d hour minute second) by (done || unfold two_digits; lia).
  replace ((_ - 19) * 100 + y mod 100) with (y - 1900)
    by (destruct century; [| destruct (50 <=? y mod 100) eqn:?]; Z.div_mod_to_equations; lia).
  by rewrite (mktime_spec n) by (done || apply (date_of_bound n y m d); done || lia).
Qed.

(** The month of a time is not checked before it indexes the tables of [mktime]:
    month 00, or any above 12, reads outside them. *)
Lemma asn1_time_month {P : Platform} (mem : bytes) (c : asn1_cursor) (rest : bytes) (century : bool)
    (y m d hour minute : Z) (second : option Z) :
  Forall is_byte mem -> zlen mem < 2 ^ word_bits ->
  shows mem c (der (time_type century) (time_content century y m d hour minute second ++ [ch "Z"]) ++ rest) ->
  0 <= y <= 9999 -> m = 0 \/ 13 <= m <= 99 -> two_digits d -> two_digits hour -> two_digits minute ->
  two_digits (default 0 second) ->
  asn1_generalized_time mem c = Trap.
Proof.
  intros Hm Hz Hs Hy Hmo Hd Hh Hmi Hsec.
  rewrite (time_read mem c rest century y m d hour minute second) by (done || unfold two_digits; lia).
  unfold mktime. cbn [tm_mon]. unfold rd. destruct Hmo as [-> | Hmo]; [done |].
  rewrite (proj2 (Z.ltb_ge _ 0)), lookup_ge_None_2 by (cbn; lia). done.
Qed.

(** C37. Times.  Reading a UTCTime or GeneralizedTime object of a date of the calendar
    gives the seconds since 1970, for the years 1950 to 2049 without and 1900 to 9999
    with the century, and with or without the seconds.  But the month is not checked
    before it indexes the tables of [mktime]: month 00, or any above 12, reads outside
    them. *)
Theorem asn1_time_correct {P : Platform} (mem : bytes) (c : asn1_cursor) (rest : bytes) (century : bool)
    (y m d hour minute : Z) (second : option Z) :
  Forall is_byte mem -> zlen mem < 2 ^ word_bits ->
  shows mem c (der (time_type century) (time_content century y m d hour minute second ++ [ch "Z"]) ++ rest) ->
  (forall n, date_of n = (y, m, d) -> (if century then y <= 9999 else 1950 <= y <= 2049) ->
   0 <= hour < 24 -> 0 <= minute < 60 -> 0 <= default 0 second <= 60 ->
   asn1_generalized_time mem c =
   Ok (inr 0, Some ((Z.of_nat n - 25567) * 86400 + hour * 3600 + minute * 60 + default 0 second))) /\
  (0 <= y <= 9999 -> m = 0 \/ 13 <= m <= 99 -> two_digits d -> two_digits hour -> two_digits minute ->
   two_digits (default 0 second) -> asn1_generalized_time mem c = Trap).
Proof.
  intros Hm Hz Hs. split.
  - intros n. by apply (asn1_time_value mem c rest).
  - by apply (asn1_time_month mem c rest century).
Qed.

(** ** Examples *)

Lemma ex_shows (mem contents : bytes) : mem = contents -> shows mem (Cursor 0 (zlen mem)) contents.
Proof. intros ->. by apply built_shows. Qed.

(** The integer 2^31, which takes five bytes. *)
Lemma asn1_integer_value_witness :
  let mem := [2; 5; 0; 128; 0; 0; 0] in
  (- 2 ^ 31 <= be_signed [0; 128; 0; 0; 0] < 2 ^ 31 ->
     @asn1_integer i386_pcbios mem (Cursor 0 7) = Ok (inr 0, Some (be_signed [0; 128; 0; 0; 0]))) /\
  (forall v, @asn1_integer i386_pcbios mem (Cursor 0 7) = Ok (inr 0, Some v) ->
     v mod 2 ^ 32 = be_signed [0; 128; 0; 0; 0] mod 2 ^ 32) /\
  (forall v, 2 ^ 31 <= v < 2 ^ 32 -> [0; 128; 0; 0; 0] = 0 :: be_repr 4 v ->
     @asn1_integer i386_pcbios mem (Cursor 0 7) = Ok (inr 0, Some (v - 2 ^ 32))).
Proof.
  apply (@asn1_integer_value i386_pcbios [2; 5; 0; 128; 0; 0; 0] (Cursor 0 7) [0; 128; 0; 0; 0] []).
  - repeat constructor; discriminate.
  - reflexivity.
  - apply ex_shows. reflexivity.
  - discriminate.
  - reflexivity.
Defined.

(** 16 November 2026, 12:30:45, as a UTCTime. *)
Definition ex_time : bytes := der ASN1_UTC_TIME (bytes_of_string "261116123045Z").

(** The same day of a thirteenth month. *)
Definition ex_bad_time : bytes := der ASN1_UTC_TIME (bytes_of_string "261316123045Z").

Lemma asn1_time_correct_witness :
  @asn1_generalized_time i386_pcbios ex_time (Cursor 0 15) =
  Ok (inr 0, Some ((Z.of_nat 46340 - 25567) * 86400 + 12 * 3600 + 30 * 60 + default 0 (Some 45))) /\
  @asn1_generalized_time i386_pcbios ex_bad_time (Cursor 0 15) = Trap.
Proof.
  split.
  - apply (@asn1_time_correct i386_pcbios ex_time (Cursor 0 15) [] false 2026 11 16 12 30 (Some 45)).
    + repeat constructor; discriminate.
    + reflexivity.
    + apply ex_shows. reflexivity.
    + vm_compute. reflexivity.
    + lia.
    + lia.
    + lia.
    + cbn. lia.
  - apply (@asn1_time_correct i386_pcbios ex_bad_time (Cursor 0 15) [] false 2026 13 16 12 30 (Some 45)).
    + repeat constructor; discriminate.
    + reflexivity.
    + apply ex_shows. reflexivity.
    + lia.
    + lia.
    + unfold two_digits. lia.
    + unfold two_digits. lia.
    + unfold two_digits. lia.
    + unfold two_digits. cbn. lia.
Defined.
