(* ===== verification/Rsa.v ===== *)
(** * RSA ([crypto/rsa.c], [include/ipxe/rsa.h], [crypto/random_nz.c])

    The parsing of keys, the cipher operation on the big integers of [Bigint], and
    encryption, decryption, signing and verification with the encodings of PKCS#1
    version 1.5.  The arrays of the dynamic storage are objects of their own: an
    access outside one is a [Trap], also where it would stay inside the
    allocation.  A digest algorithm is identified by its name. *)

From Stdlib Require Import ZArith Lia Bool ZifyBool.
From stdpp Require Import base numbers list strings.
From S2P Require Import Prelude Bits Heap Strings Bigint Digest Entropy Drbg Asn1.

Local Open Scope Z_scope.

(** ** Prefixes ([include/ipxe/rsa.h], [crypto/mishmash/rsa_*.c]) *)

Abbreviation ASN1_OID_INITIAL first second := (first * 40 + second).
Abbreviation ASN1_OID_SINGLE value := (Z.land value 0x7f).
Abbreviation ASN1_OID_DOUBLE value := [Z.lor 0x80 (Z.land (Z.shiftr value 7) 0x7f); ASN1_OID_SINGLE value].
Abbreviation ASN1_OID_TRIPLE value := (Z.lor 0x80 (Z.land (Z.shiftr value 14) 0x7f) :: ASN1_OID_DOUBLE value).

Abbreviation ASN1_OID_MD5 :=
  ([ASN1_OID_INITIAL 1 2] ++ ASN1_OID_DOUBLE 840 ++ ASN1_OID_TRIPLE 113549 ++ [ASN1_OID_SINGLE 2; ASN1_OID_SINGLE 5]).
Abbreviation ASN1_OID_SHA1 :=
  [ASN1_OID_INITIAL 1 3; ASN1_OID_SINGLE 14; ASN1_OID_SINGLE 3; ASN1_OID_SINGLE 2; ASN1_OID_SINGLE 26].
Abbreviation ASN1_OID_SHA2 last :=
  ([ASN1_OID_INITIAL 2 16] ++ ASN1_OID_DOUBLE 840 ++ [ASN1_OID_SINGLE 1; ASN1_OID_SINGLE 101; ASN1_OID_SINGLE 3;
    ASN1_OID_SINGLE 4; ASN1_OID_SINGLE 2; ASN1_OID_SINGLE last]).

Record rsa_digestinfo_prefix := Prefix { prefix_digest : string; prefix_data : bytes }.

(** The macro that builds a prefix for a digest size and an object identifier. *)
Definition RSA_DIGESTINFO_PREFIX (digest_size : Z) (oid : bytes) : bytes :=
  let contents := [ASN1_OID; zlen oid] ++ oid ++ [ASN1_NULL; 0x00] in
  let algorithm := [ASN1_SEQUENCE; zlen contents] ++ contents in
  let prefix := [ASN1_OCTET_STRING; digest_size] in
  [ASN1_SEQUENCE; zlen algorithm + zlen prefix + digest_size] ++ algorithm ++ prefix.

(** The table, with every file that declares an entry linked in. *)
Definition rsa_digestinfo_prefixes : list rsa_digestinfo_prefix := [
  Prefix "md5" (RSA_DIGESTINFO_PREFIX 16 ASN1_OID_MD5);
  Prefix "sha1" (RSA_DIGESTINFO_PREFIX 20 ASN1_OID_SHA1);
  Prefix "sha224" (RSA_DIGESTINFO_PREFIX 28 (ASN1_OID_SHA2 4));
  Prefix "sha256" (RSA_DIGESTINFO_PREFIX 32 (ASN1_OID_SHA2 1));
  Prefix "sha384" (RSA_DIGESTINFO_PREFIX 48 (ASN1_OID_SHA2 2));
  Prefix "sha512" (RSA_DIGESTINFO_PREFIX 64 (ASN1_OID_SHA2 3))].

Fixpoint rsa_find_prefix (prefixes : list rsa_digestinfo_prefix) (digest : string) : option rsa_digestinfo_prefix :=
  match prefixes with
  | [] => None
  | prefix :: prefixes =>
      if bool_decide (prefix_digest prefix = digest) then Some prefix else rsa_find_prefix prefixes digest
  end.

(** ** Contexts *)

(** The dynamic storage; the size of the big integers is the length of their
    arrays, and the input, output and working space are used as bytes. *)
Record rsa_context := RsaContext {
  rsa_modulus : list Z;
  rsa_exponent : list Z;
  rsa_max_length : Z;
  rsa_input : bytes;
  rsa_output : bytes;
  rsa_tmp : bytes
}.

Definition rsa_dynamic (context : rsa_context) : bytes :=
  bytes_of_elements (rsa_modulus context) ++ bytes_of_elements (rsa_exponent context) ++
  rsa_input context ++ rsa_output context ++ rsa_tmp context.

Section Rsa.
Context {P : Platform} {H : Type} {A : Allocator H}.

Abbreviation size_t := (wrap word_bits).

Definition rsa_free (context : option rsa_context) (h : H) : H := alloc_free h (rsa_dynamic <$> context).

Definition rsa_alloc (context : option rsa_context) (modulus_len exponent_len : Z) (h : H)
    : res (option rsa_context * H) :=
  let size := u32 (bigint_required_size modulus_len) in
  let exponent_size := u32 (bigint_required_size exponent_len) in
  let tmp_len := size_t (4 * size + 4 * exponent_size + 16 * size) in
  let h := rsa_free context h in
  let '(dynamic, h) :=
    alloc_realloc h None (size_t (4 * size + 4 * exponent_size + 4 * size + 4 * size + tmp_len)) in
  match dynamic with
  | None => Ok (None, h)
  | Some dynamic =>
      modulus ← rd_range dynamic 0 (4 * size);
      exponent ← rd_range dynamic (4 * size) (4 * exponent_size);
      input ← rd_range dynamic (4 * size + 4 * exponent_size) (4 * size);
      output ← rd_range dynamic (8 * size + 4 * exponent_size) (4 * size);
      tmp ← rd_range dynamic (12 * size + 4 * exponent_size) tmp_len;
      Ok (Some (RsaContext (elements_of modulus) (elements_of exponent) modulus_len input output tmp), h)
  end.

(** ** Keys *)

Definition rsa_parse_integer (mem : bytes) (raw : asn1_cursor) : res (int_rc * asn1_cursor) :=
  '(_, integer) ← asn1_enter mem raw ASN1_INTEGER;
  first ← (if 1 <? cur_len integer then rd mem (cur_data integer) else Ok 1);
  let integer := if (1 <? cur_len integer) && (first =? 0x00) then advance integer 1 else integer in
  if cur_len integer =? 0 then Ok (inl EINVAL, integer) else Ok (inr 0, integer).

(** From the modulus on. *)
Definition rsa_parse_integers (mem : bytes) (cursor : asn1_cursor) (is_private : bool)
    : res (int_rc * option (asn1_cursor * asn1_cursor)) :=
  '(rc, modulus) ← rsa_parse_integer mem cursor;
  if failed rc then Ok (rc, None)
  else
    '(_, cursor) ← asn1_skip_any mem cursor;
    cursor ← (if is_private then '(_, cursor) ← asn1_skip mem cursor ASN1_INTEGER; Ok cursor else Ok cursor);
    '(rc, exponent) ← rsa_parse_integer mem cursor;
    if failed rc then Ok (rc, None) else Ok (inr 0, Some (modulus, exponent)).

Definition rsa_parse_mod_exp (mem : bytes) (raw : asn1_cursor)
    : res (int_rc * option (asn1_cursor * asn1_cursor)) :=
  '(_, cursor) ← asn1_enter mem raw ASN1_SEQUENCE;
  type ← asn1_type mem cursor;
  if type =? ASN1_INTEGER then
    '(_, cursor) ← asn1_skip_any mem cursor;
    rsa_parse_integers mem cursor true
  else
    '(_, cursor) ← asn1_skip mem cursor ASN1_SEQUENCE;
    '(rc, bits) ← asn1_integral_bit_string mem cursor;
    match bits with
    | Some bits =>
        '(_, cursor) ← asn1_enter mem (Cursor (bits_data bits) (bits_len bits)) ASN1_SEQUENCE;
        rsa_parse_integers mem cursor false
    | None => Ok (rc, None)
    end.

(** Reset to no context, then filled in from the key. *)
Definition rsa_init (key : bytes) (h : H) : res (int_rc * option rsa_context * H) :=
  '(rc, parsed) ← rsa_parse_mod_exp key (Cursor 0 (zlen key));
  match parsed with
  | None => Ok (rc, None, h)
  | Some (modulus, exponent) =>
      '(context, h) ← rsa_alloc None (cur_len modulus) (cur_len exponent) h;
      match context with
      | None => Ok (inl ENOMEM, None, h)
      | Some context =>
          modulus_data ← rd_range key (cur_data modulus) (cur_len modulus);
          exponent_data ← rd_range key (cur_data exponent) (cur_len exponent);
          modulus0 ← bigint_init_raw (length (rsa_modulus context)) modulus_data;
          exponent0 ← bigint_init_raw (length (rsa_exponent context)) exponent_data;
          Ok (inr 0, Some (RsaContext modulus0 exponent0 (rsa_max_length context) (rsa_input context)
                             (rsa_output context) (rsa_tmp context)), h)
      end
  end.

Definition rsa_max_len (context : rsa_context) : Z := rsa_max_length context.

Definition rsa_final (context : rsa_context) (h : H) : H := rsa_free (Some context) h.

Definition rsa_match (private_key public_key : bytes) : res int_rc :=
  '(rc, private) ← rsa_parse_mod_exp private_key (Cursor 0 (zlen private_key));
  match private with
  | None => Ok rc
  | Some (private_modulus, _) =>
      '(rc, public) ← rsa_parse_mod_exp public_key (Cursor 0 (zlen public_key));
      match public with
      | None => Ok rc
      | Some (public_modulus, _) =>
          difference ← asn1_compare private_key private_modulus public_key public_modulus;
          if negb (difference =? 0) then Ok (inl ENOTTY) else Ok (inr 0)
      end
  end.
End Rsa.

(** ** The cipher *)

Section Cipher.
Context {P : Platform}.

Abbreviation size_t := (wrap word_bits).

(** The bytes stored in the result buffer, and the context; what the modular
    exponentiation leaves in its working space is not used again. *)
Definition rsa_cipher (context : rsa_context) (data : bytes) : res (bytes * rsa_context) :=
  let size := length (rsa_modulus context) in
  let exponent_size := length (rsa_exponent context) in
  input ← bigint_init_raw size data;
  output ← bigint_mod_exp_raw input (rsa_modulus context) (rsa_exponent context) size
             (elements_of (drop (4 * size + 4 * exponent_size) (rsa_tmp context)));
  result ← bigint_done_raw output (rsa_max_length context);
  Ok (result, RsaContext (rsa_modulus context) (rsa_exponent context) (rsa_max_length context)
                (bytes_of_elements input) (bytes_of_elements output) (rsa_tmp context)).

Definition with_input (input : bytes) (c : rsa_context) : rsa_context :=
  RsaContext (rsa_modulus c) (rsa_exponent c) (rsa_max_length c) input (rsa_output c) (rsa_tmp c).
Definition with_output (output : bytes) (c : rsa_context) : rsa_context :=
  RsaContext (rsa_modulus c) (rsa_exponent c) (rsa_max_length c) (rsa_input c) output (rsa_tmp c).

(** ** Non-zero random bytes ([crypto/random_nz.c]) *)

Section Random.
Context {W : Type} `{!EntropySource W}.
Context (local hmac_context : digest_context) (uninitialised : nat -> bytes).

Abbreviation world := (drbg_state * (entropy_state * W))%type.

(** The buffer, the position of [bytes] in it and the length left. *)
Fixpoint get_random_nz (fuel : nat) (data : bytes) (bytes len : Z) : M world (list Z) :=
  if len =? 0 then mret data
  else
    match fuel with
    | O => fun _ => Stuck
    | S fuel =>
        byte ← lift (rd_range data bytes 1);
        byte ← rbg_generate word_bits local hmac_context uninitialised [] false byte 1;
        data ← lift (wr_range data bytes byte);
        value ← lift (rd data bytes);
        if negb (value =? 0) then get_random_nz fuel data (bytes + 1) (len - 1)
        else get_random_nz fuel data bytes len
    end.

(** The result code, the ciphertext and the context; a failure of the generator is
    returned without the context, of which only the buffer [output0] has changed. *)
Definition rsa_encrypt (fuel : nat) (context : rsa_context) (plaintext : bytes)
    : M world (Z * bytes * rsa_context) :=
  let max_len := size_t (rsa_max_length context - 11) in
  let random_nz_len := size_t (max_len - zlen plaintext + 8) in
  if max_len <? zlen plaintext then fun s => Failed ERANGE s
  else
    encoded ← lift (wr (rsa_output context) 0 0x00);
    encoded ← lift (wr encoded 1 0x02);
    encoded ← get_random_nz fuel encoded 2 random_nz_len;
    encoded ← lift (wr encoded (2 + random_nz_len) 0x00);
    encoded ← lift (wr_range encoded (rsa_max_length context - zlen plaintext) plaintext);
    data ← lift (rd_range encoded 0 (rsa_max_length context));
    '(ciphertext, context) ← lift (rsa_cipher (with_output encoded context) data);
    mret (rsa_max_length context, ciphertext, context).
End Random.

(** [memchr]: the index of a byte. *)
Fixpoint memchr (l : bytes) (c : Z) (i : Z) : option Z :=
  match l with
  | [] => None
  | b :: l => if b =? c then Some i else memchr l c (i + 1)
  end.

(** The plaintext or an error, and the context. *)
Definition rsa_decrypt (context : rsa_context) (ciphertext : bytes) : res ((errno + bytes) * rsa_context) :=
  if negb (zlen ciphertext =? rsa_max_length context) then Ok (inl ERANGE, context)
  else
    '(result, context) ← rsa_cipher context ciphertext;
    encoded ← wr_range (rsa_input context) 0 result;
    let context := with_input encoded context in
    let max_len := rsa_max_length context in
    b0 ← rd encoded 0;
    b1 ← (if b0 =? 0x00 then rd encoded 1 else Ok 0);
    if negb (b0 =? 0x00) || negb (b1 =? 0x02) then Ok (inl EINVAL, context)
    else
      tail ← rd_range encoded 2 (max_len - 2);
      match memchr tail 0 2 with
      | None => Ok (inl EINVAL, context)
      | Some zero =>
          plaintext ← rd_range encoded (zero + 1) (max_len - (zero + 1));
          Ok (inr plaintext, context)
      end.

(** ** Signatures *)

(** The digest in the buffer [encoded]; the buffer is returned. *)
Definition rsa_encode_digest (prefixes : list rsa_digestinfo_prefix) (context : rsa_context)
    (digest : string) (digest_len : Z) (value : bytes) (encoded : bytes) : res (errno + bytes) :=
  match rsa_find_prefix prefixes digest with
  | None => Ok (inl ENOTSUP)
  | Some prefix =>
      let digestinfo_len := zlen (prefix_data prefix) + digest_len in
      let max_len := size_t (rsa_max_length context - 11) in
      if max_len <? digestinfo_len then Ok (inl ERANGE)
      else
        let temp := 0 in
        encoded ← wr encoded temp 0x00; let temp := temp + 1 in
        encoded ← wr encoded temp 0x01; let temp := temp + 1 in
        let pad_len := size_t (max_len - digestinfo_len + 8) in
        _ ← (if (0 <=? temp) && (temp + pad_len <=? zlen encoded) then Ok tt else Trap);
        encoded ← wr_range encoded temp (replicate (Z.to_nat pad_len) 0xff); let temp := temp + pad_len in
        encoded ← wr encoded temp 0x00; let temp := temp + 1 in
        encoded ← wr_range encoded temp (prefix_data prefix); let temp := temp + zlen (prefix_data prefix) in
        value ← rd_range value 0 digest_len;
        encoded ← wr_range encoded temp value; let temp := temp + digest_len in
        if negb (temp =? rsa_max_length context) then Trap else Ok (inr encoded)
  end.

Definition rsa_sign (prefixes : list rsa_digestinfo_prefix) (context : rsa_context)
    (digest : string) (digest_len : Z) (value : bytes) : res ((errno + bytes) * rsa_context) :=
  r ← rsa_encode_digest prefixes context digest digest_len value (rsa_output context);
  match r with
  | inl e => Ok (inl e, context)
  | inr encoded =>
      data ← rd_range encoded 0 (rsa_max_length context);
      '(signature, context) ← rsa_cipher (with_output encoded context) data;
      Ok (inr signature, context)
  end.

Definition rsa_verify (prefixes : list rsa_digestinfo_prefix) (context : rsa_context)
    (digest : string) (digest_len : Z) (value signature : bytes) : res (int_rc * rsa_context) :=
  if negb (zlen signature =? rsa_max_length context) then Ok (inl ERANGE, context)
  else
    '(result, context) ← rsa_cipher context signature;
    expected ← wr_range (rsa_input context) 0 result;
    let context := with_input expected context in
    r ← rsa_encode_digest prefixes context digest digest_len value (rsa_output context);
    match r with
    | inl e => Ok (inl e, context)
    | inr actual =>
        let context := with_output actual context in
        difference ← memcmp actual expected (Z.to_nat (rsa_max_length context));
        if negb (difference =? 0) then Ok (inl EACCES_VERIFY, context) else Ok (inr 0, context)
    end.

End Cipher.
