(* ===== verification/RsaCorrect.v ===== *)
(** * Correctness of RSA

    Keys, the cipher operation, signatures and encryption; the inverse exponents of
    a key pair by Fermat's little theorem. *)

From Stdlib Require Import ZArith Lia Bool ZifyBool Zmod.ZmodInv Znumtheory.
From stdpp Require Import base numbers list strings.
From S2P Require Import Prelude Bits Heap Strings Bigint Digest Entropy Asn1 Asn1Correct Rsa.

Local Open Scope Z_scope.

(** ** Inverse exponents *)

(** The modulus of a key pair is a product of distinct primes (two, or more in
    multi-prime RSA), and the exponents are inverse modulo each of them less one. *)
Definition product (factors : list Z) : Z := foldr Z.mul 1 factors.

Record key_pair (factors : list Z) (e d : Z) : Prop := {
  kp_prime : Forall Z.prime factors;
  kp_distinct : NoDup factors;
  kp_e : 0 < e;
  kp_d : 0 < d;
  kp_inverse : Forall (fun r => e * d mod (r - 1) = 1 mod (r - 1)) factors
}.

Lemma power_mod_prime p k x : Z.prime p -> 0 < k -> k mod (p - 1) = 1 mod (p - 1) -> x ^ k mod p = x mod p.
Proof.
  intros Hp Hk Hm. pose proof (Z.prime_ge_2 _ Hp).
  destruct (Z.eq_dec (x mod p) 0) as [E | E].
  - rewrite E, <- Z.mod_pow_l, E, Z.pow_0_l, Z.mod_0_l by lia. done.
  - assert (exists j, k = 1 + (p - 1) * j /\ 0 <= j) as (j & -> & Hj).
    { exists ((k - 1) / (p - 1)). split; [| apply Z.div_pos; lia].
      assert ((k - 1) mod (p - 1) = 0) as E0 by (rewrite Zminus_mod, Hm, <- Zminus_mod; done).
      pose proof (Z.div_mod (k - 1) (p - 1)). lia. }
    rewrite Z.pow_add_r, Z.pow_1_r, Z.pow_mul_r by lia.
    rewrite <- Zmult_mod_idemp_r, <- Z.mod_pow_l, Z.fermat_nz, Z.pow_1_l, Z.mod_1_l, Z.mul_1_r by (done || lia). done.
Qed.

Lemma prime_product r factors :
  Z.prime r -> Forall Z.prime factors -> (r | product factors) -> r ∈ factors.
Proof.
  intros Hr Hf Hd. pose proof (Z.prime_ge_2 _ Hr). induction Hf as [| p factors Hp Hf IH].
  - apply Z.divide_1_r_nonneg in Hd; lia.
  - apply (Z.divide_prime_mul _ _ _ Hr) in Hd as [Hd | Hd]; [| right; by apply IH].
    apply Z.divide_prime_prime in Hd as ->; [left | done..].
Qed.

Lemma product_divides factors y :
  Forall Z.prime factors -> NoDup factors -> Forall (fun r => (r | y)) factors -> (product factors | y).
Proof.
  intros Hf. induction Hf as [| p factors Hp Hf IH]; intros Hnd Hy; [apply Z.divide_1_l |].
  apply NoDup_cons in Hnd as [Hnin Hnd]. apply Forall_cons in Hy as [Hpy Hy]. destruct (IH Hnd Hy) as [k ->].
  rewrite Z.mul_comm in Hpy. apply Z.gauss in Hpy as [k' ->].
  - exists k'. cbn [product foldr]. fold (product factors). lia.
  - apply Z.coprime_prime_l; [done |]. intros Hd. by apply prime_product in Hd.
Qed.

Lemma key_pair_inverse factors e d x :
  key_pair factors e d -> 0 <= x < product factors -> ((x ^ d mod product factors) ^ e) mod product factors = x.
Proof.
  intros [Hp Hnd He Hd Hi] Hx. rewrite Z.mod_pow_l, <- Z.pow_mul_r by lia. rewrite (Z.mul_comm d e).
  assert (Hdiv : (product factors | x ^ (e * d) - x)).
  { apply product_divides; [done | done |]. rewrite Forall_forall in *. intros r Hr.
    pose proof (Z.prime_ge_2 _ (Hp r Hr)). apply Z.mod_divide; [lia |].
    rewrite Zminus_mod, power_mod_prime, Z.sub_diag by (lia || auto). apply Z.mod_0_l. lia. }
  destruct Hdiv as [k Hk]. replace (x ^ (e * d)) with (x + k * product factors) by lia.
  rewrite Z_mod_plus_full. by apply Z.mod_small.
Qed.

(** ** The cipher *)

(** A context for the modulus [n] of [k] bytes and the exponent [e]. *)
Record rsa_key (context : rsa_context) (k : nat) (n e : Z) : Prop := {
  rk_size : (0 < k <= 4 * length (rsa_modulus context))%nat;
  rk_modulus : bigint (length (rsa_modulus context)) (rsa_modulus context);
  rk_n : bigint_value (rsa_modulus context) = n;
  rk_exponent : bigint (length (rsa_exponent context)) (rsa_exponent context);
  rk_exponent_size : (0 < length (rsa_exponent context))%nat;
  rk_e : bigint_value (rsa_exponent context) = e;
  rk_max_len : rsa_max_length context = Z.of_nat k;
  rk_input : length (rsa_input context) = (4 * length (rsa_modulus context))%nat;
  rk_output : length (rsa_output context) = (4 * length (rsa_modulus context))%nat;
  rk_tmp : length (rsa_tmp context) =
    (4 * length (rsa_modulus context) + 4 * length (rsa_exponent context) + 16 * length (rsa_modulus context))%nat;
  rk_tmp_bytes : Forall is_byte (rsa_tmp context)
}.

Lemma rsa_key_with_input context k n e b :
  rsa_key context k n e -> length b = length (rsa_input context) -> rsa_key (with_input b context) k n e.
Proof. intros [] Hb. split; cbn; try done. by rewrite Hb. Qed.

Lemma rsa_key_with_output context k n e b :
  rsa_key context k n e -> length b = length (rsa_output context) -> rsa_key (with_output b context) k n e.
Proof. intros [] Hb. split; cbn; try done. by rewrite Hb. Qed.

(** The cipher operation is exponentiation of [k]-byte numbers. *)
Lemma rsa_cipher_spec context k n e data :
  rsa_key context k n e -> 0 < n <= 2 ^ (8 * Z.of_nat k) -> 0 < e -> length data = k -> Forall is_byte data ->
  exists context', rsa_cipher context data = Ok (be_repr k (be_value data ^ e mod n), context') /\
    rsa_key context' k n e /\ rsa_max_length context' = rsa_max_length context /\
    length (rsa_output context') = length (rsa_output context).
Proof.
  intros Hk Hn He Hl Hb. pose proof Hk as [Hsz Hmod Vmod Hexp Hesz Vexp Hmax Hin Hout Htmp Htb]. unfold rsa_cipher.
  destruct (bigint_init_spec (length (rsa_modulus context)) data Hb) as (Ei & Hi & Vi & _); [lia |].
  set (input := elements_of _) in *. step Ei.
  set (scratch := drop (4 * length (rsa_modulus context) + 4 * length (rsa_exponent context)) (rsa_tmp context)).
  destruct (elements_of_spec (4 * length (rsa_modulus context)) scratch) as (Ht & _ & _).
  { unfold scratch. rewrite length_drop. lia. }
  { by apply Forall_drop. }
  destruct (bigint_mod_exp_spec (length (rsa_modulus context)) input (rsa_modulus context) (rsa_exponent context)
    (elements_of scratch))
    as (output & Eo & Ho & Vo); [lia | done | exact Hi | done | done | exact Ht | lia |].
  step Eo. rewrite Vexp, (proj2 (Z.eqb_neq _ _)), Vi, Vmod in Vo by lia.
  pose proof (Z.mod_pos_bound (be_value data ^ e) n ltac:(lia)).
  rewrite Hmax. rewrite (bigint_done_spec (length (rsa_modulus context)) output k), bind_ok by (done || lia).
  rewrite Vo. eexists. split; [done |].
  destruct (bytes_of_elements_spec _ _ Hi) as (? & _ & _), (bytes_of_elements_spec _ _ Ho) as (? & _ & _).
  split; [by split |]. split; [done |]. cbn [rsa_output]. congruence.
Qed.

(** ** Encodings of PKCS#1 (RFC 3447) *)

(** EMSA-PKCS1-v1_5 of the encoded digest information [t]. *)
Definition emsa_pkcs1 (k : nat) (t : bytes) : bytes := [0x00; 0x01] ++ replicate (k - 3 - length t) 0xff ++ [0x00] ++ t.

(** The digest information of a digest value. *)
Definition digest_info (oid value : bytes) : bytes :=
  der ASN1_SEQUENCE (der ASN1_SEQUENCE (der ASN1_OID oid ++ der ASN1_NULL []) ++ der ASN1_OCTET_STRING value).

Lemma der_short type content : zlen content < 0x80 -> der type content = type :: zlen content :: content.
Proof. intros. unfold der, der_length. by rewrite (proj2 (Z.ltb_lt _ _)). Qed.

(** The macro gives the digest information up to the value. *)
Lemma prefix_digest_info oid value :
  zlen oid + zlen value < 100 -> RSA_DIGESTINFO_PREFIX (zlen value) oid ++ value = digest_info oid value.
Proof.
  intros Hl. unfold RSA_DIGESTINFO_PREFIX, digest_info.
  rewrite (der_short ASN1_OID oid), (der_short ASN1_NULL []), (der_short ASN1_OCTET_STRING value) by (cbn; lia).
  cbn [app]. rewrite (der_short ASN1_SEQUENCE (_ :: _ :: oid ++ _)) by (cbn [app length]; rewrite length_app; cbn [length]; lia).
  rewrite der_short by (repeat first [progress cbn [app length] | rewrite length_app]; lia).
  repeat first [progress cbn [app length] | rewrite length_app]. app_norm. cbn [app].
  repeat (f_equal; try lia).
Qed.

Lemma length_emsa k t : (length t + 3 <= k)%nat -> length (emsa_pkcs1 k t) = k.
Proof. intros. unfold emsa_pkcs1. rewrite !length_app, length_replicate. cbn [length]. lia. Qed.

Lemma emsa_bytes k t : Forall is_byte t -> Forall is_byte (emsa_pkcs1 k t).
Proof.
  intros. unfold emsa_pkcs1. repeat (apply Forall_app; split); [| | | done].
  - repeat constructor; unfold in_range; lia.
  - apply Forall_replicate. unfold in_range. lia.
  - repeat constructor; unfold in_range; lia.
Qed.

(** A message starts with a zero byte, so that it is below every modulus of [k]
    bytes. *)
Lemma zero_first_small k m n : length m = k -> Forall is_byte m -> head m = Some 0 -> 2 ^ (8 * (Z.of_nat k - 1)) <= n -> be_value m < n.
Proof.
  intros Hl Hb Hh Hn. destruct m as [| x m]; [done |]. injection Hh as ->. apply Forall_cons in Hb as [_ Hb].
  rewrite be_value_cons. pose proof (be_value_range m Hb). cbn [length] in Hl.
  replace (Z.of_nat k - 1) with (zlen m) in Hn by lia. lia.
Qed.

(** A buffer split into parts of given lengths. *)
Lemma split_part (l : bytes) n : (n <= length l)%nat -> exists a b, l = a ++ b /\ length a = n.
Proof. intros. exists (take n l), (drop n l). rewrite take_drop, length_take. split; [done | lia]. Qed.

Lemma wr_first x l v : wr (x :: l) 0 v = Ok (v :: l).
Proof. by apply (wr_app_r [] x l). Qed.

Lemma rd_range_first a b len : len = zlen a -> rd_range (a ++ b) 0 len = Ok a.
Proof. intros. by apply (rd_range_app [] a b). Qed.

Lemma wr_second x y l v : wr (x :: y :: l) (0 + 1) v = Ok (x :: v :: l).
Proof. by apply (wr_app_r [x] y l). Qed.

Section Encode.
Context {P : Platform}.

Lemma rsa_encode_digest_spec prefixes context digest prefix value encoded k :
  rsa_find_prefix prefixes digest = Some prefix -> rsa_max_length context = Z.of_nat k ->
  (length (prefix_data prefix) + length value + 11 <= k <= length encoded)%nat -> Z.of_nat k < 2 ^ word_bits ->
  rsa_encode_digest prefixes context digest (zlen value) value encoded =
  Ok (inr (emsa_pkcs1 k (prefix_data prefix ++ value) ++ drop k encoded)).
Proof.
  intros Ep Hk Hlen Hw. unfold rsa_encode_digest, emsa_pkcs1. rewrite Ep, Hk, length_app. set (pre := prefix_data prefix) in *.
  rewrite (wrap_small _ (Z.of_nat k - 11)) by (unfold in_range; lia). rewrite (proj2 (Z.ltb_ge _ _)) by lia.
  rewrite wrap_small by (unfold in_range; lia).
  replace (Z.of_nat k - 11 - (zlen pre + zlen value) + 8) with (Z.of_nat (k - 3 - (length pre + length value))) by lia.
  set (pad := (k - 3 - (length pre + length value))%nat). rewrite Nat2Z.id.
  destruct encoded as [| x0 [| x1 enc]]; cbn [length] in Hlen; [lia.. |].
  destruct (split_part enc pad) as (e1 & r1 & -> & H1); [lia |]. rewrite length_app in Hlen.
  destruct r1 as [| x2 r2]; cbn [length] in Hlen; [lia |].
  destruct (split_part r2 (length pre)) as (e2 & r3 & -> & H2); [lia |]. rewrite length_app in Hlen.
  destruct (split_part r3 (length value)) as (e3 & rest & -> & H3); [lia |]. rewrite length_app in Hlen.
  rewrite wr_first, bind_ok, wr_second, bind_ok.
  match goal with |- context [if ?b then Ok tt else Trap] => replace b with true end.
  2:{ symmetry. apply andb_true_iff. split; [done |]. apply Z.leb_le.
      repeat first [progress cbn [length] | rewrite length_app]. lia. }
  rewrite bind_ok.
  change (0 :: 1 :: e1 ++ ?l) with ([0; 1] ++ e1 ++ l).
  rewrite (wr_range_app [0; 1] e1), bind_ok by (rewrite ?length_replicate; done || lia).
  rewrite app_assoc. rewrite wr_app_r, bind_ok by (rewrite length_app, length_replicate; cbn [length]; lia).
  rewrite cons_middle, (app_assoc _ [0]).
  rewrite (wr_range_app _ e2), bind_ok by (rewrite ?length_app, ?length_replicate; cbn [length]; lia).
  rewrite rd_range_slice, slice_whole, bind_ok by (done || lia). rewrite (app_assoc _ pre).
  rewrite (wr_range_app _ e3), bind_ok by (rewrite ?length_app, ?length_replicate; cbn [length]; lia).
  rewrite (proj2 (Z.eqb_eq _ _)) by lia. cbn [negb]. do 2 f_equal.
  replace (drop k (x0 :: x1 :: e1 ++ x2 :: e2 ++ e3 ++ rest)) with rest; [by app_norm |].
  replace (x0 :: x1 :: e1 ++ x2 :: e2 ++ e3 ++ rest) with ((x0 :: x1 :: e1 ++ x2 :: e2 ++ e3) ++ rest) by (by app_norm).
  symmetry. apply drop_app_length'. cbn [length]. rewrite length_app. cbn [length]. rewrite length_app. lia.
Qed.

End Encode.

(** ** Signatures *)

(** The digests of the table, with their sizes and object identifiers. *)
Definition rsa_hashes : list (string * Z * list Z) := [
  ("md5", 16, [1; 2; 840; 113549; 2; 5]); ("sha1", 20, [1; 3; 14; 3; 2; 26]);
  ("sha224", 28, [2; 16; 840; 1; 101; 3; 4; 2; 4]); ("sha256", 32, [2; 16; 840; 1; 101; 3; 4; 2; 1]);
  ("sha384", 48, [2; 16; 840; 1; 101; 3; 4; 2; 2]); ("sha512", 64, [2; 16; 840; 1; 101; 3; 4; 2; 3])].

(** The encoding of an object identifier: the first two numbers share a byte, the
    others are written in base 128 with a continuation bit. *)
Definition base128 (n : Z) : bytes :=
  if n <? 128 then [n]
  else if n <? 128 * 128 then [128 + n / 128; n mod 128]
  else [128 + n / (128 * 128); 128 + n / 128 mod 128; n mod 128].

Definition oid_encode (arcs : list Z) : bytes :=
  match arcs with a :: b :: arcs => (40 * a + b) :: (arcs ≫= base128) | _ => [] end.

Lemma rsa_hashes_prefix name len arcs :
  (name, len, arcs) ∈ rsa_hashes ->
  rsa_find_prefix rsa_digestinfo_prefixes name = Some (Prefix name (RSA_DIGESTINFO_PREFIX len (oid_encode arcs))) /\
  zlen (oid_encode arcs) + len < 100 /\ Forall is_byte (RSA_DIGESTINFO_PREFIX len (oid_encode arcs)).
Proof.
  intros Hin. unfold rsa_hashes in Hin. rewrite !elem_of_cons, elem_of_nil in Hin.
  repeat (destruct Hin as [[= -> -> ->] | Hin]); [.. | done];
    (split; [vm_compute; reflexivity | split; [vm_compute; reflexivity | vm_compute; repeat constructor; discriminate]]).
Qed.

(** A modulus of exactly [k] bytes. *)
Definition modulus_of (k : nat) (n : Z) : Prop := 2 ^ (8 * (Z.of_nat k - 1)) <= n <= 2 ^ (8 * Z.of_nat k).

Section Signatures.

Context (name : string) (len : Z) (arcs : list Z) (Hhash : (name, len, arcs) ∈ rsa_hashes).
Context (k : nat) (n : Z) (Hn : modulus_of k n).

(** The encoded message for a digest value. *)
Abbreviation message value := (emsa_pkcs1 k (digest_info (oid_encode arcs) value)).

(** What is required of a digest value. *)
Definition digest_value (value : bytes) : Prop :=
  zlen value = len /\ Forall is_byte value /\ (length (digest_info (oid_encode arcs) value) + 11 <= k)%nat.

Lemma modulus_pos : (0 < k)%nat -> 0 < n <= 2 ^ (8 * Z.of_nat k).
Proof using Hn. intros. unfold modulus_of in Hn. pose proof (pow2_pos (8 * (Z.of_nat k - 1))). lia. Qed.

Lemma digest_info_bytes value : digest_value value -> Forall is_byte (digest_info (oid_encode arcs) value).
Proof using Hhash.
  intros (Hl & Hb & _). destruct (rsa_hashes_prefix name len arcs Hhash) as (_ & Ho & Hp).
  rewrite <- prefix_digest_info, Hl by lia. apply Forall_app. done.
Qed.

Lemma length_message value : digest_value value -> length (message value) = k.
Proof using. intros (_ & _ & H). apply length_emsa. lia. Qed.

Lemma message_bytes value : digest_value value -> Forall is_byte (message value).
Proof using Hhash. intros. by apply emsa_bytes, digest_info_bytes. Qed.

Lemma message_small value : digest_value value -> 0 <= be_value (message value) < n.
Proof using Hhash Hn.
  intros Hv. pose proof (be_value_range _ (message_bytes value Hv)). split; [lia |].
  apply (zero_first_small k); [by apply length_message | by apply message_bytes | done | apply Hn].
Qed.

Context {P : Platform} (Hw : Z.of_nat k < 2 ^ word_bits).

Lemma encode_message context value encoded :
  digest_value value -> rsa_max_length context = Z.of_nat k -> (k <= length encoded)%nat ->
  rsa_encode_digest rsa_digestinfo_prefixes context name len value encoded =
  Ok (inr (message value ++ drop k encoded)).
Proof using Hhash Hw.
  intros (Hl & Hb & Hk) Hm He. destruct (rsa_hashes_prefix name len arcs Hhash) as (Ep & Ho & _).
  rewrite <- Hl in Ep. rewrite <- prefix_digest_info, length_app in Hk by lia. rewrite <- Hl.
  rewrite (rsa_encode_digest_spec _ _ _ _ _ _ k Ep Hm) by (cbn [prefix_data]; done || lia).
  cbn [prefix_data]. by rewrite prefix_digest_info by lia.
Qed.

(** A digest value whose encoding does not fit the modulus is refused. *)
Lemma encode_overlong context value encoded :
  zlen value = len -> (11 <= k < length (digest_info (oid_encode arcs) value) + 11)%nat ->
  rsa_max_length context = Z.of_nat k ->
  rsa_encode_digest rsa_digestinfo_prefixes context name len value encoded = Ok (inl ERANGE).
Proof using Hhash Hw.
  intros Hl Hk Hm. destruct (rsa_hashes_prefix name len arcs Hhash) as (Ep & Ho & _).
  rewrite <- Hl in Ep. rewrite <- prefix_digest_info, length_app in Hk by lia. rewrite <- Hl.
  unfold rsa_encode_digest. rewrite Ep, Hm. cbn [prefix_data]. rewrite wrap_small by (unfold in_range; lia).
  by rewrite (proj2 (Z.ltb_lt _ _)) by lia.
Qed.

Lemma rsa_sign_spec context d value :
  rsa_key context k n d -> 0 < d -> digest_value value ->
  exists context', rsa_sign rsa_digestinfo_prefixes context name len value =
      Ok (inr (be_repr k (be_value (message value) ^ d mod n)), context') /\ rsa_key context' k n d.
Proof using Hhash Hn Hw.
  intros Hkey Hd Hv. unfold rsa_sign. pose proof (length_message value Hv) as Hlm.
  step (encode_message context value (rsa_output context) Hv (rk_max_len _ _ _ _ Hkey)
          ltac:(rewrite (rk_output _ _ _ _ Hkey); apply (rk_size _ _ _ _ Hkey))).
  rewrite (rk_max_len _ _ _ _ Hkey). rewrite rd_range_first, bind_ok by lia.
  destruct (rsa_cipher_spec (with_output (message value ++ drop k (rsa_output context)) context) k n d (message value))
    as (context' & E & Hkey' & _).
  - apply rsa_key_with_output; [done |]. rewrite length_app, length_drop, Hlm.
    pose proof (rk_output _ _ _ _ Hkey). pose proof (rk_size _ _ _ _ Hkey). lia.
  - apply modulus_pos, (rk_size _ _ _ _ Hkey).
  - done.
  - done.
  - by apply message_bytes.
  - step E. eauto.
Qed.

Lemma rsa_verify_spec context e value signature :
  rsa_key context k n e -> 0 < e -> digest_value value -> length signature = k -> Forall is_byte signature ->
  exists context', rsa_verify rsa_digestinfo_prefixes context name len value signature =
      Ok (if decide (be_value signature ^ e mod n = be_value (message value)) then inr 0 else inl EACCES_VERIFY,
          context') /\ rsa_key context' k n e.
Proof using Hhash Hn Hw.
  intros Hkey He Hv Hl Hb. unfold rsa_verify. rewrite (rk_max_len _ _ _ _ Hkey), (proj2 (Z.eqb_eq _ _)) by lia.
  cbn [negb]. pose proof (modulus_pos (proj1 (rk_size _ _ _ _ Hkey))) as Hnb.
  destruct (rsa_cipher_spec context k n e signature) as (context' & E & Hkey' & _); [done.. |]. step E.
  set (result := be_repr k _). pose proof Hkey' as [Hsz _ _ _ _ _ Hmax Hin Hout _ _].
  assert (Hlr : length result = k) by apply length_be_repr.
  assert (Ew : wr_range (rsa_input context') 0 result = Ok (result ++ drop k (rsa_input context'))).
  { rewrite <- (take_drop k (rsa_input context')) at 1.
    apply (wr_range_app [] (take k (rsa_input context'))); [done |]. rewrite length_take, Hlr. lia. }
  step Ew. set (c1 := with_input _ context').
  assert (Hk1 : rsa_key c1 k n e).
  { apply rsa_key_with_input; [done |]. rewrite length_app, length_drop, Hlr. lia. }
  step (encode_message c1 value (rsa_output c1) Hv (rk_max_len _ _ _ _ Hk1)
          ltac:(rewrite (rk_output _ _ _ _ Hk1); apply (rk_size _ _ _ _ Hk1))).
  cbn [rsa_max_length with_output]. rewrite (rk_max_len _ _ _ _ Hk1), Nat2Z.id.
  pose proof (length_message value Hv) as Hlm.
  destruct (memcmp_spec k (message value ++ drop k (rsa_output c1)) (result ++ drop k (rsa_input context')))
    as (diff & Ed & Hiff); [rewrite length_app; lia.. |].
  rewrite !take_app_length' in Hiff by done. step Ed.
  set (c2 := with_output _ c1). assert (Hk2 : rsa_key c2 k n e).
  { apply rsa_key_with_output; [done |]. rewrite length_app, length_drop, Hlm.
    pose proof (rk_output _ _ _ _ Hk1). pose proof (rk_size _ _ _ _ Hk1). lia. }
  assert (Hres : message value = result <-> be_value signature ^ e mod n = be_value (message value)).
  { pose proof (Z.mod_pos_bound (be_value signature ^ e) n ltac:(lia)). unfold result. split.
    - intros ->. rewrite be_value_be_repr; lia.
    - intros ->. pose proof (be_repr_be_value _ (message_bytes value Hv)) as Hrep. by rewrite Hlm in Hrep. }
  exists c2. destruct (Z.eqb_spec diff 0), (decide _); cbn [negb]; try (split; done); exfalso; tauto.
Qed.

Lemma rsa_verify_overlong context e value signature :
  rsa_key context k n e -> 0 < e -> zlen value = len ->
  (11 <= k < length (digest_info (oid_encode arcs) value) + 11)%nat -> length signature = k -> Forall is_byte signature ->
  exists context', rsa_verify rsa_digestinfo_prefixes context name len value signature = Ok (inl ERANGE, context') /\
    rsa_key context' k n e.
Proof using Hhash Hn Hw.
  intros Hkey He Hv Hk Hl Hb. unfold rsa_verify. rewrite (rk_max_len _ _ _ _ Hkey), (proj2 (Z.eqb_eq _ _)) by lia.
  cbn [negb]. pose proof (modulus_pos (proj1 (rk_size _ _ _ _ Hkey))) as Hnb.
  destruct (rsa_cipher_spec context k n e signature) as (context' & E & Hkey' & _); [done.. |]. step E.
  pose proof (rk_input _ _ _ _ Hkey'). pose proof (rk_size _ _ _ _ Hkey').
  rewrite wr_range_splice, bind_ok by (rewrite ?length_be_repr; lia). set (c1 := with_input _ context').
  assert (Hk1 : rsa_key c1 k n e).
  { apply rsa_key_with_input; [done |]. rewrite length_splice; rewrite ?length_be_repr; lia. }
  step (encode_overlong c1 value (rsa_output c1) Hv Hk (rk_max_len _ _ _ _ Hk1)). eauto.
Qed.

End Signatures.
