(* ===== verification/RsaKeys.v ===== *)
(** * RSA keys and the theorems on RSA

    The keys in their encodings, from which [rsa_init] makes contexts, and the
    round trips of signing and encryption. *)

From Stdlib Require Import ZArith Lia Bool ZifyBool.
From stdpp Require Import base numbers list strings.
From S2P Require Import Prelude Bits Heap Strings Bigint Digest DigestCorrect DigestStandard Hmac Entropy Drbg Asn1 Asn1Correct Rsa RsaCorrect.

Local Open Scope Z_scope.

(** ** Encoded keys *)

(** The bytes of a positive number, without leading zeros. *)
Definition number (b : bytes) : Prop := Forall is_byte b /\ 0 < hd 0 b.

(** A positive INTEGER, with a zero byte in front of a set top bit. *)
Definition der_uint (b : bytes) : bytes := der ASN1_INTEGER (if 0x80 <=? hd 0 b then 0 :: b else b).

(** RSAPrivateKey: version, modulus, both exponents and the rest. *)
Definition private_key (n e d extra : bytes) : bytes :=
  der ASN1_SEQUENCE (der ASN1_INTEGER [0] ++ der_uint n ++ der_uint e ++ der_uint d ++ extra).

(** SubjectPublicKeyInfo with an RSAPublicKey. *)
Definition public_key (algorithm n e : bytes) : bytes :=
  der ASN1_SEQUENCE (der ASN1_SEQUENCE algorithm ++
    der ASN1_BIT_STRING (0 :: der ASN1_SEQUENCE (der_uint n ++ der_uint e))).

Lemma zlen_der type content : zlen content + 2 <= zlen (der type content).
Proof. unfold der, der_length. cbn [length]. rewrite length_app. case_if; cbn [length]; lia. Qed.

Lemma der_nonempty type content : der type content <> [].
Proof. done. Qed.

Lemma number_length b : number b -> (0 < length b)%nat.
Proof. intros [_ Hh]. destruct b; cbn in *; lia. Qed.

(** A number of [k] bytes. *)
Lemma number_modulus b : number b -> modulus_of (length b) (be_value b).
Proof.
  intros [Hb Hh]. pose proof (be_value_range b Hb). destruct b as [| x b]; [cbn in Hh; lia |]. cbn [hd] in Hh.
  apply Forall_cons in Hb as [_ Hb]. pose proof (be_value_range b Hb).
  unfold modulus_of. split; [| lia]. rewrite be_value_cons. cbn [length].
  replace (Z.of_nat (S (length b)) - 1) with (zlen b) by lia. pose proof (pow2_pos (8 * zlen b)). nia.
Qed.

Section Keys.
Context {P : Platform} (mem : bytes) (Hmem : Forall is_byte mem) (Hsize : zlen mem < 2 ^ 31).

Lemma size_word : zlen mem < 2 ^ word_bits.
Proof using Hsize. destruct word_bits_ok as [-> | ->]; lia. Qed.

Lemma shows_length c b : shows mem c b -> zlen b <= zlen mem.
Proof using.
  clear Hmem Hsize. intros H. destruct (shows_split mem c b H) as (_ & _ & Hl). destruct H as [(Hd & Hn & He) _]. lia.
Qed.

(** An object shown by a cursor is short enough to be read. *)
Lemma shows_content c type content rest : shows mem c (der type content ++ rest) -> zlen content < 2 ^ 31.
Proof using Hsize.
  intros H%shows_length. rewrite length_app in H. pose proof (zlen_der type content). lia.
Qed.

Lemma enter c type content rest :
  shows mem c (der type content ++ rest) ->
  exists c', asn1_enter mem c type = Ok (inr 0, c') /\ shows mem c' content.
Proof using Hmem Hsize.
  intros H. apply (asn1_enter_shows mem Hmem size_word c type content rest type);
    [done | by eapply shows_content | by left].
Qed.

Lemma skip c type content rest want :
  shows mem c (der type content ++ rest) -> want = type \/ want = ASN1_ANY -> rest <> [] ->
  exists c', asn1_skip mem c want = Ok (inr 0, c') /\ shows mem c' rest.
Proof using Hmem Hsize.
  intros H Hw Hr. apply (asn1_skip_shows mem Hmem size_word c type content rest want);
    [done | by eapply shows_content | done | done].
Qed.

Lemma shows_first c x b : shows mem c (x :: b) -> rd mem (cur_data c) = Ok x.
Proof using.
  clear Hmem Hsize. intros H. destruct (shows_split mem c _ H) as (Em & Hp & _). rewrite <- Hp. rewrite Em at 1.
  rewrite <- app_comm_cons. by rewrite rd_app_r by app_side.
Qed.

Lemma shows_tail c x b : shows mem c (x :: b) -> shows mem (advance c 1) b.
Proof using.
  clear Hmem Hsize. intros H. destruct (shows_split mem c _ H) as (_ & _ & Hl).
  pose proof (shows_part mem c [x] b []) as Hp. rewrite app_nil_r in Hp. specialize (Hp H).
  unfold advance. cbn [length] in *. by replace (cur_len c - 1) with (zlen b) by lia.
Qed.

(** The integer without its sign byte. *)
Lemma parse_integer c b rest :
  number b -> shows mem c (der_uint b ++ rest) ->
  exists c', rsa_parse_integer mem c = Ok (inr 0, c') /\ shows mem c' b.
Proof using Hmem Hsize.
  intros Hnum H. pose proof (number_length b Hnum) as Hl. unfold rsa_parse_integer.
  destruct (enter c ASN1_INTEGER _ rest H) as (c' & E & Hs). step E.
  destruct (shows_split mem c' _ Hs) as (_ & _ & Hcl).
  destruct b as [| x b]; [cbn in Hl; lia |]. destruct Hnum as [_ Hh]. cbn [hd] in *.
  destruct (0x80 <=? x).
  - rewrite (proj2 (Z.ltb_lt 1 _)) by (rewrite Hcl; cbn [length]; lia).
    step (shows_first c' 0 (x :: b) Hs). cbn [Z.eqb andb]. apply shows_tail in Hs.
    destruct (shows_split mem _ _ Hs) as (_ & _ & Hcl').
    rewrite (proj2 (Z.eqb_neq _ 0)) by (rewrite Hcl'; cbn [length]; lia). eauto.
  - destruct (Z.ltb_spec 1 (cur_len c')).
    + step (shows_first c' x b Hs). rewrite (proj2 (Z.eqb_neq x 0)) by lia. cbn [andb].
      rewrite (proj2 (Z.eqb_neq _ 0)) by lia. eauto.
    + rewrite bind_ok. cbn [andb]. rewrite (proj2 (Z.eqb_neq _ 0)) by (rewrite Hcl; cbn [length]; lia). eauto.
Qed.

(** The content of a bit string without unused bits. *)
Lemma integral_bit_string c content rest :
  shows mem c (der ASN1_BIT_STRING (0 :: content) ++ rest) ->
  exists bits, asn1_integral_bit_string mem c = Ok (inr 0, Some bits) /\
    shows mem (Cursor (bits_data bits) (bits_len bits)) content.
Proof using Hmem Hsize.
  intros H. unfold asn1_integral_bit_string, asn1_bit_string.
  destruct (enter c ASN1_BIT_STRING _ rest H) as (c' & -> & Hs). rewrite bind_ok. cbn beta iota.
  pose proof (shows_tail c' 0 content Hs) as Ht. destruct (shows_split mem c' _ Hs) as (_ & _ & Hcl). cbn [length] in Hcl.
  rewrite (proj2 (Z.ltb_ge _ 1)) by lia. rewrite (shows_first c' 0 content Hs), bind_ok. cbn [Z.leb Z.ltb orb andb Z.compare].
  change (32 <=? u32 (8 - 0)) with false. cbv iota. pose proof Hs as [(Hd & Hn & He) _].
  destruct (rd_ok mem (cur_data c' + 1 + (cur_len c' - 1) - 1)) as [v Ev]; [lia |]. rewrite Ev, bind_ok.
  change (u8 (Z.shiftr 0xff (u32 (8 - 0)))) with 0. rewrite Z.land_0_r. cbn [Z.eqb negb]. rewrite bind_ok.
  cbn [bits_unused Z.eqb negb]. eexists. split; [done |]. exact Ht.
Qed.

(** The modulus and the exponent after it, or after the public exponent. *)
Lemma parse_integers c (private : bool) n x y rest :
  number n -> number (if private then y else x) -> (private = true -> number x) ->
  shows mem c (der_uint n ++ der_uint x ++ (if private then der_uint y else []) ++ rest) ->
  exists cn ce, rsa_parse_integers mem c private = Ok (inr 0, Some (cn, ce)) /\
    shows mem cn n /\ shows mem ce (if private then y else x).
Proof using Hmem Hsize.
  intros Hn He Hx H. unfold rsa_parse_integers.
  destruct (parse_integer c n _ Hn H) as (cn & -> & Hcn). rewrite bind_ok. cbn beta iota. cbn [failed Z.ltb Z.compare].
  destruct (skip c ASN1_INTEGER _ _ ASN1_ANY H) as (c1 & E1 & H1); [by right | by destruct private |].
  unfold asn1_skip_any. step E1. destruct private.
  - destruct (skip c1 ASN1_INTEGER _ _ ASN1_INTEGER H1) as (c2 & E2 & H2); [by left | done |]. step E2. rewrite bind_ok.
    destruct (parse_integer c2 y _ He H2) as (ce & -> & Hce). rewrite bind_ok. cbn [failed Z.ltb Z.compare]. eauto 6.
  - rewrite bind_ok. destruct (parse_integer c1 x _ He H1) as (ce & -> & Hce). rewrite bind_ok.
    cbn [failed Z.ltb Z.compare]. eauto 6.
Qed.

Lemma asn1_type_shows c type content rest : shows mem c (der type content ++ rest) -> asn1_type mem c = Ok type.
Proof using.
  clear Hmem Hsize. intros H. unfold asn1_type. destruct (shows_split mem c _ H) as (_ & _ & Hl).
  rewrite Hl, length_app. cbn [length der]. rewrite (proj2 (Z.leb_le 1 _)) by lia. by apply (shows_first c type _ H).
Qed.

Lemma parse_private n e d extra c :
  number n -> number e -> number d -> shows mem c (private_key n e d extra) ->
  exists cn ce, rsa_parse_mod_exp mem c = Ok (inr 0, Some (cn, ce)) /\ shows mem cn n /\ shows mem ce d.
Proof using Hmem Hsize.
  intros Hn He Hd H. unfold rsa_parse_mod_exp, private_key in *. rewrite <- (app_nil_r (der ASN1_SEQUENCE _)) in H.
  destruct (enter c ASN1_SEQUENCE _ [] H) as (c1 & E1 & H1). step E1. step (asn1_type_shows c1 _ _ _ H1).
  destruct (skip c1 ASN1_INTEGER _ _ ASN1_ANY H1) as (c2 & E2 & H2); [by right | done |].
  unfold asn1_skip_any. cbn [Z.eqb Pos.eqb]. step E2.
  by apply (parse_integers c2 true n e d extra).
Qed.

Lemma parse_public algorithm n e c :
  number n -> number e -> shows mem c (public_key algorithm n e) ->
  exists cn ce, rsa_parse_mod_exp mem c = Ok (inr 0, Some (cn, ce)) /\ shows mem cn n /\ shows mem ce e.
Proof using Hmem Hsize.
  intros Hn He H. unfold rsa_parse_mod_exp, public_key in *. rewrite <- (app_nil_r (der ASN1_SEQUENCE _)) in H.
  destruct (enter c ASN1_SEQUENCE _ [] H) as (c1 & E1 & H1). step E1. step (asn1_type_shows c1 _ _ _ H1).
  destruct (skip c1 ASN1_SEQUENCE _ _ ASN1_SEQUENCE H1) as (c2 & E2 & H2); [by left | done |].
  cbn [Z.eqb Pos.eqb]. step E2. rewrite <- (app_nil_r (der ASN1_BIT_STRING _)) in H2.
  destruct (integral_bit_string c2 _ [] H2) as (bits & Eb & H3). step Eb.
  rewrite <- (app_nil_r (der ASN1_SEQUENCE _)) in H3.
  destruct (enter _ ASN1_SEQUENCE _ [] H3) as (c4 & E4 & H4). step E4.
  apply (parse_integers c4 false n e [] []); [done | done | done |]. by rewrite app_nil_r.
Qed.

End Keys.

(** ** Initialisation *)

Section Init.
Context {P : Platform} {H : Type} {A : Allocator H}.

Lemma rd_shows mem c b : shows mem c b -> rd_range mem (cur_data c) (cur_len c) = Ok b.
Proof. intros [(Hd & Hl & He) Hs]. by rewrite rd_range_slice, Hs by lia. Qed.

Lemma required_size len : (0 < len)%nat -> Z.of_nat len < 2 ^ 24 ->
  exists size, u32 (bigint_required_size (Z.of_nat len)) = Z.of_nat size /\ (0 < size)%nat /\
    (len <= 4 * size)%nat /\ Z.of_nat size < 2 ^ 23.
Proof.
  intros Hl Hs. exists (Z.to_nat (bigint_required_size (Z.of_nat len))). unfold bigint_required_size.
  rewrite wrap_small by (unfold in_range; Z.div_mod_to_equations; lia).
  split_and!; Z.div_mod_to_equations; lia.
Qed.

Lemma slice_length_nat (l : bytes) off n : 0 <= off -> 0 <= n -> off + n <= zlen l -> length (slice l off n) = Z.to_nat n.
Proof. intros. pose proof (length_slice l off n). lia. Qed.

Lemma rsa_alloc_spec nlen elen h :
  (0 < nlen)%nat -> (0 < elen)%nat -> Z.of_nat nlen < 2 ^ 24 -> Z.of_nat elen < 2 ^ 24 ->
  exists context h', rsa_alloc None (Z.of_nat nlen) (Z.of_nat elen) h = Ok (context, h') /\
    forall c, context = Some c -> rsa_max_length c = Z.of_nat nlen /\
      let size := length (rsa_modulus c) in let exponent_size := length (rsa_exponent c) in
      (0 < nlen <= 4 * size)%nat /\ (0 < elen <= 4 * exponent_size)%nat /\
      length (rsa_input c) = (4 * size)%nat /\ length (rsa_output c) = (4 * size)%nat /\
      length (rsa_tmp c) = (4 * size + 4 * exponent_size + 16 * size)%nat /\ Forall is_byte (rsa_tmp c).
Proof.
  intros Hn He Hns Hes. unfold rsa_alloc.
  destruct (required_size nlen Hn Hns) as (size & -> & Hs0 & Hs1 & Hs2).
  destruct (required_size elen He Hes) as (esize & -> & He0 & He1 & He2).
  assert (2 ^ 32 <= 2 ^ word_bits) by (destruct word_bits_ok as [-> | ->]; lia).
  rewrite (wrap_small _ (_ + _ + 16 * _)) by (unfold in_range; lia).
  rewrite wrap_small by (unfold in_range; lia).
  destruct (alloc_realloc _ None _) as [[block |] h'] eqn:E; [| by exists None, h'].
  pose proof (alloc_realloc_bytes _ _ _ _ _ E ltac:(constructor)) as Hb.
  apply alloc_realloc_ok in E as [Hl _]; [| lia].
  rewrite !rd_range_slice, !bind_ok by lia. do 2 eexists. split; [done |]. intros c [= <-]. cbn [rsa_max_length rsa_modulus
    rsa_exponent rsa_input rsa_output rsa_tmp].
  assert (Hel : forall off n, 0 <= off -> off + 4 * Z.of_nat n <= zlen block ->
    length (elements_of (slice block off (4 * Z.of_nat n))) = n).
  { intros off n Ho Hn'. destruct (elements_of_spec n (slice block off (4 * Z.of_nat n))) as ([? _] & _);
      [rewrite slice_length_nat; lia | by apply slice_bytes | done]. }
  rewrite !Hel, !slice_length_nat by lia. split; [done |]. cbv zeta.
  split_and!; try lia. by apply slice_bytes.
Qed.

Lemma rsa_init_spec key n e cn ce h :
  zlen key < 2 ^ 24 -> number n -> number e -> rsa_parse_mod_exp key (Cursor 0 (zlen key)) = Ok (inr 0, Some (cn, ce)) ->
  shows key cn n -> shows key ce e ->
  exists rc context h', rsa_init key h = Ok (rc, context, h') /\
    ((rc = inl ENOMEM /\ context = None) \/
     (rc = inr 0 /\ exists c, context = Some c /\ rsa_key c (length n) (be_value n) (be_value e))).
Proof.
  intros Hk Hn He E Hcn Hce. unfold rsa_init. step E.
  destruct (shows_split key cn n Hcn) as (_ & _ & Ln), (shows_split key ce e Hce) as (_ & _ & Le).
  pose proof (shows_length key cn n Hcn). pose proof (shows_length key ce e Hce).
  rewrite (rd_shows key cn n Hcn), (rd_shows key ce e Hce), Ln, Le.
  destruct (rsa_alloc_spec (length n) (length e) h) as (context & h' & Ea & Hc);
    [by apply number_length | by apply number_length | lia | lia |]. step Ea.
  destruct context as [c |]; [| eauto 8]. destruct (Hc c eq_refl) as (Hmax & Hsz & Hesz & Hin & Hout & Htmp & Htb).
  rewrite !bind_ok.
  destruct (bigint_init_spec (length (rsa_modulus c)) n (proj1 Hn)) as (En & [Bl Bf] & Vn & _); [lia |].
  destruct (bigint_init_spec (length (rsa_exponent c)) e (proj1 He)) as (Ee & [Cl Cf] & Ve & _); [lia |].
  step En. step Ee. do 3 eexists. split; [done |]. right. split; [done |]. eexists. split; [done |].
  split; cbn [rsa_modulus rsa_exponent rsa_max_length rsa_input rsa_output rsa_tmp]; rewrite ?Bl, ?Cl; try done; try lia;
    by split.
Qed.

End Init.

(** ** Signing and verifying *)

Lemma zlen_der_uint b : zlen b + 2 <= zlen (der_uint b).
Proof. unfold der_uint. case_if; (etrans; [| apply zlen_der]); cbn [length]; lia. Qed.

Lemma der_uint_bytes b : number b -> zlen b < 2 ^ 63 -> Forall is_byte (der_uint b).
Proof.
  intros [Hb _] Hl. unfold der_uint. destruct (0x80 <=? hd 0 b);
    (apply der_bytes; [done | | cbn [length]; lia]); [constructor; done | done].
Qed.

Lemma public_key_length algorithm n e : zlen n <= zlen (public_key algorithm n e).
Proof.
  unfold public_key. pose proof (zlen_der ASN1_SEQUENCE (der ASN1_SEQUENCE algorithm ++
    der ASN1_BIT_STRING (0 :: der ASN1_SEQUENCE (der_uint n ++ der_uint e)))) as H0. rewrite length_app in H0.
  pose proof (zlen_der ASN1_BIT_STRING (0 :: der ASN1_SEQUENCE (der_uint n ++ der_uint e))) as H1. cbn [length] in H1.
  pose proof (zlen_der ASN1_SEQUENCE (der_uint n ++ der_uint e)) as H2. rewrite length_app in H2.
  pose proof (zlen_der_uint n). lia.
Qed.

Lemma private_key_bytes n e d extra :
  number n -> number e -> number d -> Forall is_byte extra -> zlen (private_key n e d extra) < 2 ^ 31 ->
  Forall is_byte (private_key n e d extra).
Proof.
  intros Hn He Hd Hx Hl. unfold private_key in *. pose proof (zlen_der ASN1_SEQUENCE
    (der ASN1_INTEGER [0] ++ der_uint n ++ der_uint e ++ der_uint d ++ extra)) as Hc.
  apply der_bytes; [done | | lia]. rewrite !length_app in Hc.
  pose proof (zlen_der_uint n). pose proof (zlen_der_uint e). pose proof (zlen_der_uint d).
  repeat (apply Forall_app; split); [| apply der_uint_bytes; done || lia.. | done].
  repeat constructor; discriminate.
Qed.

Lemma public_key_bytes algorithm n e :
  number n -> number e -> Forall is_byte algorithm -> zlen (public_key algorithm n e) < 2 ^ 31 ->
  Forall is_byte (public_key algorithm n e).
Proof.
  intros Hn He Ha Hl. unfold public_key in *.
  set (inner := der_uint n ++ der_uint e) in *. set (bits := 0 :: der ASN1_SEQUENCE inner) in *.
  pose proof (zlen_der ASN1_SEQUENCE (der ASN1_SEQUENCE algorithm ++ der ASN1_BIT_STRING bits)) as H1.
  rewrite length_app in H1. pose proof (zlen_der ASN1_SEQUENCE algorithm). pose proof (zlen_der ASN1_BIT_STRING bits) as H2.
  unfold bits in H2 at 1. cbn [length] in H2. pose proof (zlen_der ASN1_SEQUENCE inner) as H3.
  unfold inner in H3 at 1. rewrite length_app in H3.
  pose proof (zlen_der_uint n). pose proof (zlen_der_uint e).
  assert (Hi : Forall is_byte inner) by (apply Forall_app; split; apply der_uint_bytes; done || lia).
  assert (zlen inner < 2 ^ 31) by (unfold inner; rewrite length_app; lia).
  assert (Hb : Forall is_byte bits) by (constructor; [done | apply der_bytes; [done | done | lia]]).
  assert (zlen bits < 2 ^ 31) by (unfold bits; cbn [length]; lia).
  apply der_bytes; [done | | rewrite length_app; lia]. apply Forall_app. split; (apply der_bytes; [done | done | lia]).
Qed.

Lemma init_private {P : Platform} {H : Type} {A : Allocator H} n e d extra h :
  number n -> number e -> number d -> Forall is_byte extra -> zlen (private_key n e d extra) < 2 ^ 24 ->
  exists rc context h', rsa_init (private_key n e d extra) h = Ok (rc, context, h') /\
    ((rc = inl ENOMEM /\ context = None) \/
     (rc = inr 0 /\ exists c, context = Some c /\ rsa_key c (length n) (be_value n) (be_value d))).
Proof.
  intros Hn He Hd Hx Hl. pose proof (private_key_bytes n e d extra Hn He Hd Hx ltac:(lia)) as Hb.
  destruct (parse_private _ Hb ltac:(lia) n e d extra _ Hn He Hd (built_shows _ _ eq_refl)) as (cn & ce & E & Sn & Se).
  by apply (rsa_init_spec _ n d cn ce).
Qed.

Lemma init_public {P : Platform} {H : Type} {A : Allocator H} algorithm n e h :
  number n -> number e -> Forall is_byte algorithm -> zlen (public_key algorithm n e) < 2 ^ 24 ->
  exists rc context h', rsa_init (public_key algorithm n e) h = Ok (rc, context, h') /\
    ((rc = inl ENOMEM /\ context = None) \/
     (rc = inr 0 /\ exists c, context = Some c /\ rsa_key c (length n) (be_value n) (be_value e))).
Proof.
  intros Hn He Ha Hl. pose proof (public_key_bytes algorithm n e Hn He Ha ltac:(lia)) as Hb.
  destruct (parse_public _ Hb ltac:(lia) algorithm n e _ Hn He (built_shows _ _ eq_refl)) as (cn & ce & E & Sn & Se).
  by apply (rsa_init_spec _ n e cn ce).
Qed.

(** Messages for different digest values differ. *)
Lemma message_inj k len arcs value value' :
  zlen (oid_encode arcs) + len < 100 -> digest_value len arcs k value -> digest_value len arcs k value' ->
  Forall is_byte (digest_info (oid_encode arcs) value) -> Forall is_byte (digest_info (oid_encode arcs) value') ->
  be_value (emsa_pkcs1 k (digest_info (oid_encode arcs) value)) =
  be_value (emsa_pkcs1 k (digest_info (oid_encode arcs) value')) -> value = value'.
Proof.
  intros Ho (L1 & B1 & K1) (L2 & B2 & K2) D1 D2 E.
  apply (f_equal (be_repr k)) in E.
  pose proof (be_repr_be_value _ (emsa_bytes k _ D1)) as R1. rewrite length_emsa in R1 by lia.
  pose proof (be_repr_be_value _ (emsa_bytes k _ D2)) as R2. rewrite length_emsa in R2 by lia.
  rewrite R1, R2 in E. unfold emsa_pkcs1 in E.
  rewrite <- !prefix_digest_info, L1, L2, !length_app in E by lia. replace (length value') with (length value) in E by lia.
  apply app_inv_head, app_inv_head, app_inv_head in E. by apply app_inv_head in E.
Qed.

(** C4. A signature verifies.  From the encodings of the private and of the public key of
    a pair (distinct prime factors, inverse exponents), [rsa_init] makes a context
    each unless memory runs out; the signature that [rsa_sign] computes for a digest
    value with the first is accepted by [rsa_verify] with the second, and refused for
    every other digest value. *)
Theorem rsa_sign_verify {P : Platform} {H : Type} {A : Allocator H} (factors : list Z) (nb eb db extra algorithm : bytes)
    (name : string) (len : Z) (arcs : list Z) (value : bytes) (h1 h2 : H) :
  number nb -> number eb -> number db -> be_value nb = product factors -> key_pair factors (be_value eb) (be_value db) ->
  Forall is_byte extra -> Forall is_byte algorithm ->
  zlen (private_key nb eb db extra) < 2 ^ 24 -> zlen (public_key algorithm nb eb) < 2 ^ 24 ->
  (name, len, arcs) ∈ rsa_hashes -> digest_value len arcs (length nb) value ->
  exists rc1 c1 h1' rc2 c2 h2',
    rsa_init (private_key nb eb db extra) h1 = Ok (rc1, c1, h1') /\
    rsa_init (public_key algorithm nb eb) h2 = Ok (rc2, c2, h2') /\
    (rc1 = inl ENOMEM \/ rc2 = inl ENOMEM \/
     exists signer verifier signature signer' verifier', c1 = Some signer /\ c2 = Some verifier /\
       rsa_sign rsa_digestinfo_prefixes signer name len value = Ok (inr signature, signer') /\
       rsa_verify rsa_digestinfo_prefixes verifier name len value signature = Ok (inr 0, verifier') /\
       forall value', digest_value len arcs (length nb) value' -> value' <> value ->
         exists v, rsa_verify rsa_digestinfo_prefixes verifier name len value' signature = Ok (inl EACCES_VERIFY, v)).
Proof.
  intros Hn He Hd Hpq Hkp Hx Ha Hl1 Hl2 Hhash Hv.
  destruct (init_private nb eb db extra h1 Hn He Hd Hx Hl1) as (rc1 & c1 & h1' & E1 & Hc1).
  destruct (init_public algorithm nb eb h2 Hn He Ha Hl2) as (rc2 & c2 & h2' & E2 & Hc2).
  exists rc1, c1, h1', rc2, c2, h2'. split_and!; [done | done |].
  destruct Hc1 as [[? _] | (_ & signer & -> & Hs)]; [by left | right].
  destruct Hc2 as [[? _] | (_ & verifier & -> & Hr)]; [by left | right].
  pose proof (number_modulus nb Hn) as Hm. rewrite Hpq in *.
  assert (Hw : zlen nb < 2 ^ word_bits).
  { assert (zlen nb < 2 ^ 24); [| destruct word_bits_ok as [-> | ->]; lia].
    pose proof (public_key_length algorithm nb eb). lia. }
  pose proof (rsa_hashes_prefix name len arcs Hhash) as (_ & Ho & _).
  destruct (rsa_sign_spec name len arcs Hhash (length nb) (product factors) Hm Hw signer (be_value db) value) as (s' & Es & _);
    [done | apply Hkp | done |].
  set (sig := be_repr _ _) in *.
  pose proof (message_small name len arcs Hhash (length nb) (product factors) Hm value Hv) as Hsm.
  assert (Hsig : be_value sig ^ be_value eb mod (product factors) =
                 be_value (emsa_pkcs1 (length nb) (digest_info (oid_encode arcs) value))).
  { unfold sig. pose proof (modulus_pos (length nb) (product factors) Hm (number_length nb Hn)).
    rewrite be_value_be_repr; [by apply key_pair_inverse |].
    pose proof (Z.mod_pos_bound (be_value (emsa_pkcs1 (length nb) (digest_info (oid_encode arcs) value)) ^ be_value db)
      (product factors)). lia. }
  assert (Hver : forall v, digest_value len arcs (length nb) v -> _) by
    (intros v Hdv; exact (rsa_verify_spec name len arcs Hhash (length nb) (product factors) Hm Hw verifier (be_value eb) v sig
       Hr (kp_e _ _ _ Hkp) Hdv (length_be_repr _ _) (be_repr_bytes _ _))).
  destruct (Hver value Hv) as (v' & Ev & _). rewrite decide_True in Ev by done.
  exists signer, verifier, sig, s', v'. split_and!; [done.. |]. intros value' Hv' Hne.
  destruct (Hver value' Hv') as (v'' & Ev' & _). exists v''. rewrite decide_False in Ev'; [done |].
  rewrite Hsig. intros E. apply Hne. symmetry.
  apply (message_inj (length nb) len arcs); [done.. | | | done]; by apply (digest_info_bytes name len arcs Hhash (length nb)).
Qed.

(** C36. Verification is exact: for any key whose modulus has at least eleven bytes,
    any digest of the table and any byte string as a signature, [rsa_verify] returns,
    and it accepts if and only if the signature has the length of the modulus, the
    encoding of the digest value fits the modulus (with its eleven bytes of padding),
    and the power of the signature is this EMSA-PKCS1-v1_5 encoding. *)
Theorem rsa_verify_exact {P : Platform} (context : rsa_context) (k : nat) (n e : Z)
    (name : string) (len : Z) (arcs : list Z) (value signature : bytes) :
  rsa_key context k n e -> modulus_of k n -> 0 < e -> (11 <= k)%nat -> Z.of_nat k < 2 ^ word_bits ->
  (name, len, arcs) ∈ rsa_hashes -> zlen value = len -> Forall is_byte value -> Forall is_byte signature ->
  exists rc context', rsa_verify rsa_digestinfo_prefixes context name len value signature = Ok (rc, context') /\
    rsa_key context' k n e /\
    (rc = inr 0 <-> length signature = k /\ (length (digest_info (oid_encode arcs) value) + 11 <= k)%nat /\
       be_value signature ^ e mod n = be_value (emsa_pkcs1 k (digest_info (oid_encode arcs) value))).
Proof.
  intros Hkey Hm He Hk Hw Hhash Hv Hvb Hb. destruct (decide (length signature = k)) as [Hl | Hl].
  2: { unfold rsa_verify. rewrite (rk_max_len _ _ _ _ Hkey), (proj2 (Z.eqb_neq _ _)) by lia.
       do 2 eexists. split; [done |]. split; [done |]. naive_solver. }
  destruct (decide (length (digest_info (oid_encode arcs) value) + 11 <= k)%nat) as [Hfit | Hfit].
  - destruct (rsa_verify_spec name len arcs Hhash k n Hm Hw context e value signature) as (c' & E & Hk'); [done.. |].
    do 2 eexists. split; [exact E |]. split; [done |]. case_decide; naive_solver.
  - destruct (rsa_verify_overlong name len arcs Hhash k n Hm Hw context e value signature) as (c' & E & Hk'); [done.. | lia | done | done |].
    do 2 eexists. split; [exact E |]. split; [done |]. naive_solver.
Qed.

(** ** Encryption *)

Abbreviation nonzero bs := (filter (fun b : Z => b <> 0%Z) bs).

(** The bytes of successive one-byte requests to HMAC_DRBG. *)
Fixpoint drbg_bytes (j : nat) (w : Sp800_90.working_state) : bytes :=
  match j with
  | O => []
  | S j =>
      match Sp800_90.Generate HMAC_SHA256 32 w 1 [] with
      | Some (bits, w) => bits ++ drbg_bytes j w
      | None => []
      end
  end.

Section Encryption.
Context {P : Platform} {W : Type} `{!EntropySource W}.
Context (local hmac_context : digest_context) (uninitialised : nat -> bytes).
Hypothesis Hlocal : usable sha256_algorithm local.
Hypothesis Hcontext : usable sha256_algorithm hmac_context.

Lemma generate_byte st w bits w' :
  drbg_refines st w -> Sp800_90.Generate HMAC_SHA256 32 w 1 [] = Some (bits, w') ->
  exists b, bits = [b] /\ is_byte b /\ Sp800_90.counter w' = Sp800_90.counter w + 1.
Proof using P.
  intros (_ & [Hkv _] & _) E. apply holds_kv_bytes in Hkv as (_ & HK & _ & HV); [| cbn; lia].
  destruct (sha256_is_digest word_bits word_bits_ok) as [D].
  destruct (hmac_bytes word_bits sha256_algorithm (Standard.hash Standard.SHA256) (Sp800_90.Key w) (Sp800_90.V w) HK HV) as [Hl Hb].
  change (Rfc2104.HMAC _ _) with HMAC_SHA256 in Hl, Hb. unfold Sp800_90.Generate in E.
  destruct (_ <? _); [done |]. rewrite decide_True in E by done. change ((1 + 32 - 1) / 32)%nat with 1%nat in E.
  cbn [Sp800_90.rounds] in E. rewrite app_nil_r in E. destruct (HMAC_SHA256 (Sp800_90.Key w) (Sp800_90.V w)) as [| b rest]; [done |].
  destruct (Sp800_90.Update _ _ _ _) as [K V]. injection E as <- <-. exists b.
  apply Forall_cons in Hb as [Hb _]. done.
Qed.

Lemma rbg_byte st w es old :
  drbg_refines st w -> Sp800_90.counter w <= HMAC_DRBG_RESEED_INTERVAL -> length old = 1%nat ->
  exists b w' st', Sp800_90.Generate HMAC_SHA256 32 w 1 [] = Some ([b], w') /\ is_byte b /\
    Sp800_90.counter w' = Sp800_90.counter w + 1 /\ drbg_refines st' w' /\
    rbg_generate word_bits local hmac_context uninitialised [] false old 1 (st, es) = Done [b] (st', es).
Proof using Hlocal Hcontext.
  intros Hr Hc Ho. destruct (sha256_is_digest word_bits word_bits_ok) as [D].
  pose proof (digest_limit_min (IsDigest := D)) as Hmin.
  destruct (drbg_generate_ok word_bits local hmac_context uninitialised word_bits_ok Hlocal Hcontext st w es [] false old 1)
    as [(bits & w' & st' & Eg & E & Hr') _]; [done | done | cbn; lia | cbn; lia | lia | lia | done | done |].
  destruct (generate_byte st w bits w' Hr Eg) as (b & -> & Hb & Hc'). exists b, w', st'. split_and!; [done.. |].
  unfold rbg_generate. by rewrite E, splice_whole by done.
Qed.

Lemma drbg_bytes_ok (es : entropy_state * W) j : forall st w,
  drbg_refines st w -> Sp800_90.counter w + Z.of_nat j <= HMAC_DRBG_RESEED_INTERVAL + 1 -> Forall is_byte (drbg_bytes j w).
Proof using P Hlocal Hcontext EntropySource0 uninitialised.
  induction j as [| j IH]; intros st w Hr Hc; [constructor |].
  destruct (rbg_byte st w es [0] Hr) as (b & w' & st' & E & Hb & Hc' & Hr' & _); [lia | done |].
  cbn [drbg_bytes]. rewrite E. constructor; [done |]. apply (IH st'); [done | lia].
Qed.

(** The loop ends as soon as the generator has given enough non-zero bytes. *)
Lemma get_random_nz_spec j : forall fuel st w es pre old post,
  drbg_refines st w -> Sp800_90.counter w + Z.of_nat j <= HMAC_DRBG_RESEED_INTERVAL + 1 -> (j <= fuel)%nat ->
  (length old <= length (nonzero (drbg_bytes j w)))%nat ->
  exists st', get_random_nz local hmac_context uninitialised fuel (pre ++ old ++ post) (zlen pre) (zlen old) (st, es) =
    Done (pre ++ take (length old) (nonzero (drbg_bytes j w)) ++ post) (st', es).
Proof using Hlocal Hcontext.
  induction j as [| j IH]; intros fuel st w es pre old post Hr Hc Hf Hl.
  - destruct old; [| cbn in Hl; lia]. by destruct fuel; exists st.
  - destruct old as [| x old]; [by destruct fuel; exists st |]. destruct fuel as [| fuel]; [lia |].
    cbn [get_random_nz]. rewrite (proj2 (Z.eqb_neq _ _)) by (cbn [length]; lia).
    destruct (rbg_byte st w es [x] Hr) as (b & w' & st' & Eg & Hb & Hc' & Hr' & Er); [lia | done |].
    cbn [drbg_bytes] in *. rewrite Eg in *. cbn [app] in Hl |- *. rewrite filter_cons in *.
    rewrite (M_bind_lift _ _ _ _ (rd_range_app pre [x] (old ++ post) (zlen pre) 1 eq_refl eq_refl)).
    rewrite (M_bind_done _ _ _ _ _ Er).
    rewrite (M_bind_lift _ _ _ _ (wr_range_app pre [x] (old ++ post) (zlen pre) [b] eq_refl eq_refl)).
    rewrite (M_bind_lift _ _ b) by (by rewrite rd_app_r). destruct (Z.eqb_spec b 0) as [-> | Hnz]; cbn [negb].
    + rewrite decide_False in * by (by intros ?).
      destruct (IH fuel st' w' es pre (0 :: old) post Hr') as (st2 & E2); [lia | lia | done |]. by exists st2.
    + rewrite decide_True in * by done. cbn [length] in Hl.
      destruct (IH fuel st' w' es (pre ++ [b]) old post Hr') as (st2 & E2); [lia | lia | lia |].
      exists st2. rewrite <- !app_assoc in E2. rewrite length_app in E2. cbn [length app take] in *.
      replace (zlen pre + 1) with (Z.of_nat (length pre + 1)) by lia.
      by replace (Z.of_nat (S (length old)) - 1) with (zlen old) by lia.
Qed.

(** The encoded message for a plaintext and its padding. *)
Definition eme_pkcs1 (padding plaintext : bytes) : bytes := [0x00; 0x02] ++ padding ++ [0x00] ++ plaintext.

Lemma padding_ok (es : entropy_state * W) st w j n :
  drbg_refines st w -> Sp800_90.counter w + Z.of_nat j <= HMAC_DRBG_RESEED_INTERVAL + 1 ->
  Forall (fun x => x <> 0 /\ is_byte x) (take n (nonzero (drbg_bytes j w))).
Proof using P Hlocal Hcontext EntropySource0 uninitialised.
  intros Hr Hc. pose proof (drbg_bytes_ok es j st w Hr Hc) as Hb. apply Forall_take, Forall_forall.
  intros b [Hnz Hin]%list_elem_of_filter. split; [done |]. by eapply Forall_forall in Hb.
Qed.

Lemma rsa_encrypt_spec fuel context k n e plaintext st w es j :
  rsa_key context k n e -> modulus_of k n -> 0 < e -> Z.of_nat k < 2 ^ word_bits ->
  Forall is_byte plaintext -> (length plaintext + 11 <= k)%nat ->
  drbg_refines st w -> Sp800_90.counter w + Z.of_nat j <= HMAC_DRBG_RESEED_INTERVAL + 1 -> (j <= fuel)%nat ->
  let padding := take (k - 3 - length plaintext) (nonzero (drbg_bytes j w)) in
  (k - 3 - length plaintext <= length (nonzero (drbg_bytes j w)))%nat ->
  exists context' st', rsa_encrypt local hmac_context uninitialised fuel context plaintext (st, es) =
      Done (Z.of_nat k, be_repr k (be_value (eme_pkcs1 padding plaintext) ^ e mod n), context') (st', es).
Proof using Hlocal Hcontext.
  intros Hkey Hm He Hw Hb Hl Hr Hc Hf padding Hlen. unfold rsa_encrypt.
  pose proof Hkey as [Hsz _ _ _ _ _ Hmax _ Hout _ _]. rewrite Hmax.
  rewrite (wrap_small _ (Z.of_nat k - 11)) by (unfold in_range; lia). rewrite (proj2 (Z.ltb_ge _ _)) by lia.
  rewrite wrap_small by (unfold in_range; lia).
  replace (Z.of_nat k - 11 - zlen plaintext + 8) with (Z.of_nat (k - 3 - length plaintext)) by lia.
  set (pad := (k - 3 - length plaintext)%nat) in *.
  assert (Hlp : length padding = pad) by (unfold padding; rewrite length_take; lia).
  destruct (rsa_output context) as [| x0 [| x1 out]] eqn:Eo; cbn [length] in Hout; [lia.. |].
  destruct (split_part out pad) as (e1 & r1 & -> & H1); [lia |]. rewrite length_app in Hout.
  destruct r1 as [| x2 r2]; cbn [length] in Hout; [lia |].
  destruct (split_part r2 (length plaintext)) as (e2 & rest & -> & H2); [lia |]. rewrite length_app in Hout.
  rewrite (M_bind_lift _ _ _ _ (wr_first _ _ _)), (M_bind_lift _ _ _ _ (wr_second _ _ _ _)).
  change (0 :: 2 :: e1 ++ ?l) with ([0; 2] ++ e1 ++ l).
  destruct (get_random_nz_spec j fuel st w es [0; 2] e1 (x2 :: e2 ++ rest) Hr Hc Hf) as (st' & Er); [lia |].
  rewrite H1 in Er. fold padding in Er. change (zlen [0; 2]) with 2 in Er. rewrite (M_bind_done _ _ _ _ _ Er).
  rewrite app_assoc.
  rewrite (M_bind_lift _ _ _ _ (wr_app_r ([0; 2] ++ padding) x2 (e2 ++ rest) (2 + Z.of_nat pad) 0
    ltac:(rewrite length_app; cbn [length]; lia))).
  rewrite cons_middle, (app_assoc _ [0]).
  rewrite (M_bind_lift _ _ _ _ (wr_range_app (([0; 2] ++ padding) ++ [0]) e2 rest (Z.of_nat k - zlen plaintext) plaintext
    ltac:(rewrite !length_app; cbn [length]; lia) ltac:(lia))).
  set (encoded := _ ++ plaintext ++ rest).
  assert (Een : encoded = eme_pkcs1 padding plaintext ++ rest) by (unfold encoded, eme_pkcs1; by app_norm).
  assert (Hle : length (eme_pkcs1 padding plaintext) = k)
    by (unfold eme_pkcs1; rewrite !length_app; cbn [length]; lia).
  rewrite Een, (M_bind_lift _ _ _ _ (rd_range_first (eme_pkcs1 padding plaintext) rest (Z.of_nat k) ltac:(lia))).
  destruct (rsa_cipher_spec (with_output (eme_pkcs1 padding plaintext ++ rest) context) k n e (eme_pkcs1 padding plaintext))
    as (c' & E & _ & Hmax' & _).
  - apply rsa_key_with_output; [done |]. rewrite Eo, length_app, Hle. cbn [length]. rewrite length_app. cbn [length].
    rewrite length_app. lia.
  - by apply modulus_pos; [| lia].
  - done.
  - done.
  - unfold eme_pkcs1. repeat (apply Forall_app; split); [| | | done].
    + repeat constructor; unfold in_range; lia.
    + eapply Forall_impl; [by apply (padding_ok es st w j pad Hr) | by intros ? []].
    + repeat constructor; unfold in_range; lia.
  - rewrite (M_bind_lift _ _ _ _ E). exists c', st'. unfold mret, M_ret. rewrite Hmax'. cbn [rsa_max_length with_output].
    by rewrite Hmax.
Qed.

Lemma memchr_spec a b i : Forall (fun x => x <> 0) a -> memchr (a ++ 0 :: b) 0 i = Some (i + zlen a).
Proof.
  intros Ha. revert i. induction Ha as [| x a Hx Ha IH]; intros i; cbn [app memchr length]; [f_equal; lia |].
  rewrite (proj2 (Z.eqb_neq x 0)), IH by done. f_equal. lia.
Qed.

(** Decryption recovers the plaintext from a ciphertext whose power is an encoded
    message. *)
Lemma rsa_decrypt_spec context k n d padding plaintext ciphertext :
  rsa_key context k n d -> modulus_of k n -> 0 < d -> length ciphertext = k -> Forall is_byte ciphertext ->
  Forall (fun x => x <> 0) padding -> Forall is_byte (eme_pkcs1 padding plaintext) ->
  length (eme_pkcs1 padding plaintext) = k -> be_value ciphertext ^ d mod n = be_value (eme_pkcs1 padding plaintext) ->
  exists context', rsa_decrypt context ciphertext = Ok (inr plaintext, context') /\ rsa_key context' k n d.
Proof.
  intros Hkey Hm Hd Hl Hb Hnz Hbe Hle E. unfold rsa_decrypt.
  rewrite (rk_max_len _ _ _ _ Hkey), (proj2 (Z.eqb_eq _ _)) by lia. cbn [negb].
  destruct (rsa_cipher_spec context k n d ciphertext) as (c' & Ec & Hkey' & _); [done | | done.. |].
  { by apply modulus_pos; [| apply (rk_size _ _ _ _ Hkey)]. }
  rewrite E in Ec. pose proof (be_repr_be_value _ Hbe) as Hrep. rewrite Hle in Hrep. rewrite Hrep in Ec. step Ec.
  pose proof Hkey' as [Hsz _ _ _ _ _ Hmax Hin _ _ _].
  set (buf := eme_pkcs1 padding plaintext ++ drop k (rsa_input c')).
  assert (Ew : wr_range (rsa_input c') 0 (eme_pkcs1 padding plaintext) = Ok buf).
  { rewrite <- (take_drop k (rsa_input c')) at 1.
    apply (wr_range_app [] (take k (rsa_input c'))); [done |]. rewrite length_take, Hle. lia. }
  step Ew. cbn [rsa_max_length with_input]. rewrite Hmax.
  assert (Ebuf : buf = [0; 2] ++ padding ++ 0 :: plaintext ++ drop k (rsa_input c'))
    by (unfold buf, eme_pkcs1; by app_norm).
  assert (Hp : (length padding + length plaintext + 3 = k)%nat)
    by (revert Hle; unfold eme_pkcs1; rewrite !length_app; cbn [length]; lia).
  assert (E0 : rd buf 0 = Ok 0) by (by rewrite Ebuf). assert (E1 : rd buf 1 = Ok 2) by (by rewrite Ebuf).
  step E0. cbn [Z.eqb]. step E1. cbn [Z.eqb Pos.eqb negb orb].
  assert (Et : rd_range buf 2 (Z.of_nat k - 2) = Ok (padding ++ 0 :: plaintext)).
  { rewrite Ebuf. replace (padding ++ 0 :: plaintext ++ drop k (rsa_input c'))
      with ((padding ++ 0 :: plaintext) ++ drop k (rsa_input c')) by (by app_norm).
    apply (rd_range_app [0; 2]); [done |]. rewrite length_app. cbn [length]. lia. }
  step Et. rewrite memchr_spec by done.
  assert (Ep : rd_range buf (2 + zlen padding + 1) (Z.of_nat k - (2 + zlen padding + 1)) = Ok plaintext).
  { rewrite Ebuf. replace ([0; 2] ++ padding ++ 0 :: plaintext ++ drop k (rsa_input c'))
      with (([0; 2] ++ padding ++ [0]) ++ plaintext ++ drop k (rsa_input c')) by (by app_norm).
    apply rd_range_app; [rewrite !length_app; cbn [length]; lia | lia]. }
  step Ep. eexists. split; [done |]. apply rsa_key_with_input; [done |].
  unfold buf. rewrite length_app, length_drop. lia.
Qed.

End Encryption.

(** C19. What is encrypted with the public key of a pair is decrypted with the private key:
    for every plaintext at least eleven bytes shorter than the modulus, and a random bit
    generator whose next [j] bytes (by the standard of HMAC_DRBG, without a reseed)
    hold enough non-zero ones, [rsa_encrypt] ends within [j] requests, returns a
    ciphertext of the length of the modulus and leaves the entropy source alone, and
    [rsa_decrypt] of it returns the plaintext. *)
Theorem rsa_encrypt_decrypt {P : Platform} {W : Type} `{!EntropySource W} (local hmac_context : digest_context)
    (uninitialised : nat -> bytes) (factors : list Z) (e d : Z) (k : nat) (public private : rsa_context)
    (plaintext : bytes) (fuel j : nat) (st : drbg_state) (w : Sp800_90.working_state) (es : entropy_state * W) :
  usable sha256_algorithm local -> usable sha256_algorithm hmac_context ->
  key_pair factors e d -> modulus_of k (product factors) -> Z.of_nat k < 2 ^ word_bits ->
  rsa_key public k (product factors) e -> rsa_key private k (product factors) d ->
  Forall is_byte plaintext -> (length plaintext + 11 <= k)%nat ->
  drbg_refines st w -> Sp800_90.counter w + Z.of_nat j <= HMAC_DRBG_RESEED_INTERVAL + 1 -> (j <= fuel)%nat ->
  (k - 3 - length plaintext <= length (nonzero (drbg_bytes j w)))%nat ->
  exists ciphertext public' private' st',
    rsa_encrypt local hmac_context uninitialised fuel public plaintext (st, es) =
      Done (Z.of_nat k, ciphertext, public') (st', es) /\
    length ciphertext = k /\ rsa_decrypt private ciphertext = Ok (inr plaintext, private').
Proof.
  intros Hlocal Hcontext Hkp Hm Hw Hpub Hpriv Hb Hl Hr Hc Hf Hlen.
  set (padding := take (k - 3 - length plaintext) (nonzero (drbg_bytes j w))).
  pose proof (padding_ok local hmac_context uninitialised Hlocal Hcontext es st w j (k - 3 - length plaintext) Hr Hc) as Hpad.
  destruct (rsa_encrypt_spec local hmac_context uninitialised Hlocal Hcontext fuel public k (product factors) e plaintext st w es j
    Hpub Hm (kp_e _ _ _ Hkp) Hw Hb Hl Hr Hc Hf Hlen) as (c' & st' & E). fold padding in E, Hpad.
  assert (Hle : length (eme_pkcs1 padding plaintext) = k)
    by (unfold eme_pkcs1, padding; rewrite !length_app, length_take; cbn [length]; lia).
  assert (Hbe : Forall is_byte (eme_pkcs1 padding plaintext)).
  { unfold eme_pkcs1. repeat (apply Forall_app; split); [| | | done].
    - repeat constructor; unfold in_range; lia.
    - eapply Forall_impl; [exact Hpad | by intros ? []].
    - repeat constructor; unfold in_range; lia. }
  assert (Hsm : 0 <= be_value (eme_pkcs1 padding plaintext) < product factors).
  { pose proof (be_value_range _ Hbe). split; [lia |]. apply (zero_first_small k); [done | done | done | apply Hm]. }
  pose proof (modulus_pos k _ Hm ltac:(lia)) as Hpos.
  pose proof (Z.mod_pos_bound (be_value (eme_pkcs1 padding plaintext) ^ e) (product factors) ltac:(lia)).
  set (ciphertext := be_repr k _) in E.
  destruct (rsa_decrypt_spec private k (product factors) d padding plaintext ciphertext) as (p' & Ep & _).
  - done.
  - done.
  - apply Hkp.
  - apply length_be_repr.
  - apply be_repr_bytes.
  - eapply Forall_impl; [exact Hpad | by intros ? []].
  - done.
  - done.
  - unfold ciphertext. rewrite be_value_be_repr by lia. apply key_pair_inverse; [| done].
    destruct Hkp as [H1 H2 H3 H4 H5]. split; try done. eapply Forall_impl; [exact H5 |].
    intros r Hmul. cbv beta in *. by rewrite Z.mul_comm.
  - exists ciphertext, c', p', st'. split_and!; [done | apply length_be_repr | done].
Qed.

(** ** Short moduli *)

Lemma length_prefix len oid : zlen (RSA_DIGESTINFO_PREFIX len oid) = zlen oid + 10.
Proof. unfold RSA_DIGESTINFO_PREFIX. repeat first [progress cbn [app length] | rewrite length_app]. lia. Qed.

Lemma rsa_encode_short {P : Platform} name len arcs context value encoded :
  (name, len, arcs) ∈ rsa_hashes -> 0 < rsa_max_length context < 11 -> 2 <= zlen encoded < 2 ^ 31 ->
  rsa_encode_digest rsa_digestinfo_prefixes context name len value encoded = Trap.
Proof.
  intros Hhash Hk He. destruct (rsa_hashes_prefix name len arcs Hhash) as (Ep & Ho & _).
  assert (Hlen : 0 <= len < 100).
  { unfold rsa_hashes in Hhash. rewrite !elem_of_cons, elem_of_nil in Hhash. naive_solver lia. }
  unfold rsa_encode_digest. rewrite Ep. cbn [prefix_data]. rewrite length_prefix.
  set (ol := zlen (oid_encode arcs)) in *. assert (0 <= ol) by lia.
  assert (Hw : 2 ^ 32 <= 2 ^ word_bits) by (destruct word_bits_ok as [-> | ->]; lia).
  assert (Hm : wrap word_bits (rsa_max_length context - 11) = rsa_max_length context - 11 + 2 ^ word_bits).
  { unfold wrap. rewrite <- (Z_mod_plus_full _ 1), Z.mod_small; lia. }
  rewrite Hm, (proj2 (Z.ltb_ge _ _)) by lia.
  destruct encoded as [| x0 [| x1 out]]; cbn [length] in He; [lia.. |].
  step (wr_first x0 (x1 :: out) 0). step (wr_second 0 x1 out 1).
  rewrite wrap_small by (unfold in_range; lia).
  rewrite (proj2 (Z.leb_gt (0 + 1 + 1 + _) _)) by (cbn [length]; lia). by rewrite andb_false_r.
Qed.

(** C40. A modulus of less than eleven bytes is not refused: the length left for the message
    wraps around, the check against it passes, and the padding of a signature (made or
    verified) is written outside the buffer. *)
Theorem rsa_short_modulus {P : Platform} (context : rsa_context) (k : nat) (n e : Z)
    (name : string) (len : Z) (arcs : list Z) (value signature : bytes) :
  rsa_key context k n e -> modulus_of k n -> 0 < e -> (k < 11)%nat -> zlen (rsa_output context) < 2 ^ 31 ->
  (name, len, arcs) ∈ rsa_hashes -> length signature = k -> Forall is_byte signature ->
  rsa_sign rsa_digestinfo_prefixes context name len value = Trap /\
  rsa_verify rsa_digestinfo_prefixes context name len value signature = Trap.
Proof.
  intros Hkey Hm He Hk Hz Hhash Hl Hb. pose proof Hkey as [Hsz _ _ _ _ _ Hmax _ Hout _ _]. split.
  - unfold rsa_sign. by rewrite (rsa_encode_short name len arcs) by (done || lia).
  - unfold rsa_verify. rewrite Hmax, (proj2 (Z.eqb_eq _ _)) by lia. cbn [negb].
    destruct (rsa_cipher_spec context k n e signature) as (c' & Ec & Hkey' & Hmax' & Hout'); [done | | done.. |].
    { by apply modulus_pos; [| lia]. }
    step Ec. pose proof (rk_size _ _ _ _ Hkey'). rewrite wr_range_splice, bind_ok
      by (rewrite ?length_be_repr, ?(rk_input _ _ _ _ Hkey'); lia).
    rewrite (rsa_encode_short name len arcs); [done.. | |]; cbn [rsa_max_length rsa_output with_input]; lia.
Qed.

(** ** Runs with a key of many small factors *)

Definition trial (p : Z) : bool := (1 <? p) && forallb (fun q => negb (p mod q =? 0)) (seqZ 2 (p - 2)).

Lemma trial_prime p : trial p = true -> Z.prime p.
Proof.
  intros [Hp Hf]%andb_true_iff. split; [lia |]. intros q Hq Hd. rewrite forallb_forall in Hf.
  specialize (Hf q ltac:(apply list_elem_of_In, elem_of_seqZ; lia)). apply Z.mod_divide in Hd; [| lia]. by rewrite Hd in Hf.
Qed.

(** The primes up to 271. *)
Definition ex_factors : list Z := filter (fun p => trial p = true) (seqZ 2 270).
Definition ex_n : bytes := be_repr 46 (product ex_factors).
Definition ex_e : bytes := [1; 0; 1].
Definition ex_d : bytes := be_repr 14 0x35dbad9a52336347908d78f6e01.

Lemma ex_pair : key_pair ex_factors (be_value ex_e) (be_value ex_d).
Proof.
  split.
  - apply Forall_forall. intros p [Hp _]%list_elem_of_filter. by apply trial_prime.
  - apply NoDup_filter, NoDup_seqZ.
  - by vm_compute.
  - by vm_compute.
  - apply (bool_decide_unpack (Forall _ _)). by vm_compute.
Qed.

Lemma ex_n_value : be_value ex_n = product ex_factors.
Proof. by vm_compute. Qed.

Lemma ex_numbers : number ex_n /\ number ex_e /\ number ex_d.
Proof.
  split_and!; (split; [| by vm_compute]); try apply be_repr_bytes. repeat constructor; unfold in_range; lia.
Qed.

Definition ex_value : bytes := replicate 16 0xa5.

Lemma ex_digest_value : digest_value 16 [1; 2; 840; 113549; 2; 5] (length ex_n) ex_value.
Proof.
  split; [done |]. split; [apply Forall_replicate; unfold in_range; lia |].
  apply Nat.leb_le. by vm_compute.
Qed.

Lemma ex_hash : ("md5", 16, [1; 2; 840; 113549; 2; 5]) ∈ rsa_hashes.
Proof. left. Qed.

(** A run that does not fail. *)
Definition succeeds (r : res (int_rc * option rsa_context * unit)) : bool :=
  match r with Ok (inr _, _, _) => true | _ => false end.

Lemma succeeds_ok r rc c h : succeeds r = true -> r = Ok (rc, c, h) -> rc <> inl ENOMEM.
Proof. intros Hs -> ->. done. Qed.

Lemma ex_private_init : succeeds (@rsa_init i386_pcbios unit small_blocks (private_key ex_n ex_e ex_d []) tt) = true.
Proof. vm_compute. reflexivity. Qed.

Lemma ex_public_init : succeeds (@rsa_init i386_pcbios unit small_blocks (public_key [] ex_n ex_e) tt) = true.
Proof. vm_compute. reflexivity. Qed.

Lemma rsa_sign_verify_witness :
  exists rc1 rc2 signer verifier signature signer' verifier',
    @rsa_init i386_pcbios unit small_blocks (private_key ex_n ex_e ex_d []) tt = Ok (rc1, Some signer, tt) /\
    @rsa_init i386_pcbios unit small_blocks (public_key [] ex_n ex_e) tt = Ok (rc2, Some verifier, tt) /\
    @rsa_sign i386_pcbios rsa_digestinfo_prefixes signer "md5" 16 ex_value = Ok (inr signature, signer') /\
    @rsa_verify i386_pcbios rsa_digestinfo_prefixes verifier "md5" 16 ex_value signature = Ok (inr 0, verifier').
Proof.
  destruct ex_numbers as (Hn & He & Hd).
  destruct (@rsa_sign_verify i386_pcbios unit small_blocks ex_factors ex_n ex_e ex_d [] [] "md5" 16
    [1; 2; 840; 113549; 2; 5] ex_value tt tt Hn He Hd ex_n_value ex_pair (Forall_nil_2 _) (Forall_nil_2 _)
    ltac:(vm_compute; reflexivity) ltac:(vm_compute; reflexivity) ex_hash ex_digest_value)
    as (rc1 & c1 & h1 & rc2 & c2 & h2 & E1 & E2 & Hcase).
  destruct Hcase as [? | [? | (signer & verifier & signature & signer' & verifier' & -> & -> & Es & Ev & _)]].
  - destruct (succeeds_ok _ rc1 c1 h1 ex_private_init E1). assumption.
  - destruct (succeeds_ok _ rc2 c2 h2 ex_public_init E2). assumption.
  - destruct h1, h2. exists rc1, rc2, signer, verifier, signature, signer', verifier'.
    exact (conj E1 (conj E2 (conj Es Ev))).
Defined.

(** The contexts of the public and the private key. *)
Definition ex_context (key : bytes) : rsa_context :=
  match @rsa_init i386_pcbios unit small_blocks key tt with
  | Ok (_, Some c, _) => c
  | _ => RsaContext [] [] 0 [] [] []
  end.

Definition ex_public : rsa_context := ex_context (public_key [] ex_n ex_e).
Definition ex_private : rsa_context := ex_context (private_key ex_n ex_e ex_d []).

Lemma ex_public_key : rsa_key ex_public 46 (product ex_factors) (be_value ex_e).
Proof.
  destruct ex_numbers as (Hn & He & _). rewrite <- ex_n_value. unfold ex_public, ex_context.
  destruct (@init_public i386_pcbios unit small_blocks [] ex_n ex_e tt Hn He (Forall_nil_2 _) ltac:(by vm_compute))
    as (rc & c & h & E & [[? _] | (_ & c' & -> & Hk)]).
  - destruct (succeeds_ok _ rc c h ex_public_init E). done.
  - rewrite E. exact Hk.
Qed.

Lemma ex_private_key : rsa_key ex_private 46 (product ex_factors) (be_value ex_d).
Proof.
  destruct ex_numbers as (Hn & He & Hd). rewrite <- ex_n_value. unfold ex_private, ex_context.
  destruct (@init_private i386_pcbios unit small_blocks ex_n ex_e ex_d [] tt Hn He Hd (Forall_nil_2 _) ltac:(by vm_compute))
    as (rc & c & h & E & [[? _] | (_ & c' & -> & Hk)]).
  - destruct (succeeds_ok _ rc c h ex_private_init E). done.
  - rewrite E. exact Hk.
Qed.

Lemma ex_modulus : modulus_of 46 (product ex_factors).
Proof. rewrite <- ex_n_value, <- (length_be_repr 46 (product ex_factors)). apply number_modulus. exact (proj1 ex_numbers). Qed.

Lemma rsa_verify_exact_witness :
  exists rc context', @rsa_verify i386_pcbios rsa_digestinfo_prefixes ex_public "md5" 16 ex_value (be_repr 46 1) =
      Ok (rc, context') /\ rc <> inr 0.
Proof.
  assert (He : 0 < be_value ex_e) by (vm_compute; reflexivity).
  assert (Hw : Z.of_nat 46 < 2 ^ @word_bits i386_pcbios) by (vm_compute; reflexivity).
  pose proof (@rsa_verify_exact i386_pcbios ex_public 46 (product ex_factors) (be_value ex_e) "md5" 16
    [1; 2; 840; 113549; 2; 5] ex_value (be_repr 46 1) ex_public_key ex_modulus He ltac:(lia) Hw ex_hash
    (proj1 ex_digest_value) (proj1 (proj2 ex_digest_value)) (be_repr_bytes 46 1)) as (rc & c & E & _ & Hiff).
  exists rc, c. split; [exact E |]. intros (_ & _ & H)%Hiff. revert H. apply Z.eqb_neq. vm_compute. reflexivity.
Defined.

Lemma rsa_encrypt_decrypt_witness :
  exists ciphertext public' private' st',
    @rsa_encrypt i386_pcbios (list Z) replay_source zero_context zero_context (fun n => replicate n 0) 9 ex_public
      (replicate 35 7) (ones_state, (entropy_state0, counting)) = Done (46, ciphertext, public') (st', (entropy_state0, counting)) /\
    rsa_decrypt ex_private ciphertext = Ok (inr (replicate 35 7), private').
Proof.
  destruct (@rsa_encrypt_decrypt i386_pcbios (list Z) replay_source zero_context zero_context (fun n => replicate n 0)
    ex_factors (be_value ex_e) (be_value ex_d) 46 ex_public ex_private (replicate 35 7) 9 9 ones_state ones_working
    (entropy_state0, counting) zero_usable zero_usable ex_pair ex_modulus ltac:(vm_compute; reflexivity)
    ex_public_key ex_private_key ltac:(apply Forall_replicate; unfold in_range; lia) ltac:(vm_compute; lia)
    ones_refines ltac:(vm_compute; discriminate) ltac:(lia) ltac:(apply Nat.leb_le; vm_compute; reflexivity))
    as (ciphertext & public' & private' & st' & E & _ & Ed).
  exists ciphertext, public', private', st'. exact (conj E Ed).
Defined.

(** A key of two bytes. *)
Definition ex_short : rsa_context := ex_context (public_key [] [12; 161] [3]).

Lemma ex_short_init : succeeds (@rsa_init i386_pcbios unit small_blocks (public_key [] [12; 161] [3]) tt) = true.
Proof. vm_compute. reflexivity. Qed.

Lemma ex_short_key : rsa_key ex_short 2 3233 3.
Proof.
  assert (number [12; 161] /\ number [3]) as [Hn He]
    by (split; (split; [repeat constructor; unfold in_range; lia | cbn; lia])).
  unfold ex_short, ex_context.
  destruct (@init_public i386_pcbios unit small_blocks [] [12; 161] [3] tt Hn He (Forall_nil_2 _) ltac:(by vm_compute))
    as (rc & c & h & E & [[? _] | (_ & c' & -> & Hk)]).
  - destruct (succeeds_ok _ rc c h ex_short_init E). done.
  - rewrite E. exact Hk.
Qed.

Lemma rsa_short_modulus_witness :
  @rsa_sign i386_pcbios rsa_digestinfo_prefixes ex_short "md5" 16 ex_value = Trap /\
  @rsa_verify i386_pcbios rsa_digestinfo_prefixes ex_short "md5" 16 ex_value [0; 1] = Trap.
Proof.
  apply (@rsa_short_modulus i386_pcbios ex_short 2 3233 3 "md5" 16 [1; 2; 840; 113549; 2; 5]).
  - exact ex_short_key.
  - by vm_compute.
  - lia.
  - lia.
  - by vm_compute.
  - exact ex_hash.
  - reflexivity.
  - repeat constructor; unfold in_range; lia.
Defined.
